(** * wp-connect: the scraper pipeline orchestrator

    A shallow embedding of [dashboard/lib/scraper-service.ts] (class
    [ScraperService]) and the properties of its pipeline state machine,
    output fan-out, scheduler and statistics parsing.

    JavaScript runs every piece of code between two [await]s to completion
    before anything else touches the service.  An [async] method is therefore
    embedded as the sequence of its synchronous segments; each segment is a
    function in a state-and-exception monad over [World], and what arrives
    while a promise is pending (child-process output, calls from the HTTP
    layer, the reply of the database) is supplied by a script. *)

From Stdlib Require Import ZArith String Ascii List Bool Lia Sorted.
From Stdlib Require Import DecimalString DecimalPos.
Import ListNotations.
Open Scope string_scope.
Open Scope Z_scope.

(** ** Text *)

Module Text.

(** [Array.prototype.join('')]. *)
Definition join (parts : list string) : string :=
  fold_right append EmptyString parts.

(** [String.prototype.includes]. *)
Fixpoint includes (needle s : string) : bool :=
  if prefix needle s then true
  else match s with
       | EmptyString => false
       | String _ s' => includes needle s'
       end.

(** [String.prototype.repeat]. *)
Fixpoint repeat (s : string) (n : nat) : string :=
  match n with
  | O => EmptyString
  | S n' => s ++ repeat s n'
  end.

(** Template-literal interpolation of an integer. *)
Definition of_Z (z : Z) : string := NilZero.string_of_int (Z.to_int z).

(** The regular-expression class [\d]. *)
Definition is_digit (c : ascii) : bool :=
  ((48 <=? nat_of_ascii c) && (nat_of_ascii c <=? 57))%nat.

Definition digit_value (c : ascii) : Z := Z.of_nat (nat_of_ascii c) - 48.

(** [parseInt] on the capture of [(\d+)]: the decimal value of the leading
    run of digits.  JavaScript numbers are doubles; the value is the exact
    one for runs denoting less than 2^53. *)
Fixpoint parseInt_from (acc : Z) (s : string) : Z :=
  match s with
  | String c s' =>
      if is_digit c then parseInt_from (10 * acc + digit_value c) s' else acc
  | EmptyString => acc
  end.

Definition parseInt (s : string) : Z := parseInt_from 0 s.

(** The group [(\d+)] followed by the literal [post], matched at the head
    of [s]: greedy, the longest run first, then giving back one digit at a
    time.  The result is the text captured by the group. *)
Fixpoint digits_then (post s : string) : option string :=
  match s with
  | String c s' =>
      if is_digit c then
        match digits_then post s' with
        | Some cap => Some (String c cap)
        | None => if prefix post s' then Some (String c EmptyString) else None
        end
      else None
  | EmptyString => None
  end.

(** Removes the literal [pre] from the head of [s]. *)
Fixpoint strip (pre s : string) : option string :=
  match pre with
  | EmptyString => Some s
  | String a pre' =>
      match s with
      | String b s' => if Ascii.eqb a b then strip pre' s' else None
      | EmptyString => None
      end
  end.

(** A regular expression of the shape [/pre(\d+)post/] tried at the head
    of [s]. *)
Definition match_here (pre post s : string) : option string :=
  match strip pre s with
  | Some rest => digits_then post rest
  | None => None
  end.

(** [s.match(/pre(\d+)post/)], element [1] of the result: the leftmost
    position where the expression matches wins; [None] is JavaScript's
    [null]. *)
Fixpoint regex_match (pre post s : string) : option string :=
  match match_here pre post s with
  | Some cap => Some cap
  | None =>
      match s with
      | EmptyString => None
      | String _ s' => regex_match pre post s'
      end
  end.

(** [/(\d+) seller\(s\)/] and [/Saved (\d+) products/]. *)
Definition sellers_regex (s : string) : option string :=
  regex_match EmptyString " seller(s)" s.

Definition products_regex (s : string) : option string :=
  regex_match "Saved " " products" s.

(** All characters are decimal digits. *)
Fixpoint all_digits (s : string) : bool :=
  match s with
  | EmptyString => true
  | String c s' => is_digit c && all_digits s'
  end.

End Text.

(** ** Data model *)

(** [type ScraperStatus]. *)
Module Status.
Inductive t :=
| RUNNING | COMPLETED | FAILED | AUTH_REQUIRED
| ENRICHING | PROCESSING | ENRICHMENT_FAILED | PROCESSING_FAILED.

(** The string the TypeScript literal type stands for. *)
Definition to_string (s : t) : string :=
  match s with
  | RUNNING => "RUNNING" | COMPLETED => "COMPLETED" | FAILED => "FAILED"
  | AUTH_REQUIRED => "AUTH_REQUIRED" | ENRICHING => "ENRICHING"
  | PROCESSING => "PROCESSING" | ENRICHMENT_FAILED => "ENRICHMENT_FAILED"
  | PROCESSING_FAILED => "PROCESSING_FAILED"
  end.

(** The statuses of a run that is still under way. *)
Definition non_terminal (s : t) : bool :=
  match s with
  | RUNNING | ENRICHING | PROCESSING => true
  | _ => false
  end.
End Status.

(** [type PipelineStep]. *)
Module Step.
Inductive t := IDLE | SCRAPING | ENRICHING | PROCESSING.

Definition to_string (s : t) : string :=
  match s with
  | IDLE => "IDLE" | SCRAPING => "SCRAPING"
  | ENRICHING => "ENRICHING" | PROCESSING => "PROCESSING"
  end.

Definition eqb (a b : t) : bool :=
  match a, b with
  | IDLE, IDLE | SCRAPING, SCRAPING
  | ENRICHING, ENRICHING | PROCESSING, PROCESSING => true
  | _, _ => false
  end.
End Step.

(** [type TriggerType]. *)
Inductive TriggerType := MANUAL | SCHEDULED.

(** The [type] field of [interface ScraperOutput]. *)
Module Kind.
Inductive t := stdout | stderr | status | complete.

Definition eqb (a b : t) : bool :=
  match a, b with
  | stdout, stdout | stderr, stderr | status, status
  | complete, complete => true
  | _, _ => false
  end.
End Kind.

(** [interface ScraperOutput]; a [Date] is a number of milliseconds. *)
Record ScraperOutput := {
  type : Kind.t;
  data : string;
  timestamp : Z
}.

(** What a [throw] carries: an [Error] with its message, or any other
    value. *)
Inductive Thrown :=
| ErrorObject (message : string)
| NonError.

(** [type OutputCallback].  A callback is known by its identity ([cb_id],
    what the [Set] compares) and by what a call of it does: return ([None])
    or throw.  A callback of this type does not call the service back while
    it runs; [Live] below has the callbacks that subscribe and unsubscribe
    during an event. *)
Record OutputCallback := {
  cb_id : nat;
  cb_body : ScraperOutput -> option Thrown
}.

(** Modelled from the spec: the row type of [prisma.scraperRun], whose
    schema is not part of the sources (section 3, Run).  A new row has
    [startedAt] set to the time of creation, no [completedAt], [output] or
    [errorMessage], and both counters at 0. *)
Record ScraperRun := {
  id : Z;
  status : Status.t;
  triggerType : TriggerType;
  startedAt : Z;
  completedAt : option Z;
  output : option string;
  errorMessage : option string;
  sellersProcessed : Z;
  productsScraped : Z
}.

(** Modelled from the spec: the singleton row of [prisma.schedulerConfig]
    (section 3, SchedulerConfig); its key is always [1]. *)
Record SchedulerConfig := {
  enabled : bool;
  cronExpr : string
}.

(** A [cron.ScheduledTask] of node-cron: its expression and whether it is
    still scheduled ([stop()] clears the flag). *)
Record CronTask := {
  expression : string;
  scheduled : bool
}.

(** The arguments of a [spawn]. *)
Record Command := {
  command : string;
  args : list string;
  cwd : string
}.

(** What [runCommand] resolves with. *)
Module Result.
Record t := { code : Z; output : string }.
End Result.

(** The fields of [class ScraperService].  [listeners] is a [Set]: no
    duplicates, iterated in insertion order.  [scheduledTask] refers to a
    task of the host by its index. *)
Record Service := {
  currentRunId : option Z;
  outputBuffer : list string;
  listeners : list OutputCallback;
  scheduledTask : option nat;
  pipelineStep : Step.t;
  abortRequested : bool
}.

(** The two tables behind [prisma]; [nextId] is the auto-increment
    counter of [scraperRun]. *)
Record Prisma := {
  scraperRun : list ScraperRun;
  nextId : Z;
  schedulerConfig : option SchedulerConfig
}.

(** The rest of the process: the clock read by [new Date()], the value of
    [path.resolve(process.cwd(), '../gpt')], the tasks of node-cron, and
    three records kept for observation only: the child processes spawned,
    the events handed to [broadcast], and the callback invocations made. *)
Record Host := {
  clock : Z;
  gptPath : string;
  cronTasks : list CronTask;
  spawned : list Command;
  published : list ScraperOutput;
  delivered : list (nat * ScraperOutput)
}.

Record World := {
  svc : Service;
  db : Prisma;
  host : Host
}.

(** *** Field updates *)

Definition set_currentRunId (v : option Z) (s : Service) : Service :=
  {| currentRunId := v; outputBuffer := outputBuffer s;
     listeners := listeners s; scheduledTask := scheduledTask s;
     pipelineStep := pipelineStep s; abortRequested := abortRequested s |}.

Definition set_outputBuffer (v : list string) (s : Service) : Service :=
  {| currentRunId := currentRunId s; outputBuffer := v;
     listeners := listeners s; scheduledTask := scheduledTask s;
     pipelineStep := pipelineStep s; abortRequested := abortRequested s |}.

Definition set_listeners (v : list OutputCallback) (s : Service) : Service :=
  {| currentRunId := currentRunId s; outputBuffer := outputBuffer s;
     listeners := v; scheduledTask := scheduledTask s;
     pipelineStep := pipelineStep s; abortRequested := abortRequested s |}.

Definition set_scheduledTask (v : option nat) (s : Service) : Service :=
  {| currentRunId := currentRunId s; outputBuffer := outputBuffer s;
     listeners := listeners s; scheduledTask := v;
     pipelineStep := pipelineStep s; abortRequested := abortRequested s |}.

Definition set_pipelineStep (v : Step.t) (s : Service) : Service :=
  {| currentRunId := currentRunId s; outputBuffer := outputBuffer s;
     listeners := listeners s; scheduledTask := scheduledTask s;
     pipelineStep := v; abortRequested := abortRequested s |}.

Definition set_abortRequested (v : bool) (s : Service) : Service :=
  {| currentRunId := currentRunId s; outputBuffer := outputBuffer s;
     listeners := listeners s; scheduledTask := scheduledTask s;
     pipelineStep := pipelineStep s; abortRequested := v |}.

Definition set_scraperRun (v : list ScraperRun) (d : Prisma) : Prisma :=
  {| scraperRun := v; nextId := nextId d;
     schedulerConfig := schedulerConfig d |}.

Definition set_schedulerConfig (v : option SchedulerConfig) (d : Prisma)
  : Prisma :=
  {| scraperRun := scraperRun d; nextId := nextId d; schedulerConfig := v |}.

Definition set_clock (v : Z) (h : Host) : Host :=
  {| clock := v; gptPath := gptPath h; cronTasks := cronTasks h;
     spawned := spawned h; published := published h;
     delivered := delivered h |}.

Definition set_cronTasks (v : list CronTask) (h : Host) : Host :=
  {| clock := clock h; gptPath := gptPath h; cronTasks := v;
     spawned := spawned h; published := published h;
     delivered := delivered h |}.

Definition set_spawned (v : list Command) (h : Host) : Host :=
  {| clock := clock h; gptPath := gptPath h; cronTasks := cronTasks h;
     spawned := v; published := published h; delivered := delivered h |}.

Definition set_published (v : list ScraperOutput) (h : Host) : Host :=
  {| clock := clock h; gptPath := gptPath h; cronTasks := cronTasks h;
     spawned := spawned h; published := v; delivered := delivered h |}.

Definition set_delivered (v : list (nat * ScraperOutput)) (h : Host) : Host :=
  {| clock := clock h; gptPath := gptPath h; cronTasks := cronTasks h;
     spawned := spawned h; published := published h; delivered := v |}.

Definition on_svc (f : Service -> Service) (w : World) : World :=
  {| svc := f (svc w); db := db w; host := host w |}.

Definition on_db (f : Prisma -> Prisma) (w : World) : World :=
  {| svc := svc w; db := f (db w); host := host w |}.

Definition on_host (f : Host -> Host) (w : World) : World :=
  {| svc := svc w; db := db w; host := f (host w) |}.

(** ** Computations: state and exceptions *)

Inductive Completion (A : Type) :=
| Normal (a : A)
| Throw (e : Thrown).
Arguments Normal {A} a.
Arguments Throw {A} e.

Definition M (A : Type) : Type := World -> Completion A * World.

Definition ret {A} (a : A) : M A := fun w => (Normal a, w).

Definition bind {A B} (m : M A) (k : A -> M B) : M B :=
  fun w =>
    match m w with
    | (Normal a, w') => k a w'
    | (Throw e, w') => (Throw e, w')
    end.

Definition throw {A} (e : Thrown) : M A := fun w => (Throw e, w).

Definition gets {A} (f : World -> A) : M A := fun w => (Normal (f w), w).

Definition modify (f : World -> World) : M unit := fun w => (Normal tt, f w).

Notation "x <- m ;; k" := (bind m (fun x => k))
  (at level 61, m at next level, right associativity).
Notation "m ;; k" := (bind m (fun _ => k))
  (at level 61, right associativity).

(** The world a computation leaves behind, whatever its completion: the
    view of a caller that does not look at the outcome, such as the event
    loop running a handler. *)
Definition effect {A} (m : M A) (w : World) : World := snd (m w).

(** [new Date()]. *)
Definition now : M Z := gets (fun w => clock (host w)).

(** [error instanceof Error ? error.message : 'Unknown error']. *)
Definition message_of (e : Thrown) : string :=
  match e with
  | ErrorObject m => m
  | NonError => "Unknown error"
  end.

(** ** The persistence interface *)

(** How a pending call of [prisma] settles: the store carries it out, or
    the call is rejected (the store cannot be reached, for one). *)
Inductive DbReply :=
| Resolves
| Rejects (e : Thrown).

Definition has_run (runId : Z) (d : Prisma) : bool :=
  existsb (fun r => id r =? runId) (scraperRun d).

Definition find_run (runId : Z) (d : Prisma) : option ScraperRun :=
  find (fun r => id r =? runId) (scraperRun d).

(** [prisma.scraperRun.create({ data: { status: 'RUNNING', triggerType } })]. *)
Definition scraperRun_create (trig : TriggerType) (reply : DbReply)
  : M ScraperRun :=
  match reply with
  | Rejects e => throw e
  | Resolves =>
      t <- now ;;
      n <- gets (fun w => nextId (db w)) ;;
      let run := {| id := n; status := Status.RUNNING; triggerType := trig;
                    startedAt := t; completedAt := None; output := None;
                    errorMessage := None; sellersProcessed := 0;
                    productsScraped := 0 |} in
      modify (on_db (fun d =>
        {| scraperRun := scraperRun d ++ [run]; nextId := n + 1;
           schedulerConfig := schedulerConfig d |})) ;;
      ret run
  end.

(** [prisma.scraperRun.update({ where: { id: runId }, data })]: [change] is
    the effect of [data] on the row.  Prisma rejects an update of a row
    that does not exist. *)
Definition scraperRun_update (runId : Z) (change : ScraperRun -> ScraperRun)
  (reply : DbReply) : M unit :=
  match reply with
  | Rejects e => throw e
  | Resolves =>
      present <- gets (fun w => has_run runId (db w)) ;;
      if present then
        modify (on_db (fun d => set_scraperRun
          (map (fun r => if id r =? runId then change r else r)
               (scraperRun d)) d))
      else throw (ErrorObject "Record to update not found.")
  end.

(** [data: { status }]. *)
Definition data_status (s : Status.t) (r : ScraperRun) : ScraperRun :=
  {| id := id r; status := s; triggerType := triggerType r;
     startedAt := startedAt r; completedAt := completedAt r;
     output := output r; errorMessage := errorMessage r;
     sellersProcessed := sellersProcessed r;
     productsScraped := productsScraped r |}.

(** The [data] of the update made by the [finally] block. *)
Record FinalData := {
  fd_status : Status.t;
  fd_completedAt : Z;
  fd_output : string;
  fd_errorMessage : option string;
  fd_sellersProcessed : Z;
  fd_productsScraped : Z
}.

Definition data_final (fd : FinalData) (r : ScraperRun) : ScraperRun :=
  {| id := id r; status := fd_status fd; triggerType := triggerType r;
     startedAt := startedAt r; completedAt := Some (fd_completedAt fd);
     output := Some (fd_output fd); errorMessage := fd_errorMessage fd;
     sellersProcessed := fd_sellersProcessed fd;
     productsScraped := fd_productsScraped fd |}.

(** [prisma.schedulerConfig.upsert({ where: { id: 1 }, update, create })]. *)
Definition schedulerConfig_upsert (c : SchedulerConfig) (reply : DbReply)
  : M unit :=
  match reply with
  | Rejects e => throw e
  | Resolves => modify (on_db (set_schedulerConfig (Some c)))
  end.

(** ** ScraperService: observers and the subscriber set (lines 26-45) *)

Definition isRunning (w : World) : bool :=
  negb (Step.eqb (pipelineStep (svc w)) Step.IDLE).

Definition getCurrentStep (w : World) : Step.t := pipelineStep (svc w).

Definition getCurrentRunId (w : World) : option Z := currentRunId (svc w).

Definition has_listener (i : nat) (cbs : list OutputCallback) : bool :=
  existsb (fun cb => Nat.eqb (cb_id cb) i) cbs.

(** [Set.prototype.add]: a member is not added again and keeps its place. *)
Definition set_add (cb : OutputCallback) (cbs : list OutputCallback)
  : list OutputCallback :=
  if has_listener (cb_id cb) cbs then cbs else cbs ++ [cb].

(** [Set.prototype.delete]. *)
Definition set_delete (i : nat) (cbs : list OutputCallback)
  : list OutputCallback :=
  filter (fun cb => negb (Nat.eqb (cb_id cb) i)) cbs.

(** [subscribe(callback)]; the function it returns is [unsubscribe] at the
    identity of the callback. *)
Definition subscribe (callback : OutputCallback) (w : World) : World :=
  on_svc (fun s => set_listeners (set_add callback (listeners s)) s) w.

Definition unsubscribe (i : nat) (w : World) : World :=
  on_svc (fun s => set_listeners (set_delete i (listeners s)) s) w.

(** [this.listeners.forEach((cb) => cb(output))]: the callbacks are called
    in order; the first one that throws ends the iteration, and its
    exception leaves [forEach].  The set stays as it is during the
    iteration, since these callbacks leave it alone ([Live.forEach] has the
    iteration over a set that changes meanwhile, and agrees with this one
    where it does not). *)
Fixpoint forEach (cbs : list OutputCallback) (output : ScraperOutput)
  : M unit :=
  match cbs with
  | [] => ret tt
  | cb :: rest =>
      modify (on_host (fun h =>
        set_delivered (delivered h ++ [(cb_id cb, output)]) h)) ;;
      match cb_body cb output with
      | Some e => throw e
      | None => forEach rest output
      end
  end.

(** [broadcast(output)]. *)
Definition broadcast (output : ScraperOutput) : M unit :=
  modify (on_host (fun h => set_published (published h ++ [output]) h)) ;;
  cbs <- gets (fun w => listeners (svc w)) ;;
  forEach cbs output.

(** [this.broadcast({ type, data, timestamp: new Date() })]. *)
Definition broadcast_now (k : Kind.t) (text : string) : M unit :=
  t <- now ;;
  broadcast {| type := k; data := text; timestamp := t |}.

(** ** stopScraper (lines 254-265) *)

Definition nl : string := String (ascii_of_nat 10) EmptyString.

Definition abort_warning : string :=
  nl ++ "⚠️ Abort requested. Pipeline will stop after current step completes."
     ++ nl.

Definition stopScraper : M bool :=
  running <- gets isRunning ;;
  if running then
    modify (on_svc (set_abortRequested true)) ;;
    broadcast_now Kind.status abort_warning ;;
    ret true
  else ret false.

(** ** Calls that arrive while the pipeline awaits *)

(** A call made to the service from outside while an execution awaits:
    [stopScraper], [subscribe], a function that [subscribe] returned, or
    time passing.  The segments of another start and of another execution
    are not calls: they are turns of the event loop ([Event] below). *)
Inductive Call :=
| CallStop
| CallSubscribe (callback : OutputCallback)
| CallUnsubscribe (i : nat)
| Elapse (dt : N).

(** The caller gets the outcome of the call; the service keeps the
    effect. *)
Definition call (c : Call) (w : World) : World :=
  match c with
  | CallStop => effect stopScraper w
  | CallSubscribe cb => subscribe cb w
  | CallUnsubscribe i => unsubscribe i w
  | Elapse dt => on_host (fun h => set_clock (clock h + Z.of_N dt) h) w
  end.

Definition calls (cs : list Call) (w : World) : World :=
  fold_left (fun w c => call c w) cs w.

(** ** runCommand (lines 51-100) *)

(** The three commands of the pipeline, all [npm] scripts run in the
    scraper directory. *)
Inductive Stage := Scrape | Enrich | Process.

Definition stage_args (st : Stage) : list string :=
  match st with
  | Scrape => ["start"]
  | Enrich => ["run"; "enrich"]
  | Process => ["run"; "processor"]
  end.

Definition stage_command (st : Stage) (scraperPath : string) : Command :=
  {| command := "npm"; args := stage_args st; cwd := scraperPath |}.

(** The executor of the promise: [spawn(command, args, { cwd, ... })]. *)
Definition runCommand_spawn (c : Command) : M unit :=
  modify (on_host (fun h => set_spawned (spawned h ++ [c]) h)).

(** What a chunk of standard error is stored as. *)
Definition error_line (text : string) : string := "[ERROR] " ++ text.

(** The ['data'] handler of [childProcess.stdout], less its push on the
    local [commandOutput]. *)
Definition onStdout (text : string) : M unit :=
  modify (on_svc (fun s => set_outputBuffer (outputBuffer s ++ [text]) s)) ;;
  broadcast_now Kind.stdout text.

(** The ['data'] handler of [childProcess.stderr], likewise. *)
Definition onStderr (text : string) : M unit :=
  modify (on_svc (fun s =>
    set_outputBuffer (outputBuffer s ++ [error_line text]) s)) ;;
  broadcast_now Kind.stderr text.

(** What happens while the child runs: a chunk on one of its streams, or
    a call made to the service by someone else. *)
Inductive ChildEvent :=
| Stdout (text : string)
| Stderr (text : string)
| Meanwhile (c : Call).

(** How the child ends: ['close'] with its exit code ([None] for [null],
    the child was killed by a signal), or ['error'], it could not be
    started. *)
Inductive ChildEnd :=
| Close (exitCode : option Z)
| Error (message : string).

Record ChildTrace := {
  events : list ChildEvent;
  ending : ChildEnd
}.

(** One event, on the local [commandOutput] and the world.  A handler is
    run by the event loop: an exception of a subscriber leaves the handler
    after its pushes and never reaches the pipeline. *)
Definition child_event (ev : ChildEvent) (st : list string * World)
  : list string * World :=
  let (commandOutput, w) := st in
  match ev with
  | Stdout text => ((commandOutput ++ [text])%list, effect (onStdout text) w)
  | Stderr text =>
      ((commandOutput ++ [error_line text])%list,
       effect (onStderr text) w)
  | Meanwhile c => (commandOutput, call c w)
  end.

Definition child_events (evs : list ChildEvent) (st : list string * World)
  : list string * World :=
  fold_left (fun st ev => child_event ev st) evs st.

(** The ['close'] and ['error'] handlers: the result the promise is
    resolved with.  In the ['error'] handler [resolve] comes after a
    [broadcast]; when a subscriber throws there, the promise is left
    pending ([None]). *)
Definition child_end (e : ChildEnd) (commandOutput : list string)
  (w : World) : option Result.t * World :=
  match e with
  | Close exitCode =>
      (Some {| Result.code := match exitCode with Some c => c | None => 1 end;
               Result.output := Text.join commandOutput |}, w)
  | Error message =>
      match broadcast_now Kind.stderr ("Process error: " ++ message) w with
      | (Normal _, w') =>
          (Some {| Result.code := 1;
                   Result.output := Text.join commandOutput |}, w')
      | (Throw _, w') => (None, w')
      end
  end.

(** ** runFullPipeline (lines 130-252) *)

(** Where an execution of [runFullPipeline] stands between two of its
    segments, with the locals the next segment reads. *)
Inductive Awaiting :=
| AwaitCommand (st : Stage) (commandOutput : list string)
    (** [await this.runCommand(...)], the child of stage [st] running *)
| AwaitStatusUpdate (st : Stage)
    (** [await prisma.scraperRun.update(...)] ahead of stage [st], which is
        stage 2 or stage 3 *)
| AwaitFinalUpdate (fd : FinalData)
    (** [await prisma.scraperRun.update(...)] of the [finally] block *)
| Stalled
    (** awaiting a promise that nothing will settle *)
| Settled (c : Completion unit)
    (** the promise of [runFullPipeline] is fulfilled or rejected *).

(** How a segment inside [try] ends: at the next [await], or by leaving
    the block ([return], or its last statement) with the two locals
    [finalStatus] and [errorMessage]. *)
Inductive TryExit :=
| Suspend (a : Awaiting)
| Leave (finalStatus : Status.t) (errorMessage : option string).

Definition rule : string := Text.repeat "=" 50.

Definition banner (text : string) : string :=
  nl ++ rule ++ nl ++ text ++ nl ++ rule ++ nl.

(** The [data] the [finally] block computes for its update: the
    statistics are read from the joined buffer. *)
Definition final_data (finalStatus : Status.t)
  (errorMessage : option string) (w : World) : FinalData :=
  let fullOutput := Text.join (outputBuffer (svc w)) in
  let sellersMatch := Text.sellers_regex fullOutput in
  let productsMatch := Text.products_regex fullOutput in
  {| fd_status := finalStatus;
     fd_completedAt := clock (host w);
     fd_output := fullOutput;
     fd_errorMessage := errorMessage;
     fd_sellersProcessed :=
       match sellersMatch with
       | Some cap => Text.parseInt cap
       | None => 0
       end;
     fd_productsScraped :=
       match productsMatch with
       | Some cap => Text.parseInt cap
       | None => 0
       end |}.

(** The [finally] block up to its [await]: the update is issued. *)
Definition finally_enter (finalStatus : Status.t)
  (errorMessage : option string) (w : World) : Awaiting * World :=
  (AwaitFinalUpdate (final_data finalStatus errorMessage w), w).

(** A segment of the [try] block, with [catch] and the entry of
    [finally]. *)
Definition try_segment (body : M TryExit) (w : World) : Awaiting * World :=
  match body w with
  | (Normal (Suspend a), w') => (a, w')
  | (Normal (Leave finalStatus errorMessage), w') =>
      finally_enter finalStatus errorMessage w'
  | (Throw error, w') =>
      finally_enter Status.FAILED (Some (message_of error)) w'
  end.

(** From the call of [runFullPipeline(runId, scraperPath)] to the first
    [await]. *)
Definition pipeline_enter (runId : Z) (scraperPath : string)
  : World -> Awaiting * World :=
  try_segment (
    modify (on_svc (set_pipelineStep Step.SCRAPING)) ;;
    broadcast_now Kind.status
      (banner ("[STEP 1/3] Starting scraper (Run #" ++ Text.of_Z runId
               ++ ")...")) ;;
    runCommand_spawn (stage_command Scrape scraperPath) ;;
    ret (Suspend (AwaitCommand Scrape []))).

(** The check made on the output of the scraper:
    [output.includes('scan QR code') || output.includes('QR code')]. *)
Definition auth_required (output0 : string) : bool :=
  Text.includes "scan QR code" output0 || Text.includes "QR code" output0.

Definition aborted : TryExit :=
  Leave Status.FAILED (Some "Pipeline aborted by user").

(** The segment that follows [await this.runCommand(...)] of stage [st],
    resumed with the result of the command. *)
Definition after_command (st : Stage) (r : Result.t)
  : World -> Awaiting * World :=
  try_segment (
    match st with
    | Scrape =>
        if auth_required (Result.output r)
        then ret (Leave Status.AUTH_REQUIRED
                    (Some "WhatsApp authentication required"))
        else if negb (Result.code r =? 0)
        then ret (Leave Status.FAILED
                    (Some ("Scraping failed with exit code "
                           ++ Text.of_Z (Result.code r))))
        else
          abort <- gets (fun w => abortRequested (svc w)) ;;
          if abort then ret aborted
          else
            modify (on_svc (set_pipelineStep Step.ENRICHING)) ;;
            broadcast_now Kind.status
              (banner "[STEP 2/3] Starting LLM enrichment...") ;;
            ret (Suspend (AwaitStatusUpdate Enrich))
    | Enrich =>
        if negb (Result.code r =? 0)
        then ret (Leave Status.ENRICHMENT_FAILED
                    (Some ("Enrichment failed with exit code "
                           ++ Text.of_Z (Result.code r))))
        else
          abort <- gets (fun w => abortRequested (svc w)) ;;
          if abort then ret aborted
          else
            modify (on_svc (set_pipelineStep Step.PROCESSING)) ;;
            broadcast_now Kind.status
              (banner "[STEP 3/3] Updating database...") ;;
            ret (Suspend (AwaitStatusUpdate Process))
    | Process =>
        if negb (Result.code r =? 0)
        then ret (Leave Status.PROCESSING_FAILED
                    (Some ("Database processing failed with exit code "
                           ++ Text.of_Z (Result.code r))))
        else ret (Leave Status.COMPLETED None)
    end).

(** The status of a run in stage [st]; the pipeline writes it ahead of
    stages 2 and 3, and a new row has that of stage 1. *)
Definition stage_status (st : Stage) : Status.t :=
  match st with
  | Scrape => Status.RUNNING
  | Enrich => Status.ENRICHING
  | Process => Status.PROCESSING
  end.

(** The segment that follows the [await] of the status update ahead of
    stage [st]: the command of the stage is started. *)
Definition after_status_update (runId : Z) (scraperPath : string)
  (st : Stage) (reply : DbReply) : World -> Awaiting * World :=
  try_segment (
    scraperRun_update runId (data_status (stage_status st)) reply ;;
    runCommand_spawn (stage_command st scraperPath) ;;
    ret (Suspend (AwaitCommand st []))).

(** The rest of the [finally] block, after its [await]. *)
Definition finally_rest (runId : Z) (fd : FinalData) (reply : DbReply)
  : M unit :=
  scraperRun_update runId (data_final fd) reply ;;
  broadcast_now Kind.status
    (banner ("Pipeline finished with status: "
             ++ Status.to_string (fd_status fd))) ;;
  broadcast_now Kind.complete (Status.to_string (fd_status fd)) ;;
  modify (on_svc (set_pipelineStep Step.IDLE)) ;;
  modify (on_svc (set_currentRunId None)) ;;
  modify (on_svc (set_abortRequested false)).

Definition after_final_update (runId : Z) (fd : FinalData) (reply : DbReply)
  (w : World) : Awaiting * World :=
  let (c, w') := finally_rest runId fd reply w in (Settled c, w').

(** *** One run, driven by a script *)

(** What the environment does at each [await] of one execution: the trace
    of the three children, and for each update the calls that arrive while
    it is pending and its reply. *)
Record Script := {
  scrape_trace : ChildTrace;
  enrich_update : list Call * DbReply;
  enrich_trace : ChildTrace;
  process_update : list Call * DbReply;
  process_trace : ChildTrace;
  final_update : list Call * DbReply
}.

Definition trace_of (sc : Script) (st : Stage) : ChildTrace :=
  match st with
  | Scrape => scrape_trace sc
  | Enrich => enrich_trace sc
  | Process => process_trace sc
  end.

(** The update ahead of stage [st]; there is none ahead of stage 1. *)
Definition update_of (sc : Script) (st : Stage) : list Call * DbReply :=
  match st with
  | Scrape => ([], Resolves)
  | Enrich => enrich_update sc
  | Process => process_update sc
  end.

(** The child of stage [st] lives through its trace; the pipeline resumes
    when [runCommand] resolves. *)
Definition feed_command (st : Stage) (commandOutput : list string)
  (tr : ChildTrace) (w : World) : Awaiting * World :=
  let (commandOutput', w1) := child_events (events tr) (commandOutput, w) in
  match child_end (ending tr) commandOutput' w1 with
  | (Some r, w2) => after_command st r w2
  | (None, w2) => (Stalled, w2)
  end.

(** From one [await] to the next. *)
Definition advance (runId : Z) (scraperPath : string) (sc : Script)
  (p : Awaiting * World) : Awaiting * World :=
  let (a, w) := p in
  match a with
  | AwaitCommand st commandOutput =>
      feed_command st commandOutput (trace_of sc st) w
  | AwaitStatusUpdate st =>
      after_status_update runId scraperPath st (snd (update_of sc st))
        (calls (fst (update_of sc st)) w)
  | AwaitFinalUpdate fd =>
      after_final_update runId fd (snd (final_update sc))
        (calls (fst (final_update sc)) w)
  | Stalled => (Stalled, w)
  | Settled c => (Settled c, w)
  end.

(** An execution passes at most six [await]s. *)
Definition drive (runId : Z) (scraperPath : string) (sc : Script)
  (p : Awaiting * World) : Awaiting * World :=
  Nat.iter 6 (advance runId scraperPath sc) p.

(** [runFullPipeline(runId, scraperPath)] against the script [sc]. *)
Definition runFullPipeline (runId : Z) (scraperPath : string) (sc : Script)
  (w : World) : Awaiting * World :=
  drive runId scraperPath sc (pipeline_enter runId scraperPath w).

(** ** startScraper (lines 102-125) *)

(** [{ runId, error? }]. *)
Record StartReturn := {
  runId : Z;
  error : option string
}.

(** An execution of [runFullPipeline] between two segments. *)
Record Task := {
  task_runId : Z;
  task_scraperPath : string;
  task_at : Awaiting
}.

(** From the call to the [await] of [prisma.scraperRun.create]: the guard.
    [Some] is the value returned at once; [None] means the call is now
    suspended on the creation of the run. *)
Definition startScraper_enter (w : World) : option StartReturn :=
  if isRunning w then
    Some {| runId := -1;
            error := Some ("Pipeline is already running (step: "
                           ++ Step.to_string (pipelineStep (svc w)) ++ ")") |}
  else None.

(** From the settlement of the creation to the return.  The call of
    [runFullPipeline] is not awaited: it runs to its first [await] and
    leaves a task behind. *)
Definition startScraper_resume (trig : TriggerType) (reply : DbReply)
  (w : World) : Completion StartReturn * option Task * World :=
  match scraperRun_create trig reply w with
  | (Throw e, w') => (Throw e, None, w')
  | (Normal run, w1) =>
      let w2 := on_svc (fun s =>
        set_abortRequested false
          (set_outputBuffer [] (set_currentRunId (Some (id run)) s))) w1 in
      let scraperPath := gptPath (host w2) in
      let (a, w3) := pipeline_enter (id run) scraperPath w2 in
      (Normal {| runId := id run; error := None |},
       Some {| task_runId := id run; task_scraperPath := scraperPath;
               task_at := a |},
       w3)
  end.

(** ** The scheduler (lines 267-338) and the service as a whole *)

Definition default_cronExpr : string := "0 9,21 * * *".

(** [task.stop()]. *)
Definition stopped (t : CronTask) : CronTask :=
  {| expression := expression t; scheduled := false |}.

Fixpoint stop_nth (j : nat) (ts : list CronTask) : list CronTask :=
  match ts, j with
  | [], _ => []
  | t :: ts', O => stopped t :: ts'
  | t :: ts', S j' => t :: stop_nth j' ts'
  end.

Definition stop_task (j : nat) (h : Host) : Host :=
  set_cronTasks (stop_nth j (cronTasks h)) h.

Section Service.

(** [cron.validate] of node-cron. *)
Variable validate : string -> bool.

(** [startScheduler(cronExpr)]. *)
Definition startScheduler (cronExpr : string) (w : World) : World :=
  let w1 := match scheduledTask (svc w) with
            | Some j => on_host (stop_task j) w
            | None => w
            end in
  if negb (validate cronExpr) then w1
  else
    let j := List.length (cronTasks (host w1)) in
    on_svc (set_scheduledTask (Some j))
      (on_host (fun h =>
         set_cronTasks
           (cronTasks h ++ [{| expression := cronExpr; scheduled := true |}])
           h) w1).

(** [stopScheduler()]. *)
Definition stopScheduler (w : World) : World :=
  match scheduledTask (svc w) with
  | Some j => on_svc (set_scheduledTask None) (on_host (stop_task j) w)
  | None => w
  end.

(** [updateSchedulerConfig(enabled, cronExpr)], given the reply to its
    [upsert]. *)
Definition updateSchedulerConfig (enabled0 : bool) (cronExpr0 : string)
  (reply : DbReply) : M unit :=
  schedulerConfig_upsert {| enabled := enabled0; cronExpr := cronExpr0 |}
    reply ;;
  if enabled0 && validate cronExpr0
  then modify (startScheduler cronExpr0)
  else modify stopScheduler.

(** [initScheduler()], given the replies to [findUnique] and to
    [create]; every exception is caught and logged. *)
Definition initScheduler (found created : DbReply) (w : World) : World :=
  match found with
  | Rejects _ => w
  | Resolves =>
      match schedulerConfig (db w) with
      | Some config =>
          if enabled config && validate (cronExpr config)
          then startScheduler (cronExpr config) w
          else w
      | None =>
          match created with
          | Rejects _ => w
          | Resolves =>
              on_db (set_schedulerConfig
                (Some {| enabled := false; cronExpr := default_cronExpr |})) w
          end
      end
  end.

(** [getSchedulerConfig()]. *)
Definition getSchedulerConfig (reply : DbReply) (w : World)
  : SchedulerConfig :=
  let fallback := {| enabled := false; cronExpr := default_cronExpr |} in
  match reply with
  | Rejects _ => fallback
  | Resolves =>
      match schedulerConfig (db w) with
      | Some config => config
      | None => fallback
      end
  end.

(** The service with everything that is under way: the calls of
    [startScraper] suspended on the creation of their run, and the
    executions of [runFullPipeline]. *)
Record System := {
  world : World;
  starting : list TriggerType;
  pipelines : list Task
}.

(** What the event loop may run next. *)
Inductive Event :=
| StartRequest (trig : TriggerType)
    (** a call of [startScraper] *)
| CreateSettles (k : nat) (reply : DbReply)
    (** the creation awaited by the [k]-th suspended start settles *)
| ChildEmits (k : nat) (ev : ChildEvent)
    (** the child of the [k]-th pipeline writes to a stream *)
| ChildEnds (k : nat) (e : ChildEnd)
    (** the child of the [k]-th pipeline ends *)
| UpdateSettles (k : nat) (reply : DbReply)
    (** the update awaited by the [k]-th pipeline settles *)
| Request (c : Call)
    (** any other call made to the service *)
| CronFires (j : nat)
    (** the [j]-th task of node-cron fires *)
| Configure (enabled0 : bool) (cronExpr0 : string) (reply : DbReply)
    (** a call of [updateSchedulerConfig] and the reply to its upsert *).

Fixpoint replace_nth {A} (k : nat) (x : A) (l : list A) : list A :=
  match l, k with
  | [], _ => []
  | _ :: l', O => x :: l'
  | y :: l', S k' => y :: replace_nth k' x l'
  end.

Fixpoint remove_nth {A} (k : nat) (l : list A) : list A :=
  match l, k with
  | [], _ => []
  | _ :: l', O => l'
  | y :: l', S k' => y :: remove_nth k' l'
  end.

Definition with_world (w : World) (s : System) : System :=
  {| world := w; starting := starting s; pipelines := pipelines s |}.

Definition start_request (trig : TriggerType) (s : System) : System :=
  match startScraper_enter (world s) with
  | Some _ => s
  | None =>
      {| world := world s; starting := starting s ++ [trig];
         pipelines := pipelines s |}
  end.

Definition resume_task (k : nat) (t : Task) (p : Awaiting * World)
  (s : System) : System :=
  {| world := snd p; starting := starting s;
     pipelines := replace_nth k
       {| task_runId := task_runId t;
          task_scraperPath := task_scraperPath t;
          task_at := fst p |} (pipelines s) |}.

(** One turn of the event loop.  An event that nothing awaits is
    dropped. *)
Definition step (ev : Event) (s : System) : System :=
  match ev with
  | StartRequest trig => start_request trig s
  | CreateSettles k reply =>
      match nth_error (starting s) k with
      | Some trig =>
          match startScraper_resume trig reply (world s) with
          | (_, Some t, w') =>
              {| world := w'; starting := remove_nth k (starting s);
                 pipelines := pipelines s ++ [t] |}
          | (_, None, w') =>
              {| world := w'; starting := remove_nth k (starting s);
                 pipelines := pipelines s |}
          end
      | None => s
      end
  | ChildEmits k ev' =>
      match nth_error (pipelines s) k with
      | Some t =>
          match task_at t with
          | AwaitCommand st commandOutput =>
              let (commandOutput', w') :=
                child_event ev' (commandOutput, world s) in
              resume_task k t (AwaitCommand st commandOutput', w') s
          | _ => s
          end
      | None => s
      end
  | ChildEnds k e =>
      match nth_error (pipelines s) k with
      | Some t =>
          match task_at t with
          | AwaitCommand st commandOutput =>
              resume_task k t
                (feed_command st commandOutput
                   {| events := []; ending := e |} (world s)) s
          | _ => s
          end
      | None => s
      end
  | UpdateSettles k reply =>
      match nth_error (pipelines s) k with
      | Some t =>
          match task_at t with
          | AwaitStatusUpdate st =>
              resume_task k t
                (after_status_update (task_runId t) (task_scraperPath t)
                   st reply (world s)) s
          | AwaitFinalUpdate fd =>
              resume_task k t
                (after_final_update (task_runId t) fd reply (world s)) s
          | _ => s
          end
      | None => s
      end
  | Request c => with_world (call c (world s)) s
  | CronFires j =>
      match nth_error (cronTasks (host (world s))) j with
      | Some t => if scheduled t then start_request SCHEDULED s else s
      | None => s
      end
  | Configure enabled0 cronExpr0 reply =>
      with_world
        (effect (updateSchedulerConfig enabled0 cronExpr0 reply) (world s)) s
  end.

Definition run_events (evs : list Event) (s : System) : System :=
  fold_left (fun s ev => step ev s) evs s.

End Service.

(** The service at module load, before [initScheduler]. *)
Definition initial_service : Service :=
  {| currentRunId := None; outputBuffer := []; listeners := [];
     scheduledTask := None; pipelineStep := Step.IDLE;
     abortRequested := false |}.

Definition fresh_world (d : Prisma) (t : Z) (scraperPath : string) : World :=
  {| svc := initial_service;
     db := d;
     host := {| clock := t; gptPath := scraperPath; cronTasks := [];
                spawned := []; published := []; delivered := [] |} |}.

Definition empty_db : Prisma :=
  {| scraperRun := []; nextId := 1; schedulerConfig := None |}.

Definition initial_system (w : World) : System :=
  {| world := w; starting := []; pipelines := [] |}.

(** The runs of the store that are in a non-terminal status. *)
Definition non_terminal_runs (w : World) : list ScraperRun :=
  filter (fun r => Status.non_terminal (status r)) (scraperRun (db w)).

(** ** Vocabulary of the statements *)

(** The callbacks that [forEach] gets to call for [output]: all of them up
    to the first that throws, that one included. *)
Fixpoint called (output0 : ScraperOutput) (cbs : list OutputCallback)
  : list OutputCallback :=
  match cbs with
  | [] => []
  | cb :: rest =>
      match cb_body cb output0 with
      | Some _ => [cb]
      | None => cb :: called output0 rest
      end
  end.

(** The exception that ends the iteration, if any. *)
Fixpoint first_throw (output0 : ScraperOutput) (cbs : list OutputCallback)
  : option Thrown :=
  match cbs with
  | [] => None
  | cb :: rest =>
      match cb_body cb output0 with
      | Some e => Some e
      | None => first_throw output0 rest
      end
  end.

Definition completion_of (thrown : option Thrown) : Completion unit :=
  match thrown with
  | Some e => Throw e
  | None => Normal tt
  end.

(** The invocations made for [output]. *)
Definition invocations (output0 : ScraperOutput) (cbs : list OutputCallback)
  : list (nat * ScraperOutput) :=
  map (fun cb => (cb_id cb, output0)) cbs.

(** The host after [broadcast(output)] went through [cbs]. *)
Definition record_broadcast (output0 : ScraperOutput)
  (cbs : list OutputCallback) (h : Host) : Host :=
  set_delivered (delivered h ++ invocations output0 (called output0 cbs))
    (set_published (published h ++ [output0]) h).

(** No callback of [cbs] throws on [output]. *)
Definition quiet_on (output0 : ScraperOutput) (cbs : list OutputCallback)
  : Prop :=
  Forall (fun cb => cb_body cb output0 = None) cbs.

(** The ['complete'] events among those published. *)
Definition complete_events (evs : list ScraperOutput) : list ScraperOutput :=
  filter (fun o => Kind.eqb (type o) Kind.complete) evs.

(** The events of the child's two streams among those published. *)
Definition stream_events (evs : list ScraperOutput) : list ScraperOutput :=
  filter (fun o => Kind.eqb (type o) Kind.stdout
                   || Kind.eqb (type o) Kind.stderr) evs.

(** What a child event adds to the stored output, and what it sends to
    the subscribers, as kind and text. *)
Definition stored_text (ev : ChildEvent) : list string :=
  match ev with
  | Stdout text => [text]
  | Stderr text => [error_line text]
  | Meanwhile _ => []
  end.

Definition live_text (ev : ChildEvent) : list (Kind.t * string) :=
  match ev with
  | Stdout text => [(Kind.stdout, text)]
  | Stderr text => [(Kind.stderr, text)]
  | Meanwhile _ => []
  end.

(** The callbacks a call, a trace or a script subscribes. *)
Definition call_callbacks (c : Call) : list OutputCallback :=
  match c with
  | CallSubscribe cb => [cb]
  | _ => []
  end.

Definition event_callbacks (ev : ChildEvent) : list OutputCallback :=
  match ev with
  | Meanwhile c => call_callbacks c
  | _ => []
  end.

Definition script_callbacks (sc : Script) : list OutputCallback :=
  flat_map event_callbacks (events (scrape_trace sc))
  ++ flat_map call_callbacks (fst (enrich_update sc))
  ++ flat_map event_callbacks (events (enrich_trace sc))
  ++ flat_map call_callbacks (fst (process_update sc))
  ++ flat_map event_callbacks (events (process_trace sc))
  ++ flat_map call_callbacks (fst (final_update sc)).

(** The events a run cannot finish without: the report of a child that
    could not be started, and the two events of the [finally] block. *)
Definition vital (o : ScraperOutput) : Prop :=
  (type o = Kind.stderr
   /\ exists message, data o = ("Process error: " ++ message)%string)
  \/ type o = Kind.complete
  \/ (type o = Kind.status
      /\ exists fs, data o = banner ("Pipeline finished with status: "
                                     ++ Status.to_string fs)).

(** The regular expression [/pre(\d+)post/] matches [s] at offset [i] with
    [d] as the digits. *)
Definition occurs (pre post s : string) (i : nat) (d : string) : Prop :=
  exists a b,
    s = a ++ pre ++ d ++ post ++ b /\ String.length a = i
    /\ d <> EmptyString /\ Text.all_digits d = true.

(** [d] is the number of the first occurrence of the pattern in [s]. *)
Definition first_occurrence (pre post s d : string) : Prop :=
  exists i, occurs pre post s i d
            /\ forall j d', (j < i)%nat -> ~ occurs pre post s j d'.

(** The pattern occurs nowhere in [s]. *)
Definition absent (pre post s : string) : Prop :=
  forall i d, ~ occurs pre post s i d.

(** Every task of node-cron that is still scheduled is the one the service
    holds in [scheduledTask]. *)
Definition one_timer (w : World) : Prop :=
  forall j t, nth_error (cronTasks (host w)) j = Some t ->
              scheduled t = true -> scheduledTask (svc w) = Some j.

(** No task of node-cron is scheduled. *)
Definition no_timer (w : World) : Prop :=
  Forall (fun t => scheduled t = false) (cronTasks (host w)).

(** What a call from outside or an event of the child leaves as it is:
    the store, the step, the current run, the scheduler, the processes
    spawned, the ['complete'] events published; and a requested abort stays
    requested. *)
Record calm (w w' : World) : Prop := {
  calm_db : db w' = db w;
  calm_step : pipelineStep (svc w') = pipelineStep (svc w);
  calm_run : currentRunId (svc w') = currentRunId (svc w);
  calm_task : scheduledTask (svc w') = scheduledTask (svc w);
  calm_cron : cronTasks (host w') = cronTasks (host w);
  calm_path : gptPath (host w') = gptPath (host w);
  calm_spawned : spawned (host w') = spawned (host w);
  calm_abort :
    abortRequested (svc w) = true -> abortRequested (svc w') = true;
  calm_complete :
    complete_events (published (host w'))
    = complete_events (published (host w))
}.

(** The event [stopScraper] publishes when called in the world [w]. *)
Definition abort_warning_event (w : World) : ScraperOutput :=
  {| type := Kind.status; data := abort_warning;
     timestamp := clock (host w) |}.

(** The pipeline has left the [try] block for good: it awaits the update of
    [finally], or a promise that will never settle. *)
Definition halted (a : Awaiting) : Prop :=
  match a with
  | AwaitFinalUpdate _ | Stalled => True
  | _ => False
  end.

(** An event without its timestamp. *)
Definition kind_and_text (o : ScraperOutput) : Kind.t * string :=
  (type o, data o).

(** The step of the pipeline while stage [st] runs. *)
Definition stage_step (st : Stage) : Step.t :=
  match st with
  | Scrape => Step.SCRAPING
  | Enrich => Step.ENRICHING
  | Process => Step.PROCESSING
  end.

(** The announcement of stage [st], for the two stages the pipeline moves
    on to (that of stage 1 carries the number of the run). *)
Definition stage_banner (st : Stage) : string :=
  match st with
  | Scrape => EmptyString
  | Enrich => banner "[STEP 2/3] Starting LLM enrichment..."
  | Process => banner "[STEP 3/3] Updating database..."
  end.

(** How many [await]s an execution may still pass. *)
Definition phase (a : Awaiting) : nat :=
  match a with
  | Settled _ | Stalled => 0
  | AwaitFinalUpdate _ => 1
  | AwaitCommand Process _ => 2
  | AwaitStatusUpdate Process => 3
  | AwaitCommand Enrich _ => 4
  | AwaitStatusUpdate Enrich => 5
  | AwaitCommand Scrape _ => 6
  | AwaitStatusUpdate Scrape => 7
  end.

(** The run [runId] has been through [finally]: its row has the final
    data, one ['complete'] event was added to those of [before], with the
    status of the row as its text, and the service is idle again. *)
Definition finalized (runId0 : Z) (before : list ScraperOutput) (w : World)
  : Prop :=
  exists r t t',
    find_run runId0 (db w) = Some r
    /\ Status.non_terminal (status r) = false
    /\ completedAt r = Some t
    /\ output r = Some (Text.join (outputBuffer (svc w)))
    /\ (status r = Status.COMPLETED <-> errorMessage r = None)
    /\ complete_events (published (host w))
       = (before ++ [{| type := Kind.complete;
                        data := Status.to_string (status r);
                        timestamp := t' |}])%list
    /\ isRunning w = false
    /\ getCurrentRunId w = None
    /\ abortRequested (svc w) = false.

(** The run is on its way: its row exists, no ['complete'] event was
    published since [before], and the subscribers are among [known]. *)
Definition under_way (runId0 : Z) (before : list ScraperOutput)
  (known : list OutputCallback) (w : World) : Prop :=
  has_run runId0 (db w) = true
  /\ complete_events (published (host w)) = before
  /\ incl (listeners (svc w)) known.

(** The data of [finally] are those of a finished run and of the buffer
    of [w]. *)
Definition sound_final (fd : FinalData) (w : World) : Prop :=
  Status.non_terminal (fd_status fd) = false
  /\ (fd_status fd = Status.COMPLETED <-> fd_errorMessage fd = None)
  /\ fd_output fd = Text.join (outputBuffer (svc w)).

(** What holds of a run at each [await], and once it is settled. *)
Definition on_course (runId0 : Z) (before : list ScraperOutput)
  (known : list OutputCallback) (p : Awaiting * World) : Prop :=
  match fst p with
  | Settled c => c = Normal tt /\ finalized runId0 before (snd p)
  | Stalled => False
  | AwaitFinalUpdate fd =>
      under_way runId0 before known (snd p) /\ sound_final fd (snd p)
  | _ => under_way runId0 before known (snd p)
  end.

(** The tasks of node-cron and the one the service holds are the same in
    both worlds. *)
Definition same_timers (w w' : World) : Prop :=
  cronTasks (host w') = cronTasks (host w)
  /\ scheduledTask (svc w') = scheduledTask (svc w).

(** The events that call [updateSchedulerConfig]. *)
Definition reconfigures (ev : Event) : bool :=
  match ev with
  | Configure _ _ _ => true
  | _ => false
  end.

(** The execution still has segments to run. *)
Definition live (a : Awaiting) : bool :=
  match a with
  | AwaitCommand _ _ | AwaitStatusUpdate _ | AwaitFinalUpdate _ => true
  | Stalled | Settled _ => false
  end.

(** The status [finally] is about to write is a terminal one. *)
Definition ends_well (a : Awaiting) : Prop :=
  match a with
  | AwaitFinalUpdate fd => Status.non_terminal (fd_status fd) = false
  | _ => True
  end.

(** The runs of the store and the current run are the same in both
    worlds, and a service that is running stays so. *)
Definition steady (w w' : World) : Prop :=
  scraperRun (db w') = scraperRun (db w)
  /\ nextId (db w') = nextId (db w)
  /\ currentRunId (svc w') = currentRunId (svc w)
  /\ (isRunning w = true -> isRunning w' = true).

(** A start is requested only when no other start awaits the creation of
    its run. *)
Definition polite (s : System) (ev : Event) : Prop :=
  match ev with
  | StartRequest _ | CronFires _ => starting s = []
  | _ => True
  end.

(** Every event of [evs] is polite where it occurs. *)
Fixpoint serialized (validate : string -> bool) (evs : list Event)
  (s : System) : Prop :=
  match evs with
  | [] => True
  | ev :: evs' => polite s ev /\ serialized validate evs' (step validate ev s)
  end.

(** The invariant of a service whose starts are serialized. *)
Record single_flight (s : System) : Prop := {
  sf_ids : NoDup (map id (scraperRun (db (world s))));
  sf_fresh :
    forall r, In r (scraperRun (db (world s))) ->
              id r < nextId (db (world s));
  sf_rows :
    forall r, In r (scraperRun (db (world s))) ->
              Status.non_terminal (status r) = true ->
              currentRunId (svc (world s)) = Some (id r);
  sf_idle :
    isRunning (world s) = false ->
    currentRunId (svc (world s)) = None
    /\ forall k t, nth_error (pipelines s) k = Some t ->
                   live (task_at t) = false;
  sf_live :
    forall k t, nth_error (pipelines s) k = Some t ->
                live (task_at t) = true ->
                currentRunId (svc (world s)) = Some (task_runId t)
                /\ ends_well (task_at t)
                /\ forall k' t', nth_error (pipelines s) k' = Some t' ->
                                 live (task_at t') = true -> k' = k;
  sf_starting :
    (List.length (starting s) <= 1)%nat
    /\ (starting s <> [] -> isRunning (world s) = false)
}.

(** ** Vocabulary of the further properties *)

(** What an execution of [runFullPipeline] for the run [runId0] may do to
    a row of the store: nothing to the row of another run, and to its own
    row nothing that touches the identity, the trigger or the start. *)
Definition own_row (runId0 : Z) (r r' : ScraperRun) : Prop :=
  id r' = id r /\ triggerType r' = triggerType r
  /\ startedAt r' = startedAt r
  /\ (id r <> runId0 -> r' = r).

(** What the segments of [runFullPipeline] leave as it is: the subscriber
    set, the scheduler and its configuration, the path of the scraper, the
    number and the order of the rows, and every row but the run's own. *)
Record inside (runId0 : Z) (w w' : World) : Prop := {
  in_listeners : listeners (svc w') = listeners (svc w);
  in_timers : same_timers w w';
  in_path : gptPath (host w') = gptPath (host w);
  in_next : nextId (db w') = nextId (db w);
  in_config : schedulerConfig (db w') = schedulerConfig (db w);
  in_rows : Forall2 (own_row runId0) (scraperRun (db w)) (scraperRun (db w'))
}.

(** The same for a whole run, during which subscribers come and go. *)
Record confined (runId0 : Z) (w w' : World) : Prop := {
  co_timers : same_timers w w';
  co_path : gptPath (host w') = gptPath (host w);
  co_next : nextId (db w') = nextId (db w);
  co_config : schedulerConfig (db w') = schedulerConfig (db w);
  co_rows : Forall2 (own_row runId0) (scraperRun (db w)) (scraperRun (db w'))
}.

(** The stages by their number, and the commands of the pipeline in the
    order of the stages. *)
Definition stage_number (st : Stage) : nat :=
  match st with
  | Scrape => 1%nat
  | Enrich => 2%nat
  | Process => 3%nat
  end.

Definition pipeline_commands (scraperPath : string) : list Command :=
  map (fun st => stage_command st scraperPath) [Scrape; Enrich; Process].

(** The commands spawned since [base] are those of the stages the
    execution has come to, in order. *)
Definition in_order (base : list Command) (scraperPath : string)
  (p : Awaiting * World) : Prop :=
  match fst p with
  | AwaitCommand st _ =>
      spawned (host (snd p))
      = (base ++ firstn (stage_number st)
                   (pipeline_commands scraperPath))%list
  | AwaitStatusUpdate st =>
      st <> Scrape
      /\ spawned (host (snd p))
         = (base ++ firstn (pred (stage_number st))
                      (pipeline_commands scraperPath))%list
  | _ =>
      exists n, spawned (host (snd p))
                = (base ++ firstn n (pipeline_commands scraperPath))%list
  end.

(** The chunks stage [st] stores, in the order of their arrival. *)
Definition chunks (sc : Script) (st : Stage) : list string :=
  flat_map stored_text (events (trace_of sc st)).

(** The child exits with code 0. *)
Definition clean_exit (tr : ChildTrace) : Prop :=
  ending tr = Close (Some 0).

(** Stage 1 went well: a clean exit, and no request for authentication in
    the output. *)
Definition scrape_passed (sc : Script) : Prop :=
  clean_exit (scrape_trace sc)
  /\ auth_required (Text.join (chunks sc Scrape)) = false.

(** Everything a run depends on went well. *)
Record all_succeeded (sc : Script) : Prop := {
  ok_scrape : scrape_passed sc;
  ok_enrich_update : snd (enrich_update sc) = Resolves;
  ok_enrich : clean_exit (enrich_trace sc);
  ok_process_update : snd (process_update sc) = Resolves;
  ok_process : clean_exit (process_trace sc)
}.

(** What an execution has behind it where it stands: the steps that must
    have gone well for it to be there, and for a run that ends as
    [COMPLETED], all of them and the three commands. *)
Definition earned (runId0 : Z) (base : list Command) (scraperPath : string)
  (sc : Script) (p : Awaiting * World) : Prop :=
  let done :=
    all_succeeded sc
    /\ spawned (host (snd p))
       = (base ++ pipeline_commands scraperPath)%list in
  match fst p with
  | AwaitCommand Scrape commandOutput => commandOutput = []
  | AwaitStatusUpdate Scrape => False
  | AwaitStatusUpdate Enrich => scrape_passed sc
  | AwaitCommand Enrich _ =>
      scrape_passed sc /\ snd (enrich_update sc) = Resolves
  | AwaitStatusUpdate Process =>
      scrape_passed sc /\ snd (enrich_update sc) = Resolves
      /\ clean_exit (enrich_trace sc)
  | AwaitCommand Process _ =>
      scrape_passed sc /\ snd (enrich_update sc) = Resolves
      /\ clean_exit (enrich_trace sc) /\ snd (process_update sc) = Resolves
  | AwaitFinalUpdate fd => fd_status fd = Status.COMPLETED -> done
  | Settled (Normal _) =>
      forall r, find_run runId0 (db (snd p)) = Some r ->
                status r = Status.COMPLETED -> done
  | Settled (Throw _) | Stalled => True
  end.

(** No callback of [cbs] ever throws. *)
Definition never_throws (cbs : list OutputCallback) : Prop :=
  forall cb, In cb cbs -> forall o, cb_body cb o = None.

(** Nobody asks for an abort before the last of the two checks of
    [abortRequested], the one after stage 2. *)
Definition no_abort_request (sc : Script) : Prop :=
  ~ In (Meanwhile CallStop) (events (scrape_trace sc))
  /\ ~ In CallStop (fst (enrich_update sc))
  /\ ~ In (Meanwhile CallStop) (events (enrich_trace sc)).

(** The chunks of the stages ahead of stage [st], and of all three. *)
Definition chunks_before (sc : Script) (st : Stage) : list string :=
  flat_map (chunks sc)
    (firstn (pred (stage_number st)) [Scrape; Enrich; Process]).

Definition all_chunks (sc : Script) : list string :=
  flat_map (chunks sc) [Scrape; Enrich; Process].

(** Where a run in which everything succeeds stands: the buffer holds
    what the run found there ([buffer0]) and the chunks of the stages
    done, and no abort is requested as long as one would count. *)
Definition going_well (runId0 : Z) (buffer0 : list string) (sc : Script)
  (p : Awaiting * World) : Prop :=
  match fst p with
  | AwaitCommand st commandOutput =>
      outputBuffer (svc (snd p)) = (buffer0 ++ chunks_before sc st)%list
      /\ (st = Scrape -> commandOutput = [])
      /\ (st <> Process -> abortRequested (svc (snd p)) = false)
  | AwaitStatusUpdate st =>
      st <> Scrape
      /\ outputBuffer (svc (snd p)) = (buffer0 ++ chunks_before sc st)%list
      /\ (st = Enrich -> abortRequested (svc (snd p)) = false)
  | AwaitFinalUpdate fd =>
      fd_status fd = Status.COMPLETED
      /\ outputBuffer (svc (snd p)) = (buffer0 ++ all_chunks sc)%list
  | Settled _ =>
      (exists r, find_run runId0 (db (snd p)) = Some r
                 /\ status r = Status.COMPLETED)
      /\ outputBuffer (svc (snd p)) = (buffer0 ++ all_chunks sc)%list
  | Stalled => True
  end.

(** The status and the error message of a run whose stage [st] ended with
    the exit code [code], other than 0 (lines 152-155, 179-183,
    206-210). *)
Definition failure_status (st : Stage) : Status.t :=
  match st with
  | Scrape => Status.FAILED
  | Enrich => Status.ENRICHMENT_FAILED
  | Process => Status.PROCESSING_FAILED
  end.

Definition failure_message (st : Stage) (code : Z) : string :=
  match st with
  | Scrape => ("Scraping failed with exit code " ++ Text.of_Z code)%string
  | Enrich => ("Enrichment failed with exit code " ++ Text.of_Z code)%string
  | Process =>
      ("Database processing failed with exit code " ++ Text.of_Z code)%string
  end.

(** The event the ['error'] handler of [runCommand] publishes in [w]. *)
Definition process_error_event (message : string) (w : World)
  : ScraperOutput :=
  {| type := Kind.stderr; data := ("Process error: " ++ message)%string;
     timestamp := clock (host w) |}.

(** The row [prisma.scraperRun.create] adds in [w] for the trigger
    [trig], and the event that announces stage 1 of the run [runId0]. *)
Definition new_run (trig : TriggerType) (w : World) : ScraperRun :=
  {| id := nextId (db w); status := Status.RUNNING; triggerType := trig;
     startedAt := clock (host w); completedAt := None; output := None;
     errorMessage := None; sellersProcessed := 0; productsScraped := 0 |}.

Definition scraping_banner (runId0 : Z) (w : World) : ScraperOutput :=
  {| type := Kind.status;
     data := banner ("[STEP 1/3] Starting scraper (Run #"
                     ++ Text.of_Z runId0 ++ ")...")%string;
     timestamp := clock (host w) |}.

(** The expressions of the tasks of node-cron that are scheduled. *)
Definition scheduled_expressions (w : World) : list string :=
  map expression (filter scheduled (cronTasks (host w))).

(** The executions of [runFullPipeline] that still have segments to
    run. *)
Definition live_pipelines (s : System) : list Task :=
  filter (fun t => live (task_at t)) (pipelines s).

(** No call of [stopScraper] arrives during the run. *)
Definition stop_free (sc : Script) : Prop :=
  (forall st, ~ In (Meanwhile CallStop) (events (trace_of sc st)))
  /\ (forall st, ~ In CallStop (fst (update_of sc st)))
  /\ ~ In CallStop (fst (final_update sc)).

(** The announcement of stage [st] in the run [runId0], as kind and
    text. *)
Definition announcement (runId0 : Z) (st : Stage) : Kind.t * string :=
  (Kind.status,
   match st with
   | Scrape => banner ("[STEP 1/3] Starting scraper (Run #"
                       ++ Text.of_Z runId0 ++ ")...")%string
   | _ => stage_banner st
   end).

(** What a run publishes up to the announcement of stage [st], what it
    publishes once its three stages are through, and the two events of
    [finally] for the status [fs]. *)
Fixpoint stream_through (runId0 : Z) (sc : Script) (sts : list Stage)
  : list (Kind.t * string) :=
  match sts with
  | [] => []
  | st :: sts' =>
      (announcement runId0 st
       :: flat_map live_text (events (trace_of sc st)))
      ++ stream_through runId0 sc sts'
  end%list.

Definition stream_upto (runId0 : Z) (sc : Script) (st : Stage)
  : list (Kind.t * string) :=
  (stream_through runId0 sc
     (firstn (pred (stage_number st)) [Scrape; Enrich; Process])
   ++ [announcement runId0 st])%list.

Definition closing (fs : Status.t) : list (Kind.t * string) :=
  [(Kind.status,
    banner ("Pipeline finished with status: " ++ Status.to_string fs)%string);
   (Kind.complete, Status.to_string fs)].

(** What has been published since [before] where a successful run
    stands. *)
Definition streamed (runId0 : Z) (before : list (Kind.t * string))
  (sc : Script) (p : Awaiting * World) : Prop :=
  let seen := map kind_and_text (published (host (snd p))) in
  match fst p with
  | AwaitCommand st _ | AwaitStatusUpdate st =>
      seen = (before ++ stream_upto runId0 sc st)%list
  | AwaitFinalUpdate _ =>
      seen = (before ++ stream_through runId0 sc [Scrape; Enrich; Process])%list
  | Settled _ =>
      seen = (before ++ stream_through runId0 sc [Scrape; Enrich; Process]
              ++ closing Status.COMPLETED)%list
  | Stalled => True
  end.

(** The data with which an execution awaits the update of [finally] are
    those of a finished run and of the buffer. *)
Definition finishing (p : Awaiting * World) : Prop :=
  match fst p with
  | AwaitFinalUpdate fd =>
      sound_final fd (snd p)
      /\ fd_completedAt fd = clock (host (snd p))
      /\ 0 <= fd_sellersProcessed fd /\ 0 <= fd_productsScraped fd
  | _ => True
  end.

(** As long as an execution has not ended regularly, the service is
    running. *)
Definition busy (p : Awaiting * World) : Prop :=
  match fst p with
  | Settled (Normal _) => True
  | _ => isRunning (snd p) = true
  end.

(** The service is wedged: its step is not [IDLE], and no start and no
    pipeline is under way that could bring it back. *)
Definition wedged (s : System) : Prop :=
  isRunning (world s) = true
  /\ starting s = []
  /\ live_pipelines s = [].

(** ** The service with runs under way *)

(** The store of a service that is loaded while no run is under way: the
    runs have identities of their own, below the counter, and each is in a
    terminal status. *)
Definition settled_store (d : Prisma) : Prop :=
  NoDup (map id (scraperRun d))
  /\ forall r, In r (scraperRun d) ->
       id r < nextId d /\ Status.non_terminal (status r) = false.

(** What one turn of the event loop does to an execution of
    [runFullPipeline] for the run [runId0] that is under way alone, and to
    the world: nothing; a call made to the service, or a call of
    [updateSchedulerConfig]; a chunk of the child or its end; the settlement
    of the update the execution awaits. *)
Inductive lone_move (validate : string -> bool) (runId0 : Z)
  (scraperPath : string) : Awaiting * World -> Awaiting * World -> Prop :=
| lone_none p : lone_move validate runId0 scraperPath p p
| lone_call a w c : lone_move validate runId0 scraperPath (a, w) (a, call c w)
| lone_configure a w enabled0 cronExpr0 reply :
    lone_move validate runId0 scraperPath (a, w)
      (a, effect (updateSchedulerConfig validate enabled0 cronExpr0 reply) w)
| lone_emit st co ev w :
    lone_move validate runId0 scraperPath (AwaitCommand st co, w)
      (AwaitCommand st (fst (child_event ev (co, w))),
       snd (child_event ev (co, w)))
| lone_end st co e w :
    lone_move validate runId0 scraperPath (AwaitCommand st co, w)
      (feed_command st co {| events := []; ending := e |} w)
| lone_status st reply w :
    lone_move validate runId0 scraperPath (AwaitStatusUpdate st, w)
      (after_status_update runId0 scraperPath st reply w)
| lone_final fd reply w :
    lone_move validate runId0 scraperPath (AwaitFinalUpdate fd, w)
      (after_final_update runId0 fd reply w).

(** The stage whose status the store still holds while the update ahead of
    stage [st] is pending. *)
Definition stage_before (st : Stage) : Stage :=
  match st with
  | Process => Enrich
  | _ => Scrape
  end.

(** Where an execution for the run [runId0] stands agrees with the step of
    the service and with the stored status of the run; the row of the run
    exists as long as the execution is under way. *)
Definition in_stage (runId0 : Z) (p : Awaiting * World) : Prop :=
  let stored := option_map status (find_run runId0 (db (snd p))) in
  match fst p with
  | AwaitCommand st _ =>
      pipelineStep (svc (snd p)) = stage_step st
      /\ stored = Some (stage_status st)
  | AwaitStatusUpdate st =>
      st <> Scrape
      /\ pipelineStep (svc (snd p)) = stage_step st
      /\ stored = Some (stage_status (stage_before st))
  | AwaitFinalUpdate _ => has_run runId0 (db (snd p)) = true
  | Stalled | Settled _ => True
  end.

Definition staged (s : System) : Prop :=
  forall k t, nth_error (pipelines s) k = Some t ->
              in_stage (task_runId t) (task_at t, world s).

(** An execution is held at stage [st] by a requested abort: it has not
    gone past that stage, the abort stays requested while the stage lasts,
    and since [base] nothing was spawned but, from stage 2 on, the command
    of the stage itself. *)
Definition held (st : Stage) (base : list Command) (scraperPath : string)
  (p : Awaiting * World) : Prop :=
  let l := spawned (host (snd p)) in
  let started :=
    l = base
    \/ (st <> Scrape /\ l = (base ++ [stage_command st scraperPath])%list) in
  match fst p with
  | AwaitStatusUpdate st' =>
      st' = st /\ st <> Scrape
      /\ abortRequested (svc (snd p)) = true /\ l = base
  | AwaitCommand st' _ =>
      st' = st /\ abortRequested (svc (snd p)) = true /\ started
  | AwaitFinalUpdate _ => started
  | Stalled | Settled _ => True
  end.

(** The buffer of the run holds, after [pre], the chunk [text] of standard
    error as it is stored; so does the output [finally] is about to
    write. *)
Definition carries (pre : list string) (text : string)
  (p : Awaiting * World) : Prop :=
  match fst p with
  | AwaitCommand _ _ | AwaitStatusUpdate _ =>
      exists more,
        outputBuffer (svc (snd p)) = (pre ++ [error_line text] ++ more)%list
  | AwaitFinalUpdate fd =>
      exists post,
        fd_output fd = Text.join pre ++ error_line text ++ post
  | Stalled | Settled _ => True
  end.

(** ** The subscriber set while an event is published (lines 38-45) *)

(** [listeners] is a [Set], and [Set.prototype.forEach] goes through the
    set as it is while the callbacks run: a callback may call [subscribe],
    or a function that [subscribe] returned, during the event.  Here a
    callback says what it does to the set when it is called with an event,
    and whether it throws then. *)
Module Live.

Inductive Edit (C : Type) :=
| Subscribe (callback : C)
    (** [scraperService.subscribe(callback)] *)
| Unsubscribe (i : nat)
    (** the function [subscribe] returned for the callback [i] *).

Arguments Subscribe {C} callback.
Arguments Unsubscribe {C} i.

#[warnings="-register-all"]
Inductive Callback :=
| Cb (identity : nat)
     (body : ScraperOutput -> list (Edit Callback) * option Thrown).

Definition identity (cb : Callback) : nat :=
  match cb with Cb i _ => i end.

Definition body (cb : Callback)
  : ScraperOutput -> list (Edit Callback) * option Thrown :=
  match cb with Cb _ f => f end.

(** The list [[SetData]] of the set: its entries in the order of
    insertion; a deleted entry is left [empty] ([None]). *)
Definition Entries := list (option Callback).

Definition named (i : nat) (e : option Callback) : bool :=
  match e with
  | Some cb => Nat.eqb (identity cb) i
  | None => false
  end.

Definition has (i : nat) (es : Entries) : bool := existsb (named i) es.

(** [Set.prototype.add]: a value that is not in the set is appended. *)
Definition add (cb : Callback) (es : Entries) : Entries :=
  if has (identity cb) es then es else (es ++ [Some cb])%list.

(** [Set.prototype.delete]: the entry of the value becomes [empty]. *)
Definition delete (i : nat) (es : Entries) : Entries :=
  map (fun e => if named i e then None else e) es.

Definition edit (e : Edit Callback) (es : Entries) : Entries :=
  match e with
  | Subscribe cb => add cb es
  | Unsubscribe i => delete i es
  end.

Definition edits (l : list (Edit Callback)) (es : Entries) : Entries :=
  fold_left (fun es e => edit e es) l es.

(** [Set.prototype.forEach]: [index] runs over the entries while it is
    below their number, which is read again after every call; an entry that
    is not [empty] is called, and an exception ends the iteration.  [log]
    records the calls made, each with the place of its entry.  The iteration
    takes one unit of [fuel] for every entry it comes to. *)
Fixpoint forEach (fuel : nat) (output0 : ScraperOutput) (index : nat)
  (es : Entries) (log : list (nat * Callback))
  : option (Completion unit * Entries * list (nat * Callback)) :=
  match fuel with
  | O => None
  | S fuel' =>
      match nth_error es index with
      | None => Some (Normal tt, es, log)
      | Some None => forEach fuel' output0 (S index) es log
      | Some (Some cb) =>
          let es' := edits (fst (body cb output0)) es in
          let log' := (log ++ [(index, cb)])%list in
          match snd (body cb output0) with
          | Some e => Some (Throw e, es', log')
          | None => forEach fuel' output0 (S index) es' log'
          end
      end
  end.

(** [broadcast(output)] on the set whose members are [cbs], in the order
    of insertion. *)
Definition broadcast (fuel : nat) (output0 : ScraperOutput)
  (cbs : list Callback) :=
  forEach fuel output0 0%nat (map Some cbs) [].

(** The members of the set, in the order of insertion. *)
Definition members (es : Entries) : list Callback :=
  flat_map (fun e => match e with Some cb => [cb] | None => [] end) es.

(** The entries a call of [cb] can make the iteration come to: its own,
    and those of the callbacks it subscribes, and so on. *)
Fixpoint weight (output0 : ScraperOutput) (cb : Callback) : nat :=
  match cb with
  | Cb _ f =>
      S ((fix sum (l : list (Edit Callback)) : nat :=
            match l with
            | [] => 0%nat
            | Subscribe c :: l' => (weight output0 c + sum l')%nat
            | Unsubscribe _ :: l' => sum l'
            end) (fst (f output0)))
  end.

Definition cost (output0 : ScraperOutput) (e : option Callback) : nat :=
  match e with
  | Some cb => weight output0 cb
  | None => 1%nat
  end.

(** Fuel that is enough for [broadcast] to come to its end. *)
Definition enough (output0 : ScraperOutput) (cbs : list Callback) : nat :=
  S (list_sum (map (weight output0) cbs)).

(** The callback as the rest of this development has it, by its identity
    and by whether it throws. *)
Definition pure (cb : Callback) : OutputCallback :=
  {| cb_id := identity cb; cb_body := fun o => snd (body cb o) |}.

End Live.

(** The callbacks that the edits [l] subscribe. *)
Definition subscribed (l : list (Live.Edit Live.Callback))
  : list Live.Callback :=
  flat_map (fun e => match e with
                     | Live.Subscribe c => [c]
                     | Live.Unsubscribe _ => []
                     end) l.

(** The iteration of [Live.forEach] from [index] on, as a relation: the
    outcome, the entries at the end, and the calls made with their
    places. *)
Inductive visits (output0 : ScraperOutput)
  : nat -> Live.Entries -> Completion unit -> Live.Entries
    -> list (nat * Live.Callback) -> Prop :=
| visits_end index es :
    nth_error es index = None ->
    visits output0 index es (Normal tt) es []
| visits_empty index es c es' news :
    nth_error es index = Some None ->
    visits output0 (S index) es c es' news ->
    visits output0 index es c es' news
| visits_throw index es cb e :
    nth_error es index = Some (Some cb) ->
    snd (Live.body cb output0) = Some e ->
    visits output0 index es (Throw e)
      (Live.edits (fst (Live.body cb output0)) es) [(index, cb)]
| visits_call index es cb c es' news :
    nth_error es index = Some (Some cb) ->
    snd (Live.body cb output0) = None ->
    visits output0 (S index) (Live.edits (fst (Live.body cb output0)) es)
      c es' news ->
    visits output0 index es c es' ((index, cb) :: news).

(** The fuel the iteration still needs at [index]. *)
Definition pending (output0 : ScraperOutput) (index : nat)
  (es : Live.Entries) : nat :=
  list_sum (map (Live.cost output0) (skipn index es)).

(** * Properties *)

(** ** Text: matching and numbers *)

Lemma append_assoc_s (a b c : string) : (a ++ b) ++ c = a ++ b ++ c.
Proof. induction a; simpl; congruence. Qed.

Lemma prefix_iff p s : prefix p s = true <-> exists b, s = p ++ b.
Proof.
  revert s. induction p as [|a p IH]; intros s; simpl.
  - destruct s; split; eauto.
  - destruct s as [|b s].
    + split; [discriminate|]. intros [x H]. discriminate.
    + simpl. destruct (ascii_dec a b) as [e|Hne].
      * subst b. rewrite IH.
        split; intros [x H]; exists x; simpl in *; congruence.
      * split; [discriminate|]. intros [x H]. simpl in H. congruence.
Qed.

Lemma includes_unfold needle s :
  Text.includes needle s =
  if prefix needle s then true
  else match s with
       | EmptyString => false
       | String _ s' => Text.includes needle s'
       end.
Proof. destruct s; reflexivity. Qed.

(** [includes] is the test for a substring. *)
Lemma includes_iff needle s :
  Text.includes needle s = true <-> exists a b, s = a ++ needle ++ b.
Proof.
  induction s as [|c s IH]; rewrite includes_unfold.
  - destruct (prefix needle EmptyString) eqn:E.
    + apply prefix_iff in E. destruct E as [b Hb]. split; [|reflexivity].
      intros _. now exists EmptyString, b.
    + split; [discriminate|]. intros (a & b & H).
      destruct a; [|discriminate]. simpl in H.
      assert (prefix needle EmptyString = true) by (apply prefix_iff; eauto).
      congruence.
  - destruct (prefix needle (String c s)) eqn:E.
    + apply prefix_iff in E. destruct E as [b Hb]. split; [|reflexivity].
      intros _. now exists EmptyString, b.
    + rewrite IH. split.
      * intros (a & b & ->). now exists (String c a), b.
      * intros (a & b & H). destruct a as [|c' a].
        -- simpl in H.
           assert (prefix needle (String c s) = true)
             by (apply prefix_iff; eauto).
           congruence.
        -- simpl in H. injection H as -> ->. now exists a, b.
Qed.

Lemma strip_iff pre s r : Text.strip pre s = Some r <-> s = pre ++ r.
Proof.
  revert s. induction pre as [|a pre IH]; intros s; simpl.
  - split; congruence.
  - destruct s as [|b s].
    + split; discriminate.
    + destruct (Ascii.eqb a b) eqn:E.
      * apply Ascii.eqb_eq in E. subst b. rewrite IH. split; congruence.
      * apply Ascii.eqb_neq in E. split; [discriminate|]. congruence.
Qed.

Section Pattern.
Variables pre post : string.
Hypothesis post_head :
  match post with
  | String c _ => Text.is_digit c = false
  | EmptyString => False
  end.

Lemma digits_then_stop s : Text.digits_then post (post ++ s) = None.
Proof.
  destruct post as [|c p]; [contradiction|]. simpl. now rewrite post_head.
Qed.

Lemma digits_then_iff s d :
  Text.digits_then post s = Some d <->
  d <> EmptyString /\ Text.all_digits d = true /\ exists b, s = d ++ post ++ b.
Proof.
  revert d. induction s as [|x s IH]; intros d; simpl.
  - split; [discriminate|]. intros (Hd & _ & b & Hb).
    destruct d; [congruence|discriminate].
  - destruct (Text.is_digit x) eqn:Hx.
    + destruct (Text.digits_then post s) as [cap|] eqn:Hs.
      * destruct (proj1 (IH cap) eq_refl) as (Hc & Hall & b & Hb).
        split.
        -- intros [= <-]. split; [discriminate|]. split.
           ++ simpl. now rewrite Hx.
           ++ exists b. now rewrite Hb.
        -- intros (Hd & Hall' & b' & Hb').
           destruct d as [|y d]; [congruence|]. simpl in Hb'.
           injection Hb' as -> Hs'. simpl in Hall'.
           apply andb_prop in Hall'. destruct Hall' as [_ Hall'].
           destruct d as [|z d].
           ++ simpl in Hs'. rewrite Hs', digits_then_stop in Hs.
              discriminate.
           ++ assert (Some cap = Some (String z d)) as E.
              { apply IH. split; [discriminate|]. split; [assumption|].
                now exists b'. }
              congruence.
      * split.
        -- destruct (prefix post s) eqn:Hp; [|discriminate].
           intros [= <-]. apply prefix_iff in Hp. destruct Hp as [b Hb].
           split; [discriminate|]. split; [simpl; now rewrite Hx|].
           exists b. simpl. now rewrite Hb.
        -- intros (Hd & Hall' & b' & Hb').
           destruct d as [|y d]; [congruence|]. simpl in Hb'.
           injection Hb' as -> Hs'. simpl in Hall'.
           apply andb_prop in Hall'. destruct Hall' as [_ Hall'].
           destruct d as [|z d].
           ++ simpl in Hs'.
              assert (prefix post s = true) as -> by
                (apply prefix_iff; now exists b').
              reflexivity.
           ++ assert (@None string = Some (String z d)) as E.
              { apply IH. split; [discriminate|]. split; [assumption|].
                now exists b'. }
              discriminate.
    + split; [discriminate|]. intros (Hd & Hall' & b' & Hb').
      destruct d as [|y d]; [congruence|]. simpl in Hb'.
      injection Hb' as -> Hs'. simpl in Hall'.
      apply andb_prop in Hall'. destruct Hall' as [Hy _]. congruence.
Qed.

Lemma match_here_iff s d :
  Text.match_here pre post s = Some d <-> occurs pre post s 0 d.
Proof.
  unfold Text.match_here, occurs. split.
  - destruct (Text.strip pre s) as [rest|] eqn:Hs; [|discriminate].
    apply strip_iff in Hs. intros H. apply digits_then_iff in H.
    destruct H as (Hd & Hall & b & Hb). exists EmptyString, b. simpl.
    repeat split; try assumption. congruence.
  - intros (a & b & Hs & Ha & Hd & Hall).
    destruct a; [|discriminate]. simpl in Hs.
    assert (Text.strip pre s = Some (d ++ post ++ b)) as ->
      by now apply strip_iff.
    apply digits_then_iff. repeat split; try assumption. now exists b.
Qed.

Lemma occurs_tail x s i d :
  occurs pre post (String x s) (S i) d <-> occurs pre post s i d.
Proof.
  unfold occurs. split.
  - intros (a & b & Hs & Ha & H). destruct a as [|y a]; [discriminate|].
    simpl in Hs, Ha. injection Hs as -> Hs. exists a, b. split; [assumption|].
    split; [lia|assumption].
  - intros (a & b & Hs & Ha & H). exists (String x a), b. simpl.
    split; [congruence|]. split; [lia|assumption].
Qed.

Lemma occurs_fun s i d d' :
  occurs pre post s i d -> occurs pre post s i d' -> d = d'.
Proof.
  revert s. induction i as [|i IH]; intros s H H'.
  - apply match_here_iff in H, H'. congruence.
  - destruct s as [|x s].
    + destruct H as (a & b & Hs & Ha & _). destruct a; discriminate.
    + apply occurs_tail in H, H'. eauto.
Qed.

Lemma regex_match_some s d :
  Text.regex_match pre post s = Some d <-> first_occurrence pre post s d.
Proof.
  revert d. induction s as [|x s IH]; intros d; simpl;
    destruct (Text.match_here pre post _) as [cap|] eqn:Hm.
  - split.
    + intros [= <-]. exists 0%nat. split; [now apply match_here_iff|].
      intros j d' Hj. lia.
    + intros (i & Hi & _). destruct Hi as (a & b & Hs & Ha & _).
      destruct a; destruct pre; destruct d; discriminate || congruence.
  - split; [discriminate|].
    intros (i & Hi & _). destruct Hi as (a & b & Hs & Ha & Hd & _).
    destruct a; destruct pre; destruct d; discriminate || congruence.
  - split.
    + intros [= <-]. exists 0%nat. split; [now apply match_here_iff|].
      intros j d' Hj. lia.
    + intros (i & Hi & Hmin). destruct i as [|i].
      * apply match_here_iff in Hi. congruence.
      * exfalso. apply (Hmin 0%nat cap); [lia|]. now apply match_here_iff.
  - rewrite IH. split.
    + intros (i & Hi & Hmin). exists (S i). split; [now apply occurs_tail|].
      intros [|j] d' Hj Hocc.
      * apply match_here_iff in Hocc. congruence.
      * apply occurs_tail in Hocc. apply (Hmin j d'); [lia|assumption].
    + intros (i & Hi & Hmin). destruct i as [|i].
      * apply match_here_iff in Hi. congruence.
      * exists i. split; [now apply occurs_tail in Hi|].
        intros j d' Hj Hocc. apply (Hmin (S j) d'); [lia|].
        now apply occurs_tail.
Qed.

Lemma regex_match_none s :
  Text.regex_match pre post s = None <-> absent pre post s.
Proof.
  unfold absent. induction s as [|x s IH]; simpl;
    destruct (Text.match_here pre post _) as [cap|] eqn:Hm.
  - split; [discriminate|]. intros H. exfalso.
    apply (H 0%nat cap). now apply match_here_iff.
  - split; [|reflexivity]. intros _ i d (a & b & Hs & Ha & Hd & _).
    destruct a; destruct pre; destruct d; discriminate || congruence.
  - split; [discriminate|]. intros H. exfalso.
    apply (H 0%nat cap). now apply match_here_iff.
  - rewrite IH. split.
    + intros H [|i] d Hocc.
      * apply match_here_iff in Hocc. congruence.
      * apply occurs_tail in Hocc. now apply (H i d).
    + intros H i d Hocc. apply (H (S i) d). now apply occurs_tail.
Qed.
End Pattern.

(** The two expressions of the statistics end their group with a space. *)
Lemma sellers_regex_some s d :
  Text.sellers_regex s = Some d <-> first_occurrence EmptyString " seller(s)" s d.
Proof. apply regex_match_some. reflexivity. Qed.

Lemma sellers_regex_none s :
  Text.sellers_regex s = None <-> absent EmptyString " seller(s)" s.
Proof. apply regex_match_none. reflexivity. Qed.

Lemma products_regex_some s d :
  Text.products_regex s = Some d
  <-> first_occurrence "Saved " " products" s d.
Proof. apply regex_match_some. reflexivity. Qed.

Lemma products_regex_none s :
  Text.products_regex s = None <-> absent "Saved " " products" s.
Proof. apply regex_match_none. reflexivity. Qed.

(** [parseInt] reads decimal notation: it agrees with the numbers of the
    standard library. *)
Ltac digit_step :=
  cbn [NilEmpty.string_of_uint Text.parseInt_from Pos.of_uint_acc N.of_uint Pos.of_uint];
  match goal with
  | |- context [Text.is_digit ?c] => change (Text.is_digit c) with true
  end;
  match goal with
  | |- context [Text.digit_value ?c] =>
      let v := eval vm_compute in (Text.digit_value c) in
      change (Text.digit_value c) with v
  end;
  cbv iota.

Lemma parseInt_from_acc u (acc : positive) :
  Text.parseInt_from (Z.pos acc) (NilEmpty.string_of_uint u)
  = Z.pos (Pos.of_uint_acc u acc).
Proof.
  revert acc. induction u; intros acc; [reflexivity|..];
    digit_step; rewrite <- IHu; f_equal; lia.
Qed.

Lemma parseInt_uint u :
  Text.parseInt (NilEmpty.string_of_uint u) = Z.of_N (N.of_uint u).
Proof.
  unfold Text.parseInt, N.of_uint.
  induction u; [reflexivity|..]; digit_step;
    [exact IHu|..]; apply (parseInt_from_acc u).
Qed.

Lemma all_digits_uint u : Text.all_digits (NilEmpty.string_of_uint u) = true.
Proof. induction u; [reflexivity|..]; simpl; exact IHu. Qed.

Lemma parseInt_of_Z n : 0 <= n -> Text.parseInt (Text.of_Z n) = n.
Proof.
  intros Hn. unfold Text.of_Z.
  destruct n as [|p|p]; [reflexivity| |lia].
  cbn [Z.to_int NilZero.string_of_int]. unfold NilZero.string_of_uint.
  pose proof (DecimalPos.Unsigned.to_uint_nonnil p) as Hnil.
  pose proof (DecimalPos.Unsigned.of_to p) as Hof.
  destruct (Pos.to_uint p) eqn:E; [congruence|..];
    rewrite parseInt_uint; unfold N.of_uint; now rewrite Hof.
Qed.

Lemma of_Z_digits n :
  0 <= n -> Text.of_Z n <> EmptyString /\ Text.all_digits (Text.of_Z n) = true.
Proof.
  intros Hn. unfold Text.of_Z.
  destruct n as [|p|p]; [split; [discriminate|reflexivity]| |lia].
  cbn [Z.to_int NilZero.string_of_int]. unfold NilZero.string_of_uint.
  pose proof (DecimalPos.Unsigned.to_uint_nonnil p) as Hnil.
  destruct (Pos.to_uint p) eqn:E; [congruence|..];
    (split; [discriminate|apply all_digits_uint]).
Qed.

(** ** broadcast and the subscriber set *)

Open Scope list_scope.

Lemma forEach_eq cbs output0 w :
  forEach cbs output0 w =
  (completion_of (first_throw output0 cbs),
   on_host (fun h =>
     set_delivered (delivered h ++ invocations output0 (called output0 cbs)) h)
     w).
Proof.
  revert w. induction cbs as [|cb rest IH]; intros [s d h].
  - destruct h. unfold on_host, set_delivered. simpl. now rewrite app_nil_r.
  - simpl. unfold bind, modify. simpl.
    destruct (cb_body cb output0) as [e|].
    + reflexivity.
    + rewrite IH. destruct h. unfold on_host, set_delivered. simpl.
      now rewrite <- app_assoc.
Qed.

Lemma broadcast_eq output0 w :
  broadcast output0 w =
  (completion_of (first_throw output0 (listeners (svc w))),
   on_host (record_broadcast output0 (listeners (svc w))) w).
Proof.
  unfold broadcast, bind, modify, gets. simpl. rewrite forEach_eq.
  destruct w as [s d h]. reflexivity.
Qed.

Lemma broadcast_now_eq k text w :
  broadcast_now k text w =
  broadcast {| type := k; data := text; timestamp := clock (host w) |} w.
Proof. reflexivity. Qed.

Lemma quiet_called output0 cbs :
  quiet_on output0 cbs ->
  called output0 cbs = cbs /\ first_throw output0 cbs = None.
Proof.
  induction 1 as [|cb rest Hcb _ [IH1 IH2]]; simpl; [easy|].
  rewrite Hcb, IH1, IH2. easy.
Qed.

(** C5 as the spec has it fails: the first subscriber throws, the second
    one never sees the event, and [broadcast] throws to its caller. *)
Lemma broadcast_throwing_subscriber_starves_the_rest :
  let cb1 := {| cb_id := 1; cb_body := fun _ => Some (ErrorObject "closed") |} in
  let cb2 := {| cb_id := 2; cb_body := fun _ => None |} in
  let w := subscribe cb2 (subscribe cb1 (fresh_world empty_db 0 "/srv/gpt")) in
  let o := {| type := Kind.stdout; data := "line"; timestamp := 0 |} in
  map cb_id (listeners (svc w)) = [1%nat; 2%nat]
  /\ fst (broadcast o w) = Throw (ErrorObject "closed")
  /\ delivered (host (snd (broadcast o w))) = [(1%nat, o)]
  /\ ~ In (2%nat, o) (delivered (host (snd (broadcast o w)))).
Proof.
  cbv zeta. repeat split. intros [H|[]]. discriminate.
Qed.

(** ** Calls and child events *)

Lemma calm_refl w : calm w w.
Proof. now constructor. Qed.

Lemma calm_trans w1 w2 w3 : calm w1 w2 -> calm w2 w3 -> calm w1 w3.
Proof.
  intros [] []. constructor; try congruence. auto.
Qed.

Lemma complete_events_snoc evs o :
  type o <> Kind.complete ->
  complete_events (evs ++ [o]) = complete_events evs.
Proof.
  intros H. unfold complete_events. rewrite filter_app. simpl.
  destruct (type o); try contradiction; simpl; now rewrite app_nil_r.
Qed.

(** A broadcast of anything but a ['complete'] event, whatever the
    subscribers do. *)
Lemma broadcast_calm o w :
  type o <> Kind.complete -> calm w (snd (broadcast o w)).
Proof.
  intros H. rewrite broadcast_eq. constructor; simpl; try reflexivity.
  - auto.
  - now apply complete_events_snoc.
Qed.

Lemma broadcast_svc o w : svc (snd (broadcast o w)) = svc w.
Proof. now rewrite broadcast_eq. Qed.

Lemma stopScraper_eq w :
  stopScraper w =
  if isRunning w then
    let w1 := on_svc (set_abortRequested true) w in
    let o := {| type := Kind.status; data := abort_warning;
                timestamp := clock (host w) |} in
    (match first_throw o (listeners (svc w)) with
     | Some e => Throw e
     | None => Normal true
     end,
     on_host (record_broadcast o (listeners (svc w))) w1)
  else (Normal false, w).
Proof.
  unfold stopScraper, bind, gets, modify. simpl.
  destruct (isRunning w); [|reflexivity].
  rewrite broadcast_now_eq, broadcast_eq. simpl.
  now destruct (first_throw _ _).
Qed.

Lemma stopScraper_calm w : calm w (effect stopScraper w).
Proof.
  unfold effect. rewrite stopScraper_eq.
  destruct (isRunning w); [|apply calm_refl].
  constructor; simpl; try reflexivity.
  now apply complete_events_snoc.
Qed.

Lemma call_calm c w : calm w (call c w).
Proof.
  destruct c; simpl; [apply stopScraper_calm|..];
    constructor; simpl; auto.
Qed.

Lemma calls_calm cs w : calm w (calls cs w).
Proof.
  revert w. induction cs as [|c cs IH]; intros w; simpl; [apply calm_refl|].
  eapply calm_trans; [apply call_calm|apply IH].
Qed.

Lemma call_buffer c w :
  outputBuffer (svc (call c w)) = outputBuffer (svc w).
Proof.
  destruct c; simpl; try reflexivity.
  unfold effect. rewrite stopScraper_eq. now destruct (isRunning w).
Qed.

Lemma calls_buffer cs w :
  outputBuffer (svc (calls cs w)) = outputBuffer (svc w).
Proof.
  revert w. induction cs as [|c cs IH]; intros w; simpl; [reflexivity|].
  now rewrite IH, call_buffer.
Qed.

(** A call of [stopScraper] made while a run is under way leaves the abort
    requested. *)
Lemma call_stop_requests w :
  isRunning w = true -> abortRequested (svc (call CallStop w)) = true.
Proof.
  intros H. simpl. unfold effect. rewrite stopScraper_eq, H. reflexivity.
Qed.

Lemma onStdout_eq text w :
  effect (onStdout text) w =
  let w1 := on_svc (fun s => set_outputBuffer (outputBuffer s ++ [text]) s) w in
  on_host (record_broadcast
    {| type := Kind.stdout; data := text; timestamp := clock (host w) |}
    (listeners (svc w))) w1.
Proof.
  unfold effect, onStdout, bind, modify. simpl.
  now rewrite broadcast_now_eq, broadcast_eq.
Qed.

Lemma onStderr_eq text w :
  effect (onStderr text) w =
  let w1 := on_svc (fun s =>
    set_outputBuffer (outputBuffer s ++ [error_line text]) s) w in
  on_host (record_broadcast
    {| type := Kind.stderr; data := text; timestamp := clock (host w) |}
    (listeners (svc w))) w1.
Proof.
  unfold effect, onStderr, bind, modify. simpl.
  now rewrite broadcast_now_eq, broadcast_eq.
Qed.

Lemma child_event_calm ev co w : calm w (snd (child_event ev (co, w))).
Proof.
  destruct ev; simpl.
  - rewrite onStdout_eq. constructor; simpl; auto.
    now apply complete_events_snoc.
  - rewrite onStderr_eq. constructor; simpl; auto.
    now apply complete_events_snoc.
  - apply call_calm.
Qed.

Lemma child_events_cons ev evs st :
  child_events (ev :: evs) st = child_events evs (child_event ev st).
Proof. reflexivity. Qed.

Lemma child_events_calm evs co w :
  calm w (snd (child_events evs (co, w))).
Proof.
  revert co w. induction evs as [|ev evs IH]; intros co w;
    [apply calm_refl|].
  rewrite child_events_cons.
  destruct (child_event ev (co, w)) as [co1 w1] eqn:E.
  eapply calm_trans; [|apply IH].
  change w1 with (snd (co1, w1)). rewrite <- E. apply child_event_calm.
Qed.

Lemma child_end_calm e co w : calm w (snd (child_end e co w)).
Proof.
  destruct e; simpl; [apply calm_refl|].
  rewrite broadcast_now_eq.
  pose proof (broadcast_calm
    {| type := Kind.stderr; data := "Process error: " ++ message;
       timestamp := clock (host w) |} w) as H.
  destruct (broadcast _ w) as [[|] w']; simpl in *; now apply H.
Qed.

(** ** What is stored and what is streamed *)

Lemma join_snoc parts s : Text.join (parts ++ [s]) = (Text.join parts ++ s)%string.
Proof.
  induction parts as [|p parts IH]; simpl.
  - induction s; simpl; congruence.
  - now rewrite IH, append_assoc_s.
Qed.

Lemma join_app parts parts' :
  Text.join (parts ++ parts') = (Text.join parts ++ Text.join parts')%string.
Proof.
  induction parts as [|p parts IH]; simpl; [reflexivity|].
  now rewrite IH, append_assoc_s.
Qed.

Lemma length_append_s (a b : string) :
  String.length (a ++ b) = (String.length a + String.length b)%nat.
Proof. induction a; simpl; congruence. Qed.

Lemma error_line_differs text : error_line text <> text.
Proof.
  intros H. apply (f_equal String.length) in H.
  unfold error_line in H. rewrite length_append_s in H. simpl in H. lia.
Qed.

Lemma stream_events_snoc evs o :
  stream_events (evs ++ [o])
  = stream_events evs
    ++ (if Kind.eqb (type o) Kind.stdout || Kind.eqb (type o) Kind.stderr
        then [o] else []).
Proof. unfold stream_events. now rewrite filter_app. Qed.

Lemma call_stream c w :
  stream_events (published (host (call c w)))
  = stream_events (published (host w)).
Proof.
  destruct c; simpl; try reflexivity.
  unfold effect. rewrite stopScraper_eq.
  destruct (isRunning w); [|reflexivity]. simpl.
  rewrite stream_events_snoc. simpl. now rewrite app_nil_r.
Qed.

Lemma child_event_text ev co w :
  fst (child_event ev (co, w)) = co ++ stored_text ev
  /\ outputBuffer (svc (snd (child_event ev (co, w))))
     = outputBuffer (svc w) ++ stored_text ev
  /\ map kind_and_text
       (stream_events (published (host (snd (child_event ev (co, w))))))
     = map kind_and_text (stream_events (published (host w)))
       ++ live_text ev.
Proof.
  destruct ev; simpl.
  - rewrite onStdout_eq. simpl. rewrite stream_events_snoc, map_app. easy.
  - rewrite onStderr_eq. simpl. rewrite stream_events_snoc, map_app. easy.
  - now rewrite call_buffer, call_stream, !app_nil_r.
Qed.

Lemma child_events_text evs co w :
  fst (child_events evs (co, w)) = co ++ flat_map stored_text evs
  /\ outputBuffer (svc (snd (child_events evs (co, w))))
     = outputBuffer (svc w) ++ flat_map stored_text evs
  /\ map kind_and_text
       (stream_events (published (host (snd (child_events evs (co, w))))))
     = map kind_and_text (stream_events (published (host w)))
       ++ flat_map live_text evs.
Proof.
  revert co w. induction evs as [|ev evs IH]; intros co w.
  - simpl. now rewrite !app_nil_r.
  - rewrite child_events_cons.
    destruct (child_event_text ev co w) as (H1 & H2 & H3).
    destruct (child_event ev (co, w)) as [co1 w1]. simpl in H1, H2, H3.
    destruct (IH co1 w1) as (I1 & I2 & I3).
    rewrite I1, I2, I3, H1, H2, H3. simpl. now rewrite !app_assoc.
Qed.

(** ** The statistics of the [finally] block *)

(** C8: whatever the buffer holds, the [finally] block computes its data
    without an error and goes on to its update.  [sellersProcessed] is the
    number in front of the first [" seller(s)"] that follows digits, and
    [productsScraped] the number of the first ["Saved <digits> products"];
    a counter whose pattern occurs nowhere in the output is 0.  The number
    is the integer its digits denote, within the integers a JavaScript
    number holds exactly. *)
Theorem statistics_from_first_occurrence (finalStatus : Status.t)
  (errorMessage0 : option string) (w : World) :
  let fullOutput := Text.join (outputBuffer (svc w)) in
  let fd := final_data finalStatus errorMessage0 w in
  finally_enter finalStatus errorMessage0 w = (AwaitFinalUpdate fd, w)
  /\ fd_output fd = fullOutput
  /\ (forall d, first_occurrence EmptyString " seller(s)" fullOutput d ->
        fd_sellersProcessed fd = Text.parseInt d)
  /\ (forall n, 0 <= n < 2 ^ 53 ->
        first_occurrence EmptyString " seller(s)" fullOutput (Text.of_Z n) ->
        fd_sellersProcessed fd = n)
  /\ (forall d, first_occurrence "Saved " " products" fullOutput d ->
        fd_productsScraped fd = Text.parseInt d)
  /\ (forall n, 0 <= n < 2 ^ 53 ->
        first_occurrence "Saved " " products" fullOutput (Text.of_Z n) ->
        fd_productsScraped fd = n)
  /\ (absent EmptyString " seller(s)" fullOutput -> fd_sellersProcessed fd = 0)
  /\ (absent "Saved " " products" fullOutput -> fd_productsScraped fd = 0).
Proof.
  intros fullOutput fd. subst fd. unfold final_data. fold fullOutput.
  cbn [fd_output fd_sellersProcessed fd_productsScraped].
  repeat split.
  - intros d H. apply sellers_regex_some in H. now rewrite H.
  - intros n Hn H. apply sellers_regex_some in H. rewrite H.
    apply parseInt_of_Z. lia.
  - intros d H. apply products_regex_some in H. now rewrite H.
  - intros n Hn H. apply products_regex_some in H. rewrite H.
    apply parseInt_of_Z. lia.
  - intros H. apply sellers_regex_none in H. now rewrite H.
  - intros H. apply products_regex_none in H. now rewrite H.
Qed.

(** The example of the spec, and an output without either pattern. *)
Lemma statistics_from_first_occurrence_witness :
  let base := fresh_world empty_db 0 "/srv/gpt" in
  let w := on_svc (set_outputBuffer
    ["Found 7 seller(s) in 3 groups. "; "Saved 42 products to file"]) base in
  let w0 := on_svc (set_outputBuffer ["npm ERR! missing script"]) base in
  (fd_sellersProcessed (final_data Status.COMPLETED None w) = 7
   /\ fd_productsScraped (final_data Status.COMPLETED None w) = 42)
  /\ (fd_sellersProcessed (final_data Status.FAILED None w0) = 0
      /\ fd_productsScraped (final_data Status.FAILED None w0) = 0).
Proof.
  intros base w w0. split.
  - destruct (statistics_from_first_occurrence Status.COMPLETED None w)
      as (_ & _ & _ & Hs & _ & Hp & _).
    split.
    + apply (Hs 7); [lia|]. now apply sellers_regex_some.
    + apply (Hp 42); [lia|]. now apply products_regex_some.
  - destruct (statistics_from_first_occurrence Status.FAILED None w0)
      as (_ & _ & _ & _ & _ & _ & Hs & Hp).
    split.
    + apply Hs. now apply sellers_regex_none.
    + apply Hp. now apply products_regex_none.
Defined.

(** ** The segments of runFullPipeline *)

Lemma scraperRun_create_eq trig w :
  scraperRun_create trig Resolves w =
  let run := {| id := nextId (db w); status := Status.RUNNING;
                triggerType := trig; startedAt := clock (host w);
                completedAt := None; output := None; errorMessage := None;
                sellersProcessed := 0; productsScraped := 0 |} in
  (Normal run,
   on_db (fun d => {| scraperRun := scraperRun d ++ [run];
                      nextId := nextId (db w) + 1;
                      schedulerConfig := schedulerConfig d |}) w).
Proof. reflexivity. Qed.

Lemma scraperRun_update_eq runId change reply w :
  scraperRun_update runId change reply w =
  match reply with
  | Rejects e => (Throw e, w)
  | Resolves =>
      if has_run runId (db w) then
        (Normal tt,
         on_db (fun d => set_scraperRun
           (map (fun r => if id r =? runId then change r else r)
              (scraperRun d)) d) w)
      else (Throw (ErrorObject "Record to update not found."), w)
  end.
Proof.
  unfold scraperRun_update. destruct reply; [|reflexivity].
  unfold bind, gets, modify, throw. simpl.
  now destruct (has_run runId (db w)).
Qed.

Lemma finally_rest_eq runId fd reply w :
  finally_rest runId fd reply w =
  match scraperRun_update runId (data_final fd) reply w with
  | (Throw e, w1) => (Throw e, w1)
  | (Normal _, w1) =>
      let cbs := listeners (svc w) in
      let o1 := {| type := Kind.status;
                   data := banner ("Pipeline finished with status: "
                                   ++ Status.to_string (fd_status fd));
                   timestamp := clock (host w) |} in
      let o2 := {| type := Kind.complete;
                   data := Status.to_string (fd_status fd);
                   timestamp := clock (host w) |} in
      let w2 := on_host (record_broadcast o1 cbs) w1 in
      match first_throw o1 cbs with
      | Some e => (Throw e, w2)
      | None =>
          let w3 := on_host (record_broadcast o2 cbs) w2 in
          match first_throw o2 cbs with
          | Some e => (Throw e, w3)
          | None =>
              (Normal tt,
               on_svc (fun s => set_abortRequested false
                 (set_currentRunId None (set_pipelineStep Step.IDLE s))) w3)
          end
      end
  end.
Proof.
  unfold finally_rest. unfold bind at 1. rewrite scraperRun_update_eq.
  destruct reply as [|e]; [|reflexivity].
  destruct (has_run runId (db w)); [|reflexivity].
  unfold bind at 1. rewrite broadcast_now_eq, broadcast_eq. simpl.
  destruct (first_throw _ _); [reflexivity|]. simpl.
  unfold bind at 1. rewrite broadcast_now_eq, broadcast_eq. simpl.
  destruct (first_throw _ _); reflexivity.
Qed.

Lemma find_run_updated runId change rows :
  (forall r, id (change r) = id r) ->
  find (fun r => id r =? runId)
    (map (fun r => if id r =? runId then change r else r) rows)
  = option_map change (find (fun r => id r =? runId) rows).
Proof.
  intros Hid. induction rows as [|r rows IH]; simpl; [reflexivity|].
  destruct (id r =? runId) eqn:E.
  - now rewrite Hid, E.
  - now rewrite E.
Qed.

Lemma has_run_find runId d :
  has_run runId d = true -> exists r, find_run runId d = Some r.
Proof.
  unfold has_run, find_run. induction (scraperRun d) as [|r rows IH]; simpl.
  - discriminate.
  - destruct (id r =? runId); [eauto|]. exact IH.
Qed.

(** The update of the [finally] block comes first: the store has the data
    of the run as soon as the update is carried out, whatever the
    subscribers do afterwards. *)
Lemma finally_rest_stored runId fd w :
  has_run runId (db w) = true ->
  exists r0,
    find_run runId (db w) = Some r0
    /\ find_run runId (db (snd (finally_rest runId fd Resolves w)))
       = Some (data_final fd r0).
Proof.
  intros H. destruct (has_run_find _ _ H) as [r0 Hr0]. exists r0.
  split; [assumption|].
  rewrite finally_rest_eq, scraperRun_update_eq, H.
  assert (find_run runId
            (set_scraperRun
               (map (fun r => if id r =? runId then data_final fd r else r)
                  (scraperRun (db w))) (db w)) = Some (data_final fd r0)) as E.
  { unfold find_run in *. simpl. rewrite find_run_updated by reflexivity.
    now rewrite Hr0. }
  cbv zeta. destruct (first_throw _ _); [exact E|].
  destruct (first_throw _ _); exact E.
Qed.

(** No process is started by the [finally] block. *)
Lemma finally_rest_spawned runId fd reply w :
  spawned (host (snd (finally_rest runId fd reply w))) = spawned (host w).
Proof.
  rewrite finally_rest_eq, scraperRun_update_eq.
  destruct reply; [|reflexivity].
  destruct (has_run runId (db w)); [|reflexivity].
  cbv zeta. destruct (first_throw _ _); [reflexivity|].
  destruct (first_throw _ _); reflexivity.
Qed.

(** Once the pipeline has entered [finally], what is left of the run is
    the settlement of the last update. *)
Lemma drive_final runId scraperPath sc fd w :
  drive runId scraperPath sc (AwaitFinalUpdate fd, w)
  = after_final_update runId fd (snd (final_update sc))
      (calls (fst (final_update sc)) w).
Proof.
  unfold drive. simpl. unfold after_final_update.
  now destruct (finally_rest _ _ _ _).
Qed.

Lemma after_final_update_settled runId fd reply w :
  exists c, fst (after_final_update runId fd reply w) = Settled c.
Proof.
  unfold after_final_update. destruct (finally_rest _ _ _ _) as [c w'].
  now exists c.
Qed.

Lemma pipeline_enter_eq runId scraperPath w :
  pipeline_enter runId scraperPath w =
  let w1 := on_svc (set_pipelineStep Step.SCRAPING) w in
  let o := {| type := Kind.status;
              data := banner ("[STEP 1/3] Starting scraper (Run #"
                              ++ Text.of_Z runId ++ ")...");
              timestamp := clock (host w) |} in
  let w2 := on_host (record_broadcast o (listeners (svc w))) w1 in
  match first_throw o (listeners (svc w)) with
  | Some e => finally_enter Status.FAILED (Some (message_of e)) w2
  | None =>
      (AwaitCommand Scrape [],
       on_host (fun h =>
         set_spawned (spawned h ++ [stage_command Scrape scraperPath]) h) w2)
  end.
Proof.
  unfold pipeline_enter, try_segment, bind, modify. simpl.
  rewrite broadcast_now_eq, broadcast_eq. simpl.
  now destruct (first_throw _ _).
Qed.

(** The pipeline moves on to stage [st]: the step, the announcement, and
    the update it then awaits. *)
Lemma move_on_eq (st : Stage) w :
  try_segment (
    modify (on_svc (set_pipelineStep (stage_step st))) ;;
    broadcast_now Kind.status (stage_banner st) ;;
    ret (Suspend (AwaitStatusUpdate st))) w =
  let w1 := on_svc (set_pipelineStep (stage_step st)) w in
  let o := {| type := Kind.status; data := stage_banner st;
              timestamp := clock (host w) |} in
  let w2 := on_host (record_broadcast o (listeners (svc w))) w1 in
  match first_throw o (listeners (svc w)) with
  | Some e => finally_enter Status.FAILED (Some (message_of e)) w2
  | None => (AwaitStatusUpdate st, w2)
  end.
Proof.
  unfold try_segment, bind, modify. simpl.
  rewrite broadcast_now_eq, broadcast_eq. simpl.
  now destruct (first_throw _ _).
Qed.

Lemma after_scrape_eq r w :
  after_command Scrape r w =
  if auth_required (Result.output r)
  then finally_enter Status.AUTH_REQUIRED
         (Some "WhatsApp authentication required") w
  else if negb (Result.code r =? 0)
  then finally_enter Status.FAILED
         (Some ("Scraping failed with exit code "
                ++ Text.of_Z (Result.code r))%string) w
  else if abortRequested (svc w)
  then finally_enter Status.FAILED (Some "Pipeline aborted by user") w
  else
    try_segment (
      modify (on_svc (set_pipelineStep (stage_step Enrich))) ;;
      broadcast_now Kind.status (stage_banner Enrich) ;;
      ret (Suspend (AwaitStatusUpdate Enrich))) w.
Proof.
  unfold after_command.
  destruct (auth_required _); [reflexivity|].
  destruct (negb _); [reflexivity|].
  unfold try_segment at 1. unfold bind at 1. unfold gets.
  destruct (abortRequested (svc w)); reflexivity.
Qed.

Lemma after_enrich_eq r w :
  after_command Enrich r w =
  if negb (Result.code r =? 0)
  then finally_enter Status.ENRICHMENT_FAILED
         (Some ("Enrichment failed with exit code "
                ++ Text.of_Z (Result.code r))%string) w
  else if abortRequested (svc w)
  then finally_enter Status.FAILED (Some "Pipeline aborted by user") w
  else
    try_segment (
      modify (on_svc (set_pipelineStep (stage_step Process))) ;;
      broadcast_now Kind.status (stage_banner Process) ;;
      ret (Suspend (AwaitStatusUpdate Process))) w.
Proof.
  unfold after_command.
  destruct (negb _); [reflexivity|].
  unfold try_segment at 1. unfold bind at 1. unfold gets.
  destruct (abortRequested (svc w)); reflexivity.
Qed.

Lemma after_process_eq r w :
  after_command Process r w =
  if negb (Result.code r =? 0)
  then finally_enter Status.PROCESSING_FAILED
         (Some ("Database processing failed with exit code "
                ++ Text.of_Z (Result.code r))%string) w
  else finally_enter Status.COMPLETED None w.
Proof.
  unfold after_command. destruct (negb _); reflexivity.
Qed.

Lemma after_status_update_eq runId scraperPath st reply w :
  after_status_update runId scraperPath st reply w =
  match scraperRun_update runId (data_status (stage_status st)) reply w with
  | (Throw e, w1) => finally_enter Status.FAILED (Some (message_of e)) w1
  | (Normal _, w1) =>
      (AwaitCommand st [],
       on_host (fun h =>
         set_spawned (spawned h ++ [stage_command st scraperPath]) h) w1)
  end.
Proof.
  unfold after_status_update, try_segment. unfold bind at 1.
  now destruct (scraperRun_update _ _ _ _) as [[|] w1].
Qed.

(** What is left of a run that has entered [finally]: it settles, starts
    no process, and the store has the data of [finally] once the update is
    carried out. *)
Lemma drive_from_finally runId scraperPath sc fd w :
  let p := drive runId scraperPath sc (AwaitFinalUpdate fd, w) in
  (exists c, fst p = Settled c)
  /\ spawned (host (snd p)) = spawned (host w)
  /\ (snd (final_update sc) = Resolves -> has_run runId (db w) = true ->
      exists r0,
        find_run runId (db w) = Some r0
        /\ find_run runId (db (snd p)) = Some (data_final fd r0)).
Proof.
  cbv zeta. rewrite drive_final.
  pose proof (calls_calm (fst (final_update sc)) w) as Hc.
  split; [apply after_final_update_settled|]. split.
  - unfold after_final_update.
    pose proof (finally_rest_spawned runId fd (snd (final_update sc))
                  (calls (fst (final_update sc)) w)) as H.
    destruct (finally_rest _ _ _ _). simpl in *.
    now rewrite H, (calm_spawned _ _ Hc).
  - intros Hr Hrun. rewrite Hr. unfold after_final_update.
    rewrite <- (calm_db _ _ Hc) in Hrun.
    destruct (finally_rest_stored runId fd _ Hrun) as (r0 & H0 & H1).
    exists r0. rewrite <- (calm_db _ _ Hc). split; [assumption|].
    destruct (finally_rest _ _ _ _). exact H1.
Qed.

(** ** The course of a run *)

Lemma finally_enter_phase fs em w : phase (fst (finally_enter fs em w)) = 1%nat.
Proof. reflexivity. Qed.

Lemma move_on_phase st w :
  (phase (fst (try_segment (
    modify (on_svc (set_pipelineStep (stage_step st))) ;;
    broadcast_now Kind.status (stage_banner st) ;;
    ret (Suspend (AwaitStatusUpdate st))) w)) <= phase (AwaitStatusUpdate st))%nat.
Proof.
  rewrite move_on_eq. cbv zeta. destruct (first_throw _ _); simpl; destruct st; simpl; lia.
Qed.

Lemma after_command_phase st r w :
  (phase (fst (after_command st r w)) < phase (AwaitCommand st []))%nat.
Proof.
  destruct st.
  - rewrite after_scrape_eq.
    destruct (auth_required _); [simpl; lia|].
    destruct (negb _); [simpl; lia|].
    destruct (abortRequested _); [simpl; lia|].
    pose proof (move_on_phase Enrich w). simpl in *. lia.
  - rewrite after_enrich_eq.
    destruct (negb _); [simpl; lia|].
    destruct (abortRequested _); [simpl; lia|].
    pose proof (move_on_phase Process w). simpl in *. lia.
  - rewrite after_process_eq. destruct (negb _); simpl; lia.
Qed.

Lemma advance_phase runId scraperPath sc p :
  (phase (fst (advance runId scraperPath sc p)) <= pred (phase (fst p)))%nat.
Proof.
  destruct p as [a w]. destruct a as [st co|st|fd| |c]; simpl fst.
  - cbn [advance]. unfold feed_command.
    destruct (child_events _ _) as [co1 w1].
    destruct (child_end _ _ _) as [[r|] w2].
    + pose proof (after_command_phase st r w2). destruct st; simpl in *; lia.
    + simpl. lia.
  - cbn [advance]. rewrite after_status_update_eq.
    destruct (scraperRun_update _ _ _ _) as [[|] w1]; destruct st; simpl; lia.
  - cbn [advance]. unfold after_final_update.
    destruct (finally_rest _ _ _ _). simpl. lia.
  - simpl. lia.
  - simpl. lia.
Qed.

Lemma iter_phase runId scraperPath sc n p :
  (phase (fst (Nat.iter n (advance runId scraperPath sc) p))
   <= phase (fst p) - n)%nat.
Proof.
  induction n as [|n IH]; simpl; [lia|].
  pose proof (advance_phase runId scraperPath sc
                (Nat.iter n (advance runId scraperPath sc) p)). lia.
Qed.

Lemma advance_at_rest runId0 scraperPath sc p :
  phase (fst p) = 0%nat -> advance runId0 scraperPath sc p = p.
Proof.
  destruct p as [a w]. destruct a as [st co|st|fd| |c]; simpl;
    try (destruct st; discriminate); try discriminate; reflexivity.
Qed.

Lemma iter_succ_r {A} (f : A -> A) n x :
  Nat.iter (S n) f x = Nat.iter n f (f x).
Proof. induction n as [|n IH]; simpl in *; congruence. Qed.

(** The end of a run is the same from whichever [await] one follows it:
    what is proved from the resumption after a stage holds for every run
    that comes to that point. *)
Lemma drive_advance runId0 scraperPath sc p :
  (phase (fst p) <= 6)%nat ->
  drive runId0 scraperPath sc (advance runId0 scraperPath sc p)
  = drive runId0 scraperPath sc p.
Proof.
  intros H. unfold drive. rewrite <- iter_succ_r.
  change (Nat.iter 7 (advance runId0 scraperPath sc) p)
    with (advance runId0 scraperPath sc
            (Nat.iter 6 (advance runId0 scraperPath sc) p)).
  apply advance_at_rest.
  pose proof (iter_phase runId0 scraperPath sc 6 p). lia.
Qed.

Lemma pipeline_enter_phase runId0 scraperPath w :
  (phase (fst (pipeline_enter runId0 scraperPath w)) <= 6)%nat.
Proof.
  rewrite pipeline_enter_eq. cbv zeta. destruct (first_throw _ _); simpl; lia.
Qed.

Lemma run_from_any_await runId0 scraperPath sc w k :
  runFullPipeline runId0 scraperPath sc w
  = drive runId0 scraperPath sc
      (Nat.iter k (advance runId0 scraperPath sc)
         (pipeline_enter runId0 scraperPath w)).
Proof.
  unfold runFullPipeline. induction k as [|k IH]; [reflexivity|].
  change (Nat.iter (S k) (advance runId0 scraperPath sc)
            (pipeline_enter runId0 scraperPath w))
    with (advance runId0 scraperPath sc
            (Nat.iter k (advance runId0 scraperPath sc)
               (pipeline_enter runId0 scraperPath w))).
  rewrite drive_advance; [exact IH|].
  pose proof (iter_phase runId0 scraperPath sc k
                (pipeline_enter runId0 scraperPath w)).
  pose proof (pipeline_enter_phase runId0 scraperPath w). lia.
Qed.

Lemma run_through runId0 scraperPath sc w k p :
  Nat.iter k (advance runId0 scraperPath sc)
    (pipeline_enter runId0 scraperPath w) = p ->
  runFullPipeline runId0 scraperPath sc w = drive runId0 scraperPath sc p.
Proof. intros <-. apply run_from_any_await. Qed.

(** The same for a run that has come to the command of stage [st]. *)
Lemma run_through_command runId0 scraperPath sc w k st co w1 :
  Nat.iter k (advance runId0 scraperPath sc)
    (pipeline_enter runId0 scraperPath w) = (AwaitCommand st co, w1) ->
  runFullPipeline runId0 scraperPath sc w
  = drive runId0 scraperPath sc (feed_command st co (trace_of sc st) w1).
Proof.
  intros H. apply run_through with (S k).
  change (Nat.iter (S k) (advance runId0 scraperPath sc)
            (pipeline_enter runId0 scraperPath w))
    with (advance runId0 scraperPath sc
            (Nat.iter k (advance runId0 scraperPath sc)
               (pipeline_enter runId0 scraperPath w))).
  now rewrite H.
Qed.

(** What [startScraper] leaves behind is the run of [runFullPipeline] from
    a world that has the row of the run. *)
Lemma started_run trig w c t w' :
  startScraper_resume trig Resolves w = (c, Some t, w') ->
  exists w2,
    (task_at t, w') = pipeline_enter (task_runId t) (task_scraperPath t) w2
    /\ has_run (task_runId t) (db w2) = true
    /\ listeners (svc w2) = listeners (svc w)
    /\ published (host w2) = published (host w).
Proof.
  unfold startScraper_resume. rewrite scraperRun_create_eq. cbv zeta.
  cbn [id].
  match goal with
  | |- context [pipeline_enter ?i ?p ?w1] =>
      destruct (pipeline_enter i p w1) as [a w3] eqn:E;
      intros [= <- <- <-]; exists w1
  end.
  cbn [task_at task_runId task_scraperPath].
  split; [now rewrite <- E|]. split; [|now split].
  unfold has_run. simpl. rewrite existsb_app. simpl.
  now rewrite Z.eqb_refl, orb_true_r.
Qed.

(** A run started by [startScraper] has its row, and is the current
    run. *)
Lemma startScraper_resume_has_run trig w c t w' :
  startScraper_resume trig Resolves w = (c, Some t, w') ->
  has_run (task_runId t) (db w') = true
  /\ currentRunId (svc w') = Some (task_runId t)
  /\ c = Normal {| runId := task_runId t; error := None |}.
Proof.
  unfold startScraper_resume. simpl. rewrite pipeline_enter_eq. cbv zeta.
  unfold has_run.
  destruct (first_throw _ _); intros [= <- <- <-]; simpl;
    rewrite existsb_app; simpl; rewrite Z.eqb_refl, orb_true_r; auto.
Qed.

(** ** Outcomes of the stages *)

(** C3: when the command of stage 1 resolves with an output that holds the
    marker, whatever its exit code, the pipeline enters [finally] with the
    status [AUTH_REQUIRED]; from there to the settlement of the run no
    process is spawned, so the commands of stages 2 and 3 are never started;
    and the store holds [AUTH_REQUIRED] for the run once the last update is
    carried out.  Every run that resumes in this way after stage 1 ends as
    described. *)
Theorem auth_required_ends_run (runId0 : Z) (scraperPath : string)
  (sc : Script) (r : Result.t) (w : World) :
  auth_required (Result.output r) = true ->
  let fd := final_data Status.AUTH_REQUIRED
              (Some "WhatsApp authentication required") w in
  let p := drive runId0 scraperPath sc (after_command Scrape r w) in
  after_command Scrape r w = (AwaitFinalUpdate fd, w)
  /\ fd_status fd = Status.AUTH_REQUIRED
  /\ (exists c, fst p = Settled c)
  /\ spawned (host (snd p)) = spawned (host w)
  /\ (snd (final_update sc) = Resolves -> has_run runId0 (db w) = true ->
      exists r', find_run runId0 (db (snd p)) = Some r'
                 /\ status r' = Status.AUTH_REQUIRED
                 /\ errorMessage r' = Some "WhatsApp authentication required")
  /\ (forall w0 k,
        Nat.iter k (advance runId0 scraperPath sc)
          (pipeline_enter runId0 scraperPath w0) = after_command Scrape r w ->
        runFullPipeline runId0 scraperPath sc w0 = p).
Proof.
  intros Hauth fd p.
  assert (after_command Scrape r w = (AwaitFinalUpdate fd, w)) as E
    by (rewrite after_scrape_eq, Hauth; reflexivity).
  destruct (drive_from_finally runId0 scraperPath sc fd w) as (H1 & H2 & H3).
  subst p. rewrite E.
  split; [reflexivity|]. split; [reflexivity|]. split; [assumption|].
  split; [assumption|]. split.
  - intros Hr Hrun. destruct (H3 Hr Hrun) as (r0 & _ & Hr0).
    exists (data_final fd r0). now split.
  - intros w0 k Hk. now apply run_through with k.
Qed.

(** A whole run: the scraper prints the request to scan the QR code and
    exits with 0. *)
Lemma auth_required_ends_run_witness :
  let w0 := fresh_world
    {| scraperRun := [{| id := 1; status := Status.RUNNING;
                         triggerType := MANUAL; startedAt := 0;
                         completedAt := None; output := None;
                         errorMessage := None; sellersProcessed := 0;
                         productsScraped := 0 |}];
       nextId := 2; schedulerConfig := None |} 0 "/srv/gpt" in
  let quiet := {| events := []; ending := Close (Some 0) |} in
  let sc := {| scrape_trace :=
                 {| events := [Stdout "Please scan QR code to log in"];
                    ending := Close (Some 0) |};
               enrich_update := ([], Resolves); enrich_trace := quiet;
               process_update := ([], Resolves); process_trace := quiet;
               final_update := ([], Resolves) |} in
  let p := runFullPipeline 1 "/srv/gpt" sc w0 in
  fst p = Settled (Normal tt)
  /\ spawned (host (snd p)) = [stage_command Scrape "/srv/gpt"]
  /\ option_map status (find_run 1 (db (snd p))) = Some Status.AUTH_REQUIRED.
Proof.
  intros w0 quiet sc p.
  pose (w1 := snd (child_events (events (scrape_trace sc))
                     ([], snd (pipeline_enter 1 "/srv/gpt" w0)))).
  pose (r := {| Result.code := 0;
                Result.output := "Please scan QR code to log in" |}).
  destruct (auth_required_ends_run 1 "/srv/gpt" sc r w1 eq_refl)
    as (_ & _ & _ & Hs & Hdb & Hrun).
  destruct (Hdb eq_refl eq_refl) as (r' & Hr' & Hst & _).
  assert (p = drive 1 "/srv/gpt" sc (after_command Scrape r w1)) as ->
    by (apply (Hrun w0 1%nat); reflexivity).
  split; [reflexivity|]. split.
  - rewrite Hs. reflexivity.
  - now rewrite Hr', <- Hst.
Defined.

(** C7: when the enrichment command, started after a successful stage 1,
    resolves with a non-zero exit code, the pipeline enters [finally] with
    the status [ENRICHMENT_FAILED] and the time of completion; from there to
    the settlement of the run no process is spawned, so the command of
    stage 3 is never started; and the store holds the status and
    [completedAt] for the run once the last update is carried out.  Every
    run that resumes in this way after stage 2 ends as described. *)
Theorem enrichment_failure_ends_run (runId0 : Z) (scraperPath : string)
  (sc : Script) (r : Result.t) (w : World) :
  Result.code r <> 0 ->
  let fd := final_data Status.ENRICHMENT_FAILED
              (Some ("Enrichment failed with exit code "
                     ++ Text.of_Z (Result.code r))%string) w in
  let p := drive runId0 scraperPath sc (after_command Enrich r w) in
  after_command Enrich r w = (AwaitFinalUpdate fd, w)
  /\ fd_status fd = Status.ENRICHMENT_FAILED
  /\ fd_completedAt fd = clock (host w)
  /\ (exists c, fst p = Settled c)
  /\ spawned (host (snd p)) = spawned (host w)
  /\ (snd (final_update sc) = Resolves -> has_run runId0 (db w) = true ->
      exists r', find_run runId0 (db (snd p)) = Some r'
                 /\ status r' = Status.ENRICHMENT_FAILED
                 /\ completedAt r' = Some (clock (host w)))
  /\ (forall w0 k,
        Nat.iter k (advance runId0 scraperPath sc)
          (pipeline_enter runId0 scraperPath w0) = after_command Enrich r w ->
        runFullPipeline runId0 scraperPath sc w0 = p).
Proof.
  intros Hcode fd p.
  assert (after_command Enrich r w = (AwaitFinalUpdate fd, w)) as E.
  { rewrite after_enrich_eq. apply Z.eqb_neq in Hcode. now rewrite Hcode. }
  destruct (drive_from_finally runId0 scraperPath sc fd w) as (H1 & H2 & H3).
  subst p. rewrite E.
  split; [reflexivity|]. split; [reflexivity|]. split; [reflexivity|].
  split; [assumption|]. split; [assumption|]. split.
  - intros Hr Hrun. destruct (H3 Hr Hrun) as (r0 & _ & Hr0).
    exists (data_final fd r0). now split.
  - intros w0 k Hk. now apply run_through with k.
Qed.

(** A whole run: the scraper succeeds and [npm run enrich] exits with 1. *)
Lemma enrichment_failure_ends_run_witness :
  let w0 := fresh_world
    {| scraperRun := [{| id := 1; status := Status.RUNNING;
                         triggerType := MANUAL; startedAt := 0;
                         completedAt := None; output := None;
                         errorMessage := None; sellersProcessed := 0;
                         productsScraped := 0 |}];
       nextId := 2; schedulerConfig := None |} 5 "/srv/gpt" in
  let quiet := {| events := []; ending := Close (Some 0) |} in
  let sc := {| scrape_trace := quiet;
               enrich_update := ([], Resolves);
               enrich_trace :=
                 {| events := [Stderr "rate limited"];
                    ending := Close (Some 1) |};
               process_update := ([], Resolves); process_trace := quiet;
               final_update := ([], Resolves) |} in
  let p := runFullPipeline 1 "/srv/gpt" sc w0 in
  fst p = Settled (Normal tt)
  /\ spawned (host (snd p))
     = [stage_command Scrape "/srv/gpt"; stage_command Enrich "/srv/gpt"]
  /\ (exists r', find_run 1 (db (snd p)) = Some r'
                 /\ status r' = Status.ENRICHMENT_FAILED
                 /\ completedAt r' = Some 5).
Proof.
  intros w0 quiet sc p.
  pose (w1 := snd (child_events (events (enrich_trace sc))
    ([], snd (Nat.iter 2 (advance 1 "/srv/gpt" sc)
               (pipeline_enter 1 "/srv/gpt" w0))))).
  pose (r := {| Result.code := 1; Result.output := "[ERROR] rate limited" |}).
  assert (Result.code r <> 0) as Hcode by discriminate.
  destruct (enrichment_failure_ends_run 1 "/srv/gpt" sc r w1 Hcode)
    as (_ & _ & _ & _ & Hs & Hdb & Hrun).
  assert (p = drive 1 "/srv/gpt" sc (after_command Enrich r w1)) as ->
    by (apply (Hrun w0 3%nat); reflexivity).
  split; [reflexivity|]. split.
  - rewrite Hs. reflexivity.
  - exact (Hdb eq_refl eq_refl).
Defined.

(** ** Abort requests *)

Lemma child_events_app evs1 evs2 st :
  child_events (evs1 ++ evs2) st = child_events evs2 (child_events evs1 st).
Proof. unfold child_events. apply fold_left_app. Qed.

Lemma isRunning_step w :
  isRunning w = negb (Step.eqb (pipelineStep (svc w)) Step.IDLE).
Proof. reflexivity. Qed.

(** [stopScraper] during a run: the abort is requested whatever happens
    next; [true] is returned unless a subscriber throws on the warning, in
    which case the call throws. *)
Lemma stopScraper_running w :
  isRunning w = true ->
  abortRequested (svc (effect stopScraper w)) = true
  /\ fst (stopScraper w) <> Normal false
  /\ (quiet_on (abort_warning_event w) (listeners (svc w)) ->
      fst (stopScraper w) = Normal true).
Proof.
  intros H. unfold effect. rewrite stopScraper_eq, H. cbv zeta.
  fold (abort_warning_event w). simpl. repeat split.
  - destruct (first_throw _ _); discriminate.
  - intros Hq. now destruct (quiet_called _ _ Hq) as [_ ->].
Qed.

Lemma stopScraper_idle w :
  isRunning w = false -> stopScraper w = (Normal false, w).
Proof. intros H. now rewrite stopScraper_eq, H. Qed.

(** A call of [stopScraper] among the events of a stage leaves the abort
    requested at the end of the stage. *)
Lemma stop_during_stage evs co w :
  isRunning w = true -> In (Meanwhile CallStop) evs ->
  abortRequested (svc (snd (child_events evs (co, w)))) = true.
Proof.
  intros Hrun Hin. apply in_split in Hin. destruct Hin as (l1 & l2 & ->).
  rewrite child_events_app, child_events_cons.
  pose proof (child_events_calm l1 co w) as H1.
  destruct (child_events l1 (co, w)) as [co1 w1]. simpl in H1.
  assert (isRunning w1 = true) as Hrun1.
  { rewrite isRunning_step in *. now rewrite (calm_step _ _ H1). }
  cbn [child_event].
  pose proof (child_events_calm l2 co1 (call CallStop w1)) as H2.
  apply (calm_abort _ _ H2). now apply call_stop_requests.
Qed.

(** The stage ends with ['close']: [runCommand] resolves with the exit code
    and the joined output of the child. *)
Lemma feed_command_close st co tr w exitCode :
  ending tr = Close exitCode ->
  feed_command st co tr w
  = after_command st
      {| Result.code := match exitCode with Some c => c | None => 1 end;
         Result.output := Text.join (co ++ flat_map stored_text (events tr)) |}
      (snd (child_events (events tr) (co, w))).
Proof.
  intros He. unfold feed_command.
  destruct (child_events_text (events tr) co w) as (H1 & _).
  destruct (child_events _ _) as [co1 w1]. simpl in *.
  now rewrite He, H1.
Qed.

Lemma drive_stalled runId scraperPath sc w :
  drive runId scraperPath sc (Stalled, w) = (Stalled, w).
Proof. reflexivity. Qed.

(** What a call of [stopScraper] made after the events [before] of a
    stage does: the step is still that of the stage, the abort is
    requested, and the call returns [true] (it throws instead when a
    subscriber throws on the warning; it never returns [false]). *)
Lemma stop_call_during_stage (st : Step.t) before co w :
  pipelineStep (svc w) = st -> st <> Step.IDLE ->
  let w' := snd (child_events before (co, w)) in
  pipelineStep (svc w') = st
  /\ abortRequested (svc (effect stopScraper w')) = true
  /\ fst (stopScraper w') <> Normal false
  /\ (quiet_on (abort_warning_event w') (listeners (svc w')) ->
      fst (stopScraper w') = Normal true).
Proof.
  intros Hst Hne w'.
  pose proof (child_events_calm before co w) as Hc. fold w' in Hc.
  assert (pipelineStep (svc w') = st) as Hst'
    by now rewrite (calm_step _ _ Hc).
  split; [assumption|]. apply stopScraper_running.
  rewrite isRunning_step, Hst'. now destruct st.
Qed.

(** C9: [stopScraper] is called while stage 3 runs (the step is
    [PROCESSING]) and the command then exits with 0.  The call registers the
    abort and returns [true] (a subscriber throwing on the warning makes it
    throw instead, the abort registered); all the same the pipeline enters
    [finally]
    with the status [COMPLETED] and no error message, the abort still
    requested at that point, and the store holds [COMPLETED] once the last
    update is carried out.  Every run that comes to stage 3 and goes
    through it in this way ends as described. *)
Theorem abort_during_processing_ignored (runId0 : Z) (scraperPath : string)
  (sc : Script) (commandOutput : list string) (tr : ChildTrace) (w : World) :
  pipelineStep (svc w) = Step.PROCESSING ->
  In (Meanwhile CallStop) (events tr) ->
  ending tr = Close (Some 0) ->
  let w1 := snd (child_events (events tr) (commandOutput, w)) in
  let fd := final_data Status.COMPLETED None w1 in
  let p := drive runId0 scraperPath sc
             (feed_command Process commandOutput tr w) in
  (forall before after,
     events tr = before ++ Meanwhile CallStop :: after ->
     let w' := snd (child_events before (commandOutput, w)) in
     pipelineStep (svc w') = Step.PROCESSING
     /\ abortRequested (svc (effect stopScraper w')) = true
     /\ fst (stopScraper w') <> Normal false
     /\ (quiet_on (abort_warning_event w') (listeners (svc w')) ->
         fst (stopScraper w') = Normal true))
  /\ abortRequested (svc w1) = true
  /\ feed_command Process commandOutput tr w = (AwaitFinalUpdate fd, w1)
  /\ fd_status fd = Status.COMPLETED
  /\ fd_errorMessage fd = None
  /\ (exists c, fst p = Settled c)
  /\ (snd (final_update sc) = Resolves -> has_run runId0 (db w) = true ->
      exists r', find_run runId0 (db (snd p)) = Some r'
                 /\ status r' = Status.COMPLETED
                 /\ errorMessage r' = None)
  /\ (forall w0 k,
        tr = trace_of sc Process ->
        Nat.iter k (advance runId0 scraperPath sc)
          (pipeline_enter runId0 scraperPath w0)
        = (AwaitCommand Process commandOutput, w) ->
        runFullPipeline runId0 scraperPath sc w0 = p).
Proof.
  intros Hstep Hin Hend w1 fd p.
  assert (feed_command Process commandOutput tr w = (AwaitFinalUpdate fd, w1))
    as E.
  { rewrite (feed_command_close _ _ _ _ _ Hend), after_process_eq.
    reflexivity. }
  destruct (drive_from_finally runId0 scraperPath sc fd w1) as (H1 & _ & H3).
  split.
  { intros before after _. now apply stop_call_during_stage. }
  split.
  { apply stop_during_stage; [|assumption].
    rewrite isRunning_step, Hstep. reflexivity. }
  split; [assumption|]. split; [reflexivity|]. split; [reflexivity|].
  subst p. split; [|split].
  - now rewrite E.
  - rewrite E. intros Hr Hrun.
    pose proof (child_events_calm (events tr) commandOutput w) as Hc.
    fold w1 in Hc. rewrite <- (calm_db _ _ Hc) in Hrun.
    destruct (H3 Hr Hrun) as (r0 & _ & Hr0).
    exists (data_final fd r0). now split.
  - intros w0 k -> Hk. now apply run_through_command with k.
Qed.

(** Stage 3 of a run, with a subscriber listening: a line of output, the
    call of [stopScraper], another line, exit code 0. *)
Lemma abort_during_processing_ignored_witness :
  let cb := {| cb_id := 1; cb_body := fun _ => None |} in
  let w0 := subscribe cb (fresh_world
    {| scraperRun := [{| id := 1; status := Status.PROCESSING;
                         triggerType := MANUAL; startedAt := 0;
                         completedAt := None; output := None;
                         errorMessage := None; sellersProcessed := 0;
                         productsScraped := 0 |}];
       nextId := 2; schedulerConfig := None |} 5 "/srv/gpt") in
  let w := on_svc (fun s =>
    set_pipelineStep Step.PROCESSING (set_currentRunId (Some 1) s)) w0 in
  let tr := {| events := [Stdout "Syncing"; Meanwhile CallStop;
                          Stdout "Synced"];
               ending := Close (Some 0) |} in
  let quiet := {| events := []; ending := Close (Some 0) |} in
  let sc := {| scrape_trace := quiet;
               enrich_update := ([], Resolves); enrich_trace := quiet;
               process_update := ([], Resolves); process_trace := tr;
               final_update := ([], Resolves) |} in
  let w' := snd (child_events [Stdout "Syncing"] ([], w)) in
  let p := drive 1 "/srv/gpt" sc (feed_command Process [] tr w) in
  fst (stopScraper w') = Normal true
  /\ (exists r', find_run 1 (db (snd p)) = Some r'
                 /\ status r' = Status.COMPLETED /\ errorMessage r' = None).
Proof.
  intros cb w0 w tr quiet sc w' p.
  assert (In (Meanwhile CallStop) (events tr)) as Hin
    by (right; left; reflexivity).
  destruct (abort_during_processing_ignored 1 "/srv/gpt" sc [] tr w
              eq_refl Hin eq_refl) as (Hstop & _ & _ & _ & _ & _ & Hdb & _).
  split.
  - destruct (Hstop [Stdout "Syncing"] [Stdout "Synced"] eq_refl)
      as (_ & _ & _ & Hq).
    apply Hq. repeat constructor.
  - exact (Hdb eq_refl eq_refl).
Defined.

(** C6 as the spec has it fails: [stopScraper] is called during stage 1 and
    returns [true], the scraper exits with 0, and its output asks for the QR
    code: the run ends as [AUTH_REQUIRED], not as an abort. *)
Lemma abort_during_scraping_loses_to_auth_marker :
  let w0 := fresh_world
    {| scraperRun := [{| id := 1; status := Status.RUNNING;
                         triggerType := MANUAL; startedAt := 0;
                         completedAt := None; output := None;
                         errorMessage := None; sellersProcessed := 0;
                         productsScraped := 0 |}];
       nextId := 2; schedulerConfig := None |} 5 "/srv/gpt" in
  let w := snd (pipeline_enter 1 "/srv/gpt" w0) in
  let tr := {| events := [Meanwhile CallStop;
                          Stdout "Please scan QR code to log in"];
               ending := Close (Some 0) |} in
  let quiet := {| events := []; ending := Close (Some 0) |} in
  let sc := {| scrape_trace := tr;
               enrich_update := ([], Resolves); enrich_trace := quiet;
               process_update := ([], Resolves); process_trace := quiet;
               final_update := ([], Resolves) |} in
  let p := drive 1 "/srv/gpt" sc (feed_command Scrape [] tr w) in
  pipelineStep (svc w) = Step.SCRAPING
  /\ fst (stopScraper w) = Normal true
  /\ fst p = Settled (Normal tt)
  /\ (exists r', find_run 1 (db (snd p)) = Some r'
                 /\ status r' = Status.AUTH_REQUIRED
                 /\ errorMessage r' = Some "WhatsApp authentication required"
                 /\ errorMessage r' <> Some "Pipeline aborted by user").
Proof.
  cbv zeta. split; [reflexivity|]. split; [reflexivity|].
  split; [reflexivity|]. eexists. split; [reflexivity|].
  split; [reflexivity|]. split; [reflexivity|]. discriminate.
Qed.

(** ** Every run comes to its end *)

Lemma set_add_incl cb cbs known :
  incl cbs known -> In cb known -> incl (set_add cb cbs) known.
Proof.
  intros H Hcb. unfold set_add. destruct (has_listener _ _); [assumption|].
  apply incl_app; [assumption|]. intros x [<-|[]]. assumption.
Qed.

Lemma set_delete_incl i cbs known :
  incl cbs known -> incl (set_delete i cbs) known.
Proof.
  intros H x Hx. apply H. unfold set_delete in Hx.
  now apply filter_In in Hx.
Qed.

Lemma call_listeners c w known :
  incl (listeners (svc w)) known -> incl (call_callbacks c) known ->
  incl (listeners (svc (call c w))) known.
Proof.
  intros H Hc. destruct c; simpl.
  - unfold effect. rewrite stopScraper_eq. now destruct (isRunning w).
  - apply set_add_incl; [assumption|]. apply Hc. now left.
  - now apply set_delete_incl.
  - assumption.
Qed.

Lemma calls_listeners cs w known :
  incl (listeners (svc w)) known -> incl (flat_map call_callbacks cs) known ->
  incl (listeners (svc (calls cs w))) known.
Proof.
  revert w. induction cs as [|c cs IH]; intros w H Hc; simpl; [assumption|].
  simpl in Hc. apply incl_app_inv in Hc. destruct Hc as [Hc1 Hc2].
  apply IH; [|assumption]. now apply call_listeners.
Qed.

Lemma child_event_listeners ev co w known :
  incl (listeners (svc w)) known -> incl (event_callbacks ev) known ->
  incl (listeners (svc (snd (child_event ev (co, w))))) known.
Proof.
  intros H Hc. destruct ev; simpl.
  - now rewrite onStdout_eq.
  - now rewrite onStderr_eq.
  - now apply call_listeners.
Qed.

Lemma child_events_listeners evs co w known :
  incl (listeners (svc w)) known ->
  incl (flat_map event_callbacks evs) known ->
  incl (listeners (svc (snd (child_events evs (co, w))))) known.
Proof.
  revert co w. induction evs as [|ev evs IH]; intros co w H Hc;
    [assumption|].
  rewrite child_events_cons. simpl in Hc. apply incl_app_inv in Hc.
  destruct Hc as [Hc1 Hc2].
  pose proof (child_event_listeners ev co w known H Hc1) as H1.
  destruct (child_event ev (co, w)) as [co1 w1]. now apply IH.
Qed.

Lemma has_run_map runId0 f d :
  (forall r, id (f r) = id r) ->
  has_run runId0 (set_scraperRun (map f (scraperRun d)) d) = has_run runId0 d.
Proof.
  intros Hf. unfold has_run. simpl.
  induction (scraperRun d) as [|r rows IH]; simpl; [reflexivity|].
  now rewrite Hf, IH.
Qed.

Section Run.

Variables (runId0 : Z) (scraperPath : string) (sc : Script).
Variables (before : list ScraperOutput) (known : list OutputCallback).

Hypothesis final_resolves : snd (final_update sc) = Resolves.
Hypothesis script_known : incl (script_callbacks sc) known.
Hypothesis known_quiet :
  forall cb, In cb known -> forall o, vital o -> cb_body cb o = None.

Lemma quiet_vital o w :
  incl (listeners (svc w)) known -> vital o -> quiet_on o (listeners (svc w)).
Proof.
  intros H Hv. apply Forall_forall. intros cb Hcb.
  apply known_quiet; [now apply H|assumption].
Qed.

Lemma trace_known st :
  incl (flat_map event_callbacks (events (trace_of sc st))) known.
Proof.
  intros x Hx. apply script_known. unfold script_callbacks.
  destruct st; simpl in Hx; rewrite !in_app_iff; tauto.
Qed.

Lemma update_known st :
  incl (flat_map call_callbacks (fst (update_of sc st))) known.
Proof.
  intros x Hx. apply script_known. unfold script_callbacks.
  destruct st; simpl in Hx; rewrite !in_app_iff; tauto.
Qed.

Lemma final_known :
  incl (flat_map call_callbacks (fst (final_update sc))) known.
Proof.
  intros x Hx. apply script_known. unfold script_callbacks.
  rewrite !in_app_iff; tauto.
Qed.

Lemma calm_under_way w w' :
  calm w w' -> incl (listeners (svc w')) known ->
  under_way runId0 before known w -> under_way runId0 before known w'.
Proof.
  intros Hc Hl (H1 & H2 & _). repeat split.
  - now rewrite (calm_db _ _ Hc).
  - now rewrite (calm_complete _ _ Hc).
  - assumption.
Qed.

Lemma finally_enter_on_course fs em w :
  under_way runId0 before known w ->
  Status.non_terminal fs = false ->
  (fs = Status.COMPLETED <-> em = None) ->
  on_course runId0 before known (finally_enter fs em w).
Proof.
  intros Hu Hfs Hem. unfold on_course, finally_enter. simpl.
  split; [assumption|]. unfold sound_final. simpl. tauto.
Qed.

Lemma failed_on_course e w :
  under_way runId0 before known w ->
  on_course runId0 before known
    (finally_enter Status.FAILED (Some e) w).
Proof.
  intros Hu. apply finally_enter_on_course; [assumption|reflexivity|].
  split; discriminate.
Qed.

(** A broadcast of a status event and a change of step on the way. *)
Lemma announce_under_way st o w :
  type o = Kind.status ->
  under_way runId0 before known w ->
  under_way runId0 before known
    (on_host (record_broadcast o (listeners (svc w)))
       (on_svc (set_pipelineStep st) w)).
Proof.
  intros Ho (H1 & H2 & H3). repeat split; simpl; try assumption.
  rewrite complete_events_snoc; [assumption|]. rewrite Ho. discriminate.
Qed.

Lemma move_on_on_course st w :
  under_way runId0 before known w ->
  on_course runId0 before known (try_segment (
    modify (on_svc (set_pipelineStep (stage_step st))) ;;
    broadcast_now Kind.status (stage_banner st) ;;
    ret (Suspend (AwaitStatusUpdate st))) w).
Proof.
  intros Hu. rewrite move_on_eq. cbv zeta.
  pose proof (announce_under_way (stage_step st)
    {| type := Kind.status; data := stage_banner st;
       timestamp := clock (host w) |} w eq_refl Hu) as Hu'.
  destruct (first_throw _ _).
  - now apply failed_on_course.
  - exact Hu'.
Qed.

Lemma after_command_on_course st r w :
  under_way runId0 before known w ->
  on_course runId0 before known (after_command st r w).
Proof.
  intros Hu. destruct st.
  - rewrite after_scrape_eq.
    destruct (auth_required _).
    { apply finally_enter_on_course; [assumption|reflexivity|].
      split; discriminate. }
    destruct (negb _); [now apply failed_on_course|].
    destruct (abortRequested _); [now apply failed_on_course|].
    now apply move_on_on_course.
  - rewrite after_enrich_eq.
    destruct (negb _).
    { apply finally_enter_on_course; [assumption|reflexivity|].
      split; discriminate. }
    destruct (abortRequested _); [now apply failed_on_course|].
    now apply move_on_on_course.
  - rewrite after_process_eq. destruct (negb _).
    + apply finally_enter_on_course; [assumption|reflexivity|].
      split; discriminate.
    + apply finally_enter_on_course; [assumption|reflexivity|]. easy.
Qed.

Lemma child_end_resolves e co w :
  incl (listeners (svc w)) known ->
  exists r, child_end e co w = (Some r, snd (child_end e co w)).
Proof.
  intros Hl. destruct e; [simpl; eauto|]. cbn [child_end].
  rewrite broadcast_now_eq, broadcast_eq.
  assert (quiet_on {| type := Kind.stderr;
                      data := "Process error: " ++ message;
                      timestamp := clock (host w) |} (listeners (svc w))) as Hq
    by (apply quiet_vital; [assumption|
        left; split; [reflexivity|now exists message]]).
  destruct (quiet_called _ _ Hq) as [_ ->]. cbn [completion_of snd]. eauto.
Qed.

Lemma feed_command_on_course st co w :
  under_way runId0 before known w ->
  on_course runId0 before known (feed_command st co (trace_of sc st) w).
Proof.
  intros Hu. unfold feed_command.
  pose proof (child_events_calm (events (trace_of sc st)) co w) as Hc.
  pose proof (child_events_listeners (events (trace_of sc st)) co w known
                (proj2 (proj2 Hu)) (trace_known st)) as Hl.
  destruct (child_events _ _) as [co1 w1]. simpl in Hc, Hl.
  pose proof (child_end_calm (ending (trace_of sc st)) co1 w1) as He.
  destruct (child_end_resolves (ending (trace_of sc st)) co1 w1 Hl)
    as [r Hr].
  rewrite Hr. apply after_command_on_course.
  apply (calm_under_way w1); [assumption| |].
  - pose proof (calm_refl w1).
    destruct (ending (trace_of sc st)); [assumption|]. cbn [child_end].
    rewrite broadcast_now_eq, broadcast_eq.
    now destruct (completion_of _).
  - now apply (calm_under_way w).
Qed.

Lemma after_status_update_on_course st reply w :
  under_way runId0 before known w ->
  on_course runId0 before known
    (after_status_update runId0 scraperPath st reply w).
Proof.
  intros Hu. rewrite after_status_update_eq, scraperRun_update_eq.
  destruct reply; [|now apply failed_on_course].
  destruct Hu as (H1 & H2 & H3). rewrite H1. repeat split; simpl.
  - rewrite <- H1. apply has_run_map. intros r.
    now destruct (id r =? runId0).
  - assumption.
  - assumption.
Qed.

Lemma after_final_update_on_course fd w :
  under_way runId0 before known w -> sound_final fd w ->
  on_course runId0 before known
    (after_final_update runId0 fd Resolves w).
Proof.
  intros (H1 & H2 & H3) (S1 & S2 & S3). unfold after_final_update.
  rewrite finally_rest_eq, scraperRun_update_eq, H1. cbv zeta.
  match goal with
  | |- context [first_throw ?o (listeners (svc w))] =>
      assert (quiet_on o (listeners (svc w))) as Hq1
        by (apply quiet_vital; [assumption|
             right; right; split; [reflexivity|];
             exists (fd_status fd); reflexivity]);
      destruct (quiet_called _ _ Hq1) as [Hc1 ->]
  end.
  match goal with
  | |- context [first_throw ?o (listeners (svc w))] =>
      assert (quiet_on o (listeners (svc w))) as Hq2
        by (apply quiet_vital; [assumption|right; left; reflexivity]);
      destruct (quiet_called _ _ Hq2) as [Hc2 ->]
  end.
  unfold on_course. cbn [fst snd]. split; [reflexivity|].
  destruct (has_run_find _ _ H1) as [r0 Hr0].
  exists (data_final fd r0), (fd_completedAt fd), (clock (host w)).
  simpl. repeat split; try assumption.
  - unfold find_run in *. simpl. rewrite find_run_updated by reflexivity.
    now rewrite Hr0.
  - now rewrite S3.
  - apply S2.
  - apply S2.
  - unfold complete_events in *. rewrite !filter_app. simpl.
    now rewrite H2, app_nil_r.
Qed.

Lemma advance_on_course p :
  on_course runId0 before known p ->
  on_course runId0 before known (advance runId0 scraperPath sc p).
Proof.
  destruct p as [a w]. destruct a as [st co|st|fd| |c]; cbn [advance].
  - apply feed_command_on_course.
  - intros Hu. apply after_status_update_on_course.
    apply (calm_under_way w); [apply calls_calm| |assumption].
    apply calls_listeners; [apply Hu|apply update_known].
  - intros [Hu Hs]. rewrite final_resolves.
    apply after_final_update_on_course.
    + apply (calm_under_way w); [apply calls_calm| |assumption].
      apply calls_listeners; [apply Hu|apply final_known].
    + destruct Hs as (S1 & S2 & S3). repeat split; try assumption; try apply S2.
      now rewrite calls_buffer.
  - trivial.
  - trivial.
Qed.

Lemma pipeline_enter_on_course w :
  under_way runId0 before known w ->
  on_course runId0 before known (pipeline_enter runId0 scraperPath w).
Proof.
  intros Hu. rewrite pipeline_enter_eq. cbv zeta.
  match goal with
  | |- context [first_throw ?o _] =>
      pose proof (announce_under_way Step.SCRAPING o w eq_refl Hu) as Hu'
  end.
  destruct (first_throw _ _).
  - now apply failed_on_course.
  - destruct Hu' as (H1 & H2 & H3). now repeat split.
Qed.

Lemma iter_on_course n p :
  on_course runId0 before known p ->
  on_course runId0 before known
    (Nat.iter n (advance runId0 scraperPath sc) p).
Proof.
  intros H. induction n as [|n IH]; simpl; [assumption|].
  now apply advance_on_course.
Qed.

End Run.

Lemma on_course_settled runId0 before known p :
  on_course runId0 before known p -> phase (fst p) = 0%nat ->
  fst p = Settled (Normal tt) /\ finalized runId0 before (snd p).
Proof.
  unfold on_course. destruct (fst p) as [st co|st|fd| |c]; simpl;
    try (destruct st; discriminate); try discriminate; try contradiction.
  intros [-> H] _. now split.
Qed.

(** X27: [finally] completes whenever it can.  Take any run whose row
    exists, whose last update is carried out by the store, and none of
    whose subscribers throws on an event the run cannot finish without (one
    execution of [runFullPipeline], with the calls and the chunks that
    arrive meanwhile).  Whatever branch the run
    takes (completion, a failed stage, authentication required, an abort, or
    an exception thrown inside [try] by the store or by a subscriber), the
    promise of [runFullPipeline] is fulfilled after the [finally] block has
    run once: the row has a terminal status, [completedAt], the joined
    buffer as output, and an error message unless the status is
    [COMPLETED]; one ['complete'] event was published, its text the status
    of the row; and the service is idle, without a current run or a
    requested abort. *)
Theorem finalization_when_it_can_complete (runId0 : Z) (scraperPath : string)
  (sc : Script) (w : World) :
  has_run runId0 (db w) = true ->
  snd (final_update sc) = Resolves ->
  (forall cb, In cb (listeners (svc w) ++ script_callbacks sc) ->
     forall o, vital o -> cb_body cb o = None) ->
  let p := runFullPipeline runId0 scraperPath sc w in
  fst p = Settled (Normal tt)
  /\ finalized runId0 (complete_events (published (host w))) (snd p).
Proof.
  intros Hrun Hres Hq p. subst p. unfold runFullPipeline, drive.
  apply (on_course_settled runId0 _ (listeners (svc w) ++ script_callbacks sc)).
  - apply iter_on_course; try assumption.
    + apply incl_appr, incl_refl.
    + apply pipeline_enter_on_course. repeat split; try assumption.
      apply incl_appl, incl_refl.
  - pose proof (iter_phase runId0 scraperPath sc 6
                  (pipeline_enter runId0 scraperPath w)) as H.
    assert (phase (fst (pipeline_enter runId0 scraperPath w)) <= 6)%nat.
    { rewrite pipeline_enter_eq. cbv zeta.
      destruct (first_throw _ _); simpl; lia. }
    lia.
Qed.


(** A run in which the store rejects the update ahead of stage 2: the
    exception is caught, and [finally] completes. *)
Lemma finalization_when_it_can_complete_witness :
  let cb := {| cb_id := 1; cb_body := fun _ => None |} in
  let w := subscribe cb (fresh_world
    {| scraperRun := [{| id := 1; status := Status.RUNNING;
                         triggerType := MANUAL; startedAt := 0;
                         completedAt := None; output := None;
                         errorMessage := None; sellersProcessed := 0;
                         productsScraped := 0 |}];
       nextId := 2; schedulerConfig := None |} 5 "/srv/gpt") in
  let quiet := {| events := []; ending := Close (Some 0) |} in
  let sc := {| scrape_trace := quiet;
               enrich_update := ([], Rejects (ErrorObject "timed out"));
               enrich_trace := quiet;
               process_update := ([], Resolves); process_trace := quiet;
               final_update := ([Elapse 3], Resolves) |} in
  let p := runFullPipeline 1 "/srv/gpt" sc w in
  fst p = Settled (Normal tt) /\ finalized 1 [] (snd p).
Proof.
  intros cb w quiet sc p.
  apply (finalization_when_it_can_complete 1 "/srv/gpt" sc w).
  - reflexivity.
  - reflexivity.
  - intros cb' [<-|[]] o _. reflexivity.
Defined.

(** C2, at two inputs where the code fails.  The [finally] block is there
    to write the final data, to tell the subscribers and to reset the
    state whatever happened in [try]; it awaits the update and calls
    [broadcast] twice ahead of the reset, with no handler around them, and
    an exception of either leaves the block with the reset undone.  In the
    first run the store
    is unreachable from stage 2 on: the update ahead of stage 2 throws, the
    exception is caught, and the update of [finally] throws in its turn;
    the rest of [finally] is skipped.  In the second run a subscriber throws
    on status events: the exception of the first announcement is caught, the
    row is updated, and the summary throws again inside [finally].  Either
    way no ['complete'] event is published and the service stays in its
    step for good. *)
Lemma finalization_cut_short :
  let row := {| id := 1; status := Status.RUNNING;
                triggerType := MANUAL; startedAt := 0;
                completedAt := None; output := None;
                errorMessage := None; sellersProcessed := 0;
                productsScraped := 0 |} in
  let w := on_svc (set_currentRunId (Some 1)) (fresh_world
    {| scraperRun := [row]; nextId := 2; schedulerConfig := None |}
    5 "/srv/gpt") in
  let quiet := {| events := []; ending := Close (Some 0) |} in
  let down := Rejects (ErrorObject "Can't reach database server") in
  let sc1 := {| scrape_trace := quiet;
                enrich_update := ([], down); enrich_trace := quiet;
                process_update := ([], down); process_trace := quiet;
                final_update := ([], down) |} in
  let p1 := runFullPipeline 1 "/srv/gpt" sc1 w in
  let cb := {| cb_id := 1;
               cb_body := fun o =>
                 if Kind.eqb (type o) Kind.status
                 then Some (ErrorObject "stream closed") else None |} in
  let sc2 := {| scrape_trace := quiet;
                enrich_update := ([], Resolves); enrich_trace := quiet;
                process_update := ([], Resolves); process_trace := quiet;
                final_update := ([], Resolves) |} in
  let p2 := runFullPipeline 1 "/srv/gpt" sc2 (subscribe cb w) in
  (fst p1 = Settled (Throw (ErrorObject "Can't reach database server"))
   /\ isRunning (snd p1) = true
   /\ getCurrentStep (snd p1) = Step.ENRICHING
   /\ getCurrentRunId (snd p1) = Some 1
   /\ complete_events (published (host (snd p1))) = []
   /\ find_run 1 (db (snd p1)) = Some row)
  /\ (fst p2 = Settled (Throw (ErrorObject "stream closed"))
      /\ isRunning (snd p2) = true
      /\ getCurrentRunId (snd p2) = Some 1
      /\ complete_events (published (host (snd p2))) = []
      /\ option_map status (find_run 1 (db (snd p2))) = Some Status.FAILED).
Proof.
  cbv zeta. repeat split.
Qed.

(** ** The scheduler *)

Lemma nth_error_stop_nth j ts i :
  nth_error (stop_nth j ts) i
  = if Nat.eqb i j then option_map stopped (nth_error ts j)
    else nth_error ts i.
Proof.
  revert j i. induction ts as [|t ts IH]; intros j i.
  - destruct j, i; simpl; try reflexivity. now destruct (Nat.eqb i j).
  - destruct j as [|j], i as [|i]; simpl; try reflexivity. apply IH.
Qed.

Lemma nth_error_stop_task j h i :
  nth_error (cronTasks (stop_task j h)) i
  = if Nat.eqb i j then option_map stopped (nth_error (cronTasks h) j)
    else nth_error (cronTasks h) i.
Proof. apply nth_error_stop_nth. Qed.

Lemma stop_task_length j h :
  List.length (cronTasks (stop_task j h)) = List.length (cronTasks h).
Proof.
  unfold stop_task. simpl. generalize (cronTasks h). intros ts. revert j.
  induction ts as [|t ts IH]; intros [|j]; simpl; auto.
Qed.

Lemma no_timer_iff w :
  no_timer w <->
  forall j t, nth_error (cronTasks (host w)) j = Some t -> scheduled t = false.
Proof.
  unfold no_timer. rewrite Forall_forall. split.
  - intros H j t Hj. apply H. eapply nth_error_In. eassumption.
  - intros H t Ht. apply In_nth_error in Ht. destruct Ht as [j Hj]. eauto.
Qed.

Lemma stopScheduler_no_timer w :
  one_timer w ->
  scheduledTask (svc (stopScheduler w)) = None /\ no_timer (stopScheduler w)
  /\ List.length (cronTasks (host (stopScheduler w)))
     = List.length (cronTasks (host w)).
Proof.
  intros H. unfold stopScheduler.
  destruct (scheduledTask (svc w)) as [j|] eqn:E.
  - simpl. split; [reflexivity|]. split; [|apply stop_task_length].
    apply no_timer_iff. intros i t. simpl. rewrite nth_error_stop_nth.
    destruct (Nat.eqb_spec i j) as [->|Hne].
    + destruct (nth_error _ j); simpl; [|discriminate]. now intros [= <-].
    + intros Hi. destruct (scheduled t) eqn:Hs; [|reflexivity].
      pose proof (H i t Hi Hs). congruence.
  - split; [assumption|]. split; [|reflexivity].
    apply no_timer_iff. intros i t Hi.
    destruct (scheduled t) eqn:Hs; [|reflexivity].
    pose proof (H i t Hi Hs). congruence.
Qed.

Lemma no_timer_one_timer w : no_timer w -> one_timer w.
Proof.
  intros H j t Hj Hs. rewrite no_timer_iff in H.
  rewrite (H j t Hj) in Hs. discriminate.
Qed.

Lemma startScheduler_one_timer validate cronExpr0 w :
  one_timer w -> one_timer (startScheduler validate cronExpr0 w).
Proof.
  intros H. unfold startScheduler.
  set (w1 := match scheduledTask (svc w) with
             | Some j => on_host (stop_task j) w
             | None => w
             end).
  assert (no_timer w1 /\ scheduledTask (svc w1) = scheduledTask (svc w)) as [H1 H1'].
  { subst w1. destruct (stopScheduler_no_timer w H) as (_ & Hn & _).
    unfold stopScheduler in Hn.
    destruct (scheduledTask (svc w)) as [j|] eqn:E; [|now split].
    split; [|simpl; assumption].
    apply no_timer_iff. rewrite no_timer_iff in Hn. exact Hn. }
  destruct (negb (validate cronExpr0)).
  - now apply no_timer_one_timer.
  - intros j t. simpl. intros Hj Hs.
    rewrite no_timer_iff in H1.
    destruct (Nat.lt_ge_cases j (List.length (cronTasks (host w1)))) as [Hlt|Hge].
    + rewrite nth_error_app1 in Hj by assumption.
      rewrite (H1 j t Hj) in Hs. discriminate.
    + rewrite nth_error_app2 in Hj by assumption.
      destruct (j - List.length (cronTasks (host w1)))%nat as [|k] eqn:Ek.
      * f_equal. lia.
      * simpl in Hj. destruct k; discriminate.
Qed.

Lemma same_timers_refl w : same_timers w w.
Proof. now split. Qed.

Lemma same_timers_trans w1 w2 w3 :
  same_timers w1 w2 -> same_timers w2 w3 -> same_timers w1 w3.
Proof. intros [] []. split; congruence. Qed.

Lemma calm_same_timers w w' : calm w w' -> same_timers w w'.
Proof. intros H. split; [apply (calm_cron _ _ H)|apply (calm_task _ _ H)]. Qed.

Lemma same_timers_one_timer w w' :
  same_timers w w' -> one_timer w -> one_timer w'.
Proof.
  intros [H1 H2] H j t. rewrite H1, H2. apply H.
Qed.

Lemma move_on_timers st w :
  same_timers w (snd (try_segment (
    modify (on_svc (set_pipelineStep (stage_step st))) ;;
    broadcast_now Kind.status (stage_banner st) ;;
    ret (Suspend (AwaitStatusUpdate st))) w)).
Proof.
  rewrite move_on_eq. cbv zeta. now destruct (first_throw _ _).
Qed.

Lemma after_command_timers st r w :
  same_timers w (snd (after_command st r w)).
Proof.
  destruct st.
  - rewrite after_scrape_eq.
    destruct (auth_required _); [apply same_timers_refl|].
    destruct (negb _); [apply same_timers_refl|].
    destruct (abortRequested _); [apply same_timers_refl|].
    apply move_on_timers.
  - rewrite after_enrich_eq.
    destruct (negb _); [apply same_timers_refl|].
    destruct (abortRequested _); [apply same_timers_refl|].
    apply move_on_timers.
  - rewrite after_process_eq. destruct (negb _); apply same_timers_refl.
Qed.

Lemma feed_command_timers st co tr w :
  same_timers w (snd (feed_command st co tr w)).
Proof.
  unfold feed_command.
  pose proof (child_events_calm (events tr) co w) as Hc.
  destruct (child_events _ _) as [co1 w1]. simpl in Hc.
  pose proof (child_end_calm (ending tr) co1 w1) as He.
  destruct (child_end _ _ _) as [[r|] w2]; simpl in He.
  - eapply same_timers_trans; [apply (calm_same_timers _ _ Hc)|].
    eapply same_timers_trans; [apply (calm_same_timers _ _ He)|].
    apply after_command_timers.
  - eapply same_timers_trans; [apply (calm_same_timers _ _ Hc)|].
    apply (calm_same_timers _ _ He).
Qed.

Lemma after_status_update_timers runId0 scraperPath st reply w :
  same_timers w (snd (after_status_update runId0 scraperPath st reply w)).
Proof.
  rewrite after_status_update_eq, scraperRun_update_eq.
  destruct reply; [|apply same_timers_refl].
  destruct (has_run _ _); now split.
Qed.

Lemma after_final_update_timers runId0 fd reply w :
  same_timers w (snd (after_final_update runId0 fd reply w)).
Proof.
  unfold after_final_update.
  pose proof (finally_rest_eq runId0 fd reply w) as E.
  destruct (finally_rest _ _ _ _) as [c w']. simpl.
  rewrite scraperRun_update_eq in E. destruct reply.
  - destruct (has_run _ _).
    + cbv zeta in E. destruct (first_throw _ _).
      * injection E as _ ->. now split.
      * destruct (first_throw _ _); injection E as _ ->; now split.
    + injection E as _ ->. apply same_timers_refl.
  - injection E as _ ->. apply same_timers_refl.
Qed.

Lemma pipeline_enter_timers runId0 scraperPath w :
  same_timers w (snd (pipeline_enter runId0 scraperPath w)).
Proof.
  rewrite pipeline_enter_eq. cbv zeta. now destruct (first_throw _ _).
Qed.

Lemma startScraper_resume_timers trig reply w :
  same_timers w (snd (startScraper_resume trig reply w)).
Proof.
  unfold startScraper_resume. destruct reply; simpl.
  - match goal with
    | |- context [pipeline_enter ?i ?p ?w1] =>
        pose proof (pipeline_enter_timers i p w1) as H;
        destruct (pipeline_enter i p w1) as [a w3]
    end.
    simpl in *. destruct H as [H1 H2]. split; [rewrite H1|rewrite H2];
      reflexivity.
  - apply same_timers_refl.
Qed.

Lemma updateSchedulerConfig_one_timer validate enabled0 cronExpr0 reply w :
  one_timer w ->
  one_timer (effect (updateSchedulerConfig validate enabled0 cronExpr0 reply) w).
Proof.
  intros H. unfold effect, updateSchedulerConfig, schedulerConfig_upsert.
  destruct reply; [|assumption].
  unfold bind, modify. simpl.
  destruct (enabled0 && validate cronExpr0); simpl.
  - apply startScheduler_one_timer. exact H.
  - apply no_timer_one_timer.
    match goal with
    | |- no_timer (stopScheduler ?w1) =>
        apply (stopScheduler_no_timer w1)
    end.
    exact H.
Qed.

Lemma step_same_timers validate ev s :
  reconfigures ev = false ->
  same_timers (world s) (world (step validate ev s)).
Proof.
  intros Hev. destruct ev; try discriminate; cbn [step].
  - unfold start_request.
    destruct (startScraper_enter _); apply same_timers_refl.
  - destruct (nth_error (starting s) k) as [trig|]; [|apply same_timers_refl].
    pose proof (startScraper_resume_timers trig reply (world s)) as Ht.
    destruct (startScraper_resume trig reply (world s)) as [[c [t|]] w'];
      exact Ht.
  - destruct (nth_error (pipelines s) k) as [t|]; [|apply same_timers_refl].
    destruct (task_at t); try apply same_timers_refl.
    pose proof (child_event_calm ev commandOutput (world s)) as Hc.
    destruct (child_event ev (commandOutput, world s)) as [co' w'].
    now apply calm_same_timers.
  - destruct (nth_error (pipelines s) k) as [t|]; [|apply same_timers_refl].
    destruct (task_at t); try apply same_timers_refl.
    apply feed_command_timers.
  - destruct (nth_error (pipelines s) k) as [t|]; [|apply same_timers_refl].
    destruct (task_at t); try apply same_timers_refl.
    + apply after_status_update_timers.
    + apply after_final_update_timers.
  - apply calm_same_timers, call_calm.
  - destruct (nth_error _ j) as [t|]; [|apply same_timers_refl].
    destruct (scheduled t); [|apply same_timers_refl].
    unfold start_request.
    destruct (startScraper_enter _); apply same_timers_refl.
Qed.

Lemma one_timer_step validate ev s :
  one_timer (world s) -> one_timer (world (step validate ev s)).
Proof.
  intros H. destruct (reconfigures ev) eqn:E.
  - destruct ev; try discriminate. now apply updateSchedulerConfig_one_timer.
  - apply (same_timers_one_timer (world s)); [|assumption].
    now apply step_same_timers.
Qed.

Lemma run_events_same_timers validate evs s :
  (forall ev, In ev evs -> reconfigures ev = false) ->
  same_timers (world s) (world (run_events validate evs s)).
Proof.
  revert s. induction evs as [|ev evs IH]; intros s H; simpl.
  - apply same_timers_refl.
  - eapply same_timers_trans.
    + apply (step_same_timers validate ev s). apply H. now left.
    + apply IH. intros ev' Hin. apply H. now right.
Qed.

Lemma one_timer_run_events validate evs s :
  one_timer (world s) -> one_timer (world (run_events validate evs s)).
Proof.
  revert s. induction evs as [|ev evs IH]; intros s H; simpl; [assumption|].
  apply IH. now apply one_timer_step.
Qed.

Lemma one_timer_fresh d t scraperPath :
  one_timer (fresh_world d t scraperPath).
Proof. intros [|j] t' H; discriminate. Qed.

Lemma initScheduler_one_timer validate found created w :
  one_timer w -> one_timer (initScheduler validate found created w).
Proof.
  intros H. unfold initScheduler. destruct found; [|assumption].
  destruct (schedulerConfig (db w)) as [config|].
  - destruct (enabled config && validate (cronExpr config)); [|assumption].
    now apply startScheduler_one_timer.
  - destruct created; assumption.
Qed.

(** C4 (as the code has it): [updateSchedulerConfig] with an expression
    that [cron.validate] refuses returns without an error once the store has
    carried out the upsert.  The configuration is stored as it was given,
    the [enabled] flag included, [true] if [true] was asked for.  The task
    installed before, if any, is stopped and forgotten, no task is created,
    and no task of node-cron is left scheduled: until the scheduler is
    configured again a firing of any task changes nothing, so no scheduled
    run starts.  When the store rejects the upsert the call throws and
    nothing changes, the task installed before included. *)
Theorem invalid_cron_expression_uninstalls (validate : string -> bool)
  (enabled0 : bool) (cronExpr0 : string) (w : World) :
  validate cronExpr0 = false ->
  one_timer w ->
  let p := updateSchedulerConfig validate enabled0 cronExpr0 Resolves w in
  fst p = Normal tt
  /\ schedulerConfig (db (snd p))
     = Some {| enabled := enabled0; cronExpr := cronExpr0 |}
  /\ scheduledTask (svc (snd p)) = None
  /\ List.length (cronTasks (host (snd p))) = List.length (cronTasks (host w))
  /\ no_timer (snd p)
  /\ (forall s evs j,
        world s = snd p ->
        (forall ev, In ev evs -> reconfigures ev = false) ->
        step validate (CronFires j) (run_events validate evs s)
        = run_events validate evs s)
  /\ (forall e,
        updateSchedulerConfig validate enabled0 cronExpr0 (Rejects e) w
        = (Throw e, w)).
Proof.
  intros Hv H1 p. subst p.
  unfold updateSchedulerConfig, schedulerConfig_upsert, bind, modify.
  rewrite Hv, andb_false_r. cbn [fst snd].
  match goal with
  | |- context [stopScheduler ?w1] =>
      destruct (stopScheduler_no_timer w1) as (Hs & Hn & Hl); [exact H1|]
  end.
  split; [reflexivity|]. split.
  { unfold stopScheduler. simpl. now destruct (scheduledTask (svc w)). }
  split; [assumption|]. split; [assumption|]. split; [assumption|]. split.
  - intros s evs j Hw Hevs. cbn [step].
    destruct (run_events_same_timers validate evs s Hevs) as [Hc _].
    rewrite Hc, Hw.
    destruct (nth_error _ j) as [t|] eqn:E; [|reflexivity].
    rewrite no_timer_iff in Hn. now rewrite (Hn j t E).
  - reflexivity.
Qed.

(** A scheduler installed with the default expression, then configured
    with an expression that is no cron expression. *)
Lemma invalid_cron_expression_uninstalls_witness :
  let validate := fun s => String.eqb s default_cronExpr in
  let w0 := fresh_world empty_db 0 "/srv/gpt" in
  let w := effect (updateSchedulerConfig validate true default_cronExpr
                     Resolves) w0 in
  let p := updateSchedulerConfig validate true "every day at nine" Resolves
             w in
  cronTasks (host w) = [{| expression := default_cronExpr;
                           scheduled := true |}]
  /\ scheduledTask (svc (snd p)) = None
  /\ no_timer (snd p)
  /\ schedulerConfig (db (snd p))
     = Some {| enabled := true; cronExpr := "every day at nine" |}.
Proof.
  intros validate w0 w p.
  assert (one_timer w) as H1.
  { intros [|[|j]] t Hj Hs; simpl in Hj; try discriminate. reflexivity. }
  destruct (invalid_cron_expression_uninstalls validate true
              "every day at nine" w eq_refl H1)
    as (_ & Hc & Ht & _ & Hn & _).
  split; [reflexivity|]. split; [exact Ht|]. split; [exact Hn|exact Hc].
Defined.

(** C4 as the spec has it fails: the flag is [false] in the store, the
    update asks for [true] with an expression that is not valid, the call
    returns normally, and the store then has the flag at [true]. *)
Lemma invalid_cron_expression_still_enables :
  let validate := fun s => String.eqb s default_cronExpr in
  let w := fresh_world
    {| scraperRun := []; nextId := 1;
       schedulerConfig :=
         Some {| enabled := false; cronExpr := default_cronExpr |} |}
    0 "/srv/gpt" in
  let p := updateSchedulerConfig validate true "every day at nine" Resolves
             w in
  validate "every day at nine" = false
  /\ option_map enabled (schedulerConfig (db w)) = Some false
  /\ fst p = Normal tt
  /\ option_map enabled (schedulerConfig (db (snd p))) = Some true.
Proof.
  cbv zeta. repeat split.
Qed.

(** ** Single flight *)

(** The guard of [startScraper]: while the step is not [IDLE] a call
    returns the rejection at once; no creation is requested and nothing
    changes. *)
Lemma start_rejected_while_running (validate : string -> bool)
  (trig : TriggerType) (s : System) :
  isRunning (world s) = true ->
  startScraper_enter (world s)
  = Some {| runId := -1;
            error := Some ("Pipeline is already running (step: "
                           ++ Step.to_string (pipelineStep (svc (world s)))
                           ++ ")")%string |}
  /\ step validate (StartRequest trig) s = s.
Proof.
  intros H. unfold step, start_request, startScraper_enter. rewrite H.
  now split.
Qed.

(** Between the guard and the first assignment of the step lies the
    [await] of the creation: a call made in between finds the step at
    [IDLE]. *)
Lemma start_accepted_while_starting (validate : string -> bool)
  (trig : TriggerType) (s : System) :
  isRunning (world s) = false ->
  step validate (StartRequest trig) s
  = {| world := world s; starting := starting s ++ [trig];
       pipelines := pipelines s |}.
Proof.
  intros H. unfold step, start_request, startScraper_enter. now rewrite H.
Qed.

Lemma steady_refl w : steady w w.
Proof. now repeat split. Qed.

Lemma steady_trans w1 w2 w3 : steady w1 w2 -> steady w2 w3 -> steady w1 w3.
Proof.
  intros (A1 & A2 & A3 & A4) (B1 & B2 & B3 & B4).
  repeat split; try congruence. auto.
Qed.

Lemma calm_steady w w' : calm w w' -> steady w w'.
Proof.
  intros H. repeat split.
  - now rewrite (calm_db _ _ H).
  - now rewrite (calm_db _ _ H).
  - apply (calm_run _ _ H).
  - rewrite !isRunning_step. now rewrite (calm_step _ _ H).
Qed.

Lemma finally_enter_ends_well fs em w :
  Status.non_terminal fs = false -> ends_well (fst (finally_enter fs em w)).
Proof. trivial. Qed.

Lemma move_on_steady st w :
  let p := try_segment (
    modify (on_svc (set_pipelineStep (stage_step st))) ;;
    broadcast_now Kind.status (stage_banner st) ;;
    ret (Suspend (AwaitStatusUpdate st))) w in
  steady w (snd p) /\ ends_well (fst p) /\ isRunning (snd p) = true.
Proof.
  cbv zeta. rewrite move_on_eq. cbv zeta.
  destruct (first_throw _ _); simpl; repeat split; now destruct st.
Qed.

Lemma after_command_steady st r w :
  steady w (snd (after_command st r w))
  /\ ends_well (fst (after_command st r w)).
Proof.
  destruct st.
  - rewrite after_scrape_eq.
    destruct (auth_required _); [split; [apply steady_refl|reflexivity]|].
    destruct (negb _); [split; [apply steady_refl|reflexivity]|].
    destruct (abortRequested _); [split; [apply steady_refl|reflexivity]|].
    destruct (move_on_steady Enrich w) as (H1 & H2 & _). now split.
  - rewrite after_enrich_eq.
    destruct (negb _); [split; [apply steady_refl|reflexivity]|].
    destruct (abortRequested _); [split; [apply steady_refl|reflexivity]|].
    destruct (move_on_steady Process w) as (H1 & H2 & _). now split.
  - rewrite after_process_eq.
    destruct (negb _); (split; [apply steady_refl|reflexivity]).
Qed.

Lemma feed_command_steady st co tr w :
  steady w (snd (feed_command st co tr w))
  /\ ends_well (fst (feed_command st co tr w)).
Proof.
  unfold feed_command.
  pose proof (child_events_calm (events tr) co w) as Hc.
  destruct (child_events _ _) as [co1 w1]. simpl in Hc.
  pose proof (child_end_calm (ending tr) co1 w1) as He.
  destruct (child_end _ _ _) as [[r|] w2]; simpl in He.
  - destruct (after_command_steady st r w2) as [H1 H2]. split; [|assumption].
    eapply steady_trans; [apply (calm_steady _ _ Hc)|].
    eapply steady_trans; [apply (calm_steady _ _ He)|assumption].
  - split; [|exact I].
    eapply steady_trans; [apply (calm_steady _ _ Hc)|].
    apply (calm_steady _ _ He).
Qed.

Lemma pipeline_enter_running runId0 scraperPath w :
  let p := pipeline_enter runId0 scraperPath w in
  scraperRun (db (snd p)) = scraperRun (db w)
  /\ nextId (db (snd p)) = nextId (db w)
  /\ currentRunId (svc (snd p)) = currentRunId (svc w)
  /\ isRunning (snd p) = true
  /\ live (fst p) = true
  /\ ends_well (fst p).
Proof.
  cbv zeta. rewrite pipeline_enter_eq. cbv zeta.
  destruct (first_throw _ _); simpl; repeat split.
Qed.

Lemma nth_error_replace_nth {A} k (x : A) l k' :
  nth_error (replace_nth k x l) k'
  = if Nat.eqb k' k then option_map (fun _ => x) (nth_error l k)
    else nth_error l k'.
Proof.
  revert k k'. induction l as [|y l IH]; intros k k'.
  - destruct k, k'; simpl; try reflexivity. now destruct (Nat.eqb k' k).
  - destruct k as [|k], k' as [|k']; simpl; try reflexivity. apply IH.
Qed.

Lemma live_running s k t :
  single_flight s -> nth_error (pipelines s) k = Some t ->
  live (task_at t) = true ->
  isRunning (world s) = true /\ starting s = [].
Proof.
  intros H Hk Hl.
  assert (isRunning (world s) = true) as Hr.
  { destruct (isRunning (world s)) eqn:E; [reflexivity|].
    destruct (sf_idle s H E) as [_ Hd]. rewrite (Hd k t Hk) in Hl.
    discriminate. }
  split; [assumption|].
  destruct (starting s) eqn:E; [reflexivity|].
  destruct (sf_starting s H) as [_ Hs]. rewrite E in Hs.
  rewrite Hs in Hr; discriminate.
Qed.

(** The [k]-th pipeline runs a segment that changes, in the store, at most
    the rows of its own run, and leaves the service running. *)
Lemma single_flight_resume s k t a' w' :
  single_flight s ->
  nth_error (pipelines s) k = Some t -> live (task_at t) = true ->
  map id (scraperRun (db w')) = map id (scraperRun (db (world s))) ->
  nextId (db w') = nextId (db (world s)) ->
  (forall r', In r' (scraperRun (db w')) ->
     In r' (scraperRun (db (world s))) \/ id r' = task_runId t) ->
  currentRunId (svc w') = currentRunId (svc (world s)) ->
  isRunning w' = true ->
  ends_well a' ->
  single_flight (resume_task k t (a', w') s).
Proof.
  intros H Hk Hl Hids Hnext Hrows Hcur Hrun Hend.
  destruct (live_running s k t H Hk Hl) as [Hr Hst].
  destruct (sf_live s H k t Hk Hl) as (Hc & _ & Huniq).
  constructor; cbn [resume_task world starting pipelines fst snd].
  - rewrite Hids. apply (sf_ids s H).
  - intros r' Hin. rewrite Hnext.
    assert (In (id r') (map id (scraperRun (db w')))) as Hi
      by now apply in_map.
    rewrite Hids in Hi. apply in_map_iff in Hi.
    destruct Hi as (r & <- & Hr0). now apply (sf_fresh s H).
  - intros r' Hin Hnt. rewrite Hcur.
    destruct (Hrows r' Hin) as [Hold| ->]; [|assumption].
    now apply (sf_rows s H).
  - rewrite Hrun. discriminate.
  - intros k1 t1. rewrite nth_error_replace_nth, Hk.
    destruct (Nat.eqb_spec k1 k) as [->|Hne].
    + intros [= <-]. cbn [task_at task_runId]. intros Hl1.
      rewrite Hcur. split; [assumption|]. split; [assumption|].
      intros k2 t2. rewrite nth_error_replace_nth, Hk.
      destruct (Nat.eqb_spec k2 k) as [->|Hne2]; [reflexivity|].
      intros H2 Hl2. now apply Huniq with t2.
    + intros H1 Hl1. exfalso. apply Hne. now apply Huniq with t1.
  - rewrite Hst. split; [simpl; lia|]. now intros [].
Qed.

(** The same for a segment that leaves the runs as they are. *)
Lemma single_flight_steady s k t a' w' :
  single_flight s ->
  nth_error (pipelines s) k = Some t -> live (task_at t) = true ->
  steady (world s) w' -> ends_well a' ->
  single_flight (resume_task k t (a', w') s).
Proof.
  intros H Hk Hl (S1 & S2 & S3 & S4) Hend.
  destruct (live_running s k t H Hk Hl) as [Hr _].
  apply single_flight_resume; try assumption.
  - now rewrite S1.
  - intros r'. rewrite S1. now left.
  - now apply S4.
Qed.

(** Something other than a pipeline changes the world, but neither the
    runs nor the step nor the current run. *)
Lemma single_flight_world s w' :
  single_flight s ->
  scraperRun (db w') = scraperRun (db (world s)) ->
  nextId (db w') = nextId (db (world s)) ->
  currentRunId (svc w') = currentRunId (svc (world s)) ->
  pipelineStep (svc w') = pipelineStep (svc (world s)) ->
  single_flight (with_world w' s).
Proof.
  intros H H1 H2 H3 H4.
  assert (isRunning w' = isRunning (world s)) as Hr
    by (rewrite !isRunning_step; now rewrite H4).
  constructor; cbn [with_world world starting pipelines];
    rewrite ?H1, ?H2, ?H3, ?Hr; apply H.
Qed.

Lemma map_id_updated runId0 change rows :
  (forall r, id (change r) = id r) ->
  map id (map (fun r => if id r =? runId0 then change r else r) rows)
  = map id rows.
Proof.
  intros Hc. rewrite map_map. apply map_ext. intros r.
  destruct (id r =? runId0); [apply Hc|reflexivity].
Qed.

Lemma in_updated runId0 change rows r' :
  (forall r, id (change r) = id r) ->
  In r' (map (fun r => if id r =? runId0 then change r else r) rows) ->
  In r' rows \/ id r' = runId0.
Proof.
  intros Hc Hin. apply in_map_iff in Hin. destruct Hin as (r & <- & Hr).
  destruct (id r =? runId0) eqn:E.
  - right. rewrite Hc. now apply Z.eqb_eq.
  - now left.
Qed.

Lemma single_flight_status_update s k t st reply :
  single_flight s ->
  nth_error (pipelines s) k = Some t -> task_at t = AwaitStatusUpdate st ->
  single_flight
    (resume_task k t
       (after_status_update (task_runId t) (task_scraperPath t) st reply
          (world s)) s).
Proof.
  intros H Hk Hat.
  assert (live (task_at t) = true) as Hl by now rewrite Hat.
  destruct (live_running s k t H Hk Hl) as [Hr _].
  rewrite after_status_update_eq, scraperRun_update_eq.
  destruct reply.
  - destruct (has_run _ _).
    + apply single_flight_resume; try assumption; simpl; try reflexivity.
      * now apply map_id_updated.
      * intros r'. now apply in_updated.
    + apply single_flight_steady; try assumption;
        [apply steady_refl|reflexivity].
  - apply single_flight_steady; try assumption;
      [apply steady_refl|reflexivity].
Qed.

Lemma single_flight_final_update s k t fd reply :
  single_flight s ->
  nth_error (pipelines s) k = Some t -> task_at t = AwaitFinalUpdate fd ->
  single_flight
    (resume_task k t
       (after_final_update (task_runId t) fd reply (world s)) s).
Proof.
  intros H Hk Hat.
  assert (live (task_at t) = true) as Hl by now rewrite Hat.
  destruct (live_running s k t H Hk Hl) as [Hr Hst].
  destruct (sf_live s H k t Hk Hl) as (Hc & Hend & Huniq).
  rewrite Hat in Hend. simpl in Hend.
  unfold after_final_update.
  rewrite finally_rest_eq, scraperRun_update_eq.
  destruct reply;
    [|apply single_flight_steady; try assumption;
      [apply steady_refl|exact I]].
  destruct (has_run _ _);
    [|apply single_flight_steady; try assumption;
      [apply steady_refl|exact I]].
  cbv zeta.
  assert (forall r, id (data_final fd r) = id r) as Hid by reflexivity.
  destruct (first_throw _ _).
  { apply single_flight_resume; try assumption; simpl; try reflexivity.
    - now apply map_id_updated.
    - intros r'. now apply in_updated. }
  destruct (first_throw _ _).
  { apply single_flight_resume; try assumption; simpl; try reflexivity.
    - now apply map_id_updated.
    - intros r'. now apply in_updated. }
  constructor; cbn [resume_task world starting pipelines fst snd]; simpl.
  - rewrite map_id_updated by assumption. apply (sf_ids s H).
  - intros r' Hin.
    assert (In (id r') (map id (scraperRun (db (world s))))) as Hi.
    { rewrite <- (map_id_updated (task_runId t) (data_final fd)) by assumption.
      now apply in_map. }
    apply in_map_iff in Hi. destruct Hi as (r & <- & Hr0).
    now apply (sf_fresh s H).
  - intros r' Hin Hnt. exfalso.
    apply in_map_iff in Hin. destruct Hin as (r & <- & Hr0).
    destruct (id r =? task_runId t) eqn:E.
    + simpl in Hnt. congruence.
    + pose proof (sf_rows s H r Hr0 Hnt) as Hcur. rewrite Hc in Hcur.
      injection Hcur as Hcur. apply Z.eqb_neq in E. congruence.
  - intros _. split; [reflexivity|].
    intros k1 t1. rewrite nth_error_replace_nth, Hk.
    destruct (Nat.eqb_spec k1 k) as [->|Hne].
    + now intros [= <-].
    + intros H1. destruct (live (task_at t1)) eqn:Hl1; [|reflexivity].
      exfalso. apply Hne. now apply Huniq with t1.
  - intros k1 t1. rewrite nth_error_replace_nth, Hk.
    destruct (Nat.eqb_spec k1 k) as [->|Hne].
    + intros [= <-]. discriminate.
    + intros H1 Hl1. exfalso. apply Hne. now apply Huniq with t1.
  - rewrite Hst. split; [simpl; lia|]. now intros [].
Qed.

Lemma starting_single s k trig :
  single_flight s -> nth_error (starting s) k = Some trig ->
  starting s = [trig] /\ k = 0%nat /\ isRunning (world s) = false.
Proof.
  intros H Hk. destruct (sf_starting s H) as [Hlen Hidle].
  destruct (starting s) as [|x [|y l]] eqn:E; simpl in Hlen.
  - destruct k; discriminate.
  - destruct k as [|k]; [|destruct k; discriminate].
    injection Hk as ->. repeat split. apply Hidle. discriminate.
  - lia.
Qed.

Lemma idle_all_terminal s :
  single_flight s -> isRunning (world s) = false ->
  forall r, In r (scraperRun (db (world s))) ->
            Status.non_terminal (status r) = false.
Proof.
  intros H Hidle r Hr. destruct (Status.non_terminal (status r)) eqn:E;
    [|reflexivity].
  pose proof (sf_rows s H r Hr E) as Hc.
  destruct (sf_idle s H Hidle) as [Hn _]. congruence.
Qed.

Lemma NoDup_snoc {A} (l : list A) x :
  NoDup l -> ~ In x l -> NoDup (l ++ [x]).
Proof.
  induction 1 as [|y l Hy Hl IH]; intros Hx; simpl.
  - constructor; [intros []|constructor].
  - constructor.
    + rewrite in_app_iff. intros [Hin|[->|[]]]; [contradiction|].
      apply Hx. now left.
    + apply IH. intros Hin. apply Hx. now right.
Qed.

Lemma single_flight_create validate s k reply :
  single_flight s ->
  single_flight (step validate (CreateSettles k reply) s).
Proof.
  intros H. cbn [step].
  destruct (nth_error (starting s) k) as [trig|] eqn:Hk; [|assumption].
  destruct (starting_single s k trig H Hk) as (Hst & -> & Hidle).
  destruct (sf_idle s H Hidle) as [Hcur Hdead].
  pose proof (idle_all_terminal s H Hidle) as Hterm.
  rewrite Hst. cbn [remove_nth].
  unfold startScraper_resume. destruct reply as [|e].
  - rewrite scraperRun_create_eq. cbv zeta. cbn [id].
    match goal with
    | |- context [pipeline_enter ?i ?p ?w1] =>
        destruct (pipeline_enter_running i p w1)
          as (P1 & P2 & P3 & P4 & P5 & P6);
        destruct (pipeline_enter i p w1) as [a w3]
    end.
    cbn [fst snd] in *. simpl in P1, P2, P3.
    constructor; cbn [world starting pipelines].
    + rewrite P1, map_app. simpl. apply NoDup_snoc; [apply (sf_ids s H)|].
      intros Hin. apply in_map_iff in Hin. destruct Hin as (r & Hid & Hr).
      pose proof (sf_fresh s H r Hr). lia.
    + intros r. rewrite P1, P2. rewrite in_app_iff. intros [Hr|[<-|[]]].
      * pose proof (sf_fresh s H r Hr). lia.
      * simpl. lia.
    + intros r. rewrite P1, P3. rewrite in_app_iff. intros [Hr|[<-|[]]].
      * intros Hnt. rewrite (Hterm r Hr) in Hnt. discriminate.
      * reflexivity.
    + rewrite P4. discriminate.
    + intros k1 t1 H1 Hl1.
      destruct (Nat.lt_ge_cases k1 (List.length (pipelines s))) as [Hlt|Hge].
      * rewrite nth_error_app1 in H1 by assumption.
        rewrite (Hdead k1 t1 H1) in Hl1. discriminate.
      * rewrite nth_error_app2 in H1 by assumption.
        destruct (k1 - List.length (pipelines s))%nat as [|j] eqn:Ej;
          [|destruct j; discriminate].
        injection H1 as <-. cbn [task_runId task_at].
        split; [assumption|]. split; [assumption|].
        intros k2 t2 H2 Hl2.
        destruct (Nat.lt_ge_cases k2 (List.length (pipelines s))) as [Hlt2|Hge2].
        -- rewrite nth_error_app1 in H2 by assumption.
           rewrite (Hdead k2 t2 H2) in Hl2. discriminate.
        -- rewrite nth_error_app2 in H2 by assumption.
           destruct (k2 - List.length (pipelines s))%nat as [|j] eqn:Ej2;
             [lia|destruct j; discriminate].
    + split; [simpl; lia|]. now intros [].
  - simpl. constructor; cbn [world starting pipelines]; try apply H.
    split; [simpl; lia|]. now intros [].
Qed.

Lemma single_flight_start_request trig s :
  single_flight s -> starting s = [] ->
  single_flight (start_request trig s).
Proof.
  intros H Hst. unfold start_request, startScraper_enter.
  destruct (isRunning (world s)) eqn:Hr; [assumption|].
  constructor; cbn [world starting pipelines]; try apply H.
  rewrite Hst. split; [simpl; lia|]. intros _. assumption.
Qed.

Lemma updateSchedulerConfig_runs validate enabled0 cronExpr0 reply w :
  let w' := effect (updateSchedulerConfig validate enabled0 cronExpr0 reply) w in
  scraperRun (db w') = scraperRun (db w)
  /\ nextId (db w') = nextId (db w)
  /\ currentRunId (svc w') = currentRunId (svc w)
  /\ pipelineStep (svc w') = pipelineStep (svc w).
Proof.
  cbv zeta. unfold effect, updateSchedulerConfig, schedulerConfig_upsert.
  destruct reply; [|now repeat split].
  unfold bind, modify. simpl.
  destruct (enabled0 && validate cronExpr0); simpl.
  - unfold startScheduler. simpl.
    destruct (scheduledTask (svc w)); destruct (negb _); now repeat split.
  - unfold stopScheduler. simpl.
    destruct (scheduledTask (svc w)); now repeat split.
Qed.

Lemma single_flight_step validate ev s :
  single_flight s -> polite s ev -> single_flight (step validate ev s).
Proof.
  intros H Hp. destruct ev; cbn [step].
  - now apply single_flight_start_request.
  - now apply (single_flight_create validate).
  - destruct (nth_error (pipelines s) k) as [t|] eqn:Hk; [|assumption].
    destruct (task_at t) eqn:Hat; try assumption.
    pose proof (child_event_calm ev commandOutput (world s)) as Hc.
    destruct (child_event ev (commandOutput, world s)) as [co' w'].
    apply single_flight_steady;
      [assumption|assumption|now rewrite Hat|now apply calm_steady|exact I].
  - destruct (nth_error (pipelines s) k) as [t|] eqn:Hk; [|assumption].
    destruct (task_at t) eqn:Hat; try assumption.
    destruct (feed_command_steady st commandOutput {| events := []; ending := e |} (world s))
      as [Hs He].
    destruct (feed_command _ _ _ _) as [a' w'].
    apply single_flight_steady;
      [assumption|assumption|now rewrite Hat|assumption|assumption].
  - destruct (nth_error (pipelines s) k) as [t|] eqn:Hk; [|assumption].
    destruct (task_at t) eqn:Hat; try assumption.
    + now apply single_flight_status_update.
    + now apply single_flight_final_update.
  - pose proof (call_calm c (world s)) as Hc.
    apply single_flight_world; try assumption.
    + now rewrite (calm_db _ _ Hc).
    + now rewrite (calm_db _ _ Hc).
    + apply (calm_run _ _ Hc).
    + apply (calm_step _ _ Hc).
  - destruct (nth_error _ j) as [t|]; [|assumption].
    destruct (scheduled t); [|assumption].
    now apply single_flight_start_request.
  - destruct (updateSchedulerConfig_runs validate enabled0 cronExpr0 reply
                (world s)) as (H1 & H2 & H3 & H4).
    now apply single_flight_world.
Qed.

Lemma single_flight_run_events validate evs s :
  single_flight s -> serialized validate evs s ->
  single_flight (run_events validate evs s).
Proof.
  revert s. induction evs as [|ev evs IH]; intros s H Hs; [assumption|].
  destruct Hs as [Hp Hs]. simpl. apply IH; [|assumption].
  now apply single_flight_step.
Qed.

Lemma filter_same_key {A} (f : A -> Z) (P : A -> bool) (c : Z) l :
  NoDup (map f l) ->
  (forall x, In x l -> P x = true -> f x = c) ->
  (List.length (filter P l) <= 1)%nat.
Proof.
  induction l as [|x l IH]; intros Hnd Hc; simpl; [lia|].
  inversion Hnd as [|? ? Hx Hl]; subst.
  destruct (P x) eqn:Px.
  - destruct (filter P l) as [|y l'] eqn:E; [simpl; lia|].
    exfalso. assert (In y (filter P l)) as Hy by (rewrite E; now left).
    apply filter_In in Hy. destruct Hy as [Hy Py].
    apply Hx. rewrite (Hc x (or_introl eq_refl) Px).
    rewrite <- (Hc y (or_intror Hy) Py). now apply in_map.
  - apply IH; [assumption|]. intros y Hy. apply Hc. now right.
Qed.

Lemma single_flight_at_most_one s :
  single_flight s ->
  (List.length (non_terminal_runs (world s)) <= 1)%nat.
Proof.
  intros H. unfold non_terminal_runs.
  destruct (currentRunId (svc (world s))) as [c|] eqn:Hc.
  - apply (filter_same_key id _ c); [apply (sf_ids s H)|].
    intros r Hr Hnt. pose proof (sf_rows s H r Hr Hnt). congruence.
  - destruct (filter _ _) as [|r l] eqn:E; [simpl; lia|].
    exfalso. assert (In r (filter (fun r => Status.non_terminal (status r))
                             (scraperRun (db (world s))))) as Hr
      by (rewrite E; now left).
    apply filter_In in Hr. destruct Hr as [Hr Hnt].
    pose proof (sf_rows s H r Hr Hnt). congruence.
Qed.

Lemma single_flight_initial d t scraperPath :
  NoDup (map id (scraperRun d)) ->
  (forall r, In r (scraperRun d) ->
     id r < nextId d /\ Status.non_terminal (status r) = false) ->
  single_flight (initial_system (fresh_world d t scraperPath)).
Proof.
  intros Hnd Hrows. constructor; simpl.
  - assumption.
  - intros r Hr. now apply Hrows.
  - intros r Hr Hnt. destruct (Hrows r Hr) as [_ Ht]. congruence.
  - intros _. split; [reflexivity|]. intros [|k] t'; discriminate.
  - intros [|k] t'; discriminate.
  - split; [lia|]. now intros [].
Qed.

(** Single flight, for the schedules the code gets right: from a store
    without a run under way, as long as no start is requested while another
    awaits the creation of its run, at most one run is in a non-terminal
    status after any sequence of events. *)
Lemma serialized_starts_single_flight validate d t scraperPath evs :
  NoDup (map id (scraperRun d)) ->
  (forall r, In r (scraperRun d) ->
     id r < nextId d /\ Status.non_terminal (status r) = false) ->
  serialized validate evs (initial_system (fresh_world d t scraperPath)) ->
  (List.length
     (non_terminal_runs
        (world (run_events validate evs
                  (initial_system (fresh_world d t scraperPath))))) <= 1)%nat.
Proof.
  intros Hnd Hrows Hs. apply single_flight_at_most_one.
  apply single_flight_run_events; [|assumption].
  now apply single_flight_initial.
Qed.

(** C1, at the input where the code fails: a second call of [startScraper]
    arrives while the first awaits the creation of its run.  The step is
    still [IDLE], both calls pass the guard, both runs are created, and when
    both creations have settled the store holds two runs in the status
    [RUNNING], with two scrapers spawned and two pipelines under way. *)
Theorem racing_starts_both_run (validate : string -> bool) (t : Z)
  (scraperPath : string) :
  let s0 := initial_system (fresh_world empty_db t scraperPath) in
  let s2 := run_events validate
              [StartRequest MANUAL; StartRequest SCHEDULED] s0 in
  let s4 := run_events validate
              [CreateSettles 0 Resolves; CreateSettles 0 Resolves] s2 in
  isRunning (world s2) = false
  /\ starting s2 = [MANUAL; SCHEDULED]
  /\ map (fun r => (id r, status r)) (non_terminal_runs (world s4))
     = [(1, Status.RUNNING); (2, Status.RUNNING)]
  /\ map task_at (pipelines s4)
     = [AwaitCommand Scrape []; AwaitCommand Scrape []]
  /\ spawned (host (world s4))
     = [stage_command Scrape scraperPath; stage_command Scrape scraperPath]
  /\ isRunning (world s4) = true.
Proof.
  cbv zeta. repeat split.
Qed.

(** ** Runs under way in the service *)

Lemma startScraper_resume_eq trig w :
  startScraper_resume trig Resolves w =
  let run := new_run trig w in
  let w1 := on_db (fun d => {| scraperRun := scraperRun d ++ [run];
                               nextId := nextId (db w) + 1;
                               schedulerConfig := schedulerConfig d |}) w in
  let w2 := on_svc (fun s =>
    set_abortRequested false
      (set_outputBuffer [] (set_currentRunId (Some (id run)) s))) w1 in
  let p := pipeline_enter (id run) (gptPath (host w)) w2 in
  (Normal {| runId := id run; error := None |},
   Some {| task_runId := id run; task_scraperPath := gptPath (host w);
           task_at := fst p |},
   snd p).
Proof.
  unfold startScraper_resume. rewrite scraperRun_create_eq. cbv zeta.
  cbn [id new_run]. now destruct (pipeline_enter _ _ _).
Qed.

Lemma find_run_status_updated runId0 s rows r0 :
  find (fun r => id r =? runId0) rows = Some r0 ->
  option_map status
    (find (fun r => id r =? runId0)
       (map (fun r => if id r =? runId0 then data_status s r else r) rows))
  = Some s.
Proof.
  intros H. rewrite find_run_updated by reflexivity. now rewrite H.
Qed.

Lemma task_eta t :
  {| task_runId := task_runId t; task_scraperPath := task_scraperPath t;
     task_at := task_at t |} = t.
Proof. now destruct t. Qed.

(** An execution that has no segment left stays as it is. *)
Lemma dead_step validate ev s k t :
  nth_error (pipelines s) k = Some t -> live (task_at t) = false ->
  nth_error (pipelines (step validate ev s)) k = Some t.
Proof.
  intros Hk Hd.
  assert (forall k' t1 p, nth_error (pipelines s) k' = Some t1 ->
            live (task_at t1) = true ->
            nth_error (pipelines (resume_task k' t1 p s)) k = Some t) as Hres.
  { intros k' t1 p Hk' Hl. cbn [resume_task pipelines].
    rewrite nth_error_replace_nth.
    destruct (Nat.eqb_spec k k') as [->|Hne]; [|assumption].
    rewrite Hk in Hk'. injection Hk' as <-. congruence. }
  destruct ev; cbn [step].
  - unfold start_request. now destruct (startScraper_enter _).
  - destruct (nth_error (starting s) k0); [|assumption].
    destruct (startScraper_resume _ _ _) as [[c [tn|]] w'];
      cbn [pipelines]; [|assumption].
    rewrite nth_error_app1; [assumption|].
    apply nth_error_Some. congruence.
  - destruct (nth_error (pipelines s) k0) as [t1|] eqn:Hk0; [|assumption].
    destruct (task_at t1) eqn:Hat; try assumption.
    destruct (child_event _ _) as [co' w'].
    apply Hres; [assumption|now rewrite Hat].
  - destruct (nth_error (pipelines s) k0) as [t1|] eqn:Hk0; [|assumption].
    destruct (task_at t1) eqn:Hat; try assumption.
    apply Hres; [assumption|now rewrite Hat].
  - destruct (nth_error (pipelines s) k0) as [t1|] eqn:Hk0; [|assumption].
    destruct (task_at t1) eqn:Hat; try assumption;
      (apply Hres; [assumption|now rewrite Hat]).
  - assumption.
  - destruct (nth_error _ j) as [ct|]; [|assumption].
    destruct (scheduled ct); [|assumption].
    unfold start_request. now destruct (startScraper_enter _).
  - assumption.
Qed.

(** In a service whose starts do not overlap, an execution under way is
    under way alone: a turn of the event loop is one of its own moves. *)
Lemma lone_step validate ev s k t :
  single_flight s -> polite s ev ->
  nth_error (pipelines s) k = Some t -> live (task_at t) = true ->
  exists a',
    nth_error (pipelines (step validate ev s)) k
    = Some {| task_runId := task_runId t;
              task_scraperPath := task_scraperPath t; task_at := a' |}
    /\ lone_move validate (task_runId t) (task_scraperPath t)
         (task_at t, world s) (a', world (step validate ev s)).
Proof.
  intros H Hp Hk Hl.
  destruct (live_running s k t H Hk Hl) as [Hrun Hst].
  destruct (sf_live s H k t Hk Hl) as (_ & _ & Huniq).
  assert (exists a', nth_error (pipelines s) k
                     = Some {| task_runId := task_runId t;
                               task_scraperPath := task_scraperPath t;
                               task_at := a' |}
                     /\ lone_move validate (task_runId t) (task_scraperPath t)
                          (task_at t, world s) (a', world s)) as Hsame.
  { exists (task_at t). rewrite task_eta. split; [assumption|constructor]. }
  assert (forall k' t1, nth_error (pipelines s) k' = Some t1 ->
            live (task_at t1) = true -> k' = k /\ t1 = t) as Hone.
  { intros k' t1 Hk' Hl'. assert (k' = k) as -> by now apply Huniq with t1.
    split; [reflexivity|congruence]. }
  assert (forall p, nth_error (pipelines (resume_task k t p s)) k
                    = Some {| task_runId := task_runId t;
                              task_scraperPath := task_scraperPath t;
                              task_at := fst p |}) as Hres.
  { intros p. cbn [resume_task pipelines]. rewrite nth_error_replace_nth.
    now rewrite Nat.eqb_refl, Hk. }
  destruct ev; cbn [step].
  - unfold start_request, startScraper_enter. now rewrite Hrun.
  - rewrite Hst. now destruct k0.
  - destruct (nth_error (pipelines s) k0) as [t1|] eqn:Hk0; [|assumption].
    destruct (task_at t1) eqn:Hat; try assumption.
    destruct (Hone k0 t1 Hk0) as [-> ->]; [now rewrite Hat|].
    destruct (child_event ev (commandOutput, world s)) as [co' w'] eqn:E.
    exists (AwaitCommand st co'). split; [apply Hres|].
    rewrite Hat. cbn [resume_task world snd].
    replace co' with (fst (child_event ev (commandOutput, world s)))
      by now rewrite E.
    replace w' with (snd (child_event ev (commandOutput, world s)))
      by now rewrite E.
    constructor.
  - destruct (nth_error (pipelines s) k0) as [t1|] eqn:Hk0; [|assumption].
    destruct (task_at t1) eqn:Hat; try assumption.
    destruct (Hone k0 t1 Hk0) as [-> ->]; [now rewrite Hat|].
    eexists. split; [apply Hres|]. rewrite Hat. cbn [resume_task world].
    rewrite <- surjective_pairing. constructor.
  - destruct (nth_error (pipelines s) k0) as [t1|] eqn:Hk0; [|assumption].
    destruct (task_at t1) eqn:Hat; try assumption.
    + destruct (Hone k0 t1 Hk0) as [-> ->]; [now rewrite Hat|].
      eexists. split; [apply Hres|]. rewrite Hat. cbn [resume_task world].
      rewrite <- surjective_pairing. constructor.
    + destruct (Hone k0 t1 Hk0) as [-> ->]; [now rewrite Hat|].
      eexists. split; [apply Hres|]. rewrite Hat. cbn [resume_task world].
      rewrite <- surjective_pairing. constructor.
  - exists (task_at t). cbn [with_world pipelines world]. rewrite task_eta.
    split; [assumption|constructor].
  - destruct (nth_error _ j) as [ct|]; [|assumption].
    destruct (scheduled ct); [|assumption].
    unfold start_request, startScraper_enter. now rewrite Hrun.
  - exists (task_at t). cbn [with_world pipelines world]. rewrite task_eta.
    split; [assumption|constructor].
Qed.

(** What holds of an execution and is kept by its moves holds of it after
    any sequence of events, as long as starts do not overlap. *)
Lemma lone_run_events validate (P : Awaiting * World -> Prop) runId0 path :
  (forall p p', live (fst p) = true -> P p ->
     lone_move validate runId0 path p p' -> P p') ->
  (forall a w w', live a = false -> P (a, w) -> P (a, w')) ->
  forall evs s k t,
  single_flight s -> serialized validate evs s ->
  nth_error (pipelines s) k = Some t ->
  task_runId t = runId0 -> task_scraperPath t = path ->
  P (task_at t, world s) ->
  exists t', nth_error (pipelines (run_events validate evs s)) k = Some t'
             /\ task_runId t' = runId0 /\ task_scraperPath t' = path
             /\ P (task_at t', world (run_events validate evs s)).
Proof.
  intros Hmove Hdead. induction evs as [|ev evs IH];
    intros s k t H Hser Hk Hid Hpath HP.
  - exists t. now repeat split.
  - destruct Hser as [Hp Hser]. cbn [run_events fold_left].
    fold (run_events validate evs (step validate ev s)).
    pose proof (single_flight_step validate ev s H Hp) as H'.
    destruct (live (task_at t)) eqn:Hl.
    + destruct (lone_step validate ev s k t H Hp Hk Hl) as (a' & Hk' & Hm).
      apply (IH _ k _ H' Hser Hk'); cbn [task_runId task_scraperPath task_at];
        try assumption.
      rewrite Hid, Hpath in Hm.
      exact (Hmove (task_at t, world s) _ Hl HP Hm).
    + pose proof (dead_step validate ev s k t Hk Hl) as Hk'.
      apply (IH _ k _ H' Hser Hk'); try assumption.
      now apply Hdead with (world s).
Qed.

Lemma stored_has_run runId0 d x :
  option_map status (find_run runId0 d) = Some x -> has_run runId0 d = true.
Proof.
  unfold find_run, has_run. intros H.
  destruct (find _ _) as [r|] eqn:E; [|discriminate].
  apply find_some in E. apply existsb_exists. now exists r.
Qed.

Lemma same_rows_find runId0 d d' :
  scraperRun d' = scraperRun d ->
  find_run runId0 d' = find_run runId0 d /\ has_run runId0 d' = has_run runId0 d.
Proof. unfold find_run, has_run. now intros ->. Qed.

Lemma in_stage_world runId0 a w w' :
  scraperRun (db w') = scraperRun (db w) ->
  pipelineStep (svc w') = pipelineStep (svc w) ->
  in_stage runId0 (a, w) -> in_stage runId0 (a, w').
Proof.
  intros Hr Hs. destruct (same_rows_find runId0 _ _ Hr) as [Hf Hh].
  unfold in_stage. cbn [fst snd]. rewrite Hf, Hh, Hs. trivial.
Qed.

Lemma in_stage_calm runId0 a w w' :
  calm w w' -> in_stage runId0 (a, w) -> in_stage runId0 (a, w').
Proof.
  intros Hc. apply in_stage_world.
  - now rewrite (calm_db _ _ Hc).
  - apply (calm_step _ _ Hc).
Qed.

Lemma in_stage_finally runId0 fs em w :
  has_run runId0 (db w) = true -> in_stage runId0 (finally_enter fs em w).
Proof. trivial. Qed.

Lemma move_on_in_stage runId0 st st' w :
  st' <> Scrape -> stage_before st' = st ->
  option_map status (find_run runId0 (db w)) = Some (stage_status st) ->
  in_stage runId0 (try_segment (
    modify (on_svc (set_pipelineStep (stage_step st'))) ;;
    broadcast_now Kind.status (stage_banner st') ;;
    ret (Suspend (AwaitStatusUpdate st'))) w).
Proof.
  intros Hne Hb Hs. rewrite move_on_eq. cbv zeta.
  destruct (first_throw _ _).
  - apply in_stage_finally. now apply stored_has_run in Hs.
  - unfold in_stage. cbn [fst snd]. rewrite Hb. now repeat split.
Qed.

Lemma after_command_in_stage runId0 st r w :
  option_map status (find_run runId0 (db w)) = Some (stage_status st) ->
  in_stage runId0 (after_command st r w).
Proof.
  intros Hs. pose proof (stored_has_run _ _ _ Hs) as Hh.
  destruct st.
  - rewrite after_scrape_eq.
    destruct (auth_required _); [now apply in_stage_finally|].
    destruct (negb _); [now apply in_stage_finally|].
    destruct (abortRequested _); [now apply in_stage_finally|].
    now apply move_on_in_stage with Scrape.
  - rewrite after_enrich_eq.
    destruct (negb _); [now apply in_stage_finally|].
    destruct (abortRequested _); [now apply in_stage_finally|].
    now apply move_on_in_stage with Enrich.
  - rewrite after_process_eq.
    destruct (negb _); now apply in_stage_finally.
Qed.

Lemma in_stage_move validate runId0 path p p' :
  live (fst p) = true -> in_stage runId0 p ->
  lone_move validate runId0 path p p' -> in_stage runId0 p'.
Proof.
  intros Hl HP Hm. destruct Hm.
  - assumption.
  - apply in_stage_calm with w; [apply call_calm|assumption].
  - destruct (updateSchedulerConfig_runs validate enabled0 cronExpr0 reply w)
      as (H1 & _ & _ & H4).
    now apply in_stage_world with w.
  - pose proof (child_event_calm ev co w) as Hc.
    apply in_stage_calm with w; [assumption|]. exact HP.
  - destruct HP as [Hstep Hs]. cbn [fst snd] in Hstep, Hs.
    unfold feed_command. cbn [events ending child_events fold_left].
    pose proof (child_end_calm e co w) as Hc.
    destruct (child_end e co w) as [[r|] w2]; cbn [snd] in Hc; [|exact I].
    apply after_command_in_stage. now rewrite (calm_db _ _ Hc).
  - destruct HP as (Hne & Hstep & Hs). cbn [fst snd] in Hstep, Hs.
    pose proof (stored_has_run _ _ _ Hs) as Hh.
    rewrite after_status_update_eq, scraperRun_update_eq.
    destruct reply; [|now apply in_stage_finally].
    rewrite Hh. unfold in_stage. cbn [fst snd]. split; [exact Hstep|].
    destruct (has_run_find _ _ Hh) as (r0 & Hr0).
    unfold find_run in *. cbn [db on_host on_db scraperRun set_scraperRun].
    now apply find_run_status_updated with r0.
  - unfold after_final_update. now destruct (finally_rest _ _ _ _).
Qed.

Lemma in_stage_dead runId0 a w w' :
  live a = false -> in_stage runId0 (a, w) -> in_stage runId0 (a, w').
Proof. destruct a; try discriminate; trivial. Qed.

(** An execution that a turn of the event loop adds was started by the
    settlement of a creation. *)
Lemma step_new_pipeline validate ev s k t' :
  nth_error (pipelines (step validate ev s)) k = Some t' ->
  nth_error (pipelines s) k = None ->
  exists k0 reply trig c,
    ev = CreateSettles k0 reply
    /\ nth_error (starting s) k0 = Some trig
    /\ startScraper_resume trig reply (world s)
       = (c, Some t', world (step validate ev s)).
Proof.
  intros Hk' Hk.
  assert (forall k1 t1 p,
            nth_error (pipelines (resume_task k1 t1 p s)) k = Some t' -> False)
    as Hres.
  { intros k1 t1 p. cbn [resume_task pipelines].
    rewrite nth_error_replace_nth, Hk.
    destruct (Nat.eqb_spec k k1) as [->|_]; [rewrite Hk|]; discriminate. }
  destruct ev; cbn [step] in *.
  - unfold start_request in Hk'. destruct (startScraper_enter _);
      cbn [pipelines] in Hk'; congruence.
  - destruct (nth_error (starting s) k0) as [trig|] eqn:Hst; [|congruence].
    destruct (startScraper_resume trig reply (world s)) as [[c [tn|]] w'] eqn:E;
      cbn [pipelines world] in *; [|congruence].
    exists k0, reply, trig, c. split; [reflexivity|]. split; [assumption|].
    apply nth_error_None in Hk.
    rewrite nth_error_app2 in Hk' by assumption.
    destruct (k - Datatypes.length (pipelines s))%nat as [|j];
      [|destruct j; discriminate].
    injection Hk' as <-. assumption.
  - destruct (nth_error (pipelines s) k0) as [t1|]; [|congruence].
    destruct (task_at t1); try congruence.
    destruct (child_event _ _) as [co' w']. exfalso. exact (Hres _ _ _ Hk').
  - destruct (nth_error (pipelines s) k0) as [t1|]; [|congruence].
    destruct (task_at t1); try congruence;
      try (exfalso; exact (Hres _ _ _ Hk')).
  - destruct (nth_error (pipelines s) k0) as [t1|]; [|congruence].
    destruct (task_at t1); try congruence;
      try (exfalso; exact (Hres _ _ _ Hk')).
  - cbn [with_world pipelines] in Hk'. congruence.
  - destruct (nth_error _ j) as [ct|]; [|congruence].
    destruct (scheduled ct); [|congruence].
    unfold start_request in Hk'. destruct (startScraper_enter _);
      cbn [pipelines] in Hk'; congruence.
  - cbn [with_world pipelines] in Hk'. congruence.
Qed.

Lemma find_fresh (rows : list ScraperRun) (n : Z) run :
  (forall r, In r rows -> id r < n) -> id run = n ->
  find (fun r => id r =? n) (rows ++ [run]) = Some run.
Proof.
  intros Hf Hid. induction rows as [|r rows IH]; simpl.
  - rewrite Hid, Z.eqb_refl. reflexivity.
  - pose proof (Hf r (or_introl eq_refl)) as Hr.
    destruct (Z.eqb_spec (id r) n); [lia|].
    apply IH. intros r' Hr'. apply Hf. now right.
Qed.

Lemma created_in_stage trig reply s c t' w' :
  single_flight s ->
  startScraper_resume trig reply (world s) = (c, Some t', w') ->
  in_stage (task_runId t') (task_at t', w').
Proof.
  intros H E. destruct reply as [|e].
  - rewrite startScraper_resume_eq in E. cbv zeta in E.
    injection E as _ <- <-. cbn [task_runId task_at].
    rewrite <- surjective_pairing.
    rewrite pipeline_enter_eq. cbv zeta.
    assert (find (fun r => id r =? nextId (db (world s)))
              (scraperRun (db (world s)) ++ [new_run trig (world s)])
            = Some (new_run trig (world s))) as Hf.
    { apply find_fresh; [|reflexivity]. apply (sf_fresh s H). }
    destruct (first_throw _ _).
    + apply in_stage_finally. unfold has_run.
      cbn [db on_host on_svc on_db scraperRun]. apply existsb_exists.
      exists (new_run trig (world s)). split.
      * apply in_or_app. right. now left.
      * apply Z.eqb_refl.
    + unfold in_stage. cbn [fst snd]. split; [reflexivity|].
      unfold find_run. cbn [db on_host on_svc on_db scraperRun id new_run].
      cbn [id new_run] in Hf. now rewrite Hf.
  - unfold startScraper_resume in E. simpl in E. discriminate.
Qed.

Lemma staged_step validate ev s :
  single_flight s -> polite s ev -> staged s -> staged (step validate ev s).
Proof.
  intros H Hp Hs k t' Hk'.
  destruct (nth_error (pipelines s) k) as [t|] eqn:Hk.
  - pose proof (Hs k t Hk) as HP.
    destruct (live (task_at t)) eqn:Hl.
    + destruct (lone_step validate ev s k t H Hp Hk Hl) as (a' & Ha & Hm).
      rewrite Ha in Hk'. injection Hk' as <-. cbn [task_runId task_at].
      exact (in_stage_move validate _ _ (task_at t, world s) _ Hl HP Hm).
    + rewrite (dead_step validate ev s k t Hk Hl) in Hk'.
      injection Hk' as <-. now apply in_stage_dead with (world s).
  - destruct (step_new_pipeline validate ev s k t' Hk' Hk)
      as (k0 & reply & trig & c & _ & _ & E).
    now apply created_in_stage with trig reply s c.
Qed.

Lemma staged_run_events validate evs s :
  single_flight s -> staged s -> serialized validate evs s ->
  staged (run_events validate evs s).
Proof.
  revert s. induction evs as [|ev evs IH]; intros s H Hs Hser; [assumption|].
  destruct Hser as [Hp Hser]. simpl. apply IH; [| |assumption].
  - now apply single_flight_step.
  - now apply staged_step.
Qed.

(** What a service is in after any sequence of events in which starts do
    not overlap. *)
Lemma reached_invariants validate d t scraperPath evs :
  settled_store d ->
  serialized validate evs (initial_system (fresh_world d t scraperPath)) ->
  let s := run_events validate evs
             (initial_system (fresh_world d t scraperPath)) in
  single_flight s /\ staged s.
Proof.
  intros [Hnd Hrows] Hser s.
  pose proof (single_flight_initial d t scraperPath Hnd Hrows) as H0.
  split.
  - now apply single_flight_run_events.
  - apply staged_run_events; try assumption.
    intros [|k] t0; discriminate.
Qed.

Lemma serialized_app validate evs1 evs2 s :
  serialized validate (evs1 ++ evs2) s
  <-> serialized validate evs1 s
      /\ serialized validate evs2 (run_events validate evs1 s).
Proof.
  revert s. induction evs1 as [|ev evs1 IH]; intros s; simpl.
  - tauto.
  - rewrite IH. unfold run_events. tauto.
Qed.

Lemma run_events_app validate evs1 evs2 s :
  run_events validate (evs1 ++ evs2) s
  = run_events validate evs2 (run_events validate evs1 s).
Proof. unfold run_events. apply fold_left_app. Qed.

(** The shape of the segment that follows a command: it leaves [try] in
    the world it started in, or it moves on to the next stage, no abort
    being requested. *)
Lemma after_command_shape st r w :
  (exists fs em, after_command st r w = finally_enter fs em w)
  \/ (exists st',
        st' <> Scrape /\ stage_before st' = st
        /\ abortRequested (svc w) = false
        /\ after_command st r w
           = try_segment (
               modify (on_svc (set_pipelineStep (stage_step st'))) ;;
               broadcast_now Kind.status (stage_banner st') ;;
               ret (Suspend (AwaitStatusUpdate st'))) w).
Proof.
  destruct st.
  - rewrite after_scrape_eq.
    destruct (auth_required _); [left; eauto|].
    destruct (negb _); [left; eauto|].
    destruct (abortRequested (svc w)) eqn:E; [left; eauto|].
    right. exists Enrich. now repeat split.
  - rewrite after_enrich_eq.
    destruct (negb _); [left; eauto|].
    destruct (abortRequested (svc w)) eqn:E; [left; eauto|].
    right. exists Process. now repeat split.
  - rewrite after_process_eq. destruct (negb _); left; eauto.
Qed.

Lemma move_on_shape st w :
  let p := try_segment (
    modify (on_svc (set_pipelineStep (stage_step st))) ;;
    broadcast_now Kind.status (stage_banner st) ;;
    ret (Suspend (AwaitStatusUpdate st))) w in
  outputBuffer (svc (snd p)) = outputBuffer (svc w)
  /\ abortRequested (svc (snd p)) = abortRequested (svc w)
  /\ spawned (host (snd p)) = spawned (host w)
  /\ ((exists em, p = finally_enter Status.FAILED em (snd p))
      \/ fst p = AwaitStatusUpdate st).
Proof.
  cbv zeta. rewrite move_on_eq. cbv zeta.
  destruct (first_throw _ _); cbn [finally_enter fst snd];
    (split; [reflexivity|]); (split; [reflexivity|]);
    (split; [reflexivity|]); [left; eauto|now right].
Qed.

Lemma child_end_svc e co w : svc (snd (child_end e co w)) = svc w.
Proof.
  destruct e; [reflexivity|]. cbn [child_end].
  rewrite broadcast_now_eq, broadcast_eq. now destruct (first_throw _ _).
Qed.

Lemma updateSchedulerConfig_quiet validate enabled0 cronExpr0 reply w :
  let w' := effect (updateSchedulerConfig validate enabled0 cronExpr0 reply) w in
  outputBuffer (svc w') = outputBuffer (svc w)
  /\ abortRequested (svc w') = abortRequested (svc w)
  /\ spawned (host w') = spawned (host w).
Proof.
  cbv zeta. unfold effect, updateSchedulerConfig, schedulerConfig_upsert.
  destruct reply; [|now repeat split].
  unfold bind, modify. simpl.
  destruct (enabled0 && validate cronExpr0); simpl.
  - unfold startScheduler. simpl.
    destruct (scheduledTask (svc w)); destruct (negb _); now repeat split.
  - unfold stopScheduler. simpl.
    destruct (scheduledTask (svc w)); now repeat split.
Qed.

Lemma held_world st base path a w w' :
  spawned (host w') = spawned (host w) ->
  (abortRequested (svc w) = true -> abortRequested (svc w') = true) ->
  held st base path (a, w) -> held st base path (a, w').
Proof.
  intros Hs Ha. unfold held. cbn [fst snd]. rewrite Hs.
  destruct a; intuition.
Qed.

Lemma after_command_aborted st r w :
  abortRequested (svc w) = true ->
  exists fs em, after_command st r w = finally_enter fs em w.
Proof.
  intros Hab. destruct (after_command_shape st r w) as [H|H]; [assumption|].
  destruct H as (st' & _ & _ & Hf & _). congruence.
Qed.

Lemma held_move validate st base runId0 path p p' :
  live (fst p) = true -> held st base path p ->
  lone_move validate runId0 path p p' -> held st base path p'.
Proof.
  intros Hl HP Hm. destruct Hm.
  - assumption.
  - pose proof (call_calm c w) as Hc.
    apply held_world with w; [apply (calm_spawned _ _ Hc)| |assumption].
    apply (calm_abort _ _ Hc).
  - destruct (updateSchedulerConfig_quiet validate enabled0 cronExpr0 reply w)
      as (_ & H2 & H3).
    apply held_world with w; [assumption| |assumption]. now rewrite H2.
  - pose proof (child_event_calm ev co w) as Hc.
    apply held_world with w; [apply (calm_spawned _ _ Hc)| |exact HP].
    apply (calm_abort _ _ Hc).
  - destruct HP as (-> & Hab & Hsp). cbn [fst snd] in Hab, Hsp.
    unfold feed_command. cbn [events ending child_events fold_left].
    pose proof (child_end_calm e co w) as Hc.
    destruct (child_end e co w) as [[r|] w2]; cbn [snd] in Hc; [|exact I].
    destruct (after_command_aborted st r w2 (calm_abort _ _ Hc Hab))
      as (fs & em & ->).
    unfold held. cbn [finally_enter fst snd].
    now rewrite (calm_spawned _ _ Hc).
  - destruct HP as (-> & Hne & Hab & Hsp). cbn [fst snd] in Hab, Hsp.
    rewrite after_status_update_eq, scraperRun_update_eq.
    destruct reply; [|now left].
    destruct (has_run runId0 (db w)); [|now left].
    unfold held. cbn [fst snd host svc on_host on_db spawned set_spawned].
    split; [reflexivity|]. split; [assumption|]. right. now rewrite Hsp.
  - unfold after_final_update. now destruct (finally_rest _ _ _ _).
Qed.

Lemma held_dead st base path a w w' :
  live a = false -> held st base path (a, w) -> held st base path (a, w').
Proof. destruct a; try discriminate; trivial. Qed.

Lemma stage_step_inj st st' : stage_step st' = stage_step st -> st' = st.
Proof. destruct st, st'; now try discriminate. Qed.

(** [stopScraper] is called while the step is that of stage [st]: every
    execution under way is held at that stage from then on. *)
Lemma stop_holds validate st s evs k task :
  single_flight s -> staged s ->
  getCurrentStep (world s) = stage_step st ->
  serialized validate evs (step validate (Request CallStop) s) ->
  nth_error
    (pipelines (run_events validate evs (step validate (Request CallStop) s)))
    k = Some task ->
  (k < List.length (pipelines s))%nat ->
  held st (spawned (host (world s))) (task_scraperPath task)
    (task_at task,
     world (run_events validate evs (step validate (Request CallStop) s))).
Proof.
  intros H Hs Hstep Hser Hk Hlt.
  destruct (nth_error (pipelines s) k) as [t0|] eqn:Hk0;
    [|apply nth_error_None in Hk0; lia].
  pose proof (single_flight_step validate (Request CallStop) s H I) as H1.
  assert (isRunning (world s) = true) as Hrun.
  { rewrite isRunning_step. unfold getCurrentStep in Hstep. rewrite Hstep.
    now destruct st. }
  pose proof (call_calm CallStop (world s)) as Hc.
  assert (held st (spawned (host (world s))) (task_scraperPath t0)
            (task_at t0, call CallStop (world s))) as H0.
  { pose proof (Hs k t0 Hk0) as Hin. unfold in_stage in Hin. unfold held.
    cbn [fst snd] in *. rewrite (calm_spawned _ _ Hc).
    pose proof (call_stop_requests (world s) Hrun) as Hab.
    unfold getCurrentStep in Hstep. rewrite Hstep in Hin.
    destruct (task_at t0) as [st' co|st'| | |]; try exact I.
    - destruct Hin as [Hin _]. symmetry in Hin. apply stage_step_inj in Hin.
      subst st'. repeat split; [assumption|now left].
    - destruct Hin as (Hne & Hin & _). symmetry in Hin.
      apply stage_step_inj in Hin. subst st'. now repeat split.
    - now left. }
  destruct (lone_run_events validate
              (held st (spawned (host (world s))) (task_scraperPath t0))
              (task_runId t0) (task_scraperPath t0)
              (fun p p' => held_move validate st _ _ _ p p')
              (held_dead st _ _)
              evs (step validate (Request CallStop) s) k t0 H1 Hser Hk0
              eq_refl eq_refl H0) as (t' & Hk' & _ & Hpath & HP).
  rewrite Hk in Hk'. injection Hk' as <-. now rewrite Hpath.
Qed.

Lemma command_end_step validate s k task st co e :
  nth_error (pipelines s) k = Some task ->
  task_at task = AwaitCommand st co ->
  step validate (ChildEnds k e) s
  = resume_task k task
      (feed_command st co {| events := []; ending := e |} (world s)) s.
Proof. intros Hk Hat. cbn [step]. now rewrite Hk, Hat. Qed.

Lemma resumed_task k task p s :
  nth_error (pipelines s) k = Some task ->
  nth_error (pipelines (resume_task k task p s)) k
  = Some {| task_runId := task_runId task;
            task_scraperPath := task_scraperPath task; task_at := fst p |}.
Proof.
  intros Hk. cbn [resume_task pipelines]. rewrite nth_error_replace_nth.
  now rewrite Nat.eqb_refl, Hk.
Qed.

(** The update of [finally] is carried out: the row of the run holds the
    final data. *)
Lemma final_update_stores validate s k task fd :
  nth_error (pipelines s) k = Some task ->
  task_at task = AwaitFinalUpdate fd ->
  has_run (task_runId task) (db (world s)) = true ->
  exists r0,
    find_run (task_runId task) (db (world s)) = Some r0
    /\ find_run (task_runId task)
         (db (world (step validate (UpdateSettles k Resolves) s)))
       = Some (data_final fd r0).
Proof.
  intros Hk Hat Hrun. cbn [step]. rewrite Hk, Hat.
  cbn [resume_task world]. unfold after_final_update.
  destruct (finally_rest_stored (task_runId task) fd (world s) Hrun)
    as (r0 & H1 & H2).
  exists r0. split; [assumption|].
  now destruct (finally_rest (task_runId task) fd Resolves (world s)).
Qed.

Lemma command_end_aborted validate s k task st co exitCode :
  nth_error (pipelines s) k = Some task ->
  task_at task = AwaitCommand st co ->
  abortRequested (svc (world s)) = true ->
  exists fs em,
    after_command st
      {| Result.code := match exitCode with Some c => c | None => 1 end;
         Result.output := Text.join co |} (world s)
    = finally_enter fs em (world s)
    /\ nth_error (pipelines (step validate (ChildEnds k (Close exitCode)) s)) k
       = Some {| task_runId := task_runId task;
                 task_scraperPath := task_scraperPath task;
                 task_at := AwaitFinalUpdate (final_data fs em (world s)) |}.
Proof.
  intros Hk Hat Hab.
  destruct (after_command_aborted st
              {| Result.code := match exitCode with Some c => c | None => 1 end;
                 Result.output := Text.join co |} (world s) Hab)
    as (fs & em & E).
  exists fs, em. split; [assumption|].
  rewrite (command_end_step validate s k task st co _ Hk Hat).
  rewrite (resumed_task k task _ s Hk).
  rewrite (feed_command_close st co {| events := []; ending := Close exitCode |}
             (world s) exitCode eq_refl).
  cbn [events flat_map child_events fold_left snd]. rewrite app_nil_r.
  now rewrite E.
Qed.

Lemma finally_enter_inj fs em fs' em' w :
  finally_enter fs em w = finally_enter fs' em' w -> fs = fs' /\ em = em'.
Proof. unfold finally_enter, final_data. intros [= -> ->]. now split. Qed.

(** ** An abort requested during stage 1 *)

(** C6 (as the code has it), for a service whose starts do not overlap:
    [stopScraper] is called while the step is [SCRAPING].  The call
    registers the abort and returns [true] (a subscriber throwing on the
    warning makes it throw instead, the abort registered; it never returns
    [false]).  From then on, whatever events follow, every execution that
    was under way at the call is held at stage 1: it awaits the scraper with
    the abort still requested, or it has left [try]; it never comes to
    stage 2, and nothing is spawned while it is under way.  When the
    scraper closes, the checks come in their order: the authentication
    marker in the output gives [AUTH_REQUIRED]; otherwise an exit code other
    than 0 gives [FAILED] with ['Scraping failed with exit code N'];
    otherwise the run ends as [FAILED] with ['Pipeline aborted by user'].
    The update of [finally], once carried out, stores the status and the
    message in the row of the run.  Called while the step is [IDLE],
    [stopScraper] returns [false] and changes nothing. *)
Theorem abort_during_scraping (validate : string -> bool) (d : Prisma)
  (t0 : Z) (scraperPath : string) (evs1 evs2 : list Event) :
  settled_store d ->
  let s0 := initial_system (fresh_world d t0 scraperPath) in
  serialized validate (evs1 ++ Request CallStop :: evs2) s0 ->
  let s := run_events validate evs1 s0 in
  getCurrentStep (world s) = Step.SCRAPING ->
  let s' := run_events validate (Request CallStop :: evs2) s in
  abortRequested (svc (effect stopScraper (world s))) = true
  /\ fst (stopScraper (world s)) <> Normal false
  /\ (quiet_on (abort_warning_event (world s)) (listeners (svc (world s))) ->
      fst (stopScraper (world s)) = Normal true)
  /\ (forall k task,
        nth_error (pipelines s') k = Some task ->
        (k < List.length (pipelines s))%nat ->
        match task_at task with
        | AwaitCommand st co =>
            st = Scrape
            /\ abortRequested (svc (world s')) = true
            /\ spawned (host (world s')) = spawned (host (world s))
            /\ forall exitCode,
                 let code := match exitCode with Some c => c | None => 1 end in
                 exists fs em,
                   nth_error
                     (pipelines
                        (step validate (ChildEnds k (Close exitCode)) s')) k
                   = Some {| task_runId := task_runId task;
                             task_scraperPath := task_scraperPath task;
                             task_at :=
                               AwaitFinalUpdate
                                 (final_data fs em (world s')) |}
                   /\ (auth_required (Text.join co) = true ->
                       fs = Status.AUTH_REQUIRED
                       /\ em = Some "WhatsApp authentication required"%string)
                   /\ (auth_required (Text.join co) = false -> code <> 0 ->
                       fs = Status.FAILED
                       /\ em = Some ("Scraping failed with exit code "
                                     ++ Text.of_Z code)%string)
                   /\ (auth_required (Text.join co) = false -> code = 0 ->
                       fs = Status.FAILED
                       /\ em = Some "Pipeline aborted by user"%string)
        | AwaitStatusUpdate _ => False
        | AwaitFinalUpdate fd =>
            spawned (host (world s')) = spawned (host (world s))
            /\ exists r,
                 find_run (task_runId task)
                   (db (world (step validate (UpdateSettles k Resolves) s')))
                 = Some r
                 /\ status r = fd_status fd
                 /\ errorMessage r = fd_errorMessage fd
        | Stalled | Settled _ => True
        end)
  /\ (forall w0, pipelineStep (svc w0) = Step.IDLE ->
      stopScraper w0 = (Normal false, w0)).
Proof.
  intros Hd s0 Hser s Hstep s'.
  apply serialized_app in Hser. destruct Hser as [Hser1 Hser2].
  fold s in Hser2. destruct Hser2 as [_ Hser2].
  destruct (reached_invariants validate d t0 scraperPath evs1 Hd Hser1) as [H Hs].
  fold s0 s in H, Hs.
  assert (isRunning (world s) = true) as Hrun.
  { rewrite isRunning_step. unfold getCurrentStep in Hstep. now rewrite Hstep. }
  destruct (stopScraper_running (world s) Hrun) as (A1 & A2 & A3).
  split; [assumption|]. split; [assumption|]. split; [assumption|].
  split.
  - intros k task Hk Hlt.
    assert (single_flight s' /\ staged s') as [H' Hs'].
    { subst s'. cbn [run_events fold_left].
      fold (run_events validate evs2 (step validate (Request CallStop) s)).
      pose proof (single_flight_step validate (Request CallStop) s H I) as H1.
      split.
      - now apply single_flight_run_events.
      - apply staged_run_events; try assumption.
        now apply staged_step. }
    pose proof (stop_holds validate Scrape s evs2 k task H Hs Hstep Hser2 Hk Hlt)
      as Hh.
    fold (run_events validate (Request CallStop :: evs2) s) in Hh.
    fold s' in Hh. unfold held in Hh. cbn [fst snd] in Hh.
    pose proof (Hs' k task Hk) as Hin. unfold in_stage in Hin.
    cbn [fst snd] in Hin.
    destruct (task_at task) as [st co|st|fd| |c] eqn:Hat; try exact I.
    + destruct Hh as (-> & Hab & [Hsp|[Hne _]]); [|contradiction].
      change (abortRequested (svc (world s')) = true) in Hab.
      change (spawned (host (world s')) = spawned (host (world s))) in Hsp.
      split; [reflexivity|]. split; [assumption|]. split; [assumption|].
      intros exitCode code.
      destruct (command_end_aborted validate s' k task Scrape co exitCode
                  Hk Hat Hab) as (fs & em & E & Hk2).
      exists fs, em. split; [assumption|].
      rewrite after_scrape_eq in E. cbn [Result.code Result.output] in E.
      fold code in E. rewrite Hab in E.
      destruct (auth_required (Text.join co)).
      * apply finally_enter_inj in E. destruct E as [<- <-].
        repeat split; discriminate.
      * destruct (Z.eqb_spec code 0) as [Hc|Hc]; cbn [negb] in E;
          apply finally_enter_inj in E; destruct E as [<- <-];
          repeat split; try discriminate; try contradiction; reflexivity.
    + destruct Hh as (_ & Hne & _). now apply Hne.
    + destruct Hh as [Hsp|[Hne _]]; [|contradiction].
      split; [assumption|].
      destruct (final_update_stores validate s' k task fd Hk Hat Hin)
        as (r0 & _ & Hr).
      exists (data_final fd r0). now split.
  - intros w0 H0. apply stopScraper_idle. rewrite isRunning_step, H0.
    reflexivity.
Qed.

(** A run is started, the scraper writes a line, [stopScraper] is called,
    the scraper writes another line and exits with code 0. *)
Lemma abort_during_scraping_witness :
  let validate := fun _ : string => true in
  let evs1 := [StartRequest MANUAL; CreateSettles 0 Resolves;
               ChildEmits 0 (Stdout "Found 3 seller(s)")] in
  let evs2 := [ChildEmits 0 (Stdout "Saved 12 products")] in
  let s0 := initial_system (fresh_world empty_db 5 "/srv/gpt") in
  let s' := run_events validate (Request CallStop :: evs2)
              (run_events validate evs1 s0) in
  nth_error (pipelines (step validate (ChildEnds 0 (Close (Some 0))) s')) 0
  = Some {| task_runId := 1; task_scraperPath := "/srv/gpt";
            task_at := AwaitFinalUpdate
              (final_data Status.FAILED (Some "Pipeline aborted by user"%string)
                 (world s')) |}.
Proof.
  intros validate evs1 evs2 s0 s'.
  assert (settled_store empty_db) as Hd.
  { split; [constructor|intros r []]. }
  assert (serialized validate (evs1 ++ Request CallStop :: evs2) s0) as Hser.
  { simpl. repeat split. }
  destruct (abort_during_scraping validate empty_db 5 "/srv/gpt" evs1 evs2
              Hd Hser eq_refl) as (_ & _ & _ & Hrun & _).
  specialize (Hrun 0%nat
    {| task_runId := 1; task_scraperPath := "/srv/gpt";
       task_at := AwaitCommand Scrape
                    ["Found 3 seller(s)"; "Saved 12 products"]%string |}
    eq_refl (le_n 1)).
  cbn [task_at] in Hrun. destruct Hrun as (_ & _ & _ & Hend).
  destruct (Hend (Some 0)) as (fs & em & Hk & _ & _ & Hab).
  destruct (Hab eq_refl eq_refl) as [-> ->]. exact Hk.
Defined.

(** ** Standard error, stored and streamed *)

Lemma carries_finally pre text fs em w :
  (exists more, outputBuffer (svc w) = pre ++ [error_line text] ++ more) ->
  carries pre text (finally_enter fs em w).
Proof.
  intros [more E]. unfold carries, finally_enter, final_data.
  cbn [fst fd_output]. exists (Text.join more).
  rewrite E, app_assoc, join_app, join_snoc. apply append_assoc_s.
Qed.

Lemma carries_world pre text a w w' :
  outputBuffer (svc w') = outputBuffer (svc w) ->
  carries pre text (a, w) -> carries pre text (a, w').
Proof.
  intros E. unfold carries. cbn [fst snd]. rewrite E. trivial.
Qed.

Lemma carries_move validate pre text runId0 path p p' :
  live (fst p) = true -> carries pre text p ->
  lone_move validate runId0 path p p' -> carries pre text p'.
Proof.
  intros Hl HP Hm. destruct Hm.
  - assumption.
  - apply carries_world with w; [apply call_buffer|assumption].
  - destruct (updateSchedulerConfig_quiet validate enabled0 cronExpr0 reply w)
      as (H1 & _).
    now apply carries_world with w.
  - destruct HP as [more E]. cbn [snd] in E.
    destruct (child_event_text ev co w) as (_ & H2 & _).
    unfold carries. cbn [fst snd]. exists (more ++ stored_text ev).
    rewrite H2, E. now rewrite <- !app_assoc.
  - destruct HP as [more E]. cbn [snd] in E.
    unfold feed_command. cbn [events ending child_events fold_left].
    pose proof (child_end_svc e co w) as Hc.
    destruct (child_end e co w) as [[r|] w2]; cbn [snd] in Hc; [|exact I].
    assert (exists more, outputBuffer (svc w2)
                         = pre ++ [error_line text] ++ more) as E2
      by (exists more; now rewrite Hc).
    destruct (after_command_shape st r w2) as [(fs & em & ->)|H].
    + now apply carries_finally.
    + destruct H as (st' & _ & _ & _ & ->).
      destruct (move_on_shape st' w2) as (B & _ & _ & [[em Hp]|Hp]).
      * rewrite Hp. apply carries_finally. destruct E2 as [m E2].
        exists m. now rewrite B.
      * unfold carries. rewrite Hp. destruct E2 as [m E2].
        exists m. now rewrite B.
  - destruct HP as [more E]. cbn [snd] in E.
    rewrite after_status_update_eq, scraperRun_update_eq.
    destruct reply; [|apply carries_finally; eauto].
    destruct (has_run runId0 (db w)); [|apply carries_finally; eauto].
    unfold carries. cbn [fst snd]. now exists more.
  - unfold after_final_update. now destruct (finally_rest _ _ _ _).
Qed.

Lemma carries_dead pre text a w w' :
  live a = false -> carries pre text (a, w) -> carries pre text (a, w').
Proof. destruct a; try discriminate; trivial. Qed.



(** Why the persisted output is stated for starts that do not overlap: the
    buffer is a field of the service, and a start that resumes replaces it
    by an empty one.  A second call of [startScraper] is made while the
    first awaits the creation of its run (C1); the scraper of the first run
    writes a chunk to standard error, which is stored with its prefix and
    published as it came; then the second start resumes.  Both runs come to
    their end, and the persisted output of neither holds the chunk. *)
Lemma stderr_chunk_lost_when_starts_overlap :
  let validate := fun _ : string => true in
  let s0 := initial_system (fresh_world empty_db 5 "/srv/gpt") in
  let s2 := run_events validate
              [StartRequest MANUAL; StartRequest SCHEDULED;
               CreateSettles 0 Resolves;
               ChildEmits 0 (Stderr "rate limited")] s0 in
  let s3 := step validate (CreateSettles 0 Resolves) s2 in
  let s6 := run_events validate
              [ChildEnds 0 (Close (Some 2)); UpdateSettles 0 Resolves;
               ChildEnds 1 (Close (Some 2)); UpdateSettles 1 Resolves] s3 in
  outputBuffer (svc (world s2)) = ["[ERROR] rate limited"%string]
  /\ map kind_and_text (published (host (world s2)))
     = [announcement 1 Scrape; (Kind.stderr, "rate limited"%string)]
  /\ outputBuffer (svc (world s3)) = []
  /\ map task_at (pipelines s6) = [Settled (Normal tt); Settled (Normal tt)]
  /\ map (fun r => (id r, status r, output r)) (scraperRun (db (world s6)))
     = [(1, Status.FAILED, Some ""%string); (2, Status.FAILED, Some ""%string)].
Proof.
  cbv zeta. repeat split.
Qed.

(** ** The subscriber set while an event is published *)

Lemma weight_eq o cb :
  Live.weight o cb
  = S (list_sum (map (Live.weight o) (subscribed (fst (Live.body cb o))))).
Proof.
  destruct cb as [i f]. cbn [Live.weight Live.body]. f_equal.
  induction (fst (f o)) as [|[c|j] l IH]; simpl; congruence.
Qed.

Lemma cost_positive o e : (1 <= Live.cost o e)%nat.
Proof. destruct e as [cb|]; simpl; [rewrite weight_eq|]; lia. Qed.

Lemma pending_next o index es e :
  nth_error es index = Some e ->
  pending o index es = (Live.cost o e + pending o (S index) es)%nat.
Proof.
  unfold pending. revert index. induction es as [|x es IH]; intros [|index];
    simpl; try discriminate.
  - now intros [= ->].
  - intros H. now apply IH.
Qed.

Lemma pending_delete o index i es :
  (pending o index (Live.delete i es) <= pending o index es)%nat.
Proof.
  unfold pending, Live.delete. rewrite skipn_map.
  induction (skipn index es) as [|e l IH]; simpl; [lia|].
  destruct (Live.named i e); [|lia].
  pose proof (cost_positive o e). simpl. lia.
Qed.

Lemma pending_add o index cb es :
  (index <= List.length es)%nat ->
  (pending o index (Live.add cb es)
   <= pending o index es + Live.weight o cb)%nat.
Proof.
  intros Hle. unfold pending, Live.add.
  destruct (Live.has _ _); [lia|].
  rewrite skipn_app. replace (index - List.length es)%nat with 0%nat by lia.
  rewrite map_app, list_sum_app. simpl. lia.
Qed.

Lemma edit_length e es :
  (List.length es <= List.length (Live.edit e es))%nat.
Proof.
  destruct e as [cb|i]; simpl.
  - unfold Live.add. destruct (Live.has _ _); [lia|].
    rewrite length_app. simpl. lia.
  - unfold Live.delete. now rewrite length_map.
Qed.

Lemma edits_length l es :
  (List.length es <= List.length (Live.edits l es))%nat.
Proof.
  revert es. induction l as [|e l IH]; intros es; simpl; [lia|].
  etransitivity; [apply edit_length|apply IH].
Qed.

Lemma pending_edits o index l es :
  (index <= List.length es)%nat ->
  (pending o index (Live.edits l es)
   <= pending o index es + list_sum (map (Live.weight o) (subscribed l)))%nat.
Proof.
  revert es. induction l as [|e l IH]; intros es Hle; simpl; [lia|].
  assert (index <= List.length (Live.edit e es))%nat as Hle'
    by (pose proof (edit_length e es); lia).
  specialize (IH _ Hle'). destruct e as [cb|i]; simpl in *.
  - pose proof (pending_add o index cb es Hle). lia.
  - pose proof (pending_delete o index i es). lia.
Qed.

(** Enough fuel: the iteration comes to its end. *)
Lemma forEach_total o fuel index es log :
  (pending o index es < fuel)%nat ->
  exists r, Live.forEach fuel o index es log = Some r.
Proof.
  revert index es log. induction fuel as [|fuel IH]; intros index es log Hf;
    [lia|].
  cbn [Live.forEach].
  destruct (nth_error es index) as [[cb|]|] eqn:E; [| |eauto].
  - destruct (snd (Live.body cb o)); [eauto|].
    apply IH. rewrite (pending_next o index es _ E) in Hf. simpl in Hf.
    rewrite weight_eq in Hf.
    assert (S index <= List.length es)%nat as Hle.
    { apply nth_error_Some. congruence. }
    pose proof (pending_edits o (S index) (fst (Live.body cb o)) es Hle). lia.
  - apply IH. rewrite (pending_next o index es _ E) in Hf. simpl in Hf. lia.
Qed.

Lemma forEach_visits o fuel index es log c es' log' :
  Live.forEach fuel o index es log = Some (c, es', log') ->
  exists news, log' = log ++ news /\ visits o index es c es' news.
Proof.
  revert index es log. induction fuel as [|fuel IH]; intros index es log;
    [discriminate|].
  cbn [Live.forEach].
  destruct (nth_error es index) as [[cb|]|] eqn:E.
  - destruct (snd (Live.body cb o)) as [e|] eqn:Et.
    + intros [= <- <- <-]. exists [(index, cb)]. split; [reflexivity|].
      now apply visits_throw.
    + intros H. apply IH in H. destruct H as (news & -> & Hv).
      exists ((index, cb) :: news). split; [now rewrite <- app_assoc|].
      now apply visits_call.
  - intros H. apply IH in H. destruct H as (news & -> & Hv).
    exists news. split; [reflexivity|]. now apply visits_empty.
  - intros [= <- <- <-]. exists []. split; [now rewrite app_nil_r|].
    now apply visits_end.
Qed.

(** What an edit does to an entry that is there: nothing, or it empties
    it. *)
Lemma edit_entry e es j x :
  nth_error es j = Some x ->
  nth_error (Live.edit e es) j = Some x
  \/ nth_error (Live.edit e es) j = Some None.
Proof.
  intros H. destruct e as [cb|i]; simpl.
  - left. unfold Live.add. destruct (Live.has _ _); [assumption|].
    rewrite nth_error_app1; [assumption|]. apply nth_error_Some. congruence.
  - unfold Live.delete. rewrite nth_error_map, H. simpl.
    destruct (Live.named i x); [now right|now left].
Qed.

Lemma edits_entry l es j x :
  nth_error es j = Some x ->
  nth_error (Live.edits l es) j = Some x
  \/ nth_error (Live.edits l es) j = Some None.
Proof.
  revert es x. induction l as [|e l IH]; intros es x H; simpl; [now left|].
  destruct (edit_entry e es j x H) as [H1|H1].
  - now apply IH.
  - right. destruct (IH _ _ H1) as [H2|H2]; assumption.
Qed.

Lemma visits_entry o index es c es' news :
  visits o index es c es' news ->
  forall j x, nth_error es j = Some x ->
              nth_error es' j = Some x \/ nth_error es' j = Some None.
Proof.
  induction 1 as [index es E|index es c es' news E Hv IH|index es cb e E Et
                 |index es cb c es' news E Et Hv IH]; intros j x Hj.
  - now left.
  - now apply IH.
  - now apply edits_entry.
  - destruct (edits_entry (fst (Live.body cb o)) es j x Hj) as [H1|H1].
    + now apply IH.
    + right. destruct (IH _ _ H1); assumption.
Qed.

Lemma visits_sorted o index es c es' news :
  visits o index es c es' news ->
  Forall (fun p => (index <= fst p)%nat) news
  /\ StronglySorted lt (map fst news).
Proof.
  induction 1 as [index es E|index es c es' news E Hv [IH1 IH2]
                 |index es cb e E Et
                 |index es cb c es' news E Et Hv [IH1 IH2]].
  - split; constructor.
  - split; [|assumption]. eapply Forall_impl; [|exact IH1]. simpl. lia.
  - split; repeat constructor.
  - split.
    + constructor; [simpl; lia|].
      eapply Forall_impl; [|exact IH1]. simpl. lia.
    + simpl. constructor; [assumption|].
      apply Forall_map. eapply Forall_impl; [|exact IH1]. simpl. lia.
Qed.

(** The callback called at a place that was there at the start is the
    member that stood there. *)
Lemma visits_occupant o index es c es' news :
  visits o index es c es' news ->
  forall j cb, In (j, cb) news -> (j < List.length es)%nat ->
               nth_error es j = Some (Some cb).
Proof.
  induction 1 as [index es E|index es c es' news E Hv IH|index es cb e E Et
                 |index es cb c es' news E Et Hv IH]; intros j cb' Hin Hlt.
  - destruct Hin.
  - now apply IH.
  - destruct Hin as [[= <- <-]|[]]. assumption.
  - destruct Hin as [[= <- <-]|Hin]; [assumption|].
    pose proof (edits_length (fst (Live.body cb o)) es) as Hlen.
    assert (nth_error (Live.edits (fst (Live.body cb o)) es) j
            = Some (Some cb')) as H1 by (apply IH; [assumption|lia]).
    destruct (nth_error es j) as [x|] eqn:Ex;
      [|apply nth_error_None in Ex; lia].
    destruct (edits_entry (fst (Live.body cb o)) es j x Ex) as [H2|H2];
      congruence.
Qed.

Lemma delete_entry i es j cb :
  nth_error (Live.delete i es) j = Some (Some cb) -> Live.identity cb <> i.
Proof.
  unfold Live.delete. rewrite nth_error_map.
  destruct (nth_error es j) as [[x|]|]; simpl; try discriminate.
  destruct (Nat.eqb_spec (Live.identity x) i); [discriminate|].
  now intros [= <-].
Qed.

(** An entry that was there before the edits and holds a callback after
    them holds one that the edits do not unsubscribe. *)
Lemma edits_unsubscribed l es i j cb :
  In (Live.Unsubscribe i) l -> (j < List.length es)%nat ->
  nth_error (Live.edits l es) j = Some (Some cb) -> Live.identity cb <> i.
Proof.
  revert es. induction l as [|e l IH]; intros es Hin Hlt Hj; [destruct Hin|].
  simpl in Hj. pose proof (edit_length e es) as Hlen.
  destruct Hin as [->|Hin].
  - simpl in Hj, Hlen.
    destruct (nth_error (Live.delete i es) j) as [x|] eqn:Ex;
      [|apply nth_error_None in Ex; lia].
    destruct (edits_entry l _ j x Ex) as [H|H]; [|congruence].
    rewrite H in Hj. injection Hj as ->. now apply delete_entry with es j.
  - apply (IH (Live.edit e es)); [assumption|lia|assumption].
Qed.

(** A member that a call of the event unsubscribes is not called later in
    the event at the place it had. *)
Lemma visits_unsubscribed o index es c es' news :
  visits o index es c es' news ->
  forall i cb' j cb,
    In (i, cb') news -> In (j, cb) news -> (i < j)%nat ->
    (j < List.length es)%nat ->
    ~ In (Live.Unsubscribe (Live.identity cb)) (fst (Live.body cb' o)).
Proof.
  induction 1 as [index es E|index es c es' news E Hv IH|index es cb0 e E Et
                 |index es cb0 c es' news E Et Hv IH];
    intros i cb' j cb Hi Hj Hlt Hlen.
  - destruct Hi.
  - now apply IH with i j.
  - destruct Hi as [[= <- <-]|[]]. destruct Hj as [[= <- <-]|[]]. lia.
  - pose proof (edits_length (fst (Live.body cb0 o)) es) as Hl.
    destruct (visits_sorted _ _ _ _ _ _ Hv) as [Hge _].
    rewrite Forall_forall in Hge.
    destruct Hj as [[= <- <-]|Hj].
    { destruct Hi as [[= <- <-]|Hi]; [lia|].
      specialize (Hge _ Hi). simpl in Hge. lia. }
    destruct Hi as [[= <- <-]|Hi].
    + intros Hun.
      assert (nth_error (Live.edits (fst (Live.body cb0 o)) es) j
              = Some (Some cb)) as Hocc.
      { apply (visits_occupant _ _ _ _ _ _ Hv j cb Hj). lia. }
      now apply (edits_unsubscribed _ es _ j cb Hun Hlen Hocc).
    + apply IH with i j; try assumption. lia.
Qed.

(** The iteration goes as far as the first callback that throws, and its
    outcome is that of the last callback called. *)
Lemma visits_throw_last o index es c es' news :
  visits o index es c es' news ->
  let cbs := map Live.pure (map snd news) in
  called o cbs = cbs /\ c = completion_of (first_throw o cbs).
Proof.
  induction 1 as [index es E|index es c es' news E Hv IH|index es cb e E Et
                 |index es cb c es' news E Et Hv IH]; cbv zeta in *.
  - now split.
  - assumption.
  - simpl. rewrite Et. now split.
  - simpl. rewrite Et. destruct IH as [IH1 IH2]. now rewrite IH1.
Qed.

(** The iteration ends regularly: every member of the set at its end has
    been called, at its place. *)
Lemma visits_complete o index es c es' news :
  visits o index es c es' news -> c = Normal tt ->
  forall j cb, (index <= j)%nat -> nth_error es' j = Some (Some cb) ->
               In (j, cb) news.
Proof.
  induction 1 as [index es E|index es c es' news E Hv IH|index es cb e E Et
                 |index es cb c es' news E Et Hv IH]; intros Hc j cb' Hle Hj.
  - apply nth_error_None in E.
    assert (nth_error es j = None) as Hn by (apply nth_error_None; lia).
    congruence.
  - destruct (Nat.eq_dec j index) as [->|Hne].
    + destruct (visits_entry _ _ _ _ _ _ Hv index None E); congruence.
    + apply IH; [assumption|lia|assumption].
  - discriminate.
  - destruct (Nat.eq_dec j index) as [->|Hne].
    + left. f_equal.
      destruct (edits_entry (fst (Live.body cb o)) es index _ E) as [H1|H1];
        destruct (visits_entry _ _ _ _ _ _ Hv index _ H1); congruence.
    + right. apply IH; [assumption|lia|assumption].
Qed.

Lemma members_skipn_cons es index cb :
  nth_error es index = Some (Some cb) ->
  Live.members (skipn index es) = cb :: Live.members (skipn (S index) es).
Proof.
  revert index. induction es as [|x es IH]; intros [|index]; simpl;
    try discriminate.
  - now intros [= ->].
  - intros H. now apply IH.
Qed.

Lemma members_skipn_empty es index :
  nth_error es index = Some None ->
  Live.members (skipn index es) = Live.members (skipn (S index) es).
Proof.
  revert index. induction es as [|x es IH]; intros [|index]; simpl;
    try discriminate.
  - now intros [= ->].
  - intros H. now apply IH.
Qed.

(** No member changes the set: the set is as before, and the callbacks
    called are the members in their order, up to the first that throws. *)
Lemma visits_no_edit o index es c es' news :
  visits o index es c es' news ->
  (forall cb, In (Some cb) es -> fst (Live.body cb o) = []) ->
  es' = es
  /\ map Live.pure (map snd news)
     = called o (map Live.pure (Live.members (skipn index es))).
Proof.
  induction 1 as [index es E|index es c es' news E Hv IH|index es cb e E Et
                 |index es cb c es' news E Et Hv IH]; intros Hq.
  - split; [reflexivity|]. apply nth_error_None in E.
    now rewrite skipn_all2.
  - destruct (IH Hq) as [-> IH2]. split; [reflexivity|].
    now rewrite (members_skipn_empty es index E).
  - rewrite (Hq cb) by (eapply nth_error_In; eassumption).
    split; [reflexivity|].
    rewrite (members_skipn_cons es index cb E). simpl. now rewrite Et.
  - assert (fst (Live.body cb o) = []) as Hn
      by (apply Hq; eapply nth_error_In; eassumption).
    rewrite Hn in *. simpl in *. destruct (IH Hq) as [-> IH2].
    split; [reflexivity|].
    rewrite (members_skipn_cons es index cb E). simpl. rewrite Et.
    now rewrite IH2.
Qed.

Lemma members_all cbs : Live.members (map Some cbs) = cbs.
Proof. induction cbs; simpl; congruence. Qed.

Lemma pending_all o cbs :
  pending o 0 (map Some cbs) = list_sum (map (Live.weight o) cbs).
Proof. unfold pending. simpl. now rewrite map_map. Qed.

Lemma first_throw_called o cbs :
  first_throw o (called o cbs) = first_throw o cbs.
Proof.
  induction cbs as [|cb cbs IH]; simpl; [reflexivity|].
  destruct (cb_body cb o) eqn:E; simpl; now rewrite E.
Qed.

(** C5 (as the code has it): [broadcast] goes through the subscriber set
    as it is while the callbacks run, and comes to its end (given fuel for
    every entry).  It calls the callbacks in the order of their places in
    the set, which is the order of subscription; a subscriber that an
    earlier call of the event unsubscribes is not called at its place.  It
    goes as far as the first callback that throws: no callback is called
    after that one, and its exception reaches the publisher.  When no
    callback throws the publisher sees no error, and every callback that is
    subscribed when the publication ends has been called.  When no
    subscriber changes the set during the event, the set is as before and
    the calls are those of [forEach] over the list of the subscribers: all
    of them in order, up to the first that throws. *)
Theorem broadcast_up_to_first_throw (output0 : ScraperOutput)
  (cbs : list Live.Callback) (fuel : nat) :
  (Live.enough output0 cbs <= fuel)%nat ->
  exists c es' log,
    Live.broadcast fuel output0 cbs = Some (c, es', log)
    /\ (let invoked := map Live.pure (map snd log) in
        called output0 invoked = invoked
        /\ c = completion_of (first_throw output0 invoked))
    /\ StronglySorted lt (map fst log)
    /\ (forall j cb, In (j, cb) log -> (j < List.length cbs)%nat ->
        nth_error cbs j = Some cb)
    /\ (forall i cb' j cb,
          In (i, cb') log -> In (j, cb) log -> (i < j)%nat ->
          (j < List.length cbs)%nat ->
          ~ In (Live.Unsubscribe (Live.identity cb))
               (fst (Live.body cb' output0)))
    /\ (c = Normal tt ->
        forall cb, In cb (Live.members es') -> In cb (map snd log))
    /\ ((forall cb, In cb cbs -> fst (Live.body cb output0) = []) ->
        Live.members es' = cbs
        /\ map Live.pure (map snd log) = called output0 (map Live.pure cbs)
        /\ forall w,
             forEach (map Live.pure cbs) output0 w
             = (c, on_host (fun h =>
                     set_delivered
                       (delivered h
                        ++ invocations output0
                             (map Live.pure (map snd log))) h) w)).
Proof.
  intros Hf. unfold Live.broadcast.
  destruct (forEach_total output0 fuel 0 (map Some cbs) []) as [[[c es'] log] E].
  { rewrite pending_all. unfold Live.enough in Hf. lia. }
  exists c, es', log. split; [assumption|].
  apply forEach_visits in E. destruct E as (news & -> & Hv). simpl.
  destruct (visits_throw_last _ _ _ _ _ _ Hv) as [T1 T2].
  split; [now split|]. split; [apply (visits_sorted _ _ _ _ _ _ Hv)|].
  split.
  { intros j cb Hin Hlt.
    pose proof (visits_occupant _ _ _ _ _ _ Hv j cb Hin) as H.
    rewrite length_map, nth_error_map in H. specialize (H Hlt).
    destruct (nth_error cbs j); simpl in H; congruence. }
  split.
  { intros i cb' j cb Hi Hj Hlt Hlen.
    apply (visits_unsubscribed _ _ _ _ _ _ Hv i cb' j cb Hi Hj Hlt).
    now rewrite length_map. }
  split.
  { intros Hc cb Hin. unfold Live.members in Hin. apply in_flat_map in Hin.
    destruct Hin as ([cb'|] & Hin & Hcb); [|destruct Hcb].
    destruct Hcb as [<-|[]]. apply In_nth_error in Hin.
    destruct Hin as [j Hj].
    pose proof (visits_complete _ _ _ _ _ _ Hv Hc j cb' (Nat.le_0_l j) Hj) as H.
    apply in_map_iff. now exists (j, cb'). }
  intros Hq.
  destruct (visits_no_edit _ _ _ _ _ _ Hv) as [-> N2].
  { intros cb Hin. apply in_map_iff in Hin.
    destruct Hin as (cb' & [= <-] & Hin). now apply Hq. }
  simpl in N2. rewrite members_all in *.
  split; [reflexivity|]. split; [assumption|].
  intros w. rewrite forEach_eq, N2, T2, N2, first_throw_called. reflexivity.
Qed.

(** A subscriber that subscribes another one while the event is
    published: the new subscriber is called for the event as well. *)
Lemma broadcast_up_to_first_throw_witness :
  let cb3 := Live.Cb 3 (fun _ => ([], None)) in
  let cb1 := Live.Cb 1 (fun _ => ([Live.Subscribe cb3], None)) in
  let cb2 := Live.Cb 2 (fun _ => ([], None)) in
  let o := {| type := Kind.stdout; data := "line"; timestamp := 0 |} in
  exists es',
    Live.broadcast 4 o [cb1; cb2]
    = Some (Normal tt, es', [(0%nat, cb1); (1%nat, cb2); (2%nat, cb3)])
    /\ forall cb, In cb (Live.members es') -> In cb [cb1; cb2; cb3].
Proof.
  intros cb3 cb1 cb2 o.
  destruct (broadcast_up_to_first_throw o [cb1; cb2] 4)
    as (c & es' & log & E & _ & _ & _ & _ & Hall & _).
  - vm_compute. lia.
  - injection E as <- <- <-. eexists. split; [reflexivity|].
    apply Hall. reflexivity.
Defined.

(** * Further properties *)

(** ** The subscriber set *)

Lemma world_eta w : {| svc := svc w; db := db w; host := host w |} = w.
Proof. now destruct w. Qed.

Lemma set_listeners_same s : set_listeners (listeners s) s = s.
Proof. now destruct s. Qed.

Lemma has_listener_app i cbs cbs' :
  has_listener i (cbs ++ cbs') = has_listener i cbs || has_listener i cbs'.
Proof. apply existsb_app. Qed.

Lemma set_delete_absent i cbs :
  has_listener i cbs = false -> set_delete i cbs = cbs.
Proof.
  induction cbs as [|cb cbs IH]; simpl; [reflexivity|].
  intros H. apply orb_false_elim in H. destruct H as [H1 H2].
  rewrite H1. simpl. now rewrite IH.
Qed.

Lemma set_delete_gone i cbs : has_listener i (set_delete i cbs) = false.
Proof.
  induction cbs as [|cb cbs IH]; simpl; [reflexivity|].
  destruct (Nat.eqb (cb_id cb) i) eqn:E; simpl; [assumption|].
  now rewrite E.
Qed.

Lemma called_incl o cbs : incl (called o cbs) cbs.
Proof.
  induction cbs as [|cb cbs IH]; simpl; [apply incl_refl|].
  destruct (cb_body cb o).
  - intros x [<-|[]]. now left.
  - intros x [<-|H]; [now left|right; now apply IH].
Qed.

Lemma has_listener_In i cbs :
  has_listener i cbs = false -> forall cb, In cb cbs -> cb_id cb <> i.
Proof.
  unfold has_listener. intros H cb Hin E.
  assert (existsb (fun cb => Nat.eqb (cb_id cb) i) cbs = true) as H'.
  { apply existsb_exists. exists cb. split; [assumption|]. now apply Nat.eqb_eq. }
  congruence.
Qed.

Lemma subscribe_member cb w :
  has_listener (cb_id cb) (listeners (svc w)) = true -> subscribe cb w = w.
Proof.
  intros H. unfold subscribe, on_svc, set_add. rewrite H.
  rewrite set_listeners_same. apply world_eta.
Qed.

(** X1: the function [subscribe] returns undoes the subscription.  For a
    callback that is not subscribed, subscribing and then calling the
    returned function leaves the service as it was; subscribing the
    callback a second time in between changes nothing, so that one call of
    the returned function still removes it. *)
Theorem subscribe_then_unsubscribe (cb : OutputCallback) (w : World) :
  has_listener (cb_id cb) (listeners (svc w)) = false ->
  listeners (svc (subscribe cb w)) = listeners (svc w) ++ [cb]
  /\ unsubscribe (cb_id cb) (subscribe cb w) = w
  /\ subscribe cb (subscribe cb w) = subscribe cb w
  /\ unsubscribe (cb_id cb) (subscribe cb (subscribe cb w)) = w.
Proof.
  intros H.
  assert (listeners (svc (subscribe cb w)) = listeners (svc w) ++ [cb]) as E1.
  { simpl. unfold set_add. now rewrite H. }
  assert (unsubscribe (cb_id cb) (subscribe cb w) = w) as E2.
  { unfold unsubscribe, on_svc. rewrite E1. unfold set_delete.
    rewrite filter_app. fold (set_delete (cb_id cb) (listeners (svc w))).
    rewrite (set_delete_absent _ _ H). simpl. rewrite Nat.eqb_refl. simpl.
    rewrite app_nil_r. destruct w as [s d h]. simpl. f_equal.
    destruct s. reflexivity. }
  assert (subscribe cb (subscribe cb w) = subscribe cb w) as E3.
  { apply subscribe_member. rewrite E1, has_listener_app. simpl.
    now rewrite Nat.eqb_refl, orb_true_r. }
  split; [assumption|]. split; [assumption|]. split; [assumption|].
  now rewrite E3.
Qed.

Lemma subscribe_then_unsubscribe_witness :
  let cb := {| cb_id := 7; cb_body := fun _ => None |} in
  let w := subscribe {| cb_id := 1; cb_body := fun _ => None |}
             (fresh_world empty_db 0 "/srv/gpt") in
  unsubscribe 7 (subscribe cb w) = w.
Proof.
  intros cb w.
  apply (subscribe_then_unsubscribe cb w). reflexivity.
Defined.

(** X2: a callback that was unsubscribed is not called again.  After
    [unsubscribe], [broadcast] makes no call of a callback with that
    identity, whatever was subscribed; the other subscribers stay in their
    order, and a callback that was not subscribed makes [unsubscribe] a
    no-op. *)
Theorem unsubscribed_is_not_called (i : nat) (output0 : ScraperOutput)
  (w : World) :
  let w1 := unsubscribe i w in
  let w2 := snd (broadcast output0 w1) in
  (exists news,
     delivered (host w2) = delivered (host w) ++ news
     /\ ~ In i (map fst news))
  /\ listeners (svc w1)
     = filter (fun cb => negb (Nat.eqb (cb_id cb) i)) (listeners (svc w))
  /\ has_listener i (listeners (svc w1)) = false
  /\ (has_listener i (listeners (svc w)) = false -> w1 = w).
Proof.
  intros w1 w2. subst w2. rewrite broadcast_eq.
  assert (listeners (svc w1) = set_delete i (listeners (svc w))) as E
    by reflexivity.
  split; [|split; [|split]].
  - exists (invocations output0 (called output0 (listeners (svc w1)))).
    split; [reflexivity|].
    rewrite E. unfold invocations. rewrite map_map. simpl. intros Hin.
    apply in_map_iff in Hin. destruct Hin as (cb & Hid & Hcb).
    apply called_incl in Hcb.
    exact (has_listener_In i _ (set_delete_gone i _) cb Hcb Hid).
  - exact E.
  - rewrite E. apply set_delete_gone.
  - intros H. subst w1. unfold unsubscribe, on_svc.
    rewrite (set_delete_absent _ _ H), set_listeners_same. apply world_eta.
Qed.

(** ** What a run leaves alone *)

Lemma own_row_refl runId0 r : own_row runId0 r r.
Proof. now repeat split. Qed.

Lemma own_row_trans runId0 r1 r2 r3 :
  own_row runId0 r1 r2 -> own_row runId0 r2 r3 -> own_row runId0 r1 r3.
Proof.
  intros (A1 & A2 & A3 & A4) (B1 & B2 & B3 & B4).
  repeat split; try congruence.
  intros H. rewrite <- (A4 H). apply B4. congruence.
Qed.

Lemma own_rows_refl runId0 rows : Forall2 (own_row runId0) rows rows.
Proof. induction rows; constructor; auto using own_row_refl. Qed.

Lemma own_rows_trans runId0 l1 l2 l3 :
  Forall2 (own_row runId0) l1 l2 -> Forall2 (own_row runId0) l2 l3 ->
  Forall2 (own_row runId0) l1 l3.
Proof.
  intros H. revert l3. induction H; intros l3 H3; inversion H3; subst;
    constructor; eauto using own_row_trans.
Qed.

Lemma own_rows_updated runId0 change rows :
  (forall r, id (change r) = id r /\ triggerType (change r) = triggerType r
             /\ startedAt (change r) = startedAt r) ->
  Forall2 (own_row runId0) rows
    (map (fun r => if id r =? runId0 then change r else r) rows).
Proof.
  intros H. induction rows as [|r rows IH]; simpl; constructor; [|assumption].
  destruct (id r =? runId0) eqn:E; [|apply own_row_refl].
  apply Z.eqb_eq in E. destruct (H r) as (H1 & H2 & H3).
  repeat split; try assumption. intros Hne. contradiction.
Qed.

Lemma inside_refl runId0 w : inside runId0 w w.
Proof.
  constructor; try reflexivity; [apply same_timers_refl|apply own_rows_refl].
Qed.

Lemma inside_trans runId0 w1 w2 w3 :
  inside runId0 w1 w2 -> inside runId0 w2 w3 -> inside runId0 w1 w3.
Proof.
  intros [A1 A2 A3 A4 A5 A6] [B1 B2 B3 B4 B5 B6].
  constructor; try congruence.
  - eapply same_timers_trans; eassumption.
  - eapply own_rows_trans; eassumption.
Qed.

Lemma confined_refl runId0 w : confined runId0 w w.
Proof.
  constructor; try reflexivity; [apply same_timers_refl|apply own_rows_refl].
Qed.

Lemma confined_trans runId0 w1 w2 w3 :
  confined runId0 w1 w2 -> confined runId0 w2 w3 -> confined runId0 w1 w3.
Proof.
  intros [A2 A3 A4 A5 A6] [B2 B3 B4 B5 B6].
  constructor; try congruence.
  - eapply same_timers_trans; eassumption.
  - eapply own_rows_trans; eassumption.
Qed.

Lemma inside_confined runId0 w w' : inside runId0 w w' -> confined runId0 w w'.
Proof. intros [A1 A2 A3 A4 A5 A6]. now constructor. Qed.

Lemma calm_confined runId0 w w' : calm w w' -> confined runId0 w w'.
Proof.
  intros H. constructor.
  - now apply calm_same_timers.
  - apply (calm_path _ _ H).
  - now rewrite (calm_db _ _ H).
  - now rewrite (calm_db _ _ H).
  - rewrite (calm_db _ _ H). apply own_rows_refl.
Qed.

Lemma inside_same runId0 w w' :
  listeners (svc w') = listeners (svc w) ->
  scheduledTask (svc w') = scheduledTask (svc w) ->
  cronTasks (host w') = cronTasks (host w) ->
  gptPath (host w') = gptPath (host w) ->
  db w' = db w ->
  inside runId0 w w'.
Proof.
  intros H1 H2 H3 H4 H5. constructor; try assumption.
  - now split.
  - now rewrite H5.
  - now rewrite H5.
  - rewrite H5. apply own_rows_refl.
Qed.

(** Publishing an event and moving the step stay inside. *)
Lemma inside_announce runId0 o st w :
  inside runId0 w
    (on_host (record_broadcast o (listeners (svc w)))
       (on_svc (set_pipelineStep st) w)).
Proof.
  constructor; try reflexivity; [now split|apply own_rows_refl].
Qed.

Lemma inside_spawn runId0 c w :
  inside runId0 w
    (on_host (fun h => set_spawned (spawned h ++ [c]) h) w).
Proof.
  constructor; try reflexivity; [now split|apply own_rows_refl].
Qed.

Lemma inside_update runId0 change reply w :
  (forall r, id (change r) = id r /\ triggerType (change r) = triggerType r
             /\ startedAt (change r) = startedAt r) ->
  inside runId0 w (snd (scraperRun_update runId0 change reply w)).
Proof.
  intros H. rewrite scraperRun_update_eq. destruct reply; [|apply inside_refl].
  destruct (has_run _ _); [|apply inside_refl].
  constructor; try reflexivity; [now split|].
  simpl. now apply own_rows_updated.
Qed.

Lemma pipeline_enter_inside runId0 scraperPath w :
  inside runId0 w (snd (pipeline_enter runId0 scraperPath w)).
Proof.
  rewrite pipeline_enter_eq. cbv zeta. destruct (first_throw _ _); simpl.
  - apply inside_announce.
  - eapply inside_trans; [apply inside_announce|apply inside_spawn].
Qed.

Lemma move_on_inside runId0 st w :
  inside runId0 w (snd (try_segment (
    modify (on_svc (set_pipelineStep (stage_step st))) ;;
    broadcast_now Kind.status (stage_banner st) ;;
    ret (Suspend (AwaitStatusUpdate st))) w)).
Proof.
  rewrite move_on_eq. cbv zeta. destruct (first_throw _ _); simpl;
    apply inside_announce.
Qed.

Lemma after_command_inside runId0 st r w :
  inside runId0 w (snd (after_command st r w)).
Proof.
  destruct st.
  - rewrite after_scrape_eq.
    destruct (auth_required _); [apply inside_refl|].
    destruct (negb _); [apply inside_refl|].
    destruct (abortRequested _); [apply inside_refl|]. apply move_on_inside.
  - rewrite after_enrich_eq.
    destruct (negb _); [apply inside_refl|].
    destruct (abortRequested _); [apply inside_refl|]. apply move_on_inside.
  - rewrite after_process_eq. destruct (negb _); apply inside_refl.
Qed.

Lemma data_status_keeps s r :
  id (data_status s r) = id r
  /\ triggerType (data_status s r) = triggerType r
  /\ startedAt (data_status s r) = startedAt r.
Proof. now repeat split. Qed.

Lemma data_final_keeps fd r :
  id (data_final fd r) = id r
  /\ triggerType (data_final fd r) = triggerType r
  /\ startedAt (data_final fd r) = startedAt r.
Proof. now repeat split. Qed.

Lemma after_status_update_inside runId0 scraperPath st reply w :
  inside runId0 w (snd (after_status_update runId0 scraperPath st reply w)).
Proof.
  rewrite after_status_update_eq.
  pose proof (inside_update runId0 (data_status (stage_status st)) reply w
                (data_status_keeps _)) as H.
  destruct (scraperRun_update _ _ _ _) as [[u|e] w1]; simpl in *.
  - eapply inside_trans; [exact H|apply inside_spawn].
  - exact H.
Qed.

Lemma inside_broadcast runId0 o w :
  inside runId0 w (on_host (record_broadcast o (listeners (svc w))) w).
Proof.
  constructor; try reflexivity; [now split|apply own_rows_refl].
Qed.

Lemma after_final_update_inside runId0 fd reply w :
  inside runId0 w (snd (after_final_update runId0 fd reply w)).
Proof.
  unfold after_final_update.
  pose proof (finally_rest_eq runId0 fd reply w) as E.
  pose proof (inside_update runId0 (data_final fd) reply w
                (data_final_keeps _)) as H.
  destruct (finally_rest _ _ _ _) as [c w']. simpl.
  destruct (scraperRun_update _ _ _ _) as [[u|e] w1]; simpl in H.
  - cbv zeta in E.
    assert (listeners (svc w) = listeners (svc w1)) as El
      by (symmetry; apply (in_listeners _ _ _ H)).
    destruct (first_throw _ _).
    + injection E as _ ->. eapply inside_trans; [exact H|].
      rewrite El. apply inside_broadcast.
    + destruct (first_throw _ _); injection E as _ ->;
        (eapply inside_trans; [exact H|]); apply inside_same; reflexivity.
  - injection E as _ ->. exact H.
Qed.

Lemma child_end_inside runId0 e co w :
  inside runId0 w (snd (child_end e co w)).
Proof.
  destruct e as [exitCode|message]; simpl; [apply inside_refl|].
  rewrite broadcast_now_eq.
  pose proof (broadcast_eq {| type := Kind.stderr;
                    data := "Process error: " ++ message;
                    timestamp := clock (host w) |} w) as E.
  destruct (broadcast _ w) as [[u|e] w']; injection E as _ ->; simpl;
    apply inside_broadcast.
Qed.

Lemma feed_command_confined runId0 st co tr w :
  confined runId0 w (snd (feed_command st co tr w)).
Proof.
  unfold feed_command.
  pose proof (child_events_calm (events tr) co w) as Hc.
  destruct (child_events (events tr) (co, w)) as [co' w1]. simpl in Hc.
  pose proof (child_end_inside runId0 (ending tr) co' w1) as He.
  destruct (child_end (ending tr) co' w1) as [[r|] w2]; simpl in He.
  - eapply confined_trans; [apply calm_confined, Hc|].
    eapply confined_trans; [apply inside_confined, He|].
    apply inside_confined, after_command_inside.
  - eapply confined_trans; [apply calm_confined, Hc|].
    apply inside_confined, He.
Qed.

Lemma advance_confined runId0 scraperPath sc p :
  confined runId0 (snd p) (snd (advance runId0 scraperPath sc p)).
Proof.
  destruct p as [a w]. destruct a; simpl.
  - apply feed_command_confined.
  - eapply confined_trans; [apply calm_confined, calls_calm|].
    apply inside_confined, after_status_update_inside.
  - eapply confined_trans; [apply calm_confined, calls_calm|].
    apply inside_confined, after_final_update_inside.
  - apply confined_refl.
  - apply confined_refl.
Qed.

Lemma iter_confined runId0 scraperPath sc n p :
  confined runId0 (snd p)
    (snd (Nat.iter n (advance runId0 scraperPath sc) p)).
Proof.
  induction n as [|n IH]; simpl; [apply confined_refl|].
  eapply confined_trans; [exact IH|apply advance_confined].
Qed.

Lemma runFullPipeline_confined runId0 scraperPath sc w :
  confined runId0 w (snd (runFullPipeline runId0 scraperPath sc w)).
Proof.
  unfold runFullPipeline, drive.
  eapply confined_trans; [|apply iter_confined].
  apply inside_confined, pipeline_enter_inside.
Qed.

Lemma own_rows_nth runId0 rows rows' :
  Forall2 (own_row runId0) rows rows' ->
  forall k r, nth_error rows k = Some r ->
  exists r', nth_error rows' k = Some r' /\ own_row runId0 r r'.
Proof.
  induction 1 as [|r0 r0' rows rows' H0 H IH]; intros [|k] r Hk;
    simpl in *; try discriminate.
  - injection Hk as <-. eauto.
  - eauto.
Qed.

Lemma own_rows_ids runId0 rows rows' :
  Forall2 (own_row runId0) rows rows' -> map id rows' = map id rows.
Proof.
  induction 1 as [|r r' rows rows' (H & _) _ IH]; simpl; congruence.
Qed.

Lemma own_rows_find runId0 rows rows' i :
  Forall2 (own_row runId0) rows rows' ->
  match find (fun r => id r =? i) rows, find (fun r => id r =? i) rows' with
  | Some r, Some r' => own_row runId0 r r'
  | None, None => True
  | _, _ => False
  end.
Proof.
  induction 1 as [|r r' rows rows' Hr _ IH]; simpl; [exact I|].
  destruct Hr as (H1 & H2). rewrite H1.
  destruct (id r =? i); [|exact IH]. now split.
Qed.

(** X3: a run writes to its own record only.  Whatever happens during an
    execution of [runFullPipeline], the store holds the same rows in the
    same order afterwards, none created and none deleted; every row of
    another run is as it was; the row of the run keeps its identity, its
    trigger and its start; and the counter of the identities, the
    configuration of the scheduler, its timers and the path of the scraper
    are untouched. *)
Theorem run_writes_its_own_row_only (runId0 : Z) (scraperPath : string)
  (sc : Script) (w : World) :
  let w' := snd (runFullPipeline runId0 scraperPath sc w) in
  map id (scraperRun (db w')) = map id (scraperRun (db w))
  /\ (forall k r, nth_error (scraperRun (db w)) k = Some r ->
        id r <> runId0 -> nth_error (scraperRun (db w')) k = Some r)
  /\ (forall r, find_run runId0 (db w) = Some r ->
        exists r', find_run runId0 (db w') = Some r'
                   /\ triggerType r' = triggerType r
                   /\ startedAt r' = startedAt r)
  /\ (find_run runId0 (db w) = None -> scraperRun (db w') = scraperRun (db w))
  /\ nextId (db w') = nextId (db w)
  /\ schedulerConfig (db w') = schedulerConfig (db w)
  /\ cronTasks (host w') = cronTasks (host w)
  /\ scheduledTask (svc w') = scheduledTask (svc w)
  /\ gptPath (host w') = gptPath (host w).
Proof.
  intros w'.
  destruct (runFullPipeline_confined runId0 scraperPath sc w)
    as [[Ht1 Ht2] Hp Hn Hc Hr].
  fold w' in Ht1, Ht2, Hp, Hn, Hc, Hr.
  split; [now apply own_rows_ids with runId0|]. split.
  { intros k r Hk Hne.
    destruct (own_rows_nth _ _ _ Hr k r Hk) as (r' & Hk' & _ & _ & _ & Hsame).
    now rewrite Hk', (Hsame Hne). }
  split.
  { intros r Hf. pose proof (own_rows_find _ _ _ runId0 Hr) as H.
    unfold find_run in *. rewrite Hf in H.
    destruct (find _ (scraperRun (db w'))) as [r'|]; [|contradiction].
    exists r'. destruct H as (_ & H2 & H3 & _). now repeat split. }
  split; [|now repeat split].
  intros Hnone. clear - Hr Hnone. unfold find_run in Hnone.
  induction Hr as [|r r' rows rows' (H1 & _ & _ & H4) _ IH];
    [reflexivity|].
  simpl in Hnone. destruct (id r =? runId0) eqn:E; [discriminate|].
  apply Z.eqb_neq in E. now rewrite (H4 E), (IH Hnone).
Qed.

(** ** No subscriber twice *)

Lemma members_app es es' :
  Live.members (es ++ es') = Live.members es ++ Live.members es'.
Proof. unfold Live.members. apply flat_map_app. Qed.

Lemma has_members i es :
  Live.has i es = false -> ~ In i (map Live.identity (Live.members es)).
Proof.
  induction es as [|[cb|] es IH]; simpl; [tauto| |assumption].
  intros H. apply orb_false_iff in H. destruct H as [H1 H2].
  intros [Hi|Hi]; [|now apply IH].
  apply Nat.eqb_neq in H1. contradiction.
Qed.

Lemma members_delete i es :
  map Live.identity (Live.members (Live.delete i es))
  = filter (fun j => negb (Nat.eqb j i))
      (map Live.identity (Live.members es)).
Proof.
  induction es as [|[cb|] es IH]; simpl; [reflexivity| |assumption].
  destruct (Nat.eqb (Live.identity cb) i); simpl; now rewrite IH.
Qed.

Lemma edit_no_duplicate e es :
  NoDup (map Live.identity (Live.members es)) ->
  NoDup (map Live.identity (Live.members (Live.edit e es))).
Proof.
  intros H. destruct e as [cb|i]; simpl.
  - unfold Live.add. destruct (Live.has _ _) eqn:E; [assumption|].
    rewrite members_app, map_app. simpl.
    apply NoDup_snoc; [assumption|now apply has_members].
  - rewrite members_delete. now apply NoDup_filter.
Qed.

Lemma edits_no_duplicate l es :
  NoDup (map Live.identity (Live.members es)) ->
  NoDup (map Live.identity (Live.members (Live.edits l es))).
Proof.
  revert es. induction l as [|e l IH]; intros es H; simpl; [assumption|].
  apply IH. now apply edit_no_duplicate.
Qed.

Lemma edits_unsubscribe l es :
  subscribed l = [] ->
  List.length (Live.edits l es) = List.length es
  /\ forall cb, In (Some cb) (Live.edits l es) -> In (Some cb) es.
Proof.
  revert es. induction l as [|[c|i] l IH]; intros es H; simpl in *;
    [now split|discriminate|].
  destruct (IH (Live.delete i es) H) as [H1 H2]. split.
  - rewrite H1. unfold Live.delete. apply length_map.
  - intros cb Hin. apply H2 in Hin. unfold Live.delete in Hin.
    apply in_map_iff in Hin. destruct Hin as (x & Hx & Hin).
    destruct (Live.named i x); congruence.
Qed.

(** No member subscribes during the event: every callback called is the
    member at its place. *)
Lemma visits_no_subscribe o index es c es' news :
  visits o index es c es' news ->
  (forall cb, In (Some cb) es -> subscribed (fst (Live.body cb o)) = []) ->
  forall j cb, In (j, cb) news -> nth_error es j = Some (Some cb).
Proof.
  induction 1 as [index es E|index es c es' news E Hv IH|index es cb e E Et
                 |index es cb c es' news E Et Hv IH]; intros Hq j cb' Hin.
  - destruct Hin.
  - now apply IH.
  - destruct Hin as [[= <- <-]|[]]. assumption.
  - destruct Hin as [[= <- <-]|Hin]; [assumption|].
    assert (subscribed (fst (Live.body cb o)) = []) as Hn
      by (apply Hq; eapply nth_error_In; eassumption).
    destruct (edits_unsubscribe _ es Hn) as [H1 H2].
    assert (nth_error (Live.edits (fst (Live.body cb o)) es) j
            = Some (Some cb')) as Hj.
    { apply IH; [|assumption]. intros cb0 H0. apply Hq. now apply H2. }
    destruct (nth_error es j) as [x|] eqn:Ex.
    + destruct (edits_entry (fst (Live.body cb o)) es j x Ex); congruence.
    + apply nth_error_None in Ex.
      assert (nth_error (Live.edits (fst (Live.body cb o)) es) j = None)
        by (apply nth_error_None; lia).
      congruence.
Qed.

Lemma sorted_places_no_duplicate (cbs : list Live.Callback)
  (log : list (nat * Live.Callback)) :
  NoDup (map Live.identity cbs) ->
  StronglySorted lt (map fst log) ->
  (forall j cb, In (j, cb) log -> nth_error cbs j = Some cb) ->
  NoDup (map (fun p => Live.identity (snd p)) log).
Proof.
  intros Hnd. induction log as [|[j cb] log IH]; intros Hs Hocc; simpl.
  - constructor.
  - inversion Hs as [|? ? Hs' Hall]; subst. constructor.
    + intros Hin. apply in_map_iff in Hin.
      destruct Hin as ([j' cb'] & Hid & Hin). simpl in Hid.
      assert (j < j')%nat as Hlt.
      { rewrite Forall_forall in Hall. apply Hall.
        apply in_map_iff. now exists (j', cb'). }
      pose proof (Hocc j cb (or_introl eq_refl)) as H1.
      pose proof (Hocc j' cb' (or_intror Hin)) as H2.
      assert (nth_error (map Live.identity cbs) j
              = nth_error (map Live.identity cbs) j') as Heq.
      { rewrite !nth_error_map, H1, H2. simpl. now rewrite Hid. }
      assert (j < List.length (map Live.identity cbs))%nat as Hj.
      { rewrite length_map. apply nth_error_Some. congruence. }
      pose proof (proj1 (NoDup_nth_error _) Hnd j j' Hj Heq). lia.
    + apply IH; [assumption|]. intros j0 cb0 H0. apply Hocc. now right.
Qed.

Lemma unsubscribers_weight o cbs :
  (forall cb, In cb cbs -> subscribed (fst (Live.body cb o)) = []) ->
  list_sum (map (Live.weight o) cbs) = List.length cbs.
Proof.
  induction cbs as [|cb cbs IH]; intros H; simpl; [reflexivity|].
  rewrite weight_eq, (H cb (or_introl eq_refl)). simpl.
  rewrite IH; [reflexivity|]. intros cb' Hin. apply H. now right.
Qed.

(** X4: no subscriber is called twice for one event, as long as no
    callback subscribes one during the event.  Whatever subscriptions and
    unsubscriptions the set has been through (subscribing a callback again
    and again included), it holds every callback once; and when the members
    only unsubscribe while the event is published, [broadcast] comes to its
    end having called no callback more than once, each at its place, in the
    order of the places. *)
Theorem subscriber_called_once_per_event
  (history : list (Live.Edit Live.Callback)) (output0 : ScraperOutput)
  (fuel : nat) :
  let cbs := Live.members (Live.edits history []) in
  (forall cb, In cb cbs -> subscribed (fst (Live.body cb output0)) = []) ->
  (List.length cbs < fuel)%nat ->
  NoDup (map Live.identity cbs)
  /\ exists c es' log,
       Live.broadcast fuel output0 cbs = Some (c, es', log)
       /\ NoDup (map (fun p => Live.identity (snd p)) log)
       /\ (forall j cb, In (j, cb) log -> nth_error cbs j = Some cb)
       /\ StronglySorted lt (map fst log).
Proof.
  intros cbs Hq Hf.
  assert (NoDup (map Live.identity cbs)) as Hnd.
  { apply edits_no_duplicate. constructor. }
  split; [assumption|]. unfold Live.broadcast.
  destruct (forEach_total output0 fuel 0 (map Some cbs) []) as [[[c es'] log] E].
  { rewrite pending_all, unsubscribers_weight; assumption. }
  exists c, es', log. split; [assumption|].
  apply forEach_visits in E. destruct E as (news & -> & Hv). simpl.
  assert (forall j cb, In (j, cb) news -> nth_error cbs j = Some cb) as Hocc.
  { intros j cb Hin.
    assert (forall cb0, In (Some cb0) (map Some cbs) ->
              subscribed (fst (Live.body cb0 output0)) = []) as Hq'.
    { intros cb0 H0. apply in_map_iff in H0.
      destruct H0 as (x & [= ->] & Hi). now apply Hq. }
    pose proof (visits_no_subscribe _ _ _ _ _ _ Hv Hq' j cb Hin) as H.
    rewrite nth_error_map in H.
    destruct (nth_error cbs j); simpl in H; congruence. }
  split; [|split; [assumption|apply (visits_sorted _ _ _ _ _ _ Hv)]].
  apply sorted_places_no_duplicate with cbs; try assumption.
  apply (visits_sorted _ _ _ _ _ _ Hv).
Qed.

(** A callback is subscribed twice, and unsubscribes the second
    subscriber when it is called. *)
Lemma subscriber_called_once_per_event_witness :
  let cb1 := Live.Cb 1 (fun _ => ([Live.Unsubscribe 2], None)) in
  let cb2 := Live.Cb 2 (fun _ => ([], None)) in
  let history := [Live.Subscribe cb1; Live.Subscribe cb2;
                  Live.Subscribe cb1] in
  let o := {| type := Kind.stdout; data := "line"; timestamp := 0 |} in
  Live.members (Live.edits history []) = [cb1; cb2]
  /\ exists c es' log,
       Live.broadcast 3 o [cb1; cb2] = Some (c, es', log)
       /\ NoDup (map (fun p => Live.identity (snd p)) log).
Proof.
  intros cb1 cb2 history o. split; [reflexivity|].
  destruct (subscriber_called_once_per_event history o 3)
    as (_ & c & es' & log & E & Hnd & _).
  - intros cb [<-|[<-|[]]]; reflexivity.
  - vm_compute. lia.
  - exists c, es', log. now split.
Defined.

(** ** The order of the stages *)

(** Where the segment after a command leads: into [finally], or on to the
    update ahead of the next stage; it spawns nothing. *)
Lemma after_command_next st r w :
  spawned (host (snd (after_command st r w))) = spawned (host w)
  /\ match fst (after_command st r w) with
     | AwaitFinalUpdate _ => True
     | AwaitStatusUpdate st' => stage_number st' = S (stage_number st)
     | _ => False
     end.
Proof.
  destruct st.
  - rewrite after_scrape_eq.
    destruct (auth_required _); [now split|].
    destruct (negb _); [now split|].
    destruct (abortRequested _); [now split|].
    rewrite move_on_eq. cbv zeta. destruct (first_throw _ _); now split.
  - rewrite after_enrich_eq.
    destruct (negb _); [now split|].
    destruct (abortRequested _); [now split|].
    rewrite move_on_eq. cbv zeta. destruct (first_throw _ _); now split.
  - rewrite after_process_eq. destruct (negb _); now split.
Qed.

Lemma feed_command_spawned st co tr w :
  spawned (host (snd (feed_command st co tr w))) = spawned (host w)
  /\ match fst (feed_command st co tr w) with
     | AwaitFinalUpdate _ | Stalled => True
     | AwaitStatusUpdate st' => stage_number st' = S (stage_number st)
     | _ => False
     end.
Proof.
  unfold feed_command.
  pose proof (child_events_calm (events tr) co w) as Hc.
  destruct (child_events (events tr) (co, w)) as [co' w1]. simpl in Hc.
  pose proof (child_end_calm (ending tr) co' w1) as He.
  destruct (child_end (ending tr) co' w1) as [[r|] w2]; simpl in He.
  - destruct (after_command_next st r w2) as [H1 H2]. split.
    + now rewrite H1, (calm_spawned _ _ He), (calm_spawned _ _ Hc).
    + destruct (fst (after_command st r w2)); tauto.
  - split; [|exact I]. simpl.
    now rewrite (calm_spawned _ _ He), (calm_spawned _ _ Hc).
Qed.

Lemma firstn_pipeline_commands st scraperPath :
  st <> Scrape ->
  firstn (pred (stage_number st)) (pipeline_commands scraperPath)
  ++ [stage_command st scraperPath]
  = firstn (stage_number st) (pipeline_commands scraperPath).
Proof. destruct st; [contradiction|reflexivity|reflexivity]. Qed.

Lemma advance_in_order base runId0 scraperPath sc p :
  in_order base scraperPath p ->
  in_order base scraperPath (advance runId0 scraperPath sc p).
Proof.
  destruct p as [a w]. unfold in_order. destruct a; cbn [fst snd advance];
    try (intros H; exact H).
  - intros H.
    destruct (feed_command_spawned st commandOutput (trace_of sc st) w)
      as [H1 H2].
    destruct (feed_command _ _ _ _) as [a' w']. cbn [fst snd] in *.
    rewrite H1, H. destruct a' as [| st' | | |]; try contradiction.
    + rewrite H2. simpl. split; [|reflexivity].
      intros ->. destruct st; discriminate.
    + now exists (stage_number st).
    + now exists (stage_number st).
  - intros [Hst H]. rewrite after_status_update_eq.
    pose proof (calm_spawned _ _
      (calls_calm (fst (update_of sc st)) w)) as Hc.
    remember (calls (fst (update_of sc st)) w) as w1 eqn:Ew1. clear Ew1.
    rewrite scraperRun_update_eq. destruct (snd (update_of sc st)).
    + destruct (has_run _ _); cbn [fst snd].
      * cbn [host spawned on_host on_db set_spawned].
        rewrite Hc, H, <- app_assoc.
        now rewrite firstn_pipeline_commands.
      * cbn [finally_enter fst snd]. rewrite Hc. eauto.
    + cbn [finally_enter fst snd]. rewrite Hc. eauto.
  - intros [n H]. unfold after_final_update.
    pose proof (finally_rest_spawned runId0 fd (snd (final_update sc))
                  (calls (fst (final_update sc)) w)) as Hs.
    destruct (finally_rest _ _ _ _) as [c w']. cbn [fst snd] in *.
    rewrite Hs, (calm_spawned _ _ (calls_calm _ w)). eauto.
Qed.

Lemma pipeline_enter_in_order runId0 scraperPath w :
  in_order (spawned (host w)) scraperPath (pipeline_enter runId0 scraperPath w).
Proof.
  rewrite pipeline_enter_eq. cbv zeta. unfold in_order.
  destruct (first_throw _ _); cbn [fst snd finally_enter].
  - exists 0%nat. simpl. now rewrite app_nil_r.
  - reflexivity.
Qed.

Lemma iter_in_order base runId0 scraperPath sc n p :
  in_order base scraperPath p ->
  in_order base scraperPath (Nat.iter n (advance runId0 scraperPath sc) p).
Proof.
  intros H. induction n as [|n IH]; simpl; [assumption|].
  now apply advance_in_order.
Qed.

(** X5: the stages never run out of order.  Whatever the children, the
    store and the subscribers do, an execution of [runFullPipeline] spawns
    the first [n] of its three commands ([npm start], [npm run enrich],
    [npm run processor], each in the directory of the scraper) in this
    order, for some [n] up to 3, and nothing else: no command is started
    twice, none is started before the one ahead of it, and the calls made to
    the service meanwhile start none. *)
Theorem stages_spawned_in_order (runId0 : Z) (scraperPath : string)
  (sc : Script) (w : World) :
  exists n,
    (n <= 3)%nat
    /\ spawned (host (snd (runFullPipeline runId0 scraperPath sc w)))
       = spawned (host w)
         ++ firstn n [ {| command := "npm"; args := ["start"];
                          cwd := scraperPath |};
                       {| command := "npm"; args := ["run"; "enrich"];
                          cwd := scraperPath |};
                       {| command := "npm"; args := ["run"; "processor"];
                          cwd := scraperPath |} ].
Proof.
  pose proof (iter_in_order (spawned (host w)) runId0 scraperPath sc 6 _
                (pipeline_enter_in_order runId0 scraperPath w)) as H.
  pose proof (iter_phase runId0 scraperPath sc 6
                (pipeline_enter runId0 scraperPath w)) as Hp.
  pose proof (pipeline_enter_phase runId0 scraperPath w) as H6.
  unfold runFullPipeline, drive.
  destruct (Nat.iter 6 _ _) as [a w']. unfold in_order in H.
  cbn [fst snd] in *.
  assert (exists n, spawned (host w')
            = spawned (host w) ++ firstn n (pipeline_commands scraperPath))
    as [n Hn].
  { destruct a; try exact H; simpl in Hp; destruct st; simpl in Hp; lia. }
  exists (Nat.min n 3). split; [lia|]. rewrite Hn. f_equal.
  unfold pipeline_commands. simpl.
  destruct n as [|[|[|[|n]]]]; reflexivity.
Qed.

(** ** What [COMPLETED] stands for *)

(** [runCommand] resolves with the code 0 only for a child that exited with
    0 itself. *)
Lemma child_end_code e co w r w2 :
  child_end e co w = (Some r, w2) ->
  Result.output r = Text.join co
  /\ (Result.code r = 0 -> e = Close (Some 0)).
Proof.
  destruct e as [[c|]|message]; simpl.
  - intros [= <- <-]. simpl. split; [reflexivity|]. now intros ->.
  - intros [= <- <-]. simpl. split; [reflexivity|]. discriminate.
  - destruct (broadcast_now _ _ w) as [[u|e] w']; [|discriminate].
    intros [= <- <-]. simpl. split; [reflexivity|]. discriminate.
Qed.

(** A failure enters [finally] with a status other than [COMPLETED]. *)
Lemma move_on_earned runId0 base scraperPath sc st w :
  st <> Scrape ->
  (match st with
   | Scrape => False
   | Enrich => scrape_passed sc
   | Process => scrape_passed sc /\ snd (enrich_update sc) = Resolves
                /\ clean_exit (enrich_trace sc)
   end) ->
  earned runId0 base scraperPath sc (try_segment (
    modify (on_svc (set_pipelineStep (stage_step st))) ;;
    broadcast_now Kind.status (stage_banner st) ;;
    ret (Suspend (AwaitStatusUpdate st))) w).
Proof.
  intros Hst H. rewrite move_on_eq. cbv zeta.
  destruct (first_throw _ _); unfold earned; cbn [fst snd finally_enter].
  - discriminate.
  - destruct st; [contradiction|exact H|exact H].
Qed.

Lemma feed_command_earned runId0 base scraperPath sc st co w :
  in_order base scraperPath (AwaitCommand st co, w) ->
  earned runId0 base scraperPath sc (AwaitCommand st co, w) ->
  earned runId0 base scraperPath sc (feed_command st co (trace_of sc st) w).
Proof.
  intros Ho He. unfold feed_command.
  destruct (child_events_text (events (trace_of sc st)) co w) as (Hco & _).
  pose proof (child_events_calm (events (trace_of sc st)) co w) as Hc.
  destruct (child_events (events (trace_of sc st)) (co, w)) as [co' w1].
  cbn [fst snd] in Hco, Hc.
  pose proof (child_end_calm (ending (trace_of sc st)) co' w1) as Hc'.
  destruct (child_end (ending (trace_of sc st)) co' w1) as [[r|] w2] eqn:Ee;
    [|exact I].
  destruct (child_end_code _ _ _ _ _ Ee) as [Hout Hcode]. cbn [snd] in Hc'.
  assert (negb (Result.code r =? 0) = false -> clean_exit (trace_of sc st))
    as Hclean.
  { intros H. apply Hcode. apply negb_false_iff in H. now apply Z.eqb_eq. }
  unfold in_order in Ho. unfold earned in He. cbn [fst snd] in Ho, He.
  destruct st.
  - rewrite after_scrape_eq.
    destruct (auth_required (Result.output r)) eqn:Ea; [discriminate|].
    destruct (negb _) eqn:En; [discriminate|].
    destruct (abortRequested _); [discriminate|].
    apply move_on_earned; [discriminate|]. split; [now apply Hclean|].
    subst co. unfold chunks. rewrite app_nil_l in Hco.
    now rewrite <- Hco, <- Hout.
  - rewrite after_enrich_eq.
    destruct (negb _) eqn:En; [discriminate|].
    destruct (abortRequested _); [discriminate|].
    apply move_on_earned; [discriminate|].
    destruct He as [H1 H2]. split; [assumption|]. split; [assumption|].
    now apply Hclean.
  - rewrite after_process_eq.
    destruct (negb _) eqn:En; [discriminate|].
    unfold earned. cbn [fst snd finally_enter]. intros _.
    destruct He as (H1 & H2 & H3 & H4). split.
    + constructor; try assumption. now apply Hclean.
    + now rewrite (calm_spawned _ _ Hc'), (calm_spawned _ _ Hc), Ho.
Qed.

Lemma advance_earned runId0 base scraperPath sc p :
  in_order base scraperPath p ->
  earned runId0 base scraperPath sc p ->
  earned runId0 base scraperPath sc (advance runId0 scraperPath sc p).
Proof.
  destruct p as [a w]. destruct a; cbn [advance]; try (intros _ H; exact H).
  - apply feed_command_earned.
  - intros _ He. unfold earned in He. cbn [fst] in He.
    rewrite after_status_update_eq, scraperRun_update_eq.
    destruct (snd (update_of sc st)) eqn:Er; [|discriminate].
    destruct (has_run _ _); [|discriminate].
    unfold earned. cbn [fst].
    destruct st; cbn [update_of] in Er; cbn iota in He |- *;
      [contradiction|now split|].
    destruct He as (H1 & H2 & H3). tauto.
  - intros _ He. unfold earned in He. cbn [fst snd] in He.
    unfold after_final_update.
    remember (calls (fst (final_update sc)) w) as w1 eqn:Ew1.
    pose proof (calm_spawned _ _ (calls_calm (fst (final_update sc)) w))
      as Hs. rewrite <- Ew1 in Hs. clear Ew1.
    pose proof (finally_rest_spawned runId0 fd (snd (final_update sc)) w1)
      as Hs'.
    pose proof (finally_rest_eq runId0 fd (snd (final_update sc)) w1) as E.
    rewrite scraperRun_update_eq in E.
    destruct (snd (final_update sc)).
    + destruct (has_run runId0 (db w1)) eqn:Hrun.
      * destruct (finally_rest_stored runId0 fd w1 Hrun) as (r0 & _ & Hr0).
        destruct (finally_rest runId0 fd Resolves w1) as [[u|e] w'];
          [|exact I].
        unfold earned. cbn [fst snd] in *. intros r Hr Hst.
        rewrite Hr0 in Hr. injection Hr as <-. simpl in Hst.
        destruct (He Hst) as [Hall Hsp]. split; [assumption|]. congruence.
      * rewrite E. exact I.
    + rewrite E. exact I.
Qed.

Lemma pipeline_enter_earned runId0 scraperPath sc w :
  earned runId0 (spawned (host w)) scraperPath sc
    (pipeline_enter runId0 scraperPath w).
Proof.
  rewrite pipeline_enter_eq. cbv zeta. unfold earned.
  destruct (first_throw _ _); cbn [fst snd finally_enter];
    [discriminate|reflexivity].
Qed.

Lemma iter_earned runId0 base scraperPath sc n p :
  in_order base scraperPath p ->
  earned runId0 base scraperPath sc p ->
  in_order base scraperPath (Nat.iter n (advance runId0 scraperPath sc) p)
  /\ earned runId0 base scraperPath sc
       (Nat.iter n (advance runId0 scraperPath sc) p).
Proof.
  intros Ho He. induction n as [|n [IH1 IH2]]; simpl; [now split|].
  split; [now apply advance_in_order|now apply advance_earned].
Qed.

(** X6: [COMPLETED] is recorded only for a run all of whose stages
    succeeded.  If an execution of [runFullPipeline] ends regularly and the
    store holds the status [COMPLETED] for the run, then the scraper, the
    enrichment and the processor each exited with code 0 (none was killed
    or failed to start), the output of the scraper held no request for
    authentication, the store carried out both status updates, and the
    three commands were spawned, in order, and nothing else. *)
Theorem completed_only_if_all_stages_succeeded (runId0 : Z)
  (scraperPath : string) (sc : Script) (w : World) (r : ScraperRun) :
  let p := runFullPipeline runId0 scraperPath sc w in
  fst p = Settled (Normal tt) ->
  find_run runId0 (db (snd p)) = Some r ->
  status r = Status.COMPLETED ->
  ending (scrape_trace sc) = Close (Some 0)
  /\ auth_required
       (Text.join (flat_map stored_text (events (scrape_trace sc)))) = false
  /\ snd (enrich_update sc) = Resolves
  /\ ending (enrich_trace sc) = Close (Some 0)
  /\ snd (process_update sc) = Resolves
  /\ ending (process_trace sc) = Close (Some 0)
  /\ spawned (host (snd p))
     = spawned (host w)
       ++ [stage_command Scrape scraperPath;
           stage_command Enrich scraperPath;
           stage_command Process scraperPath].
Proof.
  intros p Hp Hr Hst. subst p. unfold runFullPipeline, drive in *.
  destruct (iter_earned runId0 (spawned (host w)) scraperPath sc 6 _
              (pipeline_enter_in_order runId0 scraperPath w)
              (pipeline_enter_earned runId0 scraperPath sc w)) as [_ He].
  destruct (Nat.iter 6 _ _) as [a w']. cbn [fst snd] in *. subst a.
  unfold earned in He. cbn [fst snd] in He.
  destruct (He r Hr Hst) as [[[H1 H2] H3 H4 H5 H6] Hs].
  now repeat split.
Qed.

(** ** A run in which everything succeeds *)

Lemma call_abort c w :
  c <> CallStop -> abortRequested (svc (call c w)) = abortRequested (svc w).
Proof. destruct c; [contradiction|reflexivity..]. Qed.

Lemma calls_abort cs w :
  ~ In CallStop cs ->
  abortRequested (svc (calls cs w)) = abortRequested (svc w).
Proof.
  revert w. induction cs as [|c cs IH]; intros w H; simpl; [reflexivity|].
  rewrite IH by (intros Hin; apply H; now right).
  apply call_abort. intros ->. apply H. now left.
Qed.

Lemma child_events_abort evs co w :
  ~ In (Meanwhile CallStop) evs ->
  abortRequested (svc (snd (child_events evs (co, w))))
  = abortRequested (svc w).
Proof.
  revert co w. induction evs as [|ev evs IH]; intros co w H; [reflexivity|].
  rewrite child_events_cons.
  assert (abortRequested (svc (snd (child_event ev (co, w))))
          = abortRequested (svc w)) as E.
  { destruct ev as [text|text|c]; cbn [child_event snd].
    - now rewrite onStdout_eq.
    - now rewrite onStderr_eq.
    - apply call_abort. intros ->. apply H. now left. }
  destruct (child_event ev (co, w)) as [co1 w1]. cbn [snd] in E.
  rewrite IH by (intros Hin; apply H; now right). exact E.
Qed.

Lemma finally_rest_buffer runId fd reply w :
  outputBuffer (svc (snd (finally_rest runId fd reply w)))
  = outputBuffer (svc w).
Proof.
  rewrite finally_rest_eq, scraperRun_update_eq. destruct reply.
  - destruct (has_run _ _); [|reflexivity]. cbv zeta.
    destruct (first_throw _ _); [reflexivity|].
    destruct (first_throw _ _); reflexivity.
  - reflexivity.
Qed.

Lemma never_throws_quiet known o cbs :
  never_throws known -> incl cbs known -> first_throw o cbs = None.
Proof.
  intros Hk Hi. apply quiet_called. apply Forall_forall.
  intros cb Hin. apply Hk. now apply Hi.
Qed.

Section Success.

Variables (runId0 : Z) (scraperPath : string) (sc : Script).
Variables (before : list ScraperOutput) (known : list OutputCallback).
Variable buffer0 : list string.

Hypothesis script_known : incl (script_callbacks sc) known.
Hypothesis known_quiet : never_throws known.
Hypothesis succeeded : all_succeeded sc.
Hypothesis final_resolves : snd (final_update sc) = Resolves.
Hypothesis unasked : no_abort_request sc.

Lemma move_on_going_well st w :
  st <> Scrape ->
  incl (listeners (svc w)) known ->
  outputBuffer (svc w) = buffer0 ++ chunks_before sc st ->
  (st = Enrich -> abortRequested (svc w) = false) ->
  going_well runId0 buffer0 sc (try_segment (
    modify (on_svc (set_pipelineStep (stage_step st))) ;;
    broadcast_now Kind.status (stage_banner st) ;;
    ret (Suspend (AwaitStatusUpdate st))) w).
Proof.
  intros Hst Hi Hb Ha. rewrite move_on_eq. cbv zeta.
  rewrite (never_throws_quiet known _ _ known_quiet Hi).
  unfold going_well. cbn [fst snd]. now repeat split.
Qed.

Lemma feed_command_going_well st co w :
  under_way runId0 before known w ->
  going_well runId0 buffer0 sc (AwaitCommand st co, w) ->
  going_well runId0 buffer0 sc (feed_command st co (trace_of sc st) w).
Proof.
  intros (_ & _ & Hi) (Hb & Hco & Ha). cbn [fst snd] in *.
  destruct succeeded as [[S1 S1'] U2 S2 U3 S3].
  destruct unasked as (N1 & N2 & N3).
  assert (ending (trace_of sc st) = Close (Some 0)) as Hend
    by (destruct st; assumption).
  rewrite (feed_command_close _ _ _ _ _ Hend).
  destruct (child_events_text (events (trace_of sc st)) co w)
    as (_ & Hbuf & _).
  pose proof (child_events_listeners (events (trace_of sc st)) co w known Hi
                (trace_known sc known script_known st)) as Hi1.
  remember (snd (child_events (events (trace_of sc st)) (co, w))) as w1
    eqn:Ew1.
  destruct st.
  - rewrite after_scrape_eq. cbn [Result.code Result.output].
    rewrite (Hco eq_refl), app_nil_l.
    fold (chunks sc Scrape). rewrite S1'. simpl negb. cbv iota.
    assert (abortRequested (svc w1) = false) as Hab.
    { subst w1. rewrite child_events_abort by exact N1.
      apply Ha. discriminate. }
    rewrite Hab. apply move_on_going_well; try assumption; try discriminate.
    + rewrite Hbuf, Hb. unfold chunks_before. simpl.
      now rewrite !app_nil_r.
    + now intros _.
  - rewrite after_enrich_eq. cbn [Result.code Result.output].
    simpl negb. cbv iota.
    assert (abortRequested (svc w1) = false) as Hab.
    { subst w1. rewrite child_events_abort by exact N3.
      apply Ha. discriminate. }
    rewrite Hab. apply move_on_going_well; try assumption; try discriminate.
    rewrite Hbuf, Hb. unfold chunks_before, chunks. simpl.
    now rewrite !app_nil_r, <- app_assoc.
  - rewrite after_process_eq. cbn [Result.code Result.output].
    simpl negb. cbv iota. unfold going_well. cbn [fst snd finally_enter].
    split; [reflexivity|].
    rewrite Hbuf, Hb. unfold chunks_before, all_chunks, chunks. simpl.
    now rewrite !app_nil_r, <- !app_assoc.
Qed.

Lemma advance_going_well p :
  on_course runId0 before known p ->
  going_well runId0 buffer0 sc p ->
  going_well runId0 buffer0 sc (advance runId0 scraperPath sc p).
Proof.
  destruct p as [a w]. destruct a; cbn [advance]; try (intros _ H; exact H).
  - apply feed_command_going_well.
  - intros (Hrun & _ & Hi) (Hst & Hb & Ha). cbn [fst snd] in *.
    destruct succeeded as [[S1 S1'] U2 S2 U3 S3].
    destruct unasked as (N1 & N2 & N3).
    pose proof (calls_calm (fst (update_of sc st)) w) as Hc.
    pose proof (calls_buffer (fst (update_of sc st)) w) as Hbuf.
    assert (st = Enrich ->
            abortRequested (svc (calls (fst (update_of sc st)) w)) = false)
      as Hab.
    { intros ->. cbn [update_of]. rewrite calls_abort by exact N2. now apply Ha. }
    remember (calls (fst (update_of sc st)) w) as w1 eqn:Ew1. clear Ew1.
    rewrite after_status_update_eq, scraperRun_update_eq.
    assert (snd (update_of sc st) = Resolves) as ->
      by (destruct st; [contradiction|assumption|assumption]).
    rewrite (calm_db _ _ Hc), Hrun.
    unfold going_well. cbn [fst snd svc on_host on_db].
    rewrite Hbuf. split; [assumption|]. split; [reflexivity|].
    intros Hp. apply Hab. destruct st; [contradiction|reflexivity|].
    now contradiction Hp.
  - intros (Hu & _) (Hst & Hb). cbn [fst snd] in *.
    destruct Hu as (Hrun & _ & Hi).
    pose proof (calls_calm (fst (final_update sc)) w) as Hc.
    pose proof (calls_buffer (fst (final_update sc)) w) as Hbuf.
    remember (calls (fst (final_update sc)) w) as w1 eqn:Ew1. clear Ew1.
    rewrite <- (calm_db _ _ Hc) in Hrun.
    unfold after_final_update. rewrite final_resolves.
    destruct (finally_rest_stored runId0 fd w1 Hrun) as (r0 & _ & Hr0).
    pose proof (finally_rest_buffer runId0 fd Resolves w1) as Hb'.
    destruct (finally_rest runId0 fd Resolves w1) as [c w'].
    unfold going_well. cbn [fst snd] in *. split.
    + exists (data_final fd r0). now split.
    + now rewrite Hb', Hbuf.
Qed.

Lemma iter_going_well n p :
  on_course runId0 before known p ->
  going_well runId0 buffer0 sc p ->
  going_well runId0 buffer0 sc
    (Nat.iter n (advance runId0 scraperPath sc) p).
Proof.
  intros Ho Hg. induction n as [|n IH]; simpl; [assumption|].
  apply advance_going_well; [|assumption].
  apply iter_on_course; try assumption.
  intros cb Hcb o _. now apply known_quiet.
Qed.

End Success.



(** The same run, which the store holds as [COMPLETED] in the end. *)
Lemma completed_only_if_all_stages_succeeded_witness :
  let w := fresh_world
    {| scraperRun := [{| id := 1; status := Status.RUNNING;
                         triggerType := MANUAL; startedAt := 0;
                         completedAt := None; output := None;
                         errorMessage := None; sellersProcessed := 0;
                         productsScraped := 0 |}];
       nextId := 2; schedulerConfig := None |} 5 "/srv/gpt" in
  let quiet := {| events := [Stdout "ok"]; ending := Close (Some 0) |} in
  let sc := {| scrape_trace := quiet;
               enrich_update := ([], Resolves); enrich_trace := quiet;
               process_update := ([], Resolves); process_trace := quiet;
               final_update := ([], Resolves) |} in
  let p := runFullPipeline 1 "/srv/gpt" sc w in
  option_map status (find_run 1 (db (snd p))) = Some Status.COMPLETED
  /\ spawned (host (snd p))
     = [stage_command Scrape "/srv/gpt"; stage_command Enrich "/srv/gpt";
        stage_command Process "/srv/gpt"].
Proof.
  intros w quiet sc p. split; [reflexivity|].
  refine (proj2 (proj2 (proj2 (proj2 (proj2 (proj2
    (completed_only_if_all_stages_succeeded 1 "/srv/gpt" sc w _
       eq_refl eq_refl eq_refl))))))).
Defined.

(** ** Stages that fail *)

(** The segment after a command that resolved with a code other than 0,
    the scraper having asked for no authentication. *)
Lemma after_command_failed st r w :
  Result.code r <> 0 ->
  (st = Scrape -> auth_required (Result.output r) = false) ->
  after_command st r w
  = finally_enter (failure_status st)
      (Some (failure_message st (Result.code r))) w.
Proof.
  intros Hc Ha. apply Z.eqb_neq in Hc. destruct st.
  - now rewrite after_scrape_eq, (Ha eq_refl), Hc.
  - now rewrite after_enrich_eq, Hc.
  - now rewrite after_process_eq, Hc.
Qed.

(** The run from [finally] on: it settles, spawns nothing, and the store
    holds the data of [finally] once it carries out the update. *)
Lemma ends_from_finally runId0 scraperPath sc fs em w :
  let p := drive runId0 scraperPath sc (finally_enter fs em w) in
  (exists c, fst p = Settled c)
  /\ spawned (host (snd p)) = spawned (host w)
  /\ (snd (final_update sc) = Resolves -> has_run runId0 (db w) = true ->
      exists r', find_run runId0 (db (snd p)) = Some r'
                 /\ status r' = fs /\ errorMessage r' = em).
Proof.
  unfold finally_enter.
  destruct (drive_from_finally runId0 scraperPath sc (final_data fs em w) w)
    as (H1 & H2 & H3).
  split; [assumption|]. split; [assumption|].
  intros Hr Hrun. destruct (H3 Hr Hrun) as (r0 & _ & Hr0).
  exists (data_final (final_data fs em w) r0). now split.
Qed.

(** X8: a stage that exits with a code other than 0 ends the run with the
    status of that stage.  For the scraper (whose output asks for no
    authentication) the status is [FAILED] and the message ["Scraping
    failed with exit code N"]; for the processor it is [PROCESSING_FAILED]
    and ["Database processing failed with exit code N"]; for the enrichment
    [ENRICHMENT_FAILED].  The check of the exit code comes before that of a
    requested abort, so the failure is what is recorded either way.  No
    later stage is started, and the store holds status and message once
    the last update is carried out. *)
Theorem failed_stage_ends_run (st : Stage) (runId0 : Z)
  (scraperPath : string) (sc : Script) (commandOutput : list string)
  (tr : ChildTrace) (w : World) (exitCode : Z) :
  ending tr = Close (Some exitCode) ->
  exitCode <> 0 ->
  (st = Scrape ->
   auth_required
     (Text.join (commandOutput ++ flat_map stored_text (events tr))) = false) ->
  let w1 := snd (child_events (events tr) (commandOutput, w)) in
  let fd := final_data (failure_status st)
              (Some (failure_message st exitCode)) w1 in
  let p := drive runId0 scraperPath sc (feed_command st commandOutput tr w) in
  feed_command st commandOutput tr w = (AwaitFinalUpdate fd, w1)
  /\ (exists c, fst p = Settled c)
  /\ spawned (host (snd p)) = spawned (host w)
  /\ (snd (final_update sc) = Resolves -> has_run runId0 (db w) = true ->
      exists r', find_run runId0 (db (snd p)) = Some r'
                 /\ status r' = failure_status st
                 /\ errorMessage r' = Some (failure_message st exitCode))
  /\ failure_status Scrape = Status.FAILED
  /\ failure_status Process = Status.PROCESSING_FAILED
  /\ failure_message Scrape exitCode
     = ("Scraping failed with exit code " ++ Text.of_Z exitCode)%string
  /\ failure_message Process exitCode
     = ("Database processing failed with exit code "
        ++ Text.of_Z exitCode)%string.
Proof.
  intros Hend Hcode Hauth w1 fd p. subst fd p.
  assert (feed_command st commandOutput tr w
          = finally_enter (failure_status st)
              (Some (failure_message st exitCode)) w1) as E.
  { rewrite (feed_command_close _ _ _ _ _ Hend).
    now rewrite after_command_failed. }
  pose proof (child_events_calm (events tr) commandOutput w) as Hc.
  fold w1 in Hc.
  destruct (ends_from_finally runId0 scraperPath sc (failure_status st)
              (Some (failure_message st exitCode)) w1) as (H1 & H2 & H3).
  rewrite E.
  split; [reflexivity|]. split; [exact H1|].
  split; [now rewrite H2, (calm_spawned _ _ Hc)|].
  split; [|now repeat split].
  intros Hr Hrun. apply H3; [assumption|]. now rewrite (calm_db _ _ Hc).
Qed.

(** The processor of a run exits with 2 after a line on each stream. *)
Lemma failed_stage_ends_run_witness :
  let w := on_svc (fun s =>
      set_pipelineStep Step.PROCESSING (set_currentRunId (Some 1) s))
    (fresh_world
      {| scraperRun := [{| id := 1; status := Status.PROCESSING;
                           triggerType := SCHEDULED; startedAt := 0;
                           completedAt := None; output := None;
                           errorMessage := None; sellersProcessed := 0;
                           productsScraped := 0 |}];
         nextId := 2; schedulerConfig := None |} 5 "/srv/gpt") in
  let tr := {| events := [Stdout "Connecting"; Stderr "refused"];
               ending := Close (Some 2) |} in
  let quiet := {| events := []; ending := Close (Some 0) |} in
  let sc := {| scrape_trace := quiet;
               enrich_update := ([], Resolves); enrich_trace := quiet;
               process_update := ([], Resolves); process_trace := tr;
               final_update := ([], Resolves) |} in
  let p := drive 1 "/srv/gpt" sc (feed_command Process [] tr w) in
  exists r', find_run 1 (db (snd p)) = Some r'
             /\ status r' = Status.PROCESSING_FAILED
             /\ errorMessage r'
                = Some "Database processing failed with exit code 2".
Proof.
  intros w tr quiet sc p.
  destruct (failed_stage_ends_run Process 1 "/srv/gpt" sc [] tr w 2)
    as (_ & _ & _ & H & _).
  - reflexivity.
  - discriminate.
  - discriminate.
  - apply H; reflexivity.
Defined.

(** X9: a child that is killed or cannot be started counts as a failure
    with the exit code 1.  When the child closes without an exit code (a
    signal ended it), or ['error'] is raised for it and no subscriber throws
    on the report, [runCommand] resolves with the code 1 and the run ends
    with the status of the stage and ["... exit code 1"].  The report
    ["Process error: ..."] goes to the subscribers as a ['stderr'] event but
    not into the buffer: the stored output of the run does not hold it. *)
Theorem killed_or_unstartable_child_fails_stage (st : Stage)
  (commandOutput : list string) (tr : ChildTrace) (w : World) :
  let st1 := child_events (events tr) (commandOutput, w) in
  let w2 := snd (child_end (ending tr) (fst st1) (snd st1)) in
  (ending tr = Close None
   \/ exists message,
        ending tr = Error message
        /\ quiet_on (process_error_event message (snd st1))
             (listeners (svc (snd st1)))) ->
  (st = Scrape ->
   auth_required
     (Text.join (commandOutput ++ flat_map stored_text (events tr))) = false) ->
  let fd := final_data (failure_status st) (Some (failure_message st 1)) w2 in
  feed_command st commandOutput tr w = (AwaitFinalUpdate fd, w2)
  /\ fd_output fd
     = Text.join (outputBuffer (svc w) ++ flat_map stored_text (events tr))
  /\ (forall message,
        ending tr = Error message ->
        published (host w2)
        = published (host (snd st1))
          ++ [process_error_event message (snd st1)]
        /\ outputBuffer (svc w2) = outputBuffer (svc (snd st1))).
Proof.
  intros st1 w2 Hend Hauth fd.
  destruct (child_events_text (events tr) commandOutput w)
    as (Hco & Hbuf & _).
  fold st1 in Hco, Hbuf.
  assert (child_end (ending tr) (fst st1) (snd st1)
          = (Some {| Result.code := 1;
                     Result.output := Text.join (fst st1) |}, w2)
          /\ outputBuffer (svc w2) = outputBuffer (svc (snd st1))
          /\ (forall message, ending tr = Error message ->
                published (host w2)
                = published (host (snd st1))
                  ++ [process_error_event message (snd st1)]))
    as (Ee & Eb & Ep).
  { subst w2. destruct Hend as [->|(message & -> & Hq)].
    - repeat split. discriminate.
    - cbn [child_end]. rewrite broadcast_now_eq, broadcast_eq.
      fold (process_error_event message (snd st1)).
      destruct (quiet_called _ _ Hq) as [_ ->]. cbn [completion_of fst snd].
      repeat split. now intros m [= <-]. }
  split; [|split].
  - unfold feed_command. fold st1.
    destruct st1 as [co' w1]. cbn [fst snd] in *. rewrite Ee.
    apply after_command_failed; [discriminate|].
    cbn [Result.output]. now rewrite Hco.
  - subst fd. unfold final_data. cbn [fd_output]. now rewrite Eb, Hbuf.
  - intros message Hm. split; [now apply Ep|assumption].
Qed.

(** [npm run enrich] cannot be started; a subscriber listens. *)
Lemma killed_or_unstartable_child_fails_stage_witness :
  let cb := {| cb_id := 1; cb_body := fun _ => None |} in
  let w := subscribe cb (fresh_world empty_db 5 "/srv/gpt") in
  let tr := {| events := []; ending := Error "spawn npm ENOENT" |} in
  fst (feed_command Enrich [] tr w)
  = AwaitFinalUpdate
      {| fd_status := Status.ENRICHMENT_FAILED; fd_completedAt := 5;
         fd_output := EmptyString;
         fd_errorMessage := Some "Enrichment failed with exit code 1";
         fd_sellersProcessed := 0; fd_productsScraped := 0 |}.
Proof.
  intros cb w tr.
  destruct (killed_or_unstartable_child_fails_stage Enrich [] tr w)
    as (H & _).
  - right. exists "spawn npm ENOENT". split; [reflexivity|].
    repeat constructor.
  - discriminate.
  - now rewrite H.
Defined.

(** ** An abort requested during stage 2 *)

(** X10, for a service whose starts do not overlap: [stopScraper] during
    stage 2 stops the run before stage 3.  A call made while the step is
    [ENRICHING] registers the abort.  From then on, whatever events follow,
    every execution that was under way at the call is held at stage 2: it
    awaits the update ahead of the enrichment or the enrichment itself, the
    abort still requested, or it has left [try]; it never comes to stage 3,
    and nothing is spawned but, at most, the enrichment.  When the
    enrichment closes with a code other than 0 the run ends as
    [ENRICHMENT_FAILED] (the check of the exit code comes first), with
    code 0 as [FAILED] with ['Pipeline aborted by user']; the update of
    [finally], once carried out, stores the status and the message. *)
Theorem abort_during_enrichment (validate : string -> bool) (d : Prisma)
  (t0 : Z) (scraperPath : string) (evs1 evs2 : list Event) :
  settled_store d ->
  let s0 := initial_system (fresh_world d t0 scraperPath) in
  serialized validate (evs1 ++ Request CallStop :: evs2) s0 ->
  let s := run_events validate evs1 s0 in
  getCurrentStep (world s) = Step.ENRICHING ->
  let s' := run_events validate (Request CallStop :: evs2) s in
  abortRequested (svc (effect stopScraper (world s))) = true
  /\ forall k task,
       nth_error (pipelines s') k = Some task ->
       (k < List.length (pipelines s))%nat ->
       let enrichment := stage_command Enrich (task_scraperPath task) in
       let spawned_so_far :=
         spawned (host (world s')) = spawned (host (world s))
         \/ spawned (host (world s'))
            = spawned (host (world s)) ++ [enrichment] in
       match task_at task with
       | AwaitStatusUpdate st =>
           st = Enrich
           /\ abortRequested (svc (world s')) = true
           /\ spawned (host (world s')) = spawned (host (world s))
       | AwaitCommand st co =>
           st = Enrich
           /\ abortRequested (svc (world s')) = true
           /\ spawned_so_far
           /\ forall exitCode,
                let code := match exitCode with Some c => c | None => 1 end in
                exists fs em,
                  nth_error
                    (pipelines
                       (step validate (ChildEnds k (Close exitCode)) s')) k
                  = Some {| task_runId := task_runId task;
                            task_scraperPath := task_scraperPath task;
                            task_at :=
                              AwaitFinalUpdate
                                (final_data fs em (world s')) |}
                  /\ (code <> 0 ->
                      fs = Status.ENRICHMENT_FAILED
                      /\ em = Some ("Enrichment failed with exit code "
                                    ++ Text.of_Z code)%string)
                  /\ (code = 0 ->
                      fs = Status.FAILED
                      /\ em = Some "Pipeline aborted by user"%string)
       | AwaitFinalUpdate fd =>
           spawned_so_far
           /\ exists r,
                find_run (task_runId task)
                  (db (world (step validate (UpdateSettles k Resolves) s')))
                = Some r
                /\ status r = fd_status fd
                /\ errorMessage r = fd_errorMessage fd
       | Stalled | Settled _ => True
       end.
Proof.
  intros Hd s0 Hser s Hstep s'.
  apply serialized_app in Hser. destruct Hser as [Hser1 Hser2].
  fold s in Hser2. destruct Hser2 as [_ Hser2].
  destruct (reached_invariants validate d t0 scraperPath evs1 Hd Hser1) as [H Hs].
  fold s0 s in H, Hs.
  assert (isRunning (world s) = true) as Hrun.
  { rewrite isRunning_step. unfold getCurrentStep in Hstep. now rewrite Hstep. }
  destruct (stopScraper_running (world s) Hrun) as (A1 & _).
  split; [assumption|].
  intros k task Hk Hlt enrichment spawned_so_far.
  assert (single_flight s' /\ staged s') as [H' Hs'].
  { subst s'. cbn [run_events fold_left].
    fold (run_events validate evs2 (step validate (Request CallStop) s)).
    pose proof (single_flight_step validate (Request CallStop) s H I) as H1.
    split.
    - now apply single_flight_run_events.
    - apply staged_run_events; try assumption.
      now apply staged_step. }
  pose proof (stop_holds validate Enrich s evs2 k task H Hs Hstep Hser2 Hk Hlt)
    as Hh.
  change (held Enrich (spawned (host (world s))) (task_scraperPath task)
            (task_at task, world s')) in Hh.
  unfold held in Hh. cbn [fst snd] in Hh.
  pose proof (Hs' k task Hk) as Hin. unfold in_stage in Hin.
  cbn [fst snd] in Hin.
  assert (forall l : list Command,
            l = spawned (host (world s))
            \/ Enrich <> Scrape
               /\ l = spawned (host (world s))
                      ++ [stage_command Enrich (task_scraperPath task)] ->
            l = spawned (host (world s))
            \/ l = spawned (host (world s)) ++ [enrichment]) as Hsp.
  { intros l [A|[_ A]]; [now left|now right]. }
  destruct (task_at task) as [st co|st|fd| |c] eqn:Hat; try exact I.
  - destruct Hh as (-> & Hab & Hl).
    split; [reflexivity|]. split; [assumption|]. split; [now apply Hsp|].
    intros exitCode code.
    destruct (command_end_aborted validate s' k task Enrich co exitCode
                Hk Hat Hab) as (fs & em & E & Hk2).
    exists fs, em. split; [assumption|].
    rewrite after_enrich_eq in E. cbn [Result.code Result.output] in E.
    fold code in E. rewrite Hab in E.
    destruct (Z.eqb_spec code 0) as [Hc|Hc]; cbn [negb] in E;
      apply finally_enter_inj in E; destruct E as [<- <-];
      repeat split; try discriminate; try contradiction; reflexivity.
  - destruct Hh as (-> & _ & Hab & Hl). now repeat split.
  - split; [now apply Hsp|].
    destruct (final_update_stores validate s' k task fd Hk Hat Hin)
      as (r0 & _ & Hr).
    exists (data_final fd r0). now split.
Qed.

(** The scraper exits with code 0; [stopScraper] is called while the
    update ahead of the enrichment is pending; the enrichment is started,
    writes a line and exits with code 0. *)
Lemma abort_during_enrichment_witness :
  let validate := fun _ : string => true in
  let evs1 := [StartRequest MANUAL; CreateSettles 0 Resolves;
               ChildEnds 0 (Close (Some 0))] in
  let evs2 := [UpdateSettles 0 Resolves;
               ChildEmits 0 (Stdout "Enriched 12 products")] in
  let s0 := initial_system (fresh_world empty_db 5 "/srv/gpt") in
  let s' := run_events validate (Request CallStop :: evs2)
              (run_events validate evs1 s0) in
  spawned (host (world s'))
  = [stage_command Scrape "/srv/gpt"; stage_command Enrich "/srv/gpt"]
  /\ nth_error (pipelines (step validate (ChildEnds 0 (Close (Some 0))) s')) 0
     = Some {| task_runId := 1; task_scraperPath := "/srv/gpt";
               task_at := AwaitFinalUpdate
                 (final_data Status.FAILED
                    (Some "Pipeline aborted by user"%string) (world s')) |}.
Proof.
  intros validate evs1 evs2 s0 s'. split; [reflexivity|].
  assert (settled_store empty_db) as Hd.
  { split; [constructor|intros r []]. }
  assert (serialized validate (evs1 ++ Request CallStop :: evs2) s0) as Hser.
  { simpl. repeat split. }
  destruct (abort_during_enrichment validate empty_db 5 "/srv/gpt" evs1 evs2
              Hd Hser eq_refl) as (_ & Hrun).
  specialize (Hrun 0%nat
    {| task_runId := 1; task_scraperPath := "/srv/gpt";
       task_at := AwaitCommand Enrich ["Enriched 12 products"]%string |}
    eq_refl (le_n 1)).
  cbn [task_at] in Hrun. destruct Hrun as (_ & _ & _ & Hend).
  destruct (Hend (Some 0)) as (fs & em & Hk & _ & Hab).
  destruct (Hab eq_refl) as [-> ->]. exact Hk.
Defined.

(** ** The store fails ahead of a stage *)

(** X11: a status update that the store rejects ends the run as [FAILED].
    When the update ahead of stage 2 or 3 is rejected, the exception is
    caught: the run enters [finally] with the status [FAILED] and the
    message of the error (['Unknown error'] for a thrown value that is no
    [Error]), the command of the stage is not started, nor any later one,
    and the store holds status and message once it carries out the last
    update. *)
Theorem rejected_status_update_ends_run (runId0 : Z) (scraperPath : string)
  (sc : Script) (st : Stage) (e : Thrown) (w : World) :
  let fd := final_data Status.FAILED (Some (message_of e)) w in
  let p := drive runId0 scraperPath sc
             (after_status_update runId0 scraperPath st (Rejects e) w) in
  after_status_update runId0 scraperPath st (Rejects e) w
  = (AwaitFinalUpdate fd, w)
  /\ (exists c, fst p = Settled c)
  /\ spawned (host (snd p)) = spawned (host w)
  /\ (snd (final_update sc) = Resolves -> has_run runId0 (db w) = true ->
      exists r', find_run runId0 (db (snd p)) = Some r'
                 /\ status r' = Status.FAILED
                 /\ errorMessage r' = Some (message_of e))
  /\ (forall message, e = ErrorObject message -> message_of e = message)
  /\ (e = NonError -> message_of e = "Unknown error"%string).
Proof.
  intros fd p. subst fd p.
  assert (after_status_update runId0 scraperPath st (Rejects e) w
          = finally_enter Status.FAILED (Some (message_of e)) w) as E
    by now rewrite after_status_update_eq, scraperRun_update_eq.
  rewrite E.
  destruct (ends_from_finally runId0 scraperPath sc Status.FAILED
              (Some (message_of e)) w) as (H1 & H2 & H3).
  split; [reflexivity|]. split; [exact H1|]. split; [exact H2|].
  split; [exact H3|]. split; [now intros message ->|now intros ->].
Qed.

(** ** The start of a run *)

(** The row, the current run and the step after a start. *)
Lemma startScraper_begins_run_parts trig w :
  let w' := snd (startScraper_resume trig Resolves w) in
  scraperRun (db w') = scraperRun (db w) ++ [new_run trig w]
  /\ getCurrentRunId w' = Some (nextId (db w))
  /\ getCurrentStep w' = Step.SCRAPING.
Proof.
  intros w'. subst w'. rewrite startScraper_resume_eq.
  cbv zeta. rewrite pipeline_enter_eq. cbv zeta.
  cbn [id new_run fst snd].
  destruct (first_throw _ _); cbn [finally_enter fst snd]; now repeat split.
Qed.

(** X12: what [startScraper] does once the guard is passed.  When the
    store has created the run, the call returns its identity, the next of
    the counter, without an error and without waiting for the pipeline.  By
    then the row of the run is the last of the store, [RUNNING], with the
    trigger of the call and the start time; the run is the current one;
    the buffer is empty and no abort is requested, whatever the last run
    left behind; the step is [SCRAPING]; and the announcement of stage 1,
    which names the run, is published.  When no subscriber throws on it,
    [npm start] is spawned in the directory of the scraper and the pipeline
    awaits it.  When the store rejects the creation, the call throws the
    error and nothing has changed. *)
Theorem startScraper_begins_run (trig : TriggerType) (w : World) :
  let res := startScraper_resume trig Resolves w in
  let w' := snd res in
  let runId0 := nextId (db w) in
  fst (fst res) = Normal {| runId := runId0; error := None |}
  /\ scraperRun (db w') = scraperRun (db w) ++ [new_run trig w]
  /\ nextId (db w') = runId0 + 1
  /\ getCurrentRunId w' = Some runId0
  /\ outputBuffer (svc w') = []
  /\ abortRequested (svc w') = false
  /\ getCurrentStep w' = Step.SCRAPING
  /\ published (host w') = published (host w) ++ [scraping_banner runId0 w]
  /\ (quiet_on (scraping_banner runId0 w) (listeners (svc w)) ->
      snd (fst res)
      = Some {| task_runId := runId0; task_scraperPath := gptPath (host w);
                task_at := AwaitCommand Scrape [] |}
      /\ spawned (host w')
         = spawned (host w) ++ [stage_command Scrape (gptPath (host w))])
  /\ (forall e, startScraper_resume trig (Rejects e) w = (Throw e, None, w)).
Proof.
  intros res w' runId0. subst w' res. rewrite startScraper_resume_eq.
  cbv zeta. rewrite pipeline_enter_eq. cbv zeta.
  cbn [id new_run fst snd].
  match goal with
  | |- context [first_throw ?o ?l] =>
      change o with (scraping_banner runId0 w);
      change l with (listeners (svc w))
  end.
  destruct (first_throw (scraping_banner runId0 w) (listeners (svc w)))
    as [e|] eqn:Ef; cbn [finally_enter fst snd].
  - do 8 (split; [reflexivity|]). split; [|reflexivity].
    intros Hq. destruct (quiet_called _ _ Hq) as [_ Hn]. congruence.
  - do 8 (split; [reflexivity|]). now split.
Qed.

(** X13: a subscriber that throws on the first announcement fails the run
    before the scraper is started.  [startScraper] still returns the
    identity of the run without an error; but the exception is caught in
    [runFullPipeline], which enters [finally] with the status [FAILED] and
    the message of the exception: no command is spawned then or later, and
    the store holds [FAILED] with that message once it carries out the last
    update. *)
Theorem throwing_subscriber_fails_run_at_start (trig : TriggerType)
  (sc : Script) (e : Thrown) (w : World) :
  let runId0 := nextId (db w) in
  first_throw (scraping_banner runId0 w) (listeners (svc w)) = Some e ->
  let res := startScraper_resume trig Resolves w in
  let w' := snd res in
  let fd := final_data Status.FAILED (Some (message_of e)) w' in
  let p := drive runId0 (gptPath (host w)) sc (AwaitFinalUpdate fd, w') in
  fst (fst res) = Normal {| runId := runId0; error := None |}
  /\ snd (fst res)
     = Some {| task_runId := runId0; task_scraperPath := gptPath (host w);
               task_at := AwaitFinalUpdate fd |}
  /\ fd_output fd = EmptyString
  /\ spawned (host w') = spawned (host w)
  /\ spawned (host (snd p)) = spawned (host w)
  /\ (snd (final_update sc) = Resolves ->
      exists r', find_run runId0 (db (snd p)) = Some r'
                 /\ status r' = Status.FAILED
                 /\ errorMessage r' = Some (message_of e)).
Proof.
  intros runId0 He res w' fd p. subst p fd w' res.
  rewrite startScraper_resume_eq. cbv zeta. rewrite pipeline_enter_eq.
  cbv zeta. cbn [id new_run fst snd].
  match goal with
  | |- context [first_throw ?o ?l] =>
      change o with (scraping_banner runId0 w);
      change l with (listeners (svc w))
  end.
  rewrite He. cbn [fst snd].
  match goal with
  | |- context [finally_enter ?fs ?em ?w2] =>
      destruct (ends_from_finally runId0 (gptPath (host w)) sc fs em w2)
        as (_ & H2 & H3);
      unfold finally_enter in *; cbn [fst snd] in *;
      remember w2 as w3 eqn:Ew3
  end.
  split; [reflexivity|]. split; [reflexivity|].
  split; [now subst w3|]. split; [now subst w3|].
  split; [rewrite H2; now subst w3|].
  intros Hr. apply H3; [assumption|]. subst w3.
  unfold has_run. cbn [db on_db on_svc on_host scraperRun].
  rewrite existsb_app. simpl. rewrite Z.eqb_refl. apply orb_true_r.
Qed.

(** A subscriber whose stream is closed, and a manual start. *)
Lemma throwing_subscriber_fails_run_at_start_witness :
  let cb := {| cb_id := 1;
               cb_body := fun _ => Some (ErrorObject "stream closed") |} in
  let w := subscribe cb (fresh_world empty_db 5 "/srv/gpt") in
  let res := startScraper_resume MANUAL Resolves w in
  fst (fst res) = Normal {| runId := 1; error := None |}
  /\ spawned (host (snd res)) = [].
Proof.
  intros cb w res.
  destruct (throwing_subscriber_fails_run_at_start MANUAL
              {| scrape_trace := {| events := []; ending := Close None |};
                 enrich_update := ([], Resolves);
                 enrich_trace := {| events := []; ending := Close None |};
                 process_update := ([], Resolves);
                 process_trace := {| events := []; ending := Close None |};
                 final_update := ([], Resolves) |}
              (ErrorObject "stream closed") w)
    as (H1 & _ & _ & H2 & _).
  - reflexivity.
  - now split.
Defined.

(** ** The configuration of the scheduler *)

Lemma startScraper_resume_config trig reply w :
  schedulerConfig (db (snd (startScraper_resume trig reply w)))
  = schedulerConfig (db w).
Proof.
  destruct reply; [|reflexivity]. rewrite startScraper_resume_eq. cbv zeta.
  cbn [snd].
  match goal with
  | |- context [pipeline_enter ?i ?p ?w1] =>
      now rewrite (in_config _ _ _ (pipeline_enter_inside i p w1))
  end.
Qed.

Lemma step_keeps_config validate ev s :
  reconfigures ev = false ->
  schedulerConfig (db (world (step validate ev s)))
  = schedulerConfig (db (world s)).
Proof.
  intros Hev. destruct ev; try discriminate; cbn [step].
  - unfold start_request. now destruct (startScraper_enter _).
  - destruct (nth_error (starting s) k) as [trig|]; [|reflexivity].
    pose proof (startScraper_resume_config trig reply (world s)) as E.
    now destruct (startScraper_resume trig reply (world s)) as [[c [t|]] w'].
  - destruct (nth_error (pipelines s) k) as [t|]; [|reflexivity].
    destruct (task_at t); try reflexivity.
    pose proof (child_event_calm ev commandOutput (world s)) as Hc.
    destruct (child_event ev (commandOutput, world s)) as [co' w'].
    cbn [resume_task world snd] in *. now rewrite (calm_db _ _ Hc).
  - destruct (nth_error (pipelines s) k) as [t|]; [|reflexivity].
    destruct (task_at t); try reflexivity. cbn [resume_task world].
    apply (co_config _ _ _ (feed_command_confined 0 _ _ _ _)).
  - destruct (nth_error (pipelines s) k) as [t|]; [|reflexivity].
    destruct (task_at t); try reflexivity; cbn [resume_task world].
    + apply (in_config _ _ _ (after_status_update_inside _ _ _ _ _)).
    + apply (in_config _ _ _ (after_final_update_inside _ _ _ _)).
  - cbn [with_world world]. now rewrite (calm_db _ _ (call_calm c (world s))).
  - destruct (nth_error _ j) as [t|]; [|reflexivity].
    destruct (scheduled t); [|reflexivity].
    unfold start_request. now destruct (startScraper_enter _).
Qed.

Lemma run_events_keep_config validate evs s :
  (forall ev, In ev evs -> reconfigures ev = false) ->
  schedulerConfig (db (world (run_events validate evs s)))
  = schedulerConfig (db (world s)).
Proof.
  revert s. induction evs as [|ev evs IH]; intros s H; simpl; [reflexivity|].
  rewrite IH by (intros ev' Hin; apply H; now right).
  apply step_keeps_config. apply H. now left.
Qed.

(** X14: the configuration that was set is the one that is read.  After
    [updateSchedulerConfig], carried out by the store, [getSchedulerConfig]
    returns the flag and the expression as they were given, whether the
    expression is valid or not, and keeps returning them whatever runs,
    calls and cron ticks go by until the scheduler is configured again;
    when the store cannot be read it returns the default, disabled with
    ["0 9,21 * * *"], and so it does when nothing was ever stored. *)
Theorem scheduler_config_round_trip (validate : string -> bool)
  (enabled0 : bool) (cronExpr0 : string) (w : World) :
  let w' := effect (updateSchedulerConfig validate enabled0 cronExpr0
                      Resolves) w in
  getSchedulerConfig Resolves w'
  = {| enabled := enabled0; cronExpr := cronExpr0 |}
  /\ (forall s evs,
        world s = w' ->
        (forall ev, In ev evs -> reconfigures ev = false) ->
        getSchedulerConfig Resolves (world (run_events validate evs s))
        = {| enabled := enabled0; cronExpr := cronExpr0 |})
  /\ (forall e, getSchedulerConfig (Rejects e) w'
                = {| enabled := false; cronExpr := "0 9,21 * * *" |})
  /\ (forall d t scraperPath,
        schedulerConfig d = None ->
        getSchedulerConfig Resolves (fresh_world d t scraperPath)
        = {| enabled := false; cronExpr := "0 9,21 * * *" |}).
Proof.
  intros w'.
  assert (schedulerConfig (db w')
          = Some {| enabled := enabled0; cronExpr := cronExpr0 |}) as E.
  { subst w'. unfold effect, updateSchedulerConfig, schedulerConfig_upsert.
    unfold bind, modify. simpl.
    destruct (enabled0 && validate cronExpr0); simpl.
    - unfold startScheduler. simpl.
      destruct (scheduledTask (svc w)); destruct (negb _); reflexivity.
    - unfold stopScheduler. simpl. now destruct (scheduledTask (svc w)). }
  split; [|split; [|split]].
  - unfold getSchedulerConfig. now rewrite E.
  - intros s evs Hs Hevs. unfold getSchedulerConfig.
    now rewrite (run_events_keep_config validate evs s Hevs), Hs, E.
  - reflexivity.
  - intros d t scraperPath Hd. unfold getSchedulerConfig. simpl.
    now rewrite Hd.
Qed.

(** ** The timers *)

Lemma no_timer_expressions w : no_timer w <-> scheduled_expressions w = [].
Proof.
  unfold no_timer, scheduled_expressions.
  induction (cronTasks (host w)) as [|t ts IH]; simpl.
  - split; [reflexivity|constructor].
  - destruct (scheduled t) eqn:E; simpl.
    + split; [|discriminate]. intros H. inversion H. congruence.
    + rewrite <- IH. split.
      * intros H. now inversion H.
      * intros H. now constructor.
Qed.

(** The task the service holds is stopped; the service still holds it. *)
Lemma one_timer_stop w j :
  one_timer w -> scheduledTask (svc w) = Some j ->
  no_timer (on_host (stop_task j) w).
Proof.
  intros H1 Hj. apply no_timer_iff. intros i t. cbn [host on_host].
  rewrite nth_error_stop_task.
  destruct (Nat.eqb i j) eqn:E.
  - destruct (nth_error (cronTasks (host w)) j); simpl; [|discriminate].
    now intros [= <-].
  - intros Hi. destruct (scheduled t) eqn:Es; [|reflexivity].
    pose proof (H1 i t Hi Es) as Hk. rewrite Hj in Hk. injection Hk as <-.
    now rewrite Nat.eqb_refl in E.
Qed.

Lemma one_timer_none w :
  one_timer w -> scheduledTask (svc w) = None -> no_timer w.
Proof.
  intros H1 Hn. apply no_timer_iff. intros i t Hi.
  destruct (scheduled t) eqn:Es; [|reflexivity].
  pose proof (H1 i t Hi Es). congruence.
Qed.

Lemma scheduled_expressions_add w expr :
  no_timer w ->
  map expression (filter scheduled
    (cronTasks (host w) ++ [{| expression := expr; scheduled := true |}]))
  = [expr].
Proof.
  intros H. apply no_timer_expressions in H. unfold scheduled_expressions in H.
  now rewrite filter_app, map_app, H.
Qed.

Lemma startScheduler_expressions validate cronExpr0 w :
  one_timer w ->
  let w' := startScheduler validate cronExpr0 w in
  scheduled_expressions w'
  = (if validate cronExpr0 then [cronExpr0] else [])
  /\ List.length (cronTasks (host w'))
     = (List.length (cronTasks (host w))
        + if validate cronExpr0 then 1 else 0)%nat
  /\ db w' = db w
  /\ (validate cronExpr0 = true ->
      scheduledTask (svc w') = Some (List.length (cronTasks (host w))))
  /\ (validate cronExpr0 = false ->
      scheduledTask (svc w') = scheduledTask (svc w)).
Proof.
  intros H1 w'. subst w'. unfold startScheduler.
  assert (no_timer (match scheduledTask (svc w) with
                    | Some j => on_host (stop_task j) w
                    | None => w
                    end)) as Hn.
  { destruct (scheduledTask (svc w)) as [j|] eqn:Ej.
    - now apply one_timer_stop.
    - now apply one_timer_none. }
  assert (List.length (cronTasks (host
            (match scheduledTask (svc w) with
             | Some j => on_host (stop_task j) w
             | None => w
             end))) = List.length (cronTasks (host w))) as Hl.
  { destruct (scheduledTask (svc w)); [apply stop_task_length|reflexivity]. }
  assert (db (match scheduledTask (svc w) with
              | Some j => on_host (stop_task j) w
              | None => w
              end) = db w) as Hd
    by now destruct (scheduledTask (svc w)).
  assert (scheduledTask (svc (match scheduledTask (svc w) with
              | Some j => on_host (stop_task j) w
              | None => w
              end)) = scheduledTask (svc w)) as Hs
    by (destruct (scheduledTask (svc w)) eqn:Ej; [exact Ej|exact Ej]).
  remember (match scheduledTask (svc w) with
            | Some j => on_host (stop_task j) w
            | None => w
            end) as w1 eqn:Ew1. clear Ew1.
  destruct (validate cronExpr0); cbn [negb].
  - unfold scheduled_expressions. cbn [host on_host on_svc set_cronTasks
      cronTasks db svc set_scheduledTask scheduledTask].
    rewrite (scheduled_expressions_add _ _ Hn), length_app, Hl. simpl.
    split; [reflexivity|]. split; [reflexivity|]. split; [assumption|].
    split; [reflexivity|discriminate].
  - rewrite (proj1 (no_timer_expressions w1) Hn), Hl, Nat.add_0_r.
    split; [reflexivity|]. split; [reflexivity|]. split; [assumption|].
    split; [discriminate|now intros _].
Qed.

(** X15: the timers follow the configuration.  After
    [updateSchedulerConfig], carried out by the store, in a service that
    held at most its own timer, exactly one task of node-cron is scheduled,
    with the expression given, when the scheduler was enabled with a valid
    expression; none is scheduled otherwise, that is when it was disabled
    or the expression is not valid.  The timer installed before never stays
    beside the new one. *)
Theorem timers_follow_configuration (validate : string -> bool)
  (enabled0 : bool) (cronExpr0 : string) (w : World) :
  one_timer w ->
  let w' := effect (updateSchedulerConfig validate enabled0 cronExpr0
                      Resolves) w in
  scheduled_expressions w'
  = (if enabled0 && validate cronExpr0 then [cronExpr0] else [])
  /\ (enabled0 = true -> validate cronExpr0 = true ->
      exists j, scheduledTask (svc w') = Some j
                /\ nth_error (cronTasks (host w')) j
                   = Some {| expression := cronExpr0; scheduled := true |})
  /\ (enabled0 = false -> scheduledTask (svc w') = None)
  /\ one_timer w'.
Proof.
  intros H1 w'.
  assert (one_timer w') as H1'
    by now apply updateSchedulerConfig_one_timer.
  subst w'. unfold effect, updateSchedulerConfig, schedulerConfig_upsert,
    bind, modify in *. cbn [fst snd] in *.
  set (w0 := on_db (set_schedulerConfig
                      (Some {| enabled := enabled0; cronExpr := cronExpr0 |}))
               w) in *.
  assert (one_timer w0) as H0 by exact H1.
  destruct enabled0; cbn [andb] in *.
  - destruct (validate cronExpr0) eqn:Ev; cbn [snd] in *.
    + destruct (startScheduler_expressions validate cronExpr0 w0 H0)
        as (He & _ & _ & Hs & _).
      rewrite Ev in He. split; [exact He|]. split; [|split; [discriminate|]].
      * intros _ _. exists (List.length (cronTasks (host w0))).
        split; [now apply Hs|].
        unfold startScheduler. rewrite Ev. cbn [negb host on_host on_svc
          set_cronTasks cronTasks].
        rewrite nth_error_app2.
        -- destruct (scheduledTask (svc w0)); cbn [host on_host];
             rewrite ?stop_task_length, Nat.sub_diag; reflexivity.
        -- destruct (scheduledTask (svc w0)); cbn [host on_host];
             rewrite ?stop_task_length; lia.
      * exact H1'.
    + destruct (stopScheduler_no_timer w0 H0) as (Hs & Hn & _).
      split; [now apply no_timer_expressions|].
      split; [discriminate|]. split; [discriminate|exact H1'].
  - destruct (stopScheduler_no_timer w0 H0) as (Hs & Hn & _).
    split; [now apply no_timer_expressions|].
    split; [discriminate|]. split; [now intros _|exact H1'].
Qed.

(** The scheduler is moved from the default expression to another. *)
Lemma timers_follow_configuration_witness :
  let validate := fun s => negb (String.eqb s "never") in
  let w0 := fresh_world empty_db 0 "/srv/gpt" in
  let w := effect (updateSchedulerConfig validate true default_cronExpr
                     Resolves) w0 in
  let w' := effect (updateSchedulerConfig validate true "*/5 * * * *"
                      Resolves) w in
  scheduled_expressions w = ["0 9,21 * * *"]
  /\ scheduled_expressions w' = ["*/5 * * * *"].
Proof.
  intros validate w0 w w'. split; [reflexivity|].
  refine (proj1 (timers_follow_configuration validate true "*/5 * * * *" w _)).
  intros [|[|j]] t Hj Hs; simpl in Hj; try discriminate. reflexivity.
Defined.

(** X16: [startScheduler] with an expression that is not valid cancels the
    schedule there was.  The task the service held is stopped before the
    expression is checked, so that no task of node-cron is left scheduled;
    no task is created; and the stored configuration is not touched, so it
    may go on saying that the scheduler is enabled.  With a valid
    expression the task held before is replaced by one for that
    expression. *)
Theorem startScheduler_replaces_or_cancels (validate : string -> bool)
  (cronExpr0 : string) (w : World) :
  one_timer w ->
  let w' := startScheduler validate cronExpr0 w in
  (validate cronExpr0 = false ->
   scheduled_expressions w' = []
   /\ List.length (cronTasks (host w')) = List.length (cronTasks (host w))
   /\ (forall j, step validate (CronFires j) (initial_system w')
                 = initial_system w'))
  /\ (validate cronExpr0 = true -> scheduled_expressions w' = [cronExpr0])
  /\ db w' = db w.
Proof.
  intros H1 w'.
  destruct (startScheduler_expressions validate cronExpr0 w H1)
    as (He & Hl & Hd & _). fold w' in He, Hl, Hd.
  split; [|split; [|exact Hd]].
  - intros Hv. rewrite Hv in He, Hl. rewrite Nat.add_0_r in Hl.
    split; [exact He|]. split; [exact Hl|].
    intros j. cbn [step initial_system world].
    destruct (nth_error _ j) as [t|] eqn:E; [|reflexivity].
    apply no_timer_expressions in He. rewrite no_timer_iff in He.
    now rewrite (He j t E).
  - intros Hv. now rewrite Hv in He.
Qed.

(** A schedule is running; [startScheduler] is called with a text that is
    no cron expression. *)
Lemma startScheduler_replaces_or_cancels_witness :
  let validate := fun s => String.eqb s default_cronExpr in
  let w := startScheduler validate default_cronExpr
             (fresh_world empty_db 0 "/srv/gpt") in
  scheduled_expressions w = ["0 9,21 * * *"]
  /\ scheduled_expressions (startScheduler validate "at noon" w) = [].
Proof.
  intros validate w. split; [reflexivity|].
  refine (proj1 (proj1 (startScheduler_replaces_or_cancels validate "at noon"
                          w _) eq_refl)).
  intros [|[|j]] t Hj Hs; simpl in Hj; try discriminate. reflexivity.
Defined.

(** X17: [initScheduler] brings the stored schedule back after a restart.
    In a service that was just loaded, over a store whose configuration was
    set by [updateSchedulerConfig], [initScheduler] installs one timer with
    the stored expression when the scheduler was enabled and the expression
    is valid, and none otherwise.  Over a store without a configuration it
    creates the default one, disabled, and installs nothing; and when the
    store cannot be read or written it leaves everything as it is. *)
Theorem initScheduler_restores_schedule (validate : string -> bool)
  (enabled0 : bool) (cronExpr0 : string) (w : World) (t : Z)
  (scraperPath : string) (created : DbReply) :
  let stored := db (effect (updateSchedulerConfig validate enabled0 cronExpr0
                              Resolves) w) in
  let w' := initScheduler validate Resolves created
              (fresh_world stored t scraperPath) in
  scheduled_expressions w'
  = (if enabled0 && validate cronExpr0 then [cronExpr0] else [])
  /\ db w' = stored
  /\ (forall d,
        schedulerConfig d = None ->
        let w0 := fresh_world d t scraperPath in
        schedulerConfig (db (initScheduler validate Resolves Resolves w0))
        = Some {| enabled := false; cronExpr := "0 9,21 * * *" |}
        /\ scheduled_expressions (initScheduler validate Resolves Resolves w0)
           = []
        /\ (forall e, initScheduler validate Resolves (Rejects e) w0 = w0))
  /\ (forall e w0, initScheduler validate (Rejects e) created w0 = w0).
Proof.
  intros stored w'.
  assert (schedulerConfig stored
          = Some {| enabled := enabled0; cronExpr := cronExpr0 |}) as E.
  { subst stored. unfold effect, updateSchedulerConfig,
      schedulerConfig_upsert, bind, modify. simpl.
    destruct (enabled0 && validate cronExpr0); simpl.
    - unfold startScheduler. simpl.
      destruct (scheduledTask (svc w)); destruct (negb _); reflexivity.
    - unfold stopScheduler. simpl. now destruct (scheduledTask (svc w)). }
  split; [|split; [|split]].
  - subst w'. unfold initScheduler. cbn [db fresh_world]. rewrite E.
    cbn [enabled cronExpr].
    destruct (enabled0 && validate cronExpr0) eqn:Ev; [|reflexivity].
    apply andb_prop in Ev. destruct Ev as [_ Ev].
    destruct (startScheduler_expressions validate cronExpr0
                (fresh_world stored t scraperPath)
                (one_timer_fresh _ _ _)) as (He & _).
    now rewrite Ev in He.
  - subst w'. unfold initScheduler. cbn [db fresh_world]. rewrite E.
    cbn [enabled cronExpr].
    destruct (enabled0 && validate cronExpr0) eqn:Ev; [|reflexivity].
    now destruct (startScheduler_expressions validate cronExpr0
                    (fresh_world stored t scraperPath)
                    (one_timer_fresh _ _ _)) as (_ & _ & Hd & _).
  - intros d Hd w0. subst w0. unfold initScheduler. cbn [db fresh_world].
    rewrite Hd. now repeat split.
  - reflexivity.
Qed.

(** ** At most one timer *)

Lemma filter_none {A} (P : A -> bool) l :
  (forall i x, nth_error l i = Some x -> P x = false) -> filter P l = [].
Proof.
  induction l as [|a l IH]; intros H; simpl; [reflexivity|].
  rewrite (H 0%nat a eq_refl). apply IH.
  intros i x Hi. exact (H (S i) x Hi).
Qed.

Lemma one_timer_at_most_one w :
  one_timer w -> (List.length (scheduled_expressions w) <= 1)%nat.
Proof.
  unfold one_timer, scheduled_expressions. rewrite length_map.
  generalize (scheduledTask (svc w)) as held.
  induction (cronTasks (host w)) as [|t ts IH]; intros held H; simpl; [lia|].
  destruct (scheduled t) eqn:Et.
  - rewrite filter_none; [simpl; lia|].
    intros i x Hi. destruct (scheduled x) eqn:Ex; [|reflexivity].
    pose proof (H 0%nat t eq_refl Et) as H0.
    pose proof (H (S i) x Hi Ex). congruence.
  - apply (IH (match held with Some (S j) => Some j | _ => None end)).
    intros j x Hj Hx. now rewrite (H (S j) x Hj Hx).
Qed.

(** X18: the service never has two timers.  From the load of the module
    on, through [initScheduler] and any sequence of calls, runs, cron ticks
    and configurations, at most one task of node-cron is scheduled at any
    time, and it is the one the service holds. *)
Theorem never_two_timers (validate : string -> bool) (found created : DbReply)
  (evs : list Event) (d : Prisma) (t : Z) (scraperPath : string) :
  let w := world (run_events validate evs
             (initial_system
                (initScheduler validate found created
                   (fresh_world d t scraperPath)))) in
  (List.length (scheduled_expressions w) <= 1)%nat
  /\ forall j task,
       nth_error (cronTasks (host w)) j = Some task ->
       scheduled task = true -> scheduledTask (svc w) = Some j.
Proof.
  intros w.
  assert (one_timer w) as H.
  { subst w. apply one_timer_run_events. cbn [initial_system world].
    apply initScheduler_one_timer, one_timer_fresh. }
  split; [now apply one_timer_at_most_one|exact H].
Qed.

(** ** The cron tick *)

(** X19: a tick of the installed timer starts a run as [startScraper] does
    for the trigger [SCHEDULED].  While a pipeline is running the tick
    changes nothing: no run is created and none is queued.  In an idle
    service the tick requests the creation of a run, and once the store has
    created it the row is the last of the store, [RUNNING], with the
    trigger [SCHEDULED], and the pipeline of the run is under way. *)
Theorem cron_tick_starts_scheduled_run (validate : string -> bool) (j : nat)
  (task : CronTask) (s : System) :
  nth_error (cronTasks (host (world s))) j = Some task ->
  scheduled task = true ->
  step validate (CronFires j) s = step validate (StartRequest SCHEDULED) s
  /\ (isRunning (world s) = true -> step validate (CronFires j) s = s)
  /\ (isRunning (world s) = false -> starting s = [] ->
      let s1 := step validate (CronFires j) s in
      let s2 := step validate (CreateSettles 0 Resolves) s1 in
      world s1 = world s
      /\ starting s1 = [SCHEDULED]
      /\ scraperRun (db (world s2))
         = scraperRun (db (world s)) ++ [new_run SCHEDULED (world s)]
      /\ starting s2 = []
      /\ List.length (pipelines s2) = S (List.length (pipelines s))
      /\ isRunning (world s2) = true
      /\ getCurrentRunId (world s2) = Some (nextId (db (world s)))).
Proof.
  intros Hj Hs. cbn [step]. rewrite Hj, Hs.
  split; [reflexivity|]. split.
  - intros Hr. unfold start_request, startScraper_enter. now rewrite Hr.
  - intros Hr Hst. unfold start_request, startScraper_enter. rewrite Hr, Hst.
    cbn [starting world app nth_error pipelines].
    destruct (startScraper_begins_run_parts SCHEDULED (world s))
      as (Hrows & Hrun & Hstep).
    rewrite startScraper_resume_eq in *. cbv zeta in *.
    cbn [fst snd world starting pipelines remove_nth] in *.
    split; [reflexivity|]. split; [reflexivity|]. split; [exact Hrows|].
    split; [reflexivity|]. split; [rewrite length_app; simpl; lia|].
    split; [|exact Hrun].
    rewrite isRunning_step. unfold getCurrentStep in Hstep. now rewrite Hstep.
Qed.

(** The default schedule is installed and its timer fires in the idle
    service. *)
Lemma cron_tick_starts_scheduled_run_witness :
  let validate := fun s => String.eqb s default_cronExpr in
  let w := startScheduler validate default_cronExpr
             (fresh_world empty_db 7 "/srv/gpt") in
  let s := initial_system w in
  let s2 := step validate (CreateSettles 0 Resolves)
              (step validate (CronFires 0) s) in
  map (fun r => (id r, status r, triggerType r)) (scraperRun (db (world s2)))
  = [(1, Status.RUNNING, SCHEDULED)]
  /\ isRunning (world s2) = true.
Proof.
  intros validate w s s2.
  destruct (cron_tick_starts_scheduled_run validate 0
              {| expression := default_cronExpr; scheduled := true |} s)
    as (_ & _ & H).
  - reflexivity.
  - reflexivity.
  - destruct H as (_ & _ & H3 & _ & _ & H6 & _); [reflexivity..|].
    split; [|exact H6]. fold s2 in H3. now rewrite H3.
Defined.

(** ** The step, the stored status and the stage *)

(** X20, for a service whose starts do not overlap: the step, the
    current run and the stored status follow the stage.  After any sequence
    of events, an execution that awaits the command of a stage finds the
    service running, the step that of the stage ([SCRAPING], [ENRICHING],
    [PROCESSING]), its run the current run, and the store holding the
    status of the stage for the run ([RUNNING], [ENRICHING],
    [PROCESSING]).  While it awaits the update ahead of a stage the step is
    already that of the stage and the store still holds the status of the
    stage before.  While it awaits the update of [finally] the service is
    still running, with its run as the current run. *)
Theorem step_and_status_follow_stage (validate : string -> bool) (d : Prisma)
  (t0 : Z) (scraperPath : string) (evs : list Event) :
  settled_store d ->
  serialized validate evs (initial_system (fresh_world d t0 scraperPath)) ->
  let s := run_events validate evs
             (initial_system (fresh_world d t0 scraperPath)) in
  forall k task,
    nth_error (pipelines s) k = Some task ->
    let stored :=
      option_map status (find_run (task_runId task) (db (world s))) in
    match task_at task with
    | AwaitCommand st _ =>
        getCurrentStep (world s) = stage_step st
        /\ isRunning (world s) = true
        /\ getCurrentRunId (world s) = Some (task_runId task)
        /\ stored = Some (stage_status st)
    | AwaitStatusUpdate st =>
        getCurrentStep (world s) = stage_step st
        /\ isRunning (world s) = true
        /\ getCurrentRunId (world s) = Some (task_runId task)
        /\ stored = Some (stage_status (stage_before st))
    | AwaitFinalUpdate _ =>
        isRunning (world s) = true
        /\ getCurrentRunId (world s) = Some (task_runId task)
        /\ exists r, find_run (task_runId task) (db (world s)) = Some r
    | Stalled | Settled _ => True
    end.
Proof.
  intros Hd Hser s k task Hk stored.
  destruct (reached_invariants validate d t0 scraperPath evs Hd Hser) as [H Hs].
  fold s in H, Hs.
  pose proof (Hs k task Hk) as Hin. unfold in_stage in Hin.
  cbn [fst snd] in Hin. fold stored in Hin.
  assert (live (task_at task) = true ->
          isRunning (world s) = true
          /\ getCurrentRunId (world s) = Some (task_runId task)) as Hlive.
  { intros Hl. split.
    - now destruct (live_running s k task H Hk Hl).
    - now destruct (sf_live s H k task Hk Hl). }
  destruct (task_at task) as [st co|st|fd| |c]; try exact I.
  - destruct Hin as [A B]. destruct (Hlive eq_refl) as [C D]. now repeat split.
  - destruct Hin as (_ & A & B). destruct (Hlive eq_refl) as [C D].
    now repeat split.
  - destruct (Hlive eq_refl) as [C D]. split; [assumption|].
    split; [assumption|]. now apply has_run_find.
Qed.

(** A run comes to its second stage, the scheduler being configured
    meanwhile, and the enrichment writes a line. *)
Lemma step_and_status_follow_stage_witness :
  let validate := fun _ : string => true in
  let evs := [StartRequest MANUAL; CreateSettles 0 Resolves;
              Configure true "0 * * * *" Resolves;
              ChildEnds 0 (Close (Some 0)); UpdateSettles 0 Resolves;
              ChildEmits 0 (Stdout "Enriching")] in
  let s := run_events validate evs
             (initial_system (fresh_world empty_db 5 "/srv/gpt")) in
  getCurrentStep (world s) = Step.ENRICHING
  /\ option_map status (find_run 1 (db (world s))) = Some Status.ENRICHING.
Proof.
  intros validate evs s.
  assert (settled_store empty_db) as Hd.
  { split; [constructor|intros r []]. }
  assert (serialized validate evs
            (initial_system (fresh_world empty_db 5 "/srv/gpt"))) as Hser.
  { simpl. repeat split. }
  pose proof (step_and_status_follow_stage validate empty_db 5 "/srv/gpt" evs
                Hd Hser 0%nat
                {| task_runId := 1; task_scraperPath := "/srv/gpt";
                   task_at := AwaitCommand Enrich ["Enriching"]%string |}
                eq_refl) as H.
  cbn [task_at task_runId] in H. destruct H as (A & _ & _ & B).
  split; assumption.
Defined.

(** ** One run at a time *)

Lemma at_most_one_live s :
  (forall k t, nth_error (pipelines s) k = Some t ->
     live (task_at t) = true ->
     forall k' t', nth_error (pipelines s) k' = Some t' ->
                   live (task_at t') = true -> k' = k) ->
  (List.length (live_pipelines s) <= 1)%nat.
Proof.
  unfold live_pipelines. induction (pipelines s) as [|t ts IH]; intros H;
    simpl; [lia|].
  destruct (live (task_at t)) eqn:Et.
  - rewrite filter_none; [simpl; lia|].
    intros i x Hi. destruct (live (task_at x)) eqn:Ex; [|reflexivity].
    pose proof (H 0%nat t eq_refl Et (S i) x Hi Ex). discriminate.
  - apply IH. intros k t0 Hk Ht0 k' t' Hk' Ht'.
    pose proof (H (S k) t0 Hk Ht0 (S k') t' Hk' Ht'). congruence.
Qed.

(** X21: one run at a time, as long as starts do not overlap.  From a
    store without a run under way, after any sequence of events in which
    no start is requested while another start awaits the creation of its
    run, at most one run of the store is in a non-terminal status and at
    most one pipeline is under way; a run in a non-terminal status is the
    current run of the service, and so is the run of the pipeline under
    way; and a service whose step is [IDLE] has no current run and no
    pipeline under way. *)
Theorem one_run_at_a_time_when_starts_do_not_overlap
  (validate : string -> bool) (d : Prisma) (t : Z) (scraperPath : string)
  (evs : list Event) :
  NoDup (map id (scraperRun d)) ->
  (forall r, In r (scraperRun d) ->
     id r < nextId d /\ Status.non_terminal (status r) = false) ->
  serialized validate evs (initial_system (fresh_world d t scraperPath)) ->
  let s := run_events validate evs
             (initial_system (fresh_world d t scraperPath)) in
  (List.length (non_terminal_runs (world s)) <= 1)%nat
  /\ (List.length (live_pipelines s) <= 1)%nat
  /\ (forall r, In r (non_terminal_runs (world s)) ->
        getCurrentRunId (world s) = Some (id r))
  /\ (forall task, In task (live_pipelines s) ->
        getCurrentRunId (world s) = Some (task_runId task))
  /\ (isRunning (world s) = false ->
      getCurrentRunId (world s) = None /\ live_pipelines s = []).
Proof.
  intros Hnd Hrows Hser s.
  assert (single_flight s) as H.
  { apply single_flight_run_events; [|assumption].
    now apply single_flight_initial. }
  split; [now apply single_flight_at_most_one|]. split.
  { apply at_most_one_live. intros k t0 Hk Ht0 k' t' Hk' Ht'.
    now destruct (sf_live s H k t0 Hk Ht0) as (_ & _ & Hu); apply Hu with t'. }
  split.
  { intros r Hr. apply filter_In in Hr. destruct Hr as [Hr Hnt].
    now apply (sf_rows s H). }
  split.
  { intros task Hin. apply filter_In in Hin. destruct Hin as [Hin Hl].
    apply In_nth_error in Hin. destruct Hin as [k Hk].
    now destruct (sf_live s H k task Hk Hl). }
  intros Hidle. destruct (sf_idle s H Hidle) as [Hn Hall].
  split; [exact Hn|]. unfold live_pipelines. apply filter_none.
  exact Hall.
Qed.

(** A manual run is started and comes to its second stage; a cron tick
    and a second manual start arrive meanwhile. *)
Lemma one_run_at_a_time_when_starts_do_not_overlap_witness :
  let validate := fun s => String.eqb s default_cronExpr in
  let evs := [Configure true default_cronExpr Resolves;
              StartRequest MANUAL; CreateSettles 0 Resolves;
              CronFires 0; ChildEmits 0 (Stdout "Found 3 seller(s)");
              StartRequest MANUAL; ChildEnds 0 (Close (Some 0));
              UpdateSettles 0 Resolves] in
  let s := run_events validate evs
             (initial_system (fresh_world empty_db 0 "/srv/gpt")) in
  map (fun r => (id r, status r)) (scraperRun (db (world s)))
  = [(1, Status.ENRICHING)]
  /\ (List.length (non_terminal_runs (world s)) <= 1)%nat.
Proof.
  intros validate evs s. split; [reflexivity|].
  refine (proj1 (one_run_at_a_time_when_starts_do_not_overlap validate
                   empty_db 0 "/srv/gpt" evs _ _ _)).
  - constructor.
  - intros r [].
  - simpl. repeat split.
Defined.

(** ** What the subscribers of a successful run are sent *)

Ltac flatten_app :=
  repeat first [rewrite <- app_assoc | rewrite app_nil_r | progress cbn [app]];
  reflexivity.

Lemma call_published c w :
  c <> CallStop -> published (host (call c w)) = published (host w).
Proof. destruct c; [contradiction|reflexivity..]. Qed.

Lemma calls_published cs w :
  ~ In CallStop cs -> published (host (calls cs w)) = published (host w).
Proof.
  revert w. induction cs as [|c cs IH]; intros w H; simpl; [reflexivity|].
  rewrite IH by (intros Hin; apply H; now right).
  apply call_published. intros ->. apply H. now left.
Qed.

Lemma child_events_published evs co w :
  ~ In (Meanwhile CallStop) evs ->
  map kind_and_text (published (host (snd (child_events evs (co, w)))))
  = map kind_and_text (published (host w)) ++ flat_map live_text evs.
Proof.
  revert co w. induction evs as [|ev evs IH]; intros co w H.
  - simpl. now rewrite app_nil_r.
  - rewrite child_events_cons.
    assert (map kind_and_text
              (published (host (snd (child_event ev (co, w)))))
            = map kind_and_text (published (host w)) ++ live_text ev) as E.
    { destruct ev as [text|text|c]; cbn [child_event snd live_text].
      - rewrite onStdout_eq. cbn. now rewrite map_app.
      - rewrite onStderr_eq. cbn. now rewrite map_app.
      - rewrite call_published, app_nil_r; [reflexivity|].
        intros ->. apply H. now left. }
    destruct (child_event ev (co, w)) as [co1 w1]. cbn [snd] in E.
    rewrite IH by (intros Hin; apply H; now right).
    rewrite E. cbn [flat_map]. now rewrite app_assoc.
Qed.

Section Stream.

Variables (runId0 : Z) (scraperPath : string) (sc : Script).
Variables (before : list ScraperOutput) (known : list OutputCallback).
Variable buffer0 : list string.
Variable seen0 : list (Kind.t * string).

Hypothesis script_known : incl (script_callbacks sc) known.
Hypothesis known_quiet : never_throws known.
Hypothesis succeeded : all_succeeded sc.
Hypothesis final_resolves : snd (final_update sc) = Resolves.
Hypothesis unasked : stop_free sc.

Lemma stop_free_no_abort_request : no_abort_request sc.
Proof.
  destruct unasked as (H1 & H2 & _). split; [apply (H1 Scrape)|].
  split; [apply (H2 Enrich)|apply (H1 Enrich)].
Qed.

Lemma move_on_streamed st w :
  st <> Scrape ->
  incl (listeners (svc w)) known ->
  map kind_and_text (published (host w))
  = seen0 ++ stream_through runId0 sc
               (firstn (pred (stage_number st)) [Scrape; Enrich; Process]) ->
  streamed runId0 seen0 sc (try_segment (
    modify (on_svc (set_pipelineStep (stage_step st))) ;;
    broadcast_now Kind.status (stage_banner st) ;;
    ret (Suspend (AwaitStatusUpdate st))) w).
Proof.
  intros Hst Hi Hp. rewrite move_on_eq. cbv zeta.
  rewrite (never_throws_quiet known _ _ known_quiet Hi).
  unfold streamed, stream_upto. cbn [fst snd host on_host published
    record_broadcast set_delivered set_published on_svc].
  rewrite map_app, Hp, <- app_assoc. cbn [map kind_and_text type data].
  now destruct st.
Qed.

Lemma feed_command_streamed st co w :
  under_way runId0 before known w ->
  going_well runId0 buffer0 sc (AwaitCommand st co, w) ->
  streamed runId0 seen0 sc (AwaitCommand st co, w) ->
  streamed runId0 seen0 sc (feed_command st co (trace_of sc st) w).
Proof.
  intros (_ & _ & Hi) (Hb & Hco & Ha) Hs. cbn [fst snd] in *.
  unfold streamed in Hs. cbn [fst snd] in Hs.
  destruct succeeded as [[S1 S1'] U2 S2 U3 S3].
  destruct unasked as (N1 & N2 & N3).
  assert (ending (trace_of sc st) = Close (Some 0)) as Hend
    by (destruct st; assumption).
  rewrite (feed_command_close _ _ _ _ _ Hend).
  pose proof (child_events_published (events (trace_of sc st)) co w (N1 st))
    as Hpub.
  pose proof (child_events_listeners (events (trace_of sc st)) co w known Hi
                (trace_known sc known script_known st)) as Hi1.
  pose proof (child_events_abort (events (trace_of sc st)) co w (N1 st))
    as Hab.
  remember (snd (child_events (events (trace_of sc st)) (co, w))) as w1
    eqn:Ew1.
  rewrite Hs in Hpub.
  destruct st.
  - rewrite after_scrape_eq. cbn [Result.code Result.output].
    rewrite (Hco eq_refl), app_nil_l.
    fold (chunks sc Scrape). rewrite S1'. simpl negb. cbv iota.
    rewrite Hab, Ha by discriminate.
    apply move_on_streamed; try assumption; try discriminate.
    rewrite Hpub. unfold stream_upto. simpl.
    flatten_app.
  - rewrite after_enrich_eq. cbn [Result.code Result.output].
    simpl negb. cbv iota. rewrite Hab, Ha by discriminate.
    apply move_on_streamed; try assumption; try discriminate.
    rewrite Hpub. unfold stream_upto. simpl.
    flatten_app.
  - rewrite after_process_eq. cbn [Result.code Result.output].
    simpl negb. cbv iota. unfold streamed. cbn [fst snd finally_enter].
    rewrite Hpub. unfold stream_upto. simpl.
    flatten_app.
Qed.

Lemma advance_streamed p :
  on_course runId0 before known p ->
  going_well runId0 buffer0 sc p ->
  streamed runId0 seen0 sc p ->
  streamed runId0 seen0 sc (advance runId0 scraperPath sc p).
Proof.
  destruct p as [a w]. destruct a; cbn [advance];
    try (intros _ _ H; exact H).
  - apply feed_command_streamed.
  - intros (Hrun & _ & Hi) (Hst & _) Hs. cbn [fst snd] in *.
    unfold streamed in Hs. cbn [fst snd] in Hs.
    destruct succeeded as [[S1 S1'] U2 S2 U3 S3].
    destruct unasked as (N1 & N2 & N3).
    pose proof (calls_calm (fst (update_of sc st)) w) as Hc.
    pose proof (calls_published (fst (update_of sc st)) w (N2 st)) as Hpub.
    remember (calls (fst (update_of sc st)) w) as w1 eqn:Ew1. clear Ew1.
    rewrite after_status_update_eq, scraperRun_update_eq.
    assert (snd (update_of sc st) = Resolves) as ->
      by (destruct st; [contradiction|assumption|assumption]).
    rewrite (calm_db _ _ Hc), Hrun.
    unfold streamed. cbn [fst snd host on_host on_db published set_spawned].
    now rewrite Hpub.
  - intros (Hu & _) (Hfs & _) Hs. cbn [fst snd] in *.
    unfold streamed in Hs. cbn [fst snd] in Hs.
    destruct Hu as (Hrun & _ & Hi).
    destruct unasked as (N1 & N2 & N3).
    pose proof (calls_calm (fst (final_update sc)) w) as Hc.
    pose proof (calls_published (fst (final_update sc)) w N3) as Hpub.
    pose proof (calls_listeners (fst (final_update sc)) w known Hi
                  (final_known sc known script_known)) as Hi1.
    remember (calls (fst (final_update sc)) w) as w1 eqn:Ew1. clear Ew1.
    rewrite <- (calm_db _ _ Hc) in Hrun.
    unfold after_final_update. rewrite final_resolves.
    rewrite finally_rest_eq, scraperRun_update_eq, Hrun. cbv zeta.
    rewrite !(never_throws_quiet known _ _ known_quiet Hi1).
    unfold streamed. cbn [fst snd host on_host on_db on_svc published
      record_broadcast set_delivered set_published].
    rewrite !map_app, Hpub, Hs, <- !app_assoc.
    cbn [map kind_and_text type data closing app].
    now rewrite Hfs.
Qed.

Lemma iter_streamed n p :
  on_course runId0 before known p ->
  going_well runId0 buffer0 sc p ->
  streamed runId0 seen0 sc p ->
  streamed runId0 seen0 sc (Nat.iter n (advance runId0 scraperPath sc) p).
Proof.
  intros Ho Hg Hs. induction n as [|n IH]; simpl; [assumption|].
  apply advance_streamed; [| |assumption].
  - apply iter_on_course; try assumption.
    intros cb Hcb o _. now apply known_quiet.
  - apply (iter_going_well runId0 scraperPath sc before known buffer0);
      try assumption.
    apply stop_free_no_abort_request.
Qed.

End Stream.



(** ** What [finally] is entered with *)

Lemma parseInt_from_nonneg s acc : 0 <= acc -> 0 <= Text.parseInt_from acc s.
Proof.
  revert acc. induction s as [|c s IH]; intros acc H;
    cbn [Text.parseInt_from]; [assumption|].
  destruct (Text.is_digit c) eqn:E; [|assumption].
  apply IH. unfold Text.digit_value. unfold Text.is_digit in E.
  apply andb_prop in E. destruct E as [E _]. apply Nat.leb_le in E. lia.
Qed.

Lemma finally_enter_finishing fs em w :
  Status.non_terminal fs = false ->
  (fs = Status.COMPLETED <-> em = None) ->
  finishing (finally_enter fs em w).
Proof.
  intros H1 H2. unfold finishing, finally_enter, sound_final, final_data.
  cbn [fst snd fd_status fd_errorMessage fd_output fd_completedAt
       fd_sellersProcessed fd_productsScraped].
  repeat split; try assumption; try apply H2.
  - destruct (Text.sellers_regex _); [|lia]. now apply parseInt_from_nonneg.
  - destruct (Text.products_regex _); [|lia]. now apply parseInt_from_nonneg.
Qed.

Lemma failed_finishing e w :
  finishing (finally_enter Status.FAILED (Some e) w).
Proof. apply finally_enter_finishing; [reflexivity|]. now split. Qed.

Lemma move_on_finishing st w :
  finishing (try_segment (
    modify (on_svc (set_pipelineStep (stage_step st))) ;;
    broadcast_now Kind.status (stage_banner st) ;;
    ret (Suspend (AwaitStatusUpdate st))) w).
Proof.
  rewrite move_on_eq. cbv zeta.
  destruct (first_throw _ _); [apply failed_finishing|exact I].
Qed.

Lemma after_command_finishing st r w : finishing (after_command st r w).
Proof.
  destruct st.
  - rewrite after_scrape_eq.
    destruct (auth_required _);
      [apply finally_enter_finishing; [reflexivity|now split]|].
    destruct (negb _); [apply failed_finishing|].
    destruct (abortRequested _); [apply failed_finishing|].
    apply move_on_finishing.
  - rewrite after_enrich_eq.
    destruct (negb _);
      [apply finally_enter_finishing; [reflexivity|now split]|].
    destruct (abortRequested _); [apply failed_finishing|].
    apply move_on_finishing.
  - rewrite after_process_eq.
    destruct (negb _); apply finally_enter_finishing; try reflexivity;
      now split.
Qed.

Lemma advance_finishing runId0 scraperPath sc p :
  finishing (advance runId0 scraperPath sc p).
Proof.
  destruct p as [a w]. destruct a; cbn [advance]; try exact I.
  - unfold feed_command. destruct (child_events _ _) as [co' w1].
    destruct (child_end _ _ _) as [[r|] w2]; [|exact I].
    apply after_command_finishing.
  - rewrite after_status_update_eq.
    destruct (scraperRun_update _ _ _ _) as [[u|e] w1];
      [exact I|apply failed_finishing].
  - unfold after_final_update. now destruct (finally_rest _ _ _ _).
Qed.

Lemma pipeline_enter_finishing runId0 scraperPath w :
  finishing (pipeline_enter runId0 scraperPath w).
Proof.
  rewrite pipeline_enter_eq. cbv zeta.
  destruct (first_throw _ _); [apply failed_finishing|exact I].
Qed.

(** X23: whatever brings a run to [finally], the data it is about to
    store are those of a finished run.  However an execution of
    [runFullPipeline] leaves the [try] block (a stage that failed, a
    request for authentication, an abort, an exception of the store or of a
    subscriber, or the end of stage 3), the status it enters [finally]
    with is never [RUNNING], [ENRICHING] or [PROCESSING]; the error message
    is absent exactly for [COMPLETED]; the output is the joined buffer of
    that moment and the time of completion the time of that moment; and
    the two counters are not negative. *)
Theorem finally_entered_with_final_data (runId0 : Z) (scraperPath : string)
  (sc : Script) (w : World) (k : nat) (fd : FinalData) (w1 : World) :
  Nat.iter k (advance runId0 scraperPath sc)
    (pipeline_enter runId0 scraperPath w)
  = (AwaitFinalUpdate fd, w1) ->
  Status.non_terminal (fd_status fd) = false
  /\ (fd_status fd = Status.COMPLETED <-> fd_errorMessage fd = None)
  /\ fd_output fd = Text.join (outputBuffer (svc w1))
  /\ fd_completedAt fd = clock (host w1)
  /\ 0 <= fd_sellersProcessed fd
  /\ 0 <= fd_productsScraped fd.
Proof.
  intros Hk.
  assert (finishing (AwaitFinalUpdate fd, w1)) as H.
  { rewrite <- Hk. destruct k as [|k]; simpl.
    - apply pipeline_enter_finishing.
    - apply advance_finishing. }
  unfold finishing, sound_final in H. cbn [fst snd] in H. tauto.
Qed.

(** A run whose scraper exits with 3. *)
Lemma finally_entered_with_final_data_witness :
  let w := fresh_world empty_db 5 "/srv/gpt" in
  let fail := {| events := [Stdout "Found 4 seller(s)"];
                 ending := Close (Some 3) |} in
  let sc := {| scrape_trace := fail;
               enrich_update := ([], Resolves); enrich_trace := fail;
               process_update := ([], Resolves); process_trace := fail;
               final_update := ([], Resolves) |} in
  exists fd w1,
    Nat.iter 1 (advance 1 "/srv/gpt" sc) (pipeline_enter 1 "/srv/gpt" w)
    = (AwaitFinalUpdate fd, w1)
    /\ fd_status fd = Status.FAILED
    /\ Status.non_terminal (fd_status fd) = false
    /\ 0 <= fd_sellersProcessed fd.
Proof.
  intros w fail sc. eexists. eexists. split; [reflexivity|].
  split; [reflexivity|].
  match goal with
  | |- Status.non_terminal (fd_status ?fd) = false /\ _ =>
      destruct (finally_entered_with_final_data 1 "/srv/gpt" sc w 1 fd _
                  eq_refl) as (H1 & _ & _ & _ & H5 & _)
  end.
  now split.
Defined.

(** ** A stop does not interrupt *)

(** X24: [stopScraper] interrupts nothing.  Called while a pipeline runs,
    it publishes the warning as a ['status'] event and sets the abort flag;
    the store, the step, the current run, the buffer and the processes
    spawned are as before.  The stage under way goes on: what the child
    writes afterwards is stored and streamed as ever, the step stays, and
    the flag stays set through whatever calls and chunks follow, until the
    pipeline looks at it. *)
Theorem stop_request_interrupts_nothing (w : World)
  (commandOutput : list string) (evs : list ChildEvent) :
  isRunning w = true ->
  let w1 := effect stopScraper w in
  let st2 := child_events evs (commandOutput, w1) in
  published (host w1) = published (host w) ++ [abort_warning_event w]
  /\ abortRequested (svc w1) = true
  /\ db w1 = db w
  /\ spawned (host w1) = spawned (host w)
  /\ getCurrentStep w1 = getCurrentStep w
  /\ getCurrentRunId w1 = getCurrentRunId w
  /\ outputBuffer (svc w1) = outputBuffer (svc w)
  /\ abortRequested (svc (snd st2)) = true
  /\ getCurrentStep (snd st2) = getCurrentStep w
  /\ spawned (host (snd st2)) = spawned (host w)
  /\ fst st2 = commandOutput ++ flat_map stored_text evs
  /\ outputBuffer (svc (snd st2))
     = outputBuffer (svc w) ++ flat_map stored_text evs.
Proof.
  intros Hrun w1 st2.
  pose proof (stopScraper_calm w) as Hc. fold w1 in Hc.
  assert (published (host w1) = published (host w) ++ [abort_warning_event w]
          /\ abortRequested (svc w1) = true
          /\ outputBuffer (svc w1) = outputBuffer (svc w)) as (H1 & H2 & H3).
  { subst w1. unfold effect. rewrite stopScraper_eq, Hrun. cbv zeta.
    now repeat split. }
  pose proof (child_events_calm evs commandOutput w1) as Hc2.
  destruct (child_events_text evs commandOutput w1) as (Hco & Hbuf & _).
  fold st2 in Hc2, Hco, Hbuf.
  unfold getCurrentStep, getCurrentRunId.
  split; [exact H1|]. split; [exact H2|].
  split; [apply (calm_db _ _ Hc)|]. split; [apply (calm_spawned _ _ Hc)|].
  split; [apply (calm_step _ _ Hc)|]. split; [apply (calm_run _ _ Hc)|].
  split; [exact H3|]. split; [now apply (calm_abort _ _ Hc2)|].
  split; [now rewrite (calm_step _ _ Hc2), (calm_step _ _ Hc)|].
  split; [now rewrite (calm_spawned _ _ Hc2), (calm_spawned _ _ Hc)|].
  split; [exact Hco|]. now rewrite Hbuf, H3.
Qed.

(** The scraper writes two more lines after the stop. *)
Lemma stop_request_interrupts_nothing_witness :
  let w := snd (pipeline_enter 1 "/srv/gpt"
                  (fresh_world empty_db 5 "/srv/gpt")) in
  let st2 := child_events [Stdout "Found 3 seller(s)"; Stderr "slow"]
               (["Opening WhatsApp"], effect stopScraper w) in
  abortRequested (svc (snd st2)) = true
  /\ fst st2 = ["Opening WhatsApp"; "Found 3 seller(s)"; "[ERROR] slow"].
Proof.
  intros w st2.
  destruct (stop_request_interrupts_nothing w ["Opening WhatsApp"]
              [Stdout "Found 3 seller(s)"; Stderr "slow"])
    as (_ & _ & _ & _ & _ & _ & _ & H8 & _ & _ & H11 & _).
  - reflexivity.
  - now split.
Defined.

(** ** A run that is cut short *)

Lemma steady_running w w' :
  steady w w' -> isRunning w = true -> isRunning w' = true.
Proof. intros (_ & _ & _ & H). exact H. Qed.

Lemma advance_busy runId0 scraperPath sc p :
  busy p -> busy (advance runId0 scraperPath sc p).
Proof.
  destruct p as [a w]. unfold busy. destruct a; cbn [advance fst snd];
    try (intros H; exact H).
  - intros H.
    destruct (feed_command_steady st commandOutput (trace_of sc st) w)
      as [Hs _].
    pose proof (steady_running _ _ Hs H) as H'.
    destruct (feed_command _ _ _ _) as [a' w']. cbn [fst snd] in *.
    destruct a' as [| | | |[u|e]]; trivial.
  - intros H.
    pose proof (calm_step _ _ (calls_calm (fst (update_of sc st)) w)) as Hc.
    assert (isRunning (calls (fst (update_of sc st)) w) = true) as H1
      by (rewrite isRunning_step in *; now rewrite Hc).
    remember (calls (fst (update_of sc st)) w) as w1 eqn:Ew1. clear Ew1.
    rewrite after_status_update_eq, scraperRun_update_eq.
    destruct (snd (update_of sc st)); [|exact H1].
    destruct (has_run _ _); exact H1.
  - intros H.
    pose proof (calm_step _ _ (calls_calm (fst (final_update sc)) w)) as Hc.
    assert (isRunning (calls (fst (final_update sc)) w) = true) as H1
      by (rewrite isRunning_step in *; now rewrite Hc).
    remember (calls (fst (final_update sc)) w) as w1 eqn:Ew1. clear Ew1.
    unfold after_final_update.
    pose proof (finally_rest_eq runId0 fd (snd (final_update sc)) w1) as E.
    destruct (finally_rest _ _ _ _) as [[u|e] w']; [exact I|].
    cbn [fst snd]. rewrite scraperRun_update_eq in E.
    destruct (snd (final_update sc)).
    + destruct (has_run _ _).
      * cbv zeta in E. destruct (first_throw _ _).
        -- injection E as _ ->. exact H1.
        -- destruct (first_throw _ _); [|discriminate].
           injection E as _ ->. exact H1.
      * injection E as _ ->. exact H1.
    + injection E as _ ->. exact H1.
Qed.

Lemma pipeline_enter_busy runId0 scraperPath w :
  busy (pipeline_enter runId0 scraperPath w).
Proof.
  destruct (pipeline_enter_running runId0 scraperPath w)
    as (_ & _ & _ & H & Hl & _).
  unfold busy. destruct (fst (pipeline_enter _ _ _)) as [| | | |[u|e]];
    trivial.
Qed.

Lemma not_live_dropped s k t :
  live_pipelines s = [] -> nth_error (pipelines s) k = Some t ->
  live (task_at t) = false.
Proof.
  unfold live_pipelines. intros H Hk.
  destruct (live (task_at t)) eqn:E; [|reflexivity].
  assert (In t (filter (fun t => live (task_at t)) (pipelines s))) as Hin.
  { apply filter_In. split; [|assumption]. now apply nth_error_In with k. }
  rewrite H in Hin. contradiction.
Qed.

Lemma wedged_step validate ev s :
  wedged s ->
  wedged (step validate ev s)
  /\ scraperRun (db (world (step validate ev s))) = scraperRun (db (world s)).
Proof.
  intros (Hr & Hs & Hl).
  assert (forall trig, start_request trig s = s) as Hstart.
  { intros trig. unfold start_request, startScraper_enter. now rewrite Hr. }
  assert (forall k t, nth_error (pipelines s) k = Some t ->
            match task_at t with
            | Stalled | Settled _ => True
            | _ => False
            end) as Hdead.
  { intros k t Hk. pose proof (not_live_dropped s k t Hl Hk) as H.
    now destruct (task_at t). }
  destruct ev; cbn [step].
  - rewrite Hstart. now repeat split.
  - rewrite Hs. destruct k; now repeat split.
  - destruct (nth_error (pipelines s) k) as [t|] eqn:Hk; [|now repeat split].
    pose proof (Hdead k t Hk) as H.
    destruct (task_at t); try contradiction; now repeat split.
  - destruct (nth_error (pipelines s) k) as [t|] eqn:Hk; [|now repeat split].
    pose proof (Hdead k t Hk) as H.
    destruct (task_at t); try contradiction; now repeat split.
  - destruct (nth_error (pipelines s) k) as [t|] eqn:Hk; [|now repeat split].
    pose proof (Hdead k t Hk) as H.
    destruct (task_at t); try contradiction; now repeat split.
  - pose proof (call_calm c (world s)) as Hc.
    unfold wedged. cbn [with_world world starting pipelines].
    split; [split; [|now split]|].
    + rewrite isRunning_step in *. now rewrite (calm_step _ _ Hc).
    + now rewrite (calm_db _ _ Hc).
  - destruct (nth_error _ j) as [t|]; [|now repeat split].
    destruct (scheduled t); [|now repeat split].
    rewrite Hstart. now repeat split.
  - destruct (updateSchedulerConfig_runs validate enabled0 cronExpr0 reply
                (world s)) as (H1 & _ & _ & H4).
    unfold wedged. cbn [with_world world starting pipelines].
    split; [split; [|now split]|exact H1].
    rewrite isRunning_step in *. now rewrite H4.
Qed.

Lemma wedged_run_events validate evs s :
  wedged s ->
  wedged (run_events validate evs s)
  /\ scraperRun (db (world (run_events validate evs s)))
     = scraperRun (db (world s)).
Proof.
  revert s. induction evs as [|ev evs IH]; intros s H; simpl; [now split|].
  destruct (wedged_step validate ev s H) as [H1 H2].
  destruct (IH _ H1) as [H3 H4]. split; [assumption|congruence].
Qed.

(** X25: a run that does not end regularly blocks the service for good.
    When an execution of [runFullPipeline] does not come to the end of
    [finally] (the last update is rejected, a subscriber throws on one of the
    last two events, or the promise of a child is never resolved), the step
    is left at a value other than [IDLE].  From then on, with no other
    start or pipeline under way, nothing brings it back: whatever calls,
    cron ticks and configurations follow, [isRunning()] stays true, every
    [startScraper] is rejected as 'already running', and no run is created
    any more. *)
Theorem cut_short_run_blocks_service (validate : string -> bool)
  (runId0 : Z) (scraperPath : string) (sc : Script) (w : World) :
  let p := runFullPipeline runId0 scraperPath sc w in
  fst p <> Settled (Normal tt) ->
  isRunning (snd p) = true
  /\ forall s evs trig,
       world s = snd p -> starting s = [] -> live_pipelines s = [] ->
       let s' := run_events validate evs s in
       isRunning (world s') = true
       /\ startScraper_enter (world s')
          = Some {| runId := -1;
                    error := Some ("Pipeline is already running (step: "
                      ++ Step.to_string (getCurrentStep (world s'))
                      ++ ")")%string |}
       /\ step validate (StartRequest trig) s' = s'
       /\ scraperRun (db (world s')) = scraperRun (db (snd p)).
Proof.
  intros p Hp.
  assert (busy p) as Hb.
  { subst p. unfold runFullPipeline, drive.
    generalize 6%nat. intros n. induction n as [|n IH]; simpl.
    - apply pipeline_enter_busy.
    - now apply advance_busy. }
  assert (isRunning (snd p) = true) as Hr.
  { unfold busy in Hb. destruct (fst p) as [| | | |[[]|e]]; trivial.
    now contradiction Hp. }
  split; [exact Hr|].
  intros s evs trig Hw Hs Hl s'.
  assert (wedged s) as H0 by (unfold wedged; now rewrite Hw).
  destruct (wedged_run_events validate evs s H0) as [(H1 & H2 & H3) H4].
  fold s' in H1, H2, H3, H4.
  split; [exact H1|]. split; [|split].
  - unfold startScraper_enter, getCurrentStep. now rewrite H1.
  - cbn [step]. unfold start_request, startScraper_enter. now rewrite H1.
  - now rewrite H4, Hw.
Qed.

(** The store stays unreachable through a run; afterwards a stop, a
    configuration, a cron tick and a manual start arrive. *)
Lemma cut_short_run_blocks_service_witness :
  let validate := fun s => String.eqb s default_cronExpr in
  let w := startScheduler validate default_cronExpr (fresh_world
    {| scraperRun := [{| id := 1; status := Status.RUNNING;
                         triggerType := MANUAL; startedAt := 0;
                         completedAt := None; output := None;
                         errorMessage := None; sellersProcessed := 0;
                         productsScraped := 0 |}];
       nextId := 2; schedulerConfig := None |} 5 "/srv/gpt") in
  let quiet := {| events := []; ending := Close (Some 0) |} in
  let down := Rejects (ErrorObject "Can't reach database server") in
  let sc := {| scrape_trace := quiet;
               enrich_update := ([], down); enrich_trace := quiet;
               process_update := ([], down); process_trace := quiet;
               final_update := ([], down) |} in
  let p := runFullPipeline 1 "/srv/gpt" sc w in
  let s' := run_events validate
              [Request CallStop; CronFires 0; StartRequest MANUAL]
              (initial_system (snd p)) in
  fst p = Settled (Throw (ErrorObject "Can't reach database server"))
  /\ isRunning (world s') = true
  /\ List.length (scraperRun (db (world s'))) = 1%nat.
Proof.
  intros validate w quiet down sc p s'. split; [reflexivity|].
  destruct (cut_short_run_blocks_service validate 1 "/srv/gpt" sc w)
    as [_ H].
  - discriminate.
  - destruct (H (initial_system (snd p))
                [Request CallStop; CronFires 0; StartRequest MANUAL] MANUAL
                eq_refl eq_refl eq_refl) as (H1 & _ & _ & H4).
    fold s' in H1, H4. split; [exact H1|]. now rewrite H4.
Defined.

(** ** The authentication marker *)

(** X26: the scraper is taken to ask for authentication exactly when its
    output holds ["QR code"].  The check made after stage 1 tests for
    ["scan QR code"] and for ["QR code"]; the first test adds nothing to the
    second, and the check is that of one substring, with the capitals as
    written, anywhere in the joined output of both streams, the
    ["[ERROR] "] prefixes included. *)
Theorem authentication_marker_is_QR_code (s : string) :
  (auth_required s = true <-> exists a b, s = (a ++ "QR code" ++ b)%string)
  /\ auth_required s = Text.includes "QR code" s
  /\ (Text.includes "scan QR code" s = true ->
      Text.includes "QR code" s = true).
Proof.
  assert (Text.includes "scan QR code" s = true ->
          Text.includes "QR code" s = true) as H.
  { rewrite !includes_iff. intros (a & b & ->).
    exists (a ++ "scan ")%string, b. now rewrite append_assoc_s. }
  split; [|split; [|exact H]].
  - unfold auth_required. rewrite orb_true_iff, <- includes_iff. tauto.
  - unfold auth_required.
    destruct (Text.includes "scan QR code" s) eqn:E; [|reflexivity].
    now rewrite (H eq_refl).
Qed.
